(** * go-browser: HTML tree builder, CSS cascade, value system, box model
      and flexbox, embedded in Rocq.

    Conventions of the embedding.

    - A Go [string] is a sequence of bytes: it is a Rocq [string], whose
      characters are the 256 values of [ascii].  Indices and lengths are
      [nat]; every index of the code is bounded by the length of a string,
      so no machine integer wraps.
    - A pointer [*Node] is an index into a store of nodes ([list Node]);
      [nil] is [None].
    - [float64] is a carrier [F] with the operations of the class
      [Float64]: the instance [Q_float] reads them as exact rational
      arithmetic (no rounding, no overflow, no NaN), the instance
      [prim_float] as the binary64 operations of the kernel.
    - Functions of Go's standard library whose result depends on Unicode
      tables or on number syntax ([strings.ToLower], [strings.TrimSpace],
      [strings.Fields], [strings.EqualFold], [strconv.Atoi],
      [strconv.ParseFloat], float to integer conversion) are fields of
      the classes [GoStrings] and [GoNum]; [ascii_strings] implements
      them for ASCII text and is used to run the code on examples. *)

From stdpp Require Import base option list gmap strings sorting.
From Stdlib Require Import ZArith QArith Qround Lqa Lia Permutation.
From Stdlib Require Import Floats Uint63.
From Stdlib Require Import Ascii.
From Stdlib Require String.

Abbreviation EmptyString := String.EmptyString.
Abbreviation String := String.String.

Local Open Scope string_scope.
Local Open Scope nat_scope.
Local Open Scope list_scope.

(** ** Byte-level functions of package [strings] *)

Module GoStr.

Definition len (s : string) : nat := String.length s.

(** [s[i:j]] for [i <= j <= len s]. *)
Definition slice (s : string) (i j : nat) : string := String.substring i (j - i) s.

(** [s[i:]]. *)
Definition from (s : string) (i : nat) : string := String.substring i (len s - i) s.

Definition byteAt (s : string) (i : nat) : option ascii := String.get i s.

Definition HasPrefix (s p : string) : bool := String.prefix p s.

Definition HasSuffix (s p : string) : bool :=
  (len p <=? len s) && String.eqb (from s (len s - len p)) p.

Definition TrimPrefix (s p : string) : string :=
  if HasPrefix s p then from s (len p) else s.

Definition TrimSuffix (s p : string) : string :=
  if HasSuffix s p then slice s 0 (len s - len p) else s.

(** [strings.Index]: the first position of [sub] in [s] ([None] for -1). *)
Fixpoint Index (s sub : string) : option nat :=
  if String.prefix sub s then Some 0
  else match s with
       | EmptyString => None
       | String _ s' => S <$> Index s' sub
       end.

Definition Contains (s sub : string) : bool :=
  match Index s sub with Some _ => true | None => false end.

(** [strings.Split] for a separator of one byte. *)
Fixpoint Split (s : string) (sep : ascii) : list string :=
  match s with
  | EmptyString => [EmptyString]
  | String c s' =>
      if Ascii.eqb c sep then EmptyString :: Split s' sep
      else match Split s' sep with
           | h :: t => String c h :: t
           | [] => [String c EmptyString]
           end
  end.

(** [strings.ReplaceAll] of one byte by another. *)
Fixpoint ReplaceAll (s : string) (old new : ascii) : string :=
  match s with
  | EmptyString => EmptyString
  | String c s' => String (if Ascii.eqb c old then new else c) (ReplaceAll s' old new)
  end.

Definition inCutset (cutset : string) (c : ascii) : bool :=
  match Index cutset (String c EmptyString) with Some _ => true | None => false end.

Fixpoint trimLeft (cutset s : string) : string :=
  match s with
  | EmptyString => EmptyString
  | String c s' => if inCutset cutset c then trimLeft cutset s' else s
  end.

(** [strings.Trim] for a cutset of ASCII bytes. *)
Definition Trim (s cutset : string) : string :=
  String.rev (trimLeft cutset (String.rev (trimLeft cutset s))).

End GoStr.

(** ** Library functions that depend on Unicode or on number syntax *)

Class GoStrings := {
  ToLower : string -> string;
  TrimSpace : string -> string;
  Fields : string -> list string;
  EqualFold : string -> string -> bool;
  (** [strconv.Atoi]: [None] when it returns an error. *)
  Atoi : string -> option Z
}.

Module Ascii7.

Definition lowerByte (c : ascii) : ascii :=
  let n := nat_of_ascii c in
  if (65 <=? n) && (n <=? 90) then ascii_of_nat (n + 32) else c.

Fixpoint toLower (s : string) : string :=
  match s with
  | EmptyString => EmptyString
  | String c s' => String (lowerByte c) (toLower s')
  end.

(** The ASCII bytes of Go's [unicode.IsSpace]: tab, LF, VT, FF, CR, space. *)
Definition isSpace (c : ascii) : bool :=
  let n := nat_of_ascii c in
  ((9 <=? n) && (n <=? 13)) || (n =? 32).

Fixpoint trimLeftSpace (s : string) : string :=
  match s with
  | EmptyString => EmptyString
  | String c s' => if isSpace c then trimLeftSpace s' else s
  end.

Definition trimSpace (s : string) : string :=
  String.rev (trimLeftSpace (String.rev (trimLeftSpace s))).

(** [cur] is the field being read, reversed. *)
Fixpoint fieldsGo (cur : option string) (s : string) : list string :=
  match s with
  | EmptyString => match cur with Some w => [String.rev w] | None => [] end
  | String c s' =>
      if isSpace c then
        match cur with
        | Some w => String.rev w :: fieldsGo None s'
        | None => fieldsGo None s'
        end
      else fieldsGo (Some (String c (default EmptyString cur))) s'
  end.

Definition fields (s : string) : list string := fieldsGo None s.

Definition equalFold (s t : string) : bool := String.eqb (toLower s) (toLower t).

Definition digit (c : ascii) : option Z :=
  let n := nat_of_ascii c in
  if (48 <=? n) && (n <=? 57) then Some (Z.of_nat (n - 48)) else None.

Fixpoint digits (acc : Z) (s : string) : option Z :=
  match s with
  | EmptyString => Some acc
  | String c s' => match digit c with
                   | Some d => digits (10 * acc + d) s'
                   | None => None
                   end
  end.

(** Decimal integers with an optional sign. *)
Definition atoi (s : string) : option Z :=
  match s with
  | EmptyString => None
  | String "-"%char (String _ _ as r) => Z.opp <$> digits 0 r
  | String "+"%char (String _ _ as r) => digits 0 r
  | _ => digits 0 s
  end.

End Ascii7.

Definition ascii_strings : GoStrings := {|
  ToLower := Ascii7.toLower;
  TrimSpace := Ascii7.trimSpace;
  Fields := Ascii7.fields;
  EqualFold := Ascii7.equalFold;
  Atoi := Ascii7.atoi
|}.

(** ** [float64] *)

Declare Scope f64_scope.
Delimit Scope f64_scope with f64.

Class Float64 (F : Type) := {
  fadd : F -> F -> F;
  fsub : F -> F -> F;
  fmul : F -> F -> F;
  fdiv : F -> F -> F;
  (** [x < y] and [x == y] of Go. *)
  flt : F -> F -> bool;
  feq : F -> F -> bool;
  (** An integer constant. *)
  fofZ : Z -> F;
  (** [strconv.ParseFloat(s, 64)]: the value, and whether the error is nil. *)
  ParseFloat : string -> F * bool;
  (** The conversions [uint8(x)] and [int(x)]. *)
  toUint8 : F -> Z;
  toInt : F -> Z
}.

Infix "+" := fadd : f64_scope.
Infix "-" := fsub : f64_scope.
Infix "*" := fmul : f64_scope.
Infix "/" := fdiv : f64_scope.
Notation "x <? y" := (flt x y) : f64_scope.
Notation "x >? y" := (flt y x) : f64_scope.
Notation "x =? y" := (feq x y) : f64_scope.
Notation "x !=? y" := (negb (feq x y)) (at level 70) : f64_scope.

(** A decimal constant of the source, such as [2.54] = [fdec 254 100]. *)
Definition fdec `{Float64 F} (n d : Z) : F := (fofZ n / fofZ d)%f64.

Module Decimal.

(** [digits[.digits]] with an optional sign, as a numerator and the
    number of digits after the point. *)
Fixpoint frac (acc : Z) (k : nat) (s : string) : option (Z * nat) :=
  match s with
  | EmptyString => Some (acc, k)
  | String c s' => match Ascii7.digit c with
                   | Some d => frac (10 * acc + d) (S k) s'
                   | None => None
                   end
  end.

Fixpoint unsigned (acc : Z) (seen : bool) (s : string) : option (Z * nat) :=
  match s with
  | EmptyString => if seen then Some (acc, 0) else None
  | String c s' =>
      if Ascii.eqb c "."%char then
        match s' with
        | EmptyString => if seen then Some (acc, 0) else None
        | _ => frac acc 0 s'
        end
      else match Ascii7.digit c with
           | Some d => unsigned (10 * acc + d) true s'
           | None => None
           end
  end.

Definition parse (s : string) : option (Z * nat) :=
  match s with
  | String "-"%char r => (fun '(n, k) => (Z.opp n, k)) <$> unsigned 0 false r
  | String "+"%char r => unsigned 0 false r
  | _ => unsigned 0 false s
  end.

End Decimal.

(** Exact rational arithmetic. *)
Definition Qltb (x y : Q) : bool := negb (Qle_bool y x).

(** Truncation toward zero. *)
Definition Qtrunc (x : Q) : Z := Z.quot (Qnum x) (Z.pos (Qden x)).

Definition Q_float : Float64 Q := {|
  fadd := Qplus; fsub := Qminus; fmul := Qmult; fdiv := Qdiv;
  flt := Qltb; feq := Qeq_bool;
  fofZ := inject_Z;
  ParseFloat s :=
    match Decimal.parse s with
    | Some (n, k) => (Qred (inject_Z n / inject_Z (10 ^ Z.of_nat k)), true)
    | None => (0%Q, false)
    end;
  toUint8 x := (Qtrunc x mod 256)%Z;
  toInt := Qtrunc
|}.

(** binary64. *)
Definition float_of_Z (z : Z) : float :=
  match z with
  | Z0 => PrimFloat.zero
  | Zpos _ => PrimFloat.of_uint63 (Uint63.of_Z z)
  | Zneg p => PrimFloat.opp (PrimFloat.of_uint63 (Uint63.of_Z (Z.pos p)))
  end.

Definition float_trunc (x : float) : Z :=
  match Prim2SF x with
  | S754_finite s m e =>
      let a := match e with
               | Z0 => Z.pos m
               | Zpos _ => (Z.pos m * 2 ^ e)%Z
               | Zneg k => (Z.pos m / 2 ^ Z.pos k)%Z
               end in
      if s then Z.opp a else a
  | _ => 0%Z
  end.

Definition prim_float : Float64 float := {|
  fadd := PrimFloat.add; fsub := PrimFloat.sub;
  fmul := PrimFloat.mul; fdiv := PrimFloat.div;
  flt := PrimFloat.ltb; feq := PrimFloat.eqb;
  fofZ := float_of_Z;
  ParseFloat s :=
    match Decimal.parse s with
    | Some (n, k) => (PrimFloat.div (float_of_Z n) (float_of_Z (10 ^ Z.of_nat k)), true)
    | None => (PrimFloat.zero, false)
    end;
  toUint8 x := (float_trunc x mod 256)%Z;
  toInt := float_trunc
|}.

(** ** Results of code that can panic or, in the model, run out of fuel *)

Inductive result (A : Type) : Type :=
| Ok (a : A)
| Panic
| OutOfFuel.
Arguments Ok {A} a.
Arguments Panic {A}.
Arguments OutOfFuel {A}.

Definition rbind {A B : Type} (r : result A) (k : A -> result B) : result B :=
  match r with
  | Ok a => k a
  | Panic => Panic
  | OutOfFuel => OutOfFuel
  end.

Global Instance result_bind : MBind result := fun A B k r => rbind r k.

Definition inList (s : string) (l : list string) : bool := existsb (String.eqb s) l.

(** [s[i:j]] as Go evaluates it: a panic unless [i <= j <= len(s)]. *)
Definition sliceR (s : string) (i j : nat) : result string :=
  if (i <=? j) && (j <=? GoStr.len s) then Ok (GoStr.slice s i j) else Panic.

(** [l[i]]: a panic when the index is out of range. *)
Definition indexR {T : Type} (l : list T) (i : nat) : result T :=
  match l !! i with Some x => Ok x | None => Panic end.

(** ** Package [dom]: nodes, tokenizer, tree builder *)

Module Dom.

Inductive NodeType := NodeDocument | NodeElement | NodeText.

Inductive DisplayMode := DisplayBlock | DisplayInline | DisplayNone.

(** [A] is the type behind the [interface{}] of field [ComputedStyle]. *)
Record Node (A : Type) := mkNode {
  NType : NodeType;
  Tag : string;
  Content : string;
  Children : list nat;
  Parent : option nat;
  Display : DisplayMode;
  Attributes : gmap string string;
  ComputedStyle : option A
}.
Arguments mkNode {A}.
Arguments NType {A}.
Arguments Tag {A}.
Arguments Content {A}.
Arguments Children {A}.
Arguments Parent {A}.
Arguments Display {A}.
Arguments Attributes {A}.
Arguments ComputedStyle {A}.

Abbreviation Store A := (list (Node A)).

Definition GetDefaultDisplay (tag : string) : DisplayMode :=
  if inList tag ["div"; "p"; "h1"; "h2"; "h3"; "h4"; "h5"; "h6"; "hr"; "table"; "tr"; "br"; "title";
                 "section"; "article"; "header"; "footer"; "nav"; "main"; "ul"; "ol"; "li"; "form";
                 "blockquote"; "pre"; "figure"; "figcaption"; "aside"]
  then DisplayBlock
  else if inList tag ["span"; "b"; "i"; "strong"; "em"; "a"; "td"; "th"; "img"; "label"; "small"; "sub"; "sup"]
  then DisplayInline
  else if inList tag ["head"; "script"; "style"; "svg"; "path"; "meta"; "link"]
  then DisplayNone
  else DisplayInline.

Section Nodes.
Context {A : Type}.

Definition NewElement (tag : string) : Node A :=
  mkNode NodeElement tag "" [] None (GetDefaultDisplay tag) ∅ None.

Definition NewText (content : string) : Node A :=
  mkNode NodeText "" content [] None DisplayInline ∅ None.

Definition setParent (n : Node A) (p : option nat) : Node A :=
  mkNode (NType n) (Tag n) (Content n) (Children n) p (Display n) (Attributes n) (ComputedStyle n).

Definition setChildren (n : Node A) (cs : list nat) : Node A :=
  mkNode (NType n) (Tag n) (Content n) cs (Parent n) (Display n) (Attributes n) (ComputedStyle n).

Definition setAttributes (n : Node A) (m : gmap string string) : Node A :=
  mkNode (NType n) (Tag n) (Content n) (Children n) (Parent n) (Display n) m (ComputedStyle n).

Definition setComputedStyle (n : Node A) (s : option A) : Node A :=
  mkNode (NType n) (Tag n) (Content n) (Children n) (Parent n) (Display n) (Attributes n) s.

(** A fresh node: the pointer to it is its index. *)
Definition alloc (h : Store A) (n : Node A) : Store A * nat := (h ++ [n], length h).

(** [n.AppendChild(child)]: [None] when a pointer is nil or dangling. *)
Definition AppendChild (h : Store A) (n child : nat) : option (Store A) :=
  c ← h !! child;
  let h1 := <[child := setParent c (Some n)]> h in
  pn ← h1 !! n;
  Some (<[n := setChildren pn (Children pn ++ [child])]> h1).

Definition GetAttr (n : Node A) (name : string) : string :=
  default "" (Attributes n !! name).

End Nodes.

(** *** [ParseAttributes]

    The pattern of [attrRegex] is: one or more word bytes (the name),
    optional blanks, an equals sign, optional blanks, a quote (single or
    double), any number of bytes that are not quotes (the value), a
    quote.  It has no choice to make: every repetition is followed by a
    byte outside its class, so the leftmost match at a position is the
    one that takes each run whole. *)

Definition isWord (c : ascii) : bool :=
  let n := nat_of_ascii c in
  ((48 <=? n) && (n <=? 57)) || ((65 <=? n) && (n <=? 90))
  || ((97 <=? n) && (n <=? 122)) || (n =? 95).

Definition isReSpace (c : ascii) : bool :=
  let n := nat_of_ascii c in
  (n =? 9) || (n =? 10) || (n =? 12) || (n =? 13) || (n =? 32).

Definition isQuote (c : ascii) : bool :=
  let n := nat_of_ascii c in (n =? 34) || (n =? 39).

(** The longest prefix of bytes satisfying [P], and the rest. *)
Fixpoint span (P : ascii -> bool) (s : string) : string * string :=
  match s with
  | EmptyString => (EmptyString, EmptyString)
  | String c s' =>
      if P c then let '(a, b) := span P s' in (String c a, b)
      else (EmptyString, s)
  end.

(** A match of the pattern at the start of [s]: name, value, rest. *)
Definition matchAttr (s : string) : option (string * string * string) :=
  let '(name, r1) := span isWord s in
  if String.eqb name "" then None
  else
    match (span isReSpace r1).2 with
    | String c r3 =>
        if Ascii.eqb c "="%char then
          match (span isReSpace r3).2 with
          | String q r5 =>
              if isQuote q then
                let '(val, r6) := span (fun c => negb (isQuote c)) r5 in
                match r6 with
                | String _ r7 => Some (name, val, r7)
                | EmptyString => None
                end
              else None
          | EmptyString => None
          end
        else None
    | EmptyString => None
    end.

(** [FindAllStringSubmatch]: the successive leftmost matches. *)
Fixpoint findAllAttrs (fuel : nat) (s : string) : list (string * string) :=
  match fuel with
  | 0 => []
  | S fuel' =>
      match s with
      | EmptyString => []
      | String _ s' =>
          match matchAttr s with
          | Some (name, val, rest) => (name, val) :: findAllAttrs fuel' rest
          | None => findAllAttrs fuel' s'
          end
      end
  end.

Definition ParseAttributes `{GoStrings} (tagContent : string) : gmap string string :=
  fold_left (fun attrs '(name, val) => <[ToLower name := val]> attrs)
            (findAllAttrs (GoStr.len tagContent) tagContent) ∅.

(** *** Tokenizer *)

Record Tokenizer := mkTokenizer { Raw : string; Pos : nat }.

Record Token := mkToken {
  tagName : string;
  fullTag : string;
  isTag : bool;
  isClose : bool
}.

Definition NewTokenizer (html : string) : Tokenizer := mkTokenizer html 0.

Definition HasMore (t : Tokenizer) : bool := Pos t <? GoStr.len (Raw t).

(** [i < len(s) && s[i] == c]. *)
Definition byteIs (s : string) (i : nat) (c : ascii) : bool :=
  match GoStr.byteAt s i with
  | Some d => Ascii.eqb d c
  | None => false
  end.

(** [for pos < len(s) && s[pos] != c { pos++ }]; [len s - pos] steps are enough. *)
Fixpoint scanTo (c : ascii) (s : string) (pos fuel : nat) : nat :=
  match fuel with
  | 0 => pos
  | S fuel' =>
      match GoStr.byteAt s pos with
      | Some d => if Ascii.eqb d c then pos else scanTo c s (S pos) fuel'
      | None => pos
      end
  end.

(** The loop that looks for the end of a comment. *)
Fixpoint skipComment (s : string) (pos fuel : nat) : result nat :=
  match fuel with
  | 0 => Ok pos
  | S fuel' =>
      if pos <? GoStr.len s then
        if pos + 2 <? GoStr.len s then
          three ← sliceR s pos (pos + 3);
          if String.eqb three "-->" then Ok (pos + 3)
          else skipComment s (S pos) fuel'
        else skipComment s (S pos) fuel'
      else Ok pos
  end.

(** [t.NextToken()]: the token and the tokenizer after the call.  An
    index expression [t.Raw[i]] of the source always stands behind the
    test [i < len(t.Raw)]: [byteIs] is the two together. *)
Definition NextToken `{GoStrings} (t : Tokenizer) : result (Token * Tokenizer) :=
  let raw := Raw t in
  let n := GoStr.len raw in
  let start := Pos t in
  if byteIs raw start "<" then
    let pos := S start in
    let close := byteIs raw pos "/" in
    let pos := if close then S pos else pos in
    if byteIs raw pos "!" then
      let declEnd := let p := scanTo ">" raw pos (n - pos) in
                     if p <? n then S p else p in
      pos' ← (if pos + 2 <? n then
                two ← sliceR raw pos (pos + 2);
                if String.eqb two "!-" then skipComment raw pos (n - pos)
                else Ok declEnd
              else Ok declEnd);
      Ok (mkToken "" "" false false, mkTokenizer raw pos')
    else
      let pos := scanTo ">" raw pos (n - pos) in
      let offset := if close then 2 else 1 in
      full ← (if start + offset <? pos then sliceR raw (start + offset) pos else Ok "");
      let pos' := if pos <? n then S pos else pos in
      let name := match Fields full with
                  | p0 :: _ => GoStr.TrimSuffix p0 "/"
                  | [] => ""
                  end in
      Ok (mkToken name full true close, mkTokenizer raw pos')
  else
    let pos := scanTo "<" raw start (n - start) in
    text ← sliceR raw start pos;
    Ok (mkToken text "" false false, mkTokenizer raw pos).

(** *** [ParseHTML] *)

Definition skipTags : list string := ["svg"; "noscript"; "template"].

Definition rawContentTags : list string := ["script"; "style"].

Definition voidElements : list string :=
  ["area"; "base"; "br"; "col"; "embed"; "hr"; "img"; "input"; "link"; "meta";
   "param"; "source"; "track"; "wbr"].

Section Parser.
Context {A : Type} `{GoStrings}.

(** The variables of [ParseHTML]: the nodes built so far, the insertion
    point [current] and the tokenizer.  The root is node 0. *)
Record PState := mkPState {
  heap : Store A;
  current : option nat;
  tok : Tokenizer
}.

(** [cur.AppendChild(n)] for a node [n] just created. *)
Definition appendNew (h : Store A) (cur : option nat) (n : Node A) : result (Store A * nat) :=
  match cur with
  | None => Panic
  | Some c =>
      let '(h1, id) := alloc h n in
      match AppendChild h1 c id with
      | Some h2 => Ok (h2, id)
      | None => Panic
      end
  end.

(** The walk of a closing tag up the chain of parents:
    [for p := current; p != nil && p.Parent != nil; p = p.Parent].
    The result is the new insertion point when an open element has the
    tag, and [None] when none has. *)
Fixpoint findOpen (h : Store A) (name : string) (p : option nat) (fuel : nat)
  : result (option nat) :=
  match fuel with
  | 0 => OutOfFuel
  | S fuel' =>
      match p with
      | None => Ok None
      | Some pid =>
          match h !! pid with
          | None => Panic
          | Some pn =>
              match Parent pn with
              | None => Ok None
              | Some par =>
                  if String.eqb (Tag pn) name then Ok (Some par)
                  else findOpen h name (Some par) fuel'
              end
          end
      end
  end.

(** The scan of a raw-content element for its closing tag: the position
    where the lower-cased text equals [closeTag], if there is one. *)
Fixpoint rawScan (raw closeTag : string) (pos fuel : nat) : result (option nat) :=
  match fuel with
  | 0 => Ok None
  | S fuel' =>
      if pos <? GoStr.len raw then
        if pos + GoStr.len closeTag <=? GoStr.len raw then
          window ← sliceR raw pos (pos + GoStr.len closeTag);
          if String.eqb (ToLower window) closeTag then Ok (Some pos)
          else rawScan raw closeTag (S pos) fuel'
        else rawScan raw closeTag (S pos) fuel'
      else Ok None
  end.

(** The loop that discards the content of a skipped element. *)
Fixpoint skipLoop (closeTag : string) (t : Tokenizer) (depth fuel : nat) : result Tokenizer :=
  match fuel with
  | 0 => OutOfFuel
  | S fuel' =>
      if HasMore t && (0 <? depth) then
        '(tk, t') ← NextToken t;
        depth' ← (if isTag tk then
                    remaining ← sliceR (Raw t') (Pos t' - GoStr.len closeTag - 5) (Pos t');
                    Ok (if isClose tk && GoStr.Contains (ToLower remaining) closeTag
                        then depth - 1 else depth)
                  else Ok depth);
        skipLoop closeTag t' depth' fuel'
      else Ok t
  end.

(** One turn of the loop [for tokenizer.HasMore()]. *)
Definition step (st : PState) : result PState :=
  let h := heap st in
  let cur := current st in
  '(tk, t') ← NextToken (tok st);
  let raw := Raw t' in
  let n := GoStr.len raw in
  if isTag tk then
    let name := ToLower (TrimSpace (tagName tk)) in
    if String.eqb name "" then Ok (mkPState h cur t')
    else
      let isSelfClosing := GoStr.HasSuffix (fullTag tk) "/" in
      if isClose tk then
        found ← findOpen h name cur (S (length h));
        Ok (mkPState h (match found with Some c => Some c | None => cur end) t')
      else if inList name rawContentTags then
        '(h1, id) ← appendNew h cur (setAttributes (NewElement name) (ParseAttributes (fullTag tk)));
        let closeTag := "</" +:+ name in
        let startPos := Pos t' in
        found ← rawScan raw closeTag startPos (n - startPos);
        match found with
        | Some p =>
            content ← sliceR raw startPos p;
            h2 ← (if String.eqb (TrimSpace content) "" then Ok h1
                  else '(h2, _) ← appendNew h1 (Some id) (NewText content); Ok h2);
            let q := scanTo ">" raw p (n - p) in
            Ok (mkPState h2 cur (mkTokenizer raw (if q <? n then S q else q)))
        | None => Ok (mkPState h1 cur (mkTokenizer raw (Nat.max startPos n)))
        end
      else if inList name skipTags then
        t'' ← skipLoop ("</" +:+ name) t' 1 (S (n - Pos t'));
        Ok (mkPState h cur t'')
      else if inList name voidElements || isSelfClosing then
        '(h1, _) ← appendNew h cur (setAttributes (NewElement name) (ParseAttributes (fullTag tk)));
        Ok (mkPState h1 cur t')
      else
        cur' ← (if (String.eqb name "p" || String.eqb name "li") then
                  match cur with
                  | None => Panic
                  | Some c =>
                      match h !! c with
                      | None => Panic
                      | Some cn => Ok (if String.eqb (Tag cn) name then Parent cn else cur)
                      end
                  end
                else Ok cur);
        '(h1, id) ← appendNew h cur' (setAttributes (NewElement name) (ParseAttributes (fullTag tk)));
        Ok (mkPState h1 (Some id) t')
  else
    let text := TrimSpace (tagName tk) in
    if 0 <? GoStr.len text then
      '(h1, _) ← appendNew h cur (NewText text);
      Ok (mkPState h1 cur t')
    else Ok (mkPState h cur t').

Fixpoint parseLoop (fuel : nat) (st : PState) : result PState :=
  if HasMore (tok st) then
    match fuel with
    | 0 => OutOfFuel
    | S fuel' => st' ← step st; parseLoop fuel' st'
    end
  else Ok st.

Definition initial (html : string) : PState :=
  mkPState [NewElement "root"] (Some 0) (NewTokenizer html).

(** The nodes of the tree; the root returned by the code is node 0. *)
Definition ParseHTML (html : string) : result (Store A) :=
  st ← parseLoop (GoStr.len html) (initial html);
  Ok (heap st).

(** What a test reads off a tree: kind, tag, text, children and parent
    of every node. *)
Definition outline (h : Store A) : list (NodeType * string * string * list nat * option nat) :=
  (fun n => (NType n, Tag n, Content n, Children n, Parent n)) <$> h.

End Parser.

End Dom.

(** ** The shape of a store of nodes *)

Module Tree.
Import Dom.

Section Tree.
Context {A : Type}.
Implicit Type h : Store A.

(** [p] is the parent pointer of node [c]. *)
Definition parentOf h (c p : nat) : Prop :=
  exists n, h !! c = Some n /\ Parent n = Some p.

(** A node whose parent pointer is set is listed exactly once among the
    children of that parent. *)
Definition listedOnce h : Prop :=
  forall c n p, h !! c = Some n -> Parent n = Some p ->
    exists pn, h !! p = Some pn /\ count_occ Nat.eq_dec (Children pn) c = 1.

(** No node is its own ancestor. *)
Definition acyclic h : Prop := forall c, ~ tc (parentOf h) c c.

(** The invariant of the tree builder: node 0 is the root, it has the
    tag [root] and no parent; every other node has a parent, created
    before it, that lists it once; children are nodes of the store. *)
Record wf h : Prop := mkWf {
  wf_root : exists r, h !! 0 = Some r /\ Tag r = "root" /\ Parent r = None;
  wf_parent : forall c n, h !! c = Some n -> c <> 0 -> exists p, Parent n = Some p;
  wf_listed : forall c n p, h !! c = Some n -> Parent n = Some p ->
      p < c /\ exists pn, h !! p = Some pn /\ count_occ Nat.eq_dec (Children pn) c = 1;
  wf_children : forall i n, h !! i = Some n -> Forall (fun c => c < length h) (Children n)
}.

(** The store after [pn.AppendChild(n)], for the node [pn] at [c] and a
    node [n] just created. *)
Definition grow h (c : nat) (pn n : Node A) : Store A :=
  <[c := setChildren pn (Children pn ++ [length h])]>
    (<[length h := setParent n (Some c)]> (h ++ [n])).

End Tree.

Section ParserInvariant.
Context {A : Type}.

(** The invariant of the loop of [ParseHTML]. *)
Record Inv (st : PState (A := A)) : Prop := mkInv {
  inv_wf : wf (heap st);
  inv_current : exists c, current st = Some c /\ c < length (heap st);
  inv_pos : Pos (tok st) <= GoStr.len (Raw (tok st))
}.

End ParserInvariant.

End Tree.

(** ** Package [css]: selectors, specificity, cascade *)

(** [sort.SliceStable]: the result is fixed by the contract of the
    library (sorted by [less], elements that [less] does not order keep
    their original order); inserting the elements from the right, each
    before the first element that is not less than it, computes it. *)
Module GoSort.

Section Sort.
Context {T : Type} (less : T -> T -> bool).

Fixpoint insert (x : T) (l : list T) : list T :=
  match l with
  | [] => [x]
  | y :: l' => if less y x then y :: insert x l' else x :: l
  end.

Definition SliceStable (l : list T) : list T := foldr insert [] l.

End Sort.

End GoSort.

Module Css.
Import Dom.

(** [color.RGBA]. *)
Module RGBA.
Record t := mk { R : Z; G : Z; B : Z; A : Z }.
End RGBA.

Module GradientStop.
Record t (F : Type) := mk { Color : RGBA.t; Position : F }.
End GradientStop.

Module Gradient.
Record t (F : Type) := mk { IsLinear : bool; Angle : F; Stops : list (GradientStop.t F) }.
End Gradient.

Module ComputedStyle.
Abbreviation RGBA := RGBA.t.
Abbreviation Gradient := Gradient.t.

Record t (F : Type) := mk {
  Display : string;
  Visibility : string;
  FlexDirection : string;
  JustifyContent : string;
  AlignItems : string;
  AlignContent : string;
  FlexWrap : string;
  Gap : F;
  RowGap : F;
  ColumnGap : F;
  FlexGrow : F;
  FlexShrink : F;
  FlexBasis : F;
  AlignSelf : string;
  Order : Z;
  GridTemplateColumns : string;
  GridTemplateRows : string;
  GridColumn : string;
  GridRow : string;
  GridColumnCount : Z;
  Color : RGBA;
  BackgroundColor : RGBA;
  BackgroundGradient : option (Gradient F);
  FontSize : F;
  FontWeight : Z;
  FontFamily : string;
  TextAlign : string;
  LineHeight : F;
  Width : F;
  Height : F;
  MinWidth : F;
  MinHeight : F;
  MaxWidth : F;
  MaxHeight : F;
  MarginTop : F;
  MarginRight : F;
  MarginBottom : F;
  MarginLeft : F;
  PaddingTop : F;
  PaddingRight : F;
  PaddingBottom : F;
  PaddingLeft : F;
  BorderTopWidth : F;
  BorderRightWidth : F;
  BorderBottomWidth : F;
  BorderLeftWidth : F;
  BorderColor : RGBA;
  BorderRadius : F;
  Position : string;
  Top : F;
  Right : F;
  Bottom : F;
  Left : F;
  ZIndex : Z
}.
Arguments Display {F}.
Arguments Visibility {F}.
Arguments FlexDirection {F}.
Arguments JustifyContent {F}.
Arguments AlignItems {F}.
Arguments AlignContent {F}.
Arguments FlexWrap {F}.
Arguments Gap {F}.
Arguments RowGap {F}.
Arguments ColumnGap {F}.
Arguments FlexGrow {F}.
Arguments FlexShrink {F}.
Arguments FlexBasis {F}.
Arguments AlignSelf {F}.
Arguments Order {F}.
Arguments GridTemplateColumns {F}.
Arguments GridTemplateRows {F}.
Arguments GridColumn {F}.
Arguments GridRow {F}.
Arguments GridColumnCount {F}.
Arguments Color {F}.
Arguments BackgroundColor {F}.
Arguments BackgroundGradient {F}.
Arguments FontSize {F}.
Arguments FontWeight {F}.
Arguments FontFamily {F}.
Arguments TextAlign {F}.
Arguments LineHeight {F}.
Arguments Width {F}.
Arguments Height {F}.
Arguments MinWidth {F}.
Arguments MinHeight {F}.
Arguments MaxWidth {F}.
Arguments MaxHeight {F}.
Arguments MarginTop {F}.
Arguments MarginRight {F}.
Arguments MarginBottom {F}.
Arguments MarginLeft {F}.
Arguments PaddingTop {F}.
Arguments PaddingRight {F}.
Arguments PaddingBottom {F}.
Arguments PaddingLeft {F}.
Arguments BorderTopWidth {F}.
Arguments BorderRightWidth {F}.
Arguments BorderBottomWidth {F}.
Arguments BorderLeftWidth {F}.
Arguments BorderColor {F}.
Arguments BorderRadius {F}.
Arguments Position {F}.
Arguments Top {F}.
Arguments Right {F}.
Arguments Bottom {F}.
Arguments Left {F}.
Arguments ZIndex {F}.
Arguments mk {F}.

Definition setDisplay {F : Type} (s : t F) (v : string) : t F :=
  mk v (Visibility s) (FlexDirection s) (JustifyContent s) (AlignItems s) (AlignContent s) (FlexWrap s) (Gap s) (RowGap s) (ColumnGap s) (FlexGrow s) (FlexShrink s) (FlexBasis s) (AlignSelf s) (Order s) (GridTemplateColumns s) (GridTemplateRows s) (GridColumn s) (GridRow s) (GridColumnCount s) (Color s) (BackgroundColor s) (BackgroundGradient s) (FontSize s) (FontWeight s) (FontFamily s) (TextAlign s) (LineHeight s) (Width s) (Height s) (MinWidth s) (MinHeight s) (MaxWidth s) (MaxHeight s) (MarginTop s) (MarginRight s) (MarginBottom s) (MarginLeft s) (PaddingTop s) (PaddingRight s) (PaddingBottom s) (PaddingLeft s) (BorderTopWidth s) (BorderRightWidth s) (BorderBottomWidth s) (BorderLeftWidth s) (BorderColor s) (BorderRadius s) (Position s) (Top s) (Right s) (Bottom s) (Left s) (ZIndex s).

Definition setColor {F : Type} (s : t F) (v : RGBA) : t F :=
  mk (Display s) (Visibility s) (FlexDirection s) (JustifyContent s) (AlignItems s) (AlignContent s) (FlexWrap s) (Gap s) (RowGap s) (ColumnGap s) (FlexGrow s) (FlexShrink s) (FlexBasis s) (AlignSelf s) (Order s) (GridTemplateColumns s) (GridTemplateRows s) (GridColumn s) (GridRow s) (GridColumnCount s) v (BackgroundColor s) (BackgroundGradient s) (FontSize s) (FontWeight s) (FontFamily s) (TextAlign s) (LineHeight s) (Width s) (Height s) (MinWidth s) (MinHeight s) (MaxWidth s) (MaxHeight s) (MarginTop s) (MarginRight s) (MarginBottom s) (MarginLeft s) (PaddingTop s) (PaddingRight s) (PaddingBottom s) (PaddingLeft s) (BorderTopWidth s) (BorderRightWidth s) (BorderBottomWidth s) (BorderLeftWidth s) (BorderColor s) (BorderRadius s) (Position s) (Top s) (Right s) (Bottom s) (Left s) (ZIndex s).

Definition setBackgroundColor {F : Type} (s : t F) (v : RGBA) : t F :=
  mk (Display s) (Visibility s) (FlexDirection s) (JustifyContent s) (AlignItems s) (AlignContent s) (FlexWrap s) (Gap s) (RowGap s) (ColumnGap s) (FlexGrow s) (FlexShrink s) (FlexBasis s) (AlignSelf s) (Order s) (GridTemplateColumns s) (GridTemplateRows s) (GridColumn s) (GridRow s) (GridColumnCount s) (Color s) v (BackgroundGradient s) (FontSize s) (FontWeight s) (FontFamily s) (TextAlign s) (LineHeight s) (Width s) (Height s) (MinWidth s) (MinHeight s) (MaxWidth s) (MaxHeight s) (MarginTop s) (MarginRight s) (MarginBottom s) (MarginLeft s) (PaddingTop s) (PaddingRight s) (PaddingBottom s) (PaddingLeft s) (BorderTopWidth s) (BorderRightWidth s) (BorderBottomWidth s) (BorderLeftWidth s) (BorderColor s) (BorderRadius s) (Position s) (Top s) (Right s) (Bottom s) (Left s) (ZIndex s).

Definition setFontSize {F : Type} (s : t F) (v : F) : t F :=
  mk (Display s) (Visibility s) (FlexDirection s) (JustifyContent s) (AlignItems s) (AlignContent s) (FlexWrap s) (Gap s) (RowGap s) (ColumnGap s) (FlexGrow s) (FlexShrink s) (FlexBasis s) (AlignSelf s) (Order s) (GridTemplateColumns s) (GridTemplateRows s) (GridColumn s) (GridRow s) (GridColumnCount s) (Color s) (BackgroundColor s) (BackgroundGradient s) v (FontWeight s) (FontFamily s) (TextAlign s) (LineHeight s) (Width s) (Height s) (MinWidth s) (MinHeight s) (MaxWidth s) (MaxHeight s) (MarginTop s) (MarginRight s) (MarginBottom s) (MarginLeft s) (PaddingTop s) (PaddingRight s) (PaddingBottom s) (PaddingLeft s) (BorderTopWidth s) (BorderRightWidth s) (BorderBottomWidth s) (BorderLeftWidth s) (BorderColor s) (BorderRadius s) (Position s) (Top s) (Right s) (Bottom s) (Left s) (ZIndex s).

Definition setFontWeight {F : Type} (s : t F) (v : Z) : t F :=
  mk (Display s) (Visibility s) (FlexDirection s) (JustifyContent s) (AlignItems s) (AlignContent s) (FlexWrap s) (Gap s) (RowGap s) (ColumnGap s) (FlexGrow s) (FlexShrink s) (FlexBasis s) (AlignSelf s) (Order s) (GridTemplateColumns s) (GridTemplateRows s) (GridColumn s) (GridRow s) (GridColumnCount s) (Color s) (BackgroundColor s) (BackgroundGradient s) (FontSize s) v (FontFamily s) (TextAlign s) (LineHeight s) (Width s) (Height s) (MinWidth s) (MinHeight s) (MaxWidth s) (MaxHeight s) (MarginTop s) (MarginRight s) (MarginBottom s) (MarginLeft s) (PaddingTop s) (PaddingRight s) (PaddingBottom s) (PaddingLeft s) (BorderTopWidth s) (BorderRightWidth s) (BorderBottomWidth s) (BorderLeftWidth s) (BorderColor s) (BorderRadius s) (Position s) (Top s) (Right s) (Bottom s) (Left s) (ZIndex s).

Definition setMarginTop {F : Type} (s : t F) (v : F) : t F :=
  mk (Display s) (Visibility s) (FlexDirection s) (JustifyContent s) (AlignItems s) (AlignContent s) (FlexWrap s) (Gap s) (RowGap s) (ColumnGap s) (FlexGrow s) (FlexShrink s) (FlexBasis s) (AlignSelf s) (Order s) (GridTemplateColumns s) (GridTemplateRows s) (GridColumn s) (GridRow s) (GridColumnCount s) (Color s) (BackgroundColor s) (BackgroundGradient s) (FontSize s) (FontWeight s) (FontFamily s) (TextAlign s) (LineHeight s) (Width s) (Height s) (MinWidth s) (MinHeight s) (MaxWidth s) (MaxHeight s) v (MarginRight s) (MarginBottom s) (MarginLeft s) (PaddingTop s) (PaddingRight s) (PaddingBottom s) (PaddingLeft s) (BorderTopWidth s) (BorderRightWidth s) (BorderBottomWidth s) (BorderLeftWidth s) (BorderColor s) (BorderRadius s) (Position s) (Top s) (Right s) (Bottom s) (Left s) (ZIndex s).

Definition setMarginBottom {F : Type} (s : t F) (v : F) : t F :=
  mk (Display s) (Visibility s) (FlexDirection s) (JustifyContent s) (AlignItems s) (AlignContent s) (FlexWrap s) (Gap s) (RowGap s) (ColumnGap s) (FlexGrow s) (FlexShrink s) (FlexBasis s) (AlignSelf s) (Order s) (GridTemplateColumns s) (GridTemplateRows s) (GridColumn s) (GridRow s) (GridColumnCount s) (Color s) (BackgroundColor s) (BackgroundGradient s) (FontSize s) (FontWeight s) (FontFamily s) (TextAlign s) (LineHeight s) (Width s) (Height s) (MinWidth s) (MinHeight s) (MaxWidth s) (MaxHeight s) (MarginTop s) (MarginRight s) v (MarginLeft s) (PaddingTop s) (PaddingRight s) (PaddingBottom s) (PaddingLeft s) (BorderTopWidth s) (BorderRightWidth s) (BorderBottomWidth s) (BorderLeftWidth s) (BorderColor s) (BorderRadius s) (Position s) (Top s) (Right s) (Bottom s) (Left s) (ZIndex s).

Definition setPaddingTop {F : Type} (s : t F) (v : F) : t F :=
  mk (Display s) (Visibility s) (FlexDirection s) (JustifyContent s) (AlignItems s) (AlignContent s) (FlexWrap s) (Gap s) (RowGap s) (ColumnGap s) (FlexGrow s) (FlexShrink s) (FlexBasis s) (AlignSelf s) (Order s) (GridTemplateColumns s) (GridTemplateRows s) (GridColumn s) (GridRow s) (GridColumnCount s) (Color s) (BackgroundColor s) (BackgroundGradient s) (FontSize s) (FontWeight s) (FontFamily s) (TextAlign s) (LineHeight s) (Width s) (Height s) (MinWidth s) (MinHeight s) (MaxWidth s) (MaxHeight s) (MarginTop s) (MarginRight s) (MarginBottom s) (MarginLeft s) v (PaddingRight s) (PaddingBottom s) (PaddingLeft s) (BorderTopWidth s) (BorderRightWidth s) (BorderBottomWidth s) (BorderLeftWidth s) (BorderColor s) (BorderRadius s) (Position s) (Top s) (Right s) (Bottom s) (Left s) (ZIndex s).

Definition setPaddingRight {F : Type} (s : t F) (v : F) : t F :=
  mk (Display s) (Visibility s) (FlexDirection s) (JustifyContent s) (AlignItems s) (AlignContent s) (FlexWrap s) (Gap s) (RowGap s) (ColumnGap s) (FlexGrow s) (FlexShrink s) (FlexBasis s) (AlignSelf s) (Order s) (GridTemplateColumns s) (GridTemplateRows s) (GridColumn s) (GridRow s) (GridColumnCount s) (Color s) (BackgroundColor s) (BackgroundGradient s) (FontSize s) (FontWeight s) (FontFamily s) (TextAlign s) (LineHeight s) (Width s) (Height s) (MinWidth s) (MinHeight s) (MaxWidth s) (MaxHeight s) (MarginTop s) (MarginRight s) (MarginBottom s) (MarginLeft s) (PaddingTop s) v (PaddingBottom s) (PaddingLeft s) (BorderTopWidth s) (BorderRightWidth s) (BorderBottomWidth s) (BorderLeftWidth s) (BorderColor s) (BorderRadius s) (Position s) (Top s) (Right s) (Bottom s) (Left s) (ZIndex s).

Definition setPaddingBottom {F : Type} (s : t F) (v : F) : t F :=
  mk (Display s) (Visibility s) (FlexDirection s) (JustifyContent s) (AlignItems s) (AlignContent s) (FlexWrap s) (Gap s) (RowGap s) (ColumnGap s) (FlexGrow s) (FlexShrink s) (FlexBasis s) (AlignSelf s) (Order s) (GridTemplateColumns s) (GridTemplateRows s) (GridColumn s) (GridRow s) (GridColumnCount s) (Color s) (BackgroundColor s) (BackgroundGradient s) (FontSize s) (FontWeight s) (FontFamily s) (TextAlign s) (LineHeight s) (Width s) (Height s) (MinWidth s) (MinHeight s) (MaxWidth s) (MaxHeight s) (MarginTop s) (MarginRight s) (MarginBottom s) (MarginLeft s) (PaddingTop s) (PaddingRight s) v (PaddingLeft s) (BorderTopWidth s) (BorderRightWidth s) (BorderBottomWidth s) (BorderLeftWidth s) (BorderColor s) (BorderRadius s) (Position s) (Top s) (Right s) (Bottom s) (Left s) (ZIndex s).

Definition setPaddingLeft {F : Type} (s : t F) (v : F) : t F :=
  mk (Display s) (Visibility s) (FlexDirection s) (JustifyContent s) (AlignItems s) (AlignContent s) (FlexWrap s) (Gap s) (RowGap s) (ColumnGap s) (FlexGrow s) (FlexShrink s) (FlexBasis s) (AlignSelf s) (Order s) (GridTemplateColumns s) (GridTemplateRows s) (GridColumn s) (GridRow s) (GridColumnCount s) (Color s) (BackgroundColor s) (BackgroundGradient s) (FontSize s) (FontWeight s) (FontFamily s) (TextAlign s) (LineHeight s) (Width s) (Height s) (MinWidth s) (MinHeight s) (MaxWidth s) (MaxHeight s) (MarginTop s) (MarginRight s) (MarginBottom s) (MarginLeft s) (PaddingTop s) (PaddingRight s) (PaddingBottom s) v (BorderTopWidth s) (BorderRightWidth s) (BorderBottomWidth s) (BorderLeftWidth s) (BorderColor s) (BorderRadius s) (Position s) (Top s) (Right s) (Bottom s) (Left s) (ZIndex s).

Definition setBorderRadius {F : Type} (s : t F) (v : F) : t F :=
  mk (Display s) (Visibility s) (FlexDirection s) (JustifyContent s) (AlignItems s) (AlignContent s) (FlexWrap s) (Gap s) (RowGap s) (ColumnGap s) (FlexGrow s) (FlexShrink s) (FlexBasis s) (AlignSelf s) (Order s) (GridTemplateColumns s) (GridTemplateRows s) (GridColumn s) (GridRow s) (GridColumnCount s) (Color s) (BackgroundColor s) (BackgroundGradient s) (FontSize s) (FontWeight s) (FontFamily s) (TextAlign s) (LineHeight s) (Width s) (Height s) (MinWidth s) (MinHeight s) (MaxWidth s) (MaxHeight s) (MarginTop s) (MarginRight s) (MarginBottom s) (MarginLeft s) (PaddingTop s) (PaddingRight s) (PaddingBottom s) (PaddingLeft s) (BorderTopWidth s) (BorderRightWidth s) (BorderBottomWidth s) (BorderLeftWidth s) (BorderColor s) v (Position s) (Top s) (Right s) (Bottom s) (Left s) (ZIndex s).

Definition setTextAlign {F : Type} (s : t F) (v : string) : t F :=
  mk (Display s) (Visibility s) (FlexDirection s) (JustifyContent s) (AlignItems s) (AlignContent s) (FlexWrap s) (Gap s) (RowGap s) (ColumnGap s) (FlexGrow s) (FlexShrink s) (FlexBasis s) (AlignSelf s) (Order s) (GridTemplateColumns s) (GridTemplateRows s) (GridColumn s) (GridRow s) (GridColumnCount s) (Color s) (BackgroundColor s) (BackgroundGradient s) (FontSize s) (FontWeight s) (FontFamily s) v (LineHeight s) (Width s) (Height s) (MinWidth s) (MinHeight s) (MaxWidth s) (MaxHeight s) (MarginTop s) (MarginRight s) (MarginBottom s) (MarginLeft s) (PaddingTop s) (PaddingRight s) (PaddingBottom s) (PaddingLeft s) (BorderTopWidth s) (BorderRightWidth s) (BorderBottomWidth s) (BorderLeftWidth s) (BorderColor s) (BorderRadius s) (Position s) (Top s) (Right s) (Bottom s) (Left s) (ZIndex s).

Definition setFontFamily {F : Type} (s : t F) (v : string) : t F :=
  mk (Display s) (Visibility s) (FlexDirection s) (JustifyContent s) (AlignItems s) (AlignContent s) (FlexWrap s) (Gap s) (RowGap s) (ColumnGap s) (FlexGrow s) (FlexShrink s) (FlexBasis s) (AlignSelf s) (Order s) (GridTemplateColumns s) (GridTemplateRows s) (GridColumn s) (GridRow s) (GridColumnCount s) (Color s) (BackgroundColor s) (BackgroundGradient s) (FontSize s) (FontWeight s) v (TextAlign s) (LineHeight s) (Width s) (Height s) (MinWidth s) (MinHeight s) (MaxWidth s) (MaxHeight s) (MarginTop s) (MarginRight s) (MarginBottom s) (MarginLeft s) (PaddingTop s) (PaddingRight s) (PaddingBottom s) (PaddingLeft s) (BorderTopWidth s) (BorderRightWidth s) (BorderBottomWidth s) (BorderLeftWidth s) (BorderColor s) (BorderRadius s) (Position s) (Top s) (Right s) (Bottom s) (Left s) (ZIndex s).

Definition setLineHeight {F : Type} (s : t F) (v : F) : t F :=
  mk (Display s) (Visibility s) (FlexDirection s) (JustifyContent s) (AlignItems s) (AlignContent s) (FlexWrap s) (Gap s) (RowGap s) (ColumnGap s) (FlexGrow s) (FlexShrink s) (FlexBasis s) (AlignSelf s) (Order s) (GridTemplateColumns s) (GridTemplateRows s) (GridColumn s) (GridRow s) (GridColumnCount s) (Color s) (BackgroundColor s) (BackgroundGradient s) (FontSize s) (FontWeight s) (FontFamily s) (TextAlign s) v (Width s) (Height s) (MinWidth s) (MinHeight s) (MaxWidth s) (MaxHeight s) (MarginTop s) (MarginRight s) (MarginBottom s) (MarginLeft s) (PaddingTop s) (PaddingRight s) (PaddingBottom s) (PaddingLeft s) (BorderTopWidth s) (BorderRightWidth s) (BorderBottomWidth s) (BorderLeftWidth s) (BorderColor s) (BorderRadius s) (Position s) (Top s) (Right s) (Bottom s) (Left s) (ZIndex s).

Definition setVisibility {F : Type} (s : t F) (v : string) : t F :=
  mk (Display s) v (FlexDirection s) (JustifyContent s) (AlignItems s) (AlignContent s) (FlexWrap s) (Gap s) (RowGap s) (ColumnGap s) (FlexGrow s) (FlexShrink s) (FlexBasis s) (AlignSelf s) (Order s) (GridTemplateColumns s) (GridTemplateRows s) (GridColumn s) (GridRow s) (GridColumnCount s) (Color s) (BackgroundColor s) (BackgroundGradient s) (FontSize s) (FontWeight s) (FontFamily s) (TextAlign s) (LineHeight s) (Width s) (Height s) (MinWidth s) (MinHeight s) (MaxWidth s) (MaxHeight s) (MarginTop s) (MarginRight s) (MarginBottom s) (MarginLeft s) (PaddingTop s) (PaddingRight s) (PaddingBottom s) (PaddingLeft s) (BorderTopWidth s) (BorderRightWidth s) (BorderBottomWidth s) (BorderLeftWidth s) (BorderColor s) (BorderRadius s) (Position s) (Top s) (Right s) (Bottom s) (Left s) (ZIndex s).


End ComputedStyle.

Inductive SelectorType :=
| SelectorUniversal
| SelectorElement
| SelectorClass
| SelectorID
| SelectorAttribute
| SelectorDescendant
| SelectorChild
| SelectorAdjacent
| SelectorSibling.

#[warnings="-register-all"]
Inductive Selector := mkSelector {
  SType : SelectorType;
  Element : string;
  Class : string;
  ID : string;
  Attr : string;
  AttrVal : string;
  Parts : list Selector;
  PseudoClass : string;
  IsChild : bool
}.

(** [Selector{Type: ty}] with the other fields at their zero values. *)
Definition emptySelector (ty : SelectorType) : Selector :=
  mkSelector ty "" "" "" "" "" [] "" false.

Record Specificity := mkSpecificity {
  Inline : Z;
  IDs : Z;
  Classes : Z;
  Elements : Z
}.

Definition Compare (s other : Specificity) : Z :=
  if negb (Inline s =? Inline other)%Z then
    if (Inline other <? Inline s)%Z then 1 else (-1)
  else if negb (IDs s =? IDs other)%Z then
    if (IDs other <? IDs s)%Z then 1 else (-1)
  else if negb (Classes s =? Classes other)%Z then
    if (Classes other <? Classes s)%Z then 1 else (-1)
  else if negb (Elements s =? Elements other)%Z then
    if (Elements other <? Elements s)%Z then 1 else (-1)
  else 0.

(** The counts are sums of at most one unit for each simple selector, so
    no [int] wraps. *)
Fixpoint CalculateSpecificity (s : Selector) : Specificity :=
  match SType s with
  | SelectorID => mkSpecificity 0 1 0 0
  | SelectorClass | SelectorAttribute => mkSpecificity 0 0 1 0
  | SelectorElement =>
      mkSpecificity 0
        (if negb (String.eqb (ID s) "") then 1 else 0)
        (if negb (String.eqb (Class s) "") then 1 else 0)
        (if negb (String.eqb (Element s) "") && negb (String.eqb (Element s) "*") then 1 else 0)
  | SelectorDescendant =>
      fold_left (fun spec part =>
                   let partSpec := CalculateSpecificity part in
                   mkSpecificity (Inline spec)
                                 (IDs spec + IDs partSpec)
                                 (Classes spec + Classes partSpec)
                                 (Elements spec + Elements partSpec))
                (Parts s) (mkSpecificity 0 0 0 0)
  | _ => mkSpecificity 0 0 0 0
  end.

(** The cutset of [strings.Trim] in [parseSimpleSelector]: the double
    and the single quote. *)
Definition quotes : string := String (ascii_of_nat 34) (String (ascii_of_nat 39) EmptyString).

Section Parse.
Context `{GoStrings}.

Definition parseSimpleSelector (text : string) : Selector :=
  let text := TrimSpace text in
  let '(text, pseudoClass) :=
    match GoStr.Index text ":" with
    | Some idx => (GoStr.slice text 0 idx, GoStr.from text (idx + 1))
    | None => (text, "")
    end in
  if String.eqb text "*" || String.eqb text "" then
    mkSelector SelectorUniversal "*" "" "" "" "" [] pseudoClass false
  else if GoStr.HasPrefix text "#" then
    mkSelector SelectorID "" "" (GoStr.from text 1) "" "" [] pseudoClass false
  else if GoStr.HasPrefix text "." then
    mkSelector SelectorClass "" (GoStr.from text 1) "" "" "" [] pseudoClass false
  else
    match GoStr.Index text "." with
    | Some (S i) =>
        mkSelector SelectorElement (GoStr.slice text 0 (S i)) (GoStr.from text (S i + 1))
                   "" "" "" [] pseudoClass false
    | _ =>
        match GoStr.Index text "#" with
        | Some (S i) =>
            mkSelector SelectorElement (GoStr.slice text 0 (S i)) ""
                       (GoStr.from text (S i + 1)) "" "" [] pseudoClass false
        | _ =>
            if GoStr.HasPrefix text "[" && GoStr.HasSuffix text "]" then
              let content := GoStr.slice text 1 (GoStr.len text - 1) in
              match GoStr.Index content "=" with
              | Some eqIdx =>
                  mkSelector SelectorAttribute "" "" "" (GoStr.slice content 0 eqIdx)
                             (GoStr.Trim (GoStr.from content (eqIdx + 1)) quotes)
                             [] pseudoClass false
              | None =>
                  mkSelector SelectorAttribute "" "" "" content "" [] pseudoClass false
              end
            else
              mkSelector SelectorElement (ToLower text) "" "" "" "" [] pseudoClass false
        end
    end.

Definition ParseSelector (text : string) : Selector :=
  let text := TrimSpace text in
  let childParts :=
    if GoStr.Contains text ">" then
      omap (fun p => let p := TrimSpace p in
                     if String.eqb p "" then None else Some (parseSimpleSelector p))
           (GoStr.Split text ">")
    else [] in
  if 0 <? length childParts then
    mkSelector SelectorChild "" "" "" "" "" childParts "" true
  else
    let descParts :=
      if GoStr.Contains text " " && negb (GoStr.HasPrefix text ".")
         && negb (GoStr.HasPrefix text "#") then
        let parts := Fields text in
        if 1 <? length parts then
          omap (fun p => if String.eqb p "+" || String.eqb p "~" then None
                         else Some (parseSimpleSelector p))
               parts
        else []
      else [] in
    if 0 <? length descParts then
      mkSelector SelectorDescendant "" "" "" "" "" descParts "" false
    else parseSimpleSelector text.

(** [ParseSelectors]: a comma-separated list. *)
Definition ParseSelectors (text : string) : list Selector :=
  omap (fun part =>
          let part := TrimSpace part in
          if String.eqb part "" then None
          else let sel := ParseSelector part in
               match SType sel with
               | SelectorUniversal => if String.eqb (Element sel) "*" then Some sel else None
               | _ => Some sel
               end)
       (GoStr.Split text ",").

End Parse.

(** *** Selector matching *)

Section Matching.
Context {A : Type} `{GoStrings} (h : Store A).

Definition isElementNode (n : Node A) : bool :=
  match NType n with NodeElement => true | _ => false end.

(** [child.Type == dom.NodeElement] for a pointer to a child. *)
Definition isElement (id : nat) : bool :=
  match h !! id with Some n => isElementNode n | None => false end.

(** [node.Parent] for a pointer that is not nil. *)
Definition parentPtr (id : nat) : option nat := n ← h !! id; Parent n.

Definition nodeHasClass (n : Node A) (className : string) : bool :=
  let classAttr := GetAttr n "class" in
  if String.eqb classAttr "" then false
  else existsb (fun c => String.eqb c className) (Fields classAttr).

(** The loop of [first-child] (and, on the reversed list, of
    [last-child]): the first element among the children decides. *)
Fixpoint firstElementIs (children : list nat) (node : nat) : bool :=
  match children with
  | [] => false
  | child :: rest =>
      if isElement child then Nat.eqb child node else firstElementIs rest node
  end.

(** The loop of [only-child]. *)
Fixpoint onlyChildLoop (children : list nat) (count : Z) : bool :=
  match children with
  | [] => (count =? 1)%Z
  | child :: rest =>
      if isElement child then
        if (1 <? count + 1)%Z then false else onlyChildLoop rest (count + 1)
      else onlyChildLoop rest count
  end.

Fixpoint elementIndexLoop (children : list nat) (node : nat) (idx : Z) : Z :=
  match children with
  | [] => 0
  | child :: rest =>
      if isElement child then
        if Nat.eqb child node then (idx + 1)%Z else elementIndexLoop rest node (idx + 1)
      else elementIndexLoop rest node idx
  end.

Definition childrenOf (p : nat) : list nat :=
  match h !! p with Some pn => Children pn | None => [] end.

Definition getElementIndex (node : nat) : Z :=
  match parentPtr node with
  | None => 1
  | Some p => elementIndexLoop (childrenOf p) node 0
  end.

Definition matchesPseudoClass (node : nat) (pseudoClass : string) : bool :=
  match parentPtr node with
  | None => false
  | Some p =>
      if String.eqb pseudoClass "first-child" then firstElementIs (childrenOf p) node
      else if String.eqb pseudoClass "last-child" then firstElementIs (rev (childrenOf p)) node
      else if String.eqb pseudoClass "only-child" then onlyChildLoop (childrenOf p) 0
      else if GoStr.HasPrefix pseudoClass "nth-child" then
        let idx := getElementIndex node in
        let inner := GoStr.TrimSuffix (GoStr.TrimPrefix pseudoClass "nth-child(") ")" in
        if String.eqb inner "odd" then (Z.rem idx 2 =? 1)%Z
        else if String.eqb inner "even" then (Z.rem idx 2 =? 0)%Z
        else match Atoi inner with
             | Some n => (idx =? n)%Z
             | None => false
             end
      else if String.eqb pseudoClass "even" then (Z.rem (getElementIndex node) 2 =? 0)%Z
      else if String.eqb pseudoClass "odd" then (Z.rem (getElementIndex node) 2 =? 1)%Z
      else true
  end.

(** [s.Matches(node)].  For a combinator the parts are read from the
    last to the first; [chain] gives, after the parts of a suffix have
    matched, the node where the search for the part before goes on.
    The walk up the ancestors of a descendant selector takes at most as
    many steps as the store has nodes. *)
Fixpoint Matches (s : Selector) (node : option nat) {struct s} : bool :=
  match node with
  | None => false
  | Some id =>
      match h !! id with
      | None => false
      | Some n =>
          if negb (isElementNode n) then false
          else if negb (String.eqb (PseudoClass s) "")
                  && negb (matchesPseudoClass id (PseudoClass s)) then false
          else
            match SType s with
            | SelectorUniversal => true
            | SelectorElement =>
                let m := String.eqb (Element s) "" || EqualFold (Tag n) (Element s) in
                let m := if m && negb (String.eqb (Class s) "")
                         then nodeHasClass n (Class s) else m in
                if m && negb (String.eqb (ID s) "")
                then String.eqb (GetAttr n "id") (ID s) else m
            | SelectorClass => nodeHasClass n (Class s)
            | SelectorID => String.eqb (GetAttr n "id") (ID s)
            | SelectorAttribute =>
                let attrVal := GetAttr n (Attr s) in
                if negb (String.eqb (AttrVal s) "") then String.eqb attrVal (AttrVal s)
                else negb (String.eqb attrVal "")
            | SelectorChild =>
                let fix chain (ps : list Selector) : option (option nat) :=
                  match ps with
                  | [] => None
                  | p :: ps' =>
                      match ps' with
                      | [] => if Matches p node then Some (Parent n) else None
                      | _ :: _ =>
                          match chain ps' with
                          | Some (Some current) =>
                              if Matches p (Some current) then Some (parentPtr current)
                              else None
                          | _ => None
                          end
                      end
                  end in
                match chain (Parts s) with Some _ => true | None => false end
            | SelectorDescendant =>
                let fix chain (ps : list Selector) : option (option nat) :=
                  match ps with
                  | [] => None
                  | p :: ps' =>
                      match ps' with
                      | [] => if Matches p node then Some (Parent n) else None
                      | _ :: _ =>
                          match chain ps' with
                          | Some start =>
                              (fix search (current : option nat) (fuel : nat)
                                 : option (option nat) :=
                                 match fuel with
                                 | 0 => None
                                 | S fuel' =>
                                     match current with
                                     | None => None
                                     | Some c =>
                                         if Matches p (Some c) then Some (parentPtr c)
                                         else search (parentPtr c) fuel'
                                     end
                                 end) start (length h)
                          | None => None
                          end
                      end
                  end in
                match chain (Parts s) with Some _ => true | None => false end
            | _ => false
            end
      end
  end.

End Matching.
(** *** Declarations, rules, stylesheets *)

Module Declaration.
Record t := mk { Property : string; Value : string; Important : bool }.
End Declaration.

Module Rule.
Record t := mk { Selectors : list Selector; Declarations : list Declaration.t }.
End Rule.

Module Stylesheet.
Record t := mk { Rules : list Rule.t }.
End Stylesheet.

Module StyleEntry.
Record t := mk {
  Declarations : list Declaration.t;
  Specificity : Specificity;
  Order : Z;
  Important : bool
}.
End StyleEntry.

Section Inline.
Context `{GoStrings}.

(** One turn of the loop of [ParseInlineStyle]: the declaration of a
    part, or nothing when the loop continues. *)
Definition parseDeclaration (part : string) : option Declaration.t :=
  let part := TrimSpace part in
  if String.eqb part "" then None
  else
    match GoStr.Index part ":" with
    | None => None
    | Some colonIdx =>
        let property := TrimSpace (GoStr.slice part 0 colonIdx) in
        let value := TrimSpace (GoStr.from part (colonIdx + 1)) in
        if String.eqb property "" || String.eqb value "" then None
        else
          let important := GoStr.HasSuffix (ToLower value) "!important" in
          let value :=
            if important then
              TrimSpace (GoStr.TrimSuffix
                           (TrimSpace (GoStr.TrimSuffix value "!important")) "!IMPORTANT")
            else value in
          Some (Declaration.mk (ToLower property) value important)
    end.

Definition ParseInlineStyle (styleAttr : string) : list Declaration.t :=
  omap parseDeclaration (GoStr.Split styleAttr ";").

End Inline.

(** *** Computed styles *)

Definition InheritableProperties : list string :=
  ["color"; "font-family"; "font-size"; "font-weight"; "line-height"; "text-align"; "visibility"].

Section Styles.
Context {F : Type} `{Float64 F}.

Abbreviation Style := (ComputedStyle.t F).

Definition NewComputedStyle : Style :=
  let z := fofZ 0 in
  let black := RGBA.mk 0 0 0 255 in
  let none := RGBA.mk 0 0 0 0 in
  ComputedStyle.mk "inline" "visible" "" "" "" "" "" z z z z z z "" 0
    "" "" "" "" 0
    black none None
    (fofZ 16) 400 "sans-serif" "left" (fdec 12 10)
    z z z z z z
    z z z z
    z z z z
    z z z z none z
    "static" z z z z 0.

Definition heading (size margin : Z) : Style :=
  let s := ComputedStyle.setDisplay NewComputedStyle "block" in
  let s := ComputedStyle.setFontSize s (fofZ size) in
  let s := ComputedStyle.setFontWeight s 700 in
  let s := ComputedStyle.setMarginTop s (fofZ margin) in
  ComputedStyle.setMarginBottom s (fofZ margin).

Definition DefaultForTag (tag : string) : Style :=
  let style := NewComputedStyle in
  if inList tag ["div"; "section"; "article"; "header"; "footer"; "nav"; "main";
                 "ul"; "ol"; "li"; "form"; "table"; "tr"; "blockquote"; "pre"]
  then ComputedStyle.setDisplay style "block"
  else if String.eqb tag "h1" then heading 32 21
  else if String.eqb tag "h2" then heading 24 19
  else if String.eqb tag "h3" then heading 18 18
  else if inList tag ["h4"; "h5"; "h6"] then heading 16 16
  else if String.eqb tag "p" then
    let s := ComputedStyle.setDisplay style "block" in
    let s := ComputedStyle.setMarginTop s (fofZ 16) in
    ComputedStyle.setMarginBottom s (fofZ 16)
  else if String.eqb tag "a" then ComputedStyle.setColor style (RGBA.mk 0 0 238 255)
  else if inList tag ["b"; "strong"] then ComputedStyle.setFontWeight style 700
  else if inList tag ["i"; "em"] then style
  else if String.eqb tag "button" then
    let s := ComputedStyle.setDisplay style "inline-block" in
    let s := ComputedStyle.setPaddingTop s (fofZ 8) in
    let s := ComputedStyle.setPaddingBottom s (fofZ 8) in
    let s := ComputedStyle.setPaddingLeft s (fofZ 16) in
    let s := ComputedStyle.setPaddingRight s (fofZ 16) in
    let s := ComputedStyle.setBackgroundColor s (RGBA.mk 240 240 240 255) in
    ComputedStyle.setBorderRadius s (fofZ 4)
  else style.

(** [InheritFromParent(child, parent)] for two pointers that are not
    nil: the style of the child after the call. *)
Definition inherit (child parent : Style) : Style :=
  let child :=
    if (ComputedStyle.FontSize child =? fofZ 16)%f64
       && (ComputedStyle.FontSize parent !=? fofZ 16)%f64
    then ComputedStyle.setFontSize child (ComputedStyle.FontSize parent) else child in
  let child :=
    if (ComputedStyle.FontWeight child =? 400)%Z
       && negb (ComputedStyle.FontWeight parent =? 400)%Z
    then ComputedStyle.setFontWeight child (ComputedStyle.FontWeight parent) else child in
  ComputedStyle.setColor child (ComputedStyle.Color parent).

Definition InheritFromParent (child parent : option Style) : option Style :=
  match child, parent with
  | Some c, Some p => Some (inherit c p)
  | _, _ => child
  end.

(** *** The cascade *)

Section Cascade.
Context `{GoStrings}.

(** [ApplyProperty] (the switch over the property names, in parser.go)
    is a parameter: the entries that are collected and the order in
    which they are applied do not depend on what a declaration does to
    the style. *)
Variable ApplyProperty : Style -> string -> string -> Style.

Definition ApplyDeclarations (style : Style) (declarations : list Declaration.t) : Style :=
  fold_left (fun st decl => ApplyProperty st (Declaration.Property decl) (Declaration.Value decl))
            declarations style.

(** The variables [entries] and [order] of [ComputeStyles]. *)
Abbreviation Collected := (list StyleEntry.t * Z)%type.

Definition addEntry (spec : Specificity) (acc : Collected) (decl : Declaration.t) : Collected :=
  (acc.1 ++ [StyleEntry.mk [decl] spec acc.2 (Declaration.Important decl)], (acc.2 + 1)%Z).

Definition collectSelector (h : Store Style) (node : option nat) (rule : Rule.t)
    (acc : Collected) (selector : Selector) : Collected :=
  if Matches h selector node
  then fold_left (addEntry (CalculateSpecificity selector)) (Rule.Declarations rule) acc
  else acc.

Definition collectRule (h : Store Style) (node : option nat)
    (acc : Collected) (rule : Rule.t) : Collected :=
  fold_left (collectSelector h node rule) (Rule.Selectors rule) acc.

Definition collectSheet (h : Store Style) (node : option nat)
    (acc : Collected) (stylesheet : Stylesheet.t) : Collected :=
  fold_left (collectRule h node) (Stylesheet.Rules stylesheet) acc.

Definition collectSheets (h : Store Style) (node : option nat)
    (stylesheets : list Stylesheet.t) : Collected :=
  fold_left (collectSheet h node) stylesheets ([], 0%Z).

Definition collectInline (n : Node Style) (acc : Collected) : Collected :=
  let inlineStyle := GetAttr n "style" in
  if negb (String.eqb inlineStyle "")
  then fold_left (addEntry (mkSpecificity 1 0 0 0)) (ParseInlineStyle inlineStyle) acc
  else acc.

(** The function given to [sort.SliceStable]. *)
Definition less (a b : StyleEntry.t) : bool :=
  if negb (Bool.eqb (StyleEntry.Important a) (StyleEntry.Important b))
  then negb (StyleEntry.Important a)
  else
    let cmp := Compare (StyleEntry.Specificity a) (StyleEntry.Specificity b) in
    if negb (cmp =? 0)%Z then (cmp <? 0)%Z
    else (StyleEntry.Order a <? StyleEntry.Order b)%Z.

(** The entries of an element node, in the order in which
    [ComputeStyles] applies them. *)
Definition cascade (h : Store Style) (id : nat) (n : Node Style)
    (stylesheets : list Stylesheet.t) : list StyleEntry.t :=
  GoSort.SliceStable less (collectInline n (collectSheets h (Some id) stylesheets)).1.

Definition ComputeStyles (h : Store Style) (node : option nat)
    (stylesheets : list Stylesheet.t) : Style :=
  match node with
  | None => NewComputedStyle
  | Some id =>
      match h !! id with
      | None => NewComputedStyle
      | Some n =>
          if negb (isElementNode n) then NewComputedStyle
          else
            fold_left (fun style entry => ApplyDeclarations style (StyleEntry.Declarations entry))
                      (cascade h id n stylesheets) (DefaultForTag (Tag n))
      end
  end.

(** The body of [applyStylesRecursive] for one element: the style of
    the cascade is stored, then the inheritance pass runs when the
    parent has a style. *)
Definition styleNode (h : Store Style) (id : nat) (stylesheets : list Stylesheet.t)
  : Store Style :=
  match h !! id with
  | None => h
  | Some n =>
      if isElementNode n then
        let own := Some (ComputeStyles h (Some id) stylesheets) in
        let parentStyle := p ← Parent n; pn ← h !! p; ComputedStyle pn in
        <[id := setComputedStyle n (InheritFromParent own parentStyle)]> h
      else h
  end.

(** [applyStylesRecursive]: a node, then its children from left to
    right.  [fuel] bounds the depth of the recursion. *)
Fixpoint applyStylesRecursive (fuel : nat) (h : Store Style) (node : option nat)
    (stylesheets : list Stylesheet.t) : result (Store Style) :=
  match fuel with
  | 0 => OutOfFuel
  | S fuel' =>
      match node with
      | None => Ok h
      | Some id =>
          let h1 := styleNode h id stylesheets in
          fold_left (fun acc child =>
                       h2 ← acc; applyStylesRecursive fuel' h2 (Some child) stylesheets)
                    (childrenOf h1 id) (Ok h1)
      end
  end.

End Cascade.

End Styles.

End Css.

(** ** The cascade, as the specification words it *)

Module CascadeSpec.
Import Dom Css.

(** Specificities compared field by field: inline, ids, classes and
    attributes, types. *)
Definition specLt (s1 s2 : Specificity) : Prop :=
  (Inline s1 < Inline s2
   \/ (Inline s1 = Inline s2
       /\ (IDs s1 < IDs s2
           \/ (IDs s1 = IDs s2
               /\ (Classes s1 < Classes s2
                   \/ (Classes s1 = Classes s2 /\ Elements s1 < Elements s2))))))%Z.

(** [overrides b a]: the declaration of entry [b] wins over that of
    [a].  An important declaration wins over one that is not; with the
    same importance the higher specificity wins; with the same
    specificity too, the later in source order wins. *)
Definition overrides (b a : StyleEntry.t) : Prop :=
  (StyleEntry.Important b = true /\ StyleEntry.Important a = false)
  \/ (StyleEntry.Important a = StyleEntry.Important b
      /\ specLt (StyleEntry.Specificity a) (StyleEntry.Specificity b))
  \/ (StyleEntry.Important a = StyleEntry.Important b
      /\ StyleEntry.Specificity a = StyleEntry.Specificity b
      /\ (StyleEntry.Order a < StyleEntry.Order b)%Z).

(** The six numbers that [less] compares, in lexicographic order:
    importance, the four fields of the specificity, source order. *)
Definition keyLt (a b : StyleEntry.t) : Prop :=
  let sa := StyleEntry.Specificity a in
  let sb := StyleEntry.Specificity b in
  (Z.b2z (StyleEntry.Important a) < Z.b2z (StyleEntry.Important b)
   \/ (Z.b2z (StyleEntry.Important a) = Z.b2z (StyleEntry.Important b)
       /\ (Inline sa < Inline sb
           \/ (Inline sa = Inline sb
               /\ (IDs sa < IDs sb
                   \/ (IDs sa = IDs sb
                       /\ (Classes sa < Classes sb
                           \/ (Classes sa = Classes sb
                               /\ (Elements sa < Elements sb
                                   \/ (Elements sa = Elements sb
                                       /\ StyleEntry.Order a < StyleEntry.Order b))))))))))%Z.

(** [appliedBefore a b l]: [a] stands before [b] in [l]. *)
Definition appliedBefore {T : Type} (a b : T) (l : list T) : Prop :=
  exists l1 l2 l3, l = l1 ++ a :: l2 ++ b :: l3.

Section Collected.
Context {F : Type} `{Float64 F} `{GoStrings}.

(** The declarations of the stylesheets whose selector matches the
    node, each with the specificity of that selector, in source order. *)
Definition matchingDeclarations (h : Store (ComputedStyle.t F)) (node : option nat)
    (stylesheets : list Stylesheet.t) : list (Specificity * Declaration.t) :=
  stylesheet ← stylesheets;
  rule ← Stylesheet.Rules stylesheet;
  selector ← Rule.Selectors rule;
  if Matches h selector node
  then (fun decl => (CalculateSpecificity selector, decl)) <$> Rule.Declarations rule
  else [].

(** The declarations of the [style] attribute, at the inline tier. *)
Definition inlineDeclarations (n : Node (ComputedStyle.t F)) : list (Specificity * Declaration.t) :=
  if String.eqb (GetAttr n "style") "" then []
  else (fun decl => (mkSpecificity 1 0 0 0, decl)) <$> ParseInlineStyle (GetAttr n "style").

(** The entries of a list of declarations, numbered from [start]. *)
Fixpoint number (start : Z) (ds : list (Specificity * Declaration.t)) : list StyleEntry.t :=
  match ds with
  | [] => []
  | (spec, decl) :: ds' =>
      StyleEntry.mk [decl] spec start (Declaration.Important decl) :: number (start + 1) ds'
  end.

End Collected.

End CascadeSpec.

(** ** Package [values]: lengths and colors *)

Module Values.

Inductive LengthUnit :=
| UnitPx | UnitEm | UnitRem | UnitPercent | UnitVw | UnitVh | UnitVmin | UnitVmax
| UnitCh | UnitEx | UnitPt | UnitCm | UnitMm | UnitIn | UnitAuto | UnitNone.

Global Instance LengthUnit_eq_dec : EqDecision LengthUnit.
Proof. solve_decision. Defined.

Module Length.
Record t (F : Type) := mk { Value : F; Unit : LengthUnit }.
Arguments mk {F}.
Arguments Value {F}.
Arguments Unit {F}.
End Length.

Module ResolveContext.
Record t (F : Type) := mk {
  FontSize : F;
  RootFontSize : F;
  ParentWidth : F;
  ParentHeight : F;
  ViewportWidth : F;
  ViewportHeight : F;
  CharWidth : F;
  XHeight : F
}.
Arguments mk {F}.
Arguments FontSize {F}.
Arguments RootFontSize {F}.
Arguments ParentWidth {F}.
Arguments ParentHeight {F}.
Arguments ViewportWidth {F}.
Arguments ViewportHeight {F}.
Arguments CharWidth {F}.
Arguments XHeight {F}.
End ResolveContext.

Module Color.
Record t := mk { R : Z; G : Z; B : Z; A : Z }.
End Color.

(** An [error] that is not nil, by its message (without the offending text). *)
Definition error := string.

Section Lengths.
Context {F : Type} `{Float64 F}.

Definition Zero : Length.t F := Length.mk (fofZ 0) UnitPx.
Definition Auto : Length.t F := Length.mk (fofZ 0) UnitAuto.
Definition Px (value : F) : Length.t F := Length.mk value UnitPx.
Definition Em (value : F) : Length.t F := Length.mk value UnitEm.
Definition Rem (value : F) : Length.t F := Length.mk value UnitRem.
Definition Percent (value : F) : Length.t F := Length.mk value UnitPercent.
Definition Vw (value : F) : Length.t F := Length.mk value UnitVw.
Definition Vh (value : F) : Length.t F := Length.mk value UnitVh.

Definition IsAuto (l : Length.t F) : bool := bool_decide (Length.Unit l = UnitAuto).

Definition IsZero (l : Length.t F) : bool :=
  (Length.Value l =? fofZ 0)%f64 && negb (IsAuto l).

Definition DefaultContext : ResolveContext.t F :=
  ResolveContext.mk (fofZ 16) (fofZ 16) (fofZ 1024) (fofZ 768) (fofZ 1024) (fofZ 768)
                    (fofZ 8) (fofZ 8).

Definition Resolve (l : Length.t F) (ctx : ResolveContext.t F) : F :=
  let v := Length.Value l in
  (match Length.Unit l with
   | UnitPx => v
   | UnitEm => v * ResolveContext.FontSize ctx
   | UnitRem => v * ResolveContext.RootFontSize ctx
   | UnitPercent => v / fofZ 100 * ResolveContext.ParentWidth ctx
   | UnitVw => v / fofZ 100 * ResolveContext.ViewportWidth ctx
   | UnitVh => v / fofZ 100 * ResolveContext.ViewportHeight ctx
   | UnitVmin =>
       let min := if ResolveContext.ViewportHeight ctx <? ResolveContext.ViewportWidth ctx
                  then ResolveContext.ViewportHeight ctx
                  else ResolveContext.ViewportWidth ctx in
       v / fofZ 100 * min
   | UnitVmax =>
       let max := if ResolveContext.ViewportHeight ctx >? ResolveContext.ViewportWidth ctx
                  then ResolveContext.ViewportHeight ctx
                  else ResolveContext.ViewportWidth ctx in
       v / fofZ 100 * max
   | UnitCh => v * ResolveContext.CharWidth ctx
   | UnitEx => v * ResolveContext.XHeight ctx
   | UnitPt => v * fofZ 96 / fofZ 72
   | UnitCm => v * fofZ 96 / fdec 254 100
   | UnitMm => v * fofZ 96 / fdec 254 10
   | UnitIn => v * fofZ 96
   | UnitAuto | UnitNone => fofZ 0
   end)%f64.

Definition ResolveHeight (l : Length.t F) (ctx : ResolveContext.t F) : F :=
  if bool_decide (Length.Unit l = UnitPercent)
  then (Length.Value l / fofZ 100 * ResolveContext.ParentHeight ctx)%f64
  else Resolve l ctx.

(** The map [units] of [ParseLength], as it is written. *)
Definition units : list (string * LengthUnit) :=
  [("px", UnitPx); ("em", UnitEm); ("rem", UnitRem); ("%", UnitPercent);
   ("vw", UnitVw); ("vh", UnitVh); ("vmin", UnitVmin); ("vmax", UnitVmax);
   ("ch", UnitCh); ("ex", UnitEx); ("pt", UnitPt); ("cm", UnitCm);
   ("mm", UnitMm); ("in", UnitIn)].

(** The first entry, in the order of iteration, whose key is a suffix. *)
Fixpoint firstSuffix (iteration : list (string * LengthUnit)) (s : string)
  : option (string * LengthUnit) :=
  match iteration with
  | [] => None
  | (suffix, unit) :: rest =>
      if GoStr.HasSuffix s suffix then Some (suffix, unit) else firstSuffix rest s
  end.

(** [ParseLength].  Go visits the keys of a map in an order that it
    does not fix: [iteration] is the order of one run, some permutation
    of [units]. *)
Definition ParseLength `{GoStrings} (iteration : list (string * LengthUnit)) (s : string)
  : Length.t F * option error :=
  let s := TrimSpace (ToLower s) in
  if String.eqb s "" || String.eqb s "0" then (Zero, None)
  else if String.eqb s "auto" then (Auto, None)
  else if String.eqb s "none" then (Length.mk (fofZ 0) UnitNone, None)
  else
    match firstSuffix iteration s with
    | Some (suffix, unit) =>
        let '(value, ok) := ParseFloat (GoStr.TrimSuffix s suffix) in
        if ok then (Length.mk value unit, None)
        else (Zero, Some (String.append "invalid length value: " s))
    | None =>
        let '(value, ok) := ParseFloat s in
        if ok then (Px value, None)
        else (Zero, Some (String.append "invalid length: " s))
    end.

End Lengths.

(** *** Colors *)

Definition Transparent : Color.t := Color.mk 0 0 0 0.
Definition Black : Color.t := Color.mk 0 0 0 255.
Definition White : Color.t := Color.mk 255 255 255 255.

Definition hexDigit (c : ascii) : Z :=
  let n := Z.of_nat (nat_of_ascii c) in
  if (48 <=? n)%Z && (n <=? 57)%Z then (n - 48)%Z
  else if (97 <=? n)%Z && (n <=? 102)%Z then (n - 97 + 10)%Z
  else 0%Z.

(** A digit of [strconv.ParseUint] in base 16. *)
Definition hexValue (c : ascii) : option Z :=
  let n := Z.of_nat (nat_of_ascii c) in
  if (48 <=? n)%Z && (n <=? 57)%Z then Some (n - 48)%Z
  else if (97 <=? n)%Z && (n <=? 102)%Z then Some (n - 97 + 10)%Z
  else if (65 <=? n)%Z && (n <=? 70)%Z then Some (n - 65 + 10)%Z
  else None.

(** [hexByte]: [strconv.ParseUint(s, 16, 8)] of two bytes, 0 when it fails. *)
Definition hexByte (s : string) : Z :=
  match s with
  | String c1 (String c2 EmptyString) =>
      match hexValue c1, hexValue c2 with
      | Some d1, Some d2 => (16 * d1 + d2)%Z
      | _, _ => 0%Z
      end
  | _ => 0%Z
  end.

(** [s[i]]: a panic when the index is out of range. *)
Definition byteR (s : string) (i : nat) : result ascii :=
  match GoStr.byteAt s i with Some c => Ok c | None => Panic end.

Definition namedColors : list (string * Color.t) :=
  [
   ("transparent", Color.mk 0 0 0 0); ("black", Color.mk 0 0 0 255);
   ("white", Color.mk 255 255 255 255); ("red", Color.mk 255 0 0 255);
   ("green", Color.mk 0 128 0 255); ("blue", Color.mk 0 0 255 255);
   ("yellow", Color.mk 255 255 0 255); ("cyan", Color.mk 0 255 255 255);
   ("magenta", Color.mk 255 0 255 255); ("gray", Color.mk 128 128 128 255);
   ("grey", Color.mk 128 128 128 255); ("silver", Color.mk 192 192 192 255);
   ("maroon", Color.mk 128 0 0 255); ("olive", Color.mk 128 128 0 255);
   ("lime", Color.mk 0 255 0 255); ("aqua", Color.mk 0 255 255 255);
   ("teal", Color.mk 0 128 128 255); ("navy", Color.mk 0 0 128 255);
   ("fuchsia", Color.mk 255 0 255 255); ("purple", Color.mk 128 0 128 255);
   ("orange", Color.mk 255 165 0 255); ("pink", Color.mk 255 192 203 255);
   ("brown", Color.mk 165 42 42 255); ("coral", Color.mk 255 127 80 255);
   ("crimson", Color.mk 220 20 60 255); ("gold", Color.mk 255 215 0 255);
   ("indigo", Color.mk 75 0 130 255); ("khaki", Color.mk 240 230 140 255);
   ("lavender", Color.mk 230 230 250 255); ("salmon", Color.mk 250 128 114 255);
   ("skyblue", Color.mk 135 206 235 255); ("slategray", Color.mk 112 128 144 255);
   ("steelblue", Color.mk 70 130 180 255); ("tomato", Color.mk 255 99 71 255);
   ("turquoise", Color.mk 64 224 208 255); ("violet", Color.mk 238 130 238 255);
   ("wheat", Color.mk 245 222 179 255); ("dimgray", Color.mk 105 105 105 255);
   ("darkgray", Color.mk 169 169 169 255); ("lightgray", Color.mk 211 211 211 255);
   ("gainsboro", Color.mk 220 220 220 255); ("whitesmoke", Color.mk 245 245 245 255);
   ("aliceblue", Color.mk 240 248 255 255); ("antiquewhite", Color.mk 250 235 215 255);
   ("azure", Color.mk 240 255 255 255); ("beige", Color.mk 245 245 220 255);
   ("bisque", Color.mk 255 228 196 255); ("blanchedalmond", Color.mk 255 235 205 255);
   ("blueviolet", Color.mk 138 43 226 255); ("burlywood", Color.mk 222 184 135 255);
   ("cadetblue", Color.mk 95 158 160 255); ("chartreuse", Color.mk 127 255 0 255);
   ("chocolate", Color.mk 210 105 30 255); ("cornflowerblue", Color.mk 100 149 237 255);
   ("cornsilk", Color.mk 255 248 220 255); ("darkblue", Color.mk 0 0 139 255);
   ("darkcyan", Color.mk 0 139 139 255); ("darkgoldenrod", Color.mk 184 134 11 255);
   ("darkgreen", Color.mk 0 100 0 255); ("darkkhaki", Color.mk 189 183 107 255);
   ("darkmagenta", Color.mk 139 0 139 255); ("darkolivegreen", Color.mk 85 107 47 255);
   ("darkorange", Color.mk 255 140 0 255); ("darkorchid", Color.mk 153 50 204 255);
   ("darkred", Color.mk 139 0 0 255); ("darksalmon", Color.mk 233 150 122 255);
   ("darkseagreen", Color.mk 143 188 143 255); ("darkslateblue", Color.mk 72 61 139 255);
   ("darkslategray", Color.mk 47 79 79 255); ("darkturquoise", Color.mk 0 206 209 255);
   ("darkviolet", Color.mk 148 0 211 255); ("deeppink", Color.mk 255 20 147 255);
   ("deepskyblue", Color.mk 0 191 255 255); ("dodgerblue", Color.mk 30 144 255 255);
   ("firebrick", Color.mk 178 34 34 255); ("floralwhite", Color.mk 255 250 240 255);
   ("forestgreen", Color.mk 34 139 34 255); ("ghostwhite", Color.mk 248 248 255 255);
   ("goldenrod", Color.mk 218 165 32 255); ("greenyellow", Color.mk 173 255 47 255);
   ("honeydew", Color.mk 240 255 240 255); ("hotpink", Color.mk 255 105 180 255);
   ("indianred", Color.mk 205 92 92 255); ("ivory", Color.mk 255 255 240 255);
   ("lawngreen", Color.mk 124 252 0 255); ("lemonchiffon", Color.mk 255 250 205 255);
   ("lightblue", Color.mk 173 216 230 255); ("lightcoral", Color.mk 240 128 128 255);
   ("lightcyan", Color.mk 224 255 255 255); ("lightgreen", Color.mk 144 238 144 255);
   ("lightpink", Color.mk 255 182 193 255); ("lightsalmon", Color.mk 255 160 122 255);
   ("lightseagreen", Color.mk 32 178 170 255); ("lightskyblue", Color.mk 135 206 250 255);
   ("lightslategray", Color.mk 119 136 153 255); ("lightsteelblue", Color.mk 176 196 222 255);
   ("lightyellow", Color.mk 255 255 224 255); ("limegreen", Color.mk 50 205 50 255);
   ("linen", Color.mk 250 240 230 255); ("mediumaquamarine", Color.mk 102 205 170 255);
   ("mediumblue", Color.mk 0 0 205 255); ("mediumorchid", Color.mk 186 85 211 255);
   ("mediumpurple", Color.mk 147 112 219 255); ("mediumseagreen", Color.mk 60 179 113 255);
   ("mediumslateblue", Color.mk 123 104 238 255); ("mediumspringgreen", Color.mk 0 250 154 255);
   ("mediumturquoise", Color.mk 72 209 204 255); ("mediumvioletred", Color.mk 199 21 133 255);
   ("midnightblue", Color.mk 25 25 112 255); ("mintcream", Color.mk 245 255 250 255);
   ("mistyrose", Color.mk 255 228 225 255); ("moccasin", Color.mk 255 228 181 255);
   ("navajowhite", Color.mk 255 222 173 255); ("oldlace", Color.mk 253 245 230 255);
   ("olivedrab", Color.mk 107 142 35 255); ("orangered", Color.mk 255 69 0 255);
   ("orchid", Color.mk 218 112 214 255); ("palegoldenrod", Color.mk 238 232 170 255);
   ("palegreen", Color.mk 152 251 152 255); ("paleturquoise", Color.mk 175 238 238 255);
   ("palevioletred", Color.mk 219 112 147 255); ("papayawhip", Color.mk 255 239 213 255);
   ("peachpuff", Color.mk 255 218 185 255); ("peru", Color.mk 205 133 63 255);
   ("plum", Color.mk 221 160 221 255); ("powderblue", Color.mk 176 224 230 255);
   ("rosybrown", Color.mk 188 143 143 255); ("royalblue", Color.mk 65 105 225 255);
   ("saddlebrown", Color.mk 139 69 19 255); ("sandybrown", Color.mk 244 164 96 255);
   ("seagreen", Color.mk 46 139 87 255); ("seashell", Color.mk 255 245 238 255);
   ("sienna", Color.mk 160 82 45 255); ("slateblue", Color.mk 106 90 205 255);
   ("snow", Color.mk 255 250 250 255); ("springgreen", Color.mk 0 255 127 255);
   ("tan", Color.mk 210 180 140 255); ("thistle", Color.mk 216 191 216 255);
   ("yellowgreen", Color.mk 154 205 50 255)
  ].

Fixpoint lookupColor (table : list (string * Color.t)) (s : string) : option Color.t :=
  match table with
  | [] => None
  | (name, c) :: rest => if String.eqb name s then Some c else lookupColor rest s
  end.

Section Colors.
Context {F : Type} `{Float64 F} `{GoStrings}.

Definition FromHex (hex : string) : result (Color.t * option error) :=
  let hex := GoStr.TrimPrefix hex "#" in
  let hex := ToLower hex in
  let n := GoStr.len hex in
  if n =? 3 then
    c0 ← byteR hex 0; c1 ← byteR hex 1; c2 ← byteR hex 2;
    Ok (Color.mk (hexDigit c0 * 17) (hexDigit c1 * 17) (hexDigit c2 * 17) 255, None)
  else if n =? 4 then
    c0 ← byteR hex 0; c1 ← byteR hex 1; c2 ← byteR hex 2; c3 ← byteR hex 3;
    Ok (Color.mk (hexDigit c0 * 17) (hexDigit c1 * 17) (hexDigit c2 * 17) (hexDigit c3 * 17),
        None)
  else if n =? 6 then
    r ← sliceR hex 0 2; g ← sliceR hex 2 4; b ← sliceR hex 4 6;
    Ok (Color.mk (hexByte r) (hexByte g) (hexByte b) 255, None)
  else if n =? 8 then
    r ← sliceR hex 0 2; g ← sliceR hex 2 4; b ← sliceR hex 4 6; a ← sliceR hex 6 8;
    Ok (Color.mk (hexByte r) (hexByte g) (hexByte b) (hexByte a), None)
  else Ok (Transparent, Some (String.append "invalid hex color: #" hex)).

Definition parseColorComponent (s : string) : Z :=
  let s := TrimSpace s in
  if GoStr.HasSuffix s "%" then
    let v := (ParseFloat (GoStr.TrimSuffix s "%")).1 in
    toUint8 (v * fofZ 255 / fofZ 100)%f64
  else
    let v := (ParseFloat s).1 in
    let v := if (v >? fofZ 255)%f64 then fofZ 255 else v in
    let v := if (v <? fofZ 0)%f64 then fofZ 0 else v in
    toUint8 v.

(** The alpha written after a slash, and the text before the slash. *)
Definition splitAlpha (s : string) : result (string * F) :=
  match GoStr.Index s "/" with
  | Some idx =>
      rest ← sliceR s (idx + 1) (GoStr.len s);
      let alphaStr := TrimSpace rest in
      s' ← sliceR s 0 idx;
      if GoStr.HasSuffix alphaStr "%" then
        let a := (ParseFloat (GoStr.TrimSuffix alphaStr "%")).1 in
        Ok (s', (a / fofZ 100)%f64)
      else Ok (s', (ParseFloat alphaStr).1)
  | None => Ok (s, fofZ 1)
  end.

Definition parseRGBFunction (s : string) : result (Color.t * option error) :=
  let s := GoStr.TrimPrefix s "rgba(" in
  let s := GoStr.TrimPrefix s "rgb(" in
  let s := GoStr.TrimSuffix s ")" in
  '(s, alpha) ← splitAlpha s;
  let s := GoStr.ReplaceAll s "," " " in
  let parts := Fields s in
  if length parts <? 3 then Ok (Transparent, Some "invalid rgb: not enough components")
  else
    p0 ← indexR parts 0; p1 ← indexR parts 1; p2 ← indexR parts 2;
    let r := parseColorComponent p0 in
    let g := parseColorComponent p1 in
    let b := parseColorComponent p2 in
    alpha ← (if 4 <=? length parts then p3 ← indexR parts 3; Ok (ParseFloat p3).1
             else Ok alpha);
    Ok (Color.mk r g b (toUint8 (alpha * fofZ 255)%f64), None).

Definition hueToRGB (p q t : F) : F :=
  (let t := if t <? fofZ 0 then t + fofZ 1 else t in
   let t := if t >? fofZ 1 then t - fofZ 1 else t in
   if t <? fdec 1 6 then p + (q - p) * fofZ 6 * t
   else if t <? fdec 1 2 then q
   else if t <? fdec 2 3 then p + (q - p) * (fdec 2 3 - t) * fofZ 6
   else p)%f64.

Definition hslToRGB (h s l : F) : Z * Z * Z :=
  (if s =? fofZ 0 then
     let v := toUint8 (l * fofZ 255) in (v, v, v)
   else
     let q := if l <? fdec 1 2 then l * (fofZ 1 + s) else l + s - l * s in
     let p := fofZ 2 * l - q in
     let r := hueToRGB p q (h + fdec 1 3) in
     let g := hueToRGB p q h in
     let b := hueToRGB p q (h - fdec 1 3) in
     (toUint8 (r * fofZ 255), toUint8 (g * fofZ 255), toUint8 (b * fofZ 255)))%f64.

Definition parseHSLFunction (s : string) : result (Color.t * option error) :=
  let s := GoStr.TrimPrefix s "hsla(" in
  let s := GoStr.TrimPrefix s "hsl(" in
  let s := GoStr.TrimSuffix s ")" in
  '(s, alpha) ← splitAlpha s;
  let s := GoStr.ReplaceAll s "," " " in
  let parts := Fields s in
  if length parts <? 3 then Ok (Transparent, Some "invalid hsl: not enough components")
  else
    p0 ← indexR parts 0; p1 ← indexR parts 1; p2 ← indexR parts 2;
    let h := ((ParseFloat (GoStr.TrimSuffix p0 "deg")).1 / fofZ 360)%f64 in
    let sat := ((ParseFloat (GoStr.TrimSuffix p1 "%")).1 / fofZ 100)%f64 in
    let light := ((ParseFloat (GoStr.TrimSuffix p2 "%")).1 / fofZ 100)%f64 in
    alpha ← (if 4 <=? length parts then p3 ← indexR parts 3; Ok (ParseFloat p3).1
             else Ok alpha);
    let '(r, g, b) := hslToRGB h sat light in
    Ok (Color.mk r g b (toUint8 (alpha * fofZ 255)%f64), None).

(** The text that [ParseColor] dispatches on. *)
Definition normalize (s : string) : string := TrimSpace (ToLower s).

Definition ParseColor (s : string) : result (Color.t * option error) :=
  let s := normalize s in
  match lookupColor namedColors s with
  | Some c => Ok (c, None)
  | None =>
      if GoStr.HasPrefix s "#" then FromHex s
      else if GoStr.HasPrefix s "rgb" then parseRGBFunction s
      else if GoStr.HasPrefix s "hsl" then parseHSLFunction s
      else Ok (Transparent, Some (String.append "invalid color: " s))
  end.

End Colors.


(** *** The computed style of package [values] *)

Module ComputedStyle.

Record t (F : Type) := mk {
  Width : Length.t F;
  Height : Length.t F;
  MinWidth : Length.t F;
  MaxWidth : Length.t F;
  MinHeight : Length.t F;
  MaxHeight : Length.t F;
  MarginTop : Length.t F;
  MarginRight : Length.t F;
  MarginBottom : Length.t F;
  MarginLeft : Length.t F;
  PaddingTop : Length.t F;
  PaddingRight : Length.t F;
  PaddingBottom : Length.t F;
  PaddingLeft : Length.t F;
  BorderTopWidth : Length.t F;
  BorderRightWidth : Length.t F;
  BorderBottomWidth : Length.t F;
  BorderLeftWidth : Length.t F;
  BorderTopColor : Color.t;
  BorderRightColor : Color.t;
  BorderBottomColor : Color.t;
  BorderLeftColor : Color.t;
  BorderTopStyle : string;
  BorderRightStyle : string;
  BorderBottomStyle : string;
  BorderLeftStyle : string;
  BorderTopLeftRadius : Length.t F;
  BorderTopRightRadius : Length.t F;
  BorderBottomRightRadius : Length.t F;
  BorderBottomLeftRadius : Length.t F;
  BoxSizing : string;
  Display : string;
  Position : string;
  Top : Length.t F;
  Right : Length.t F;
  Bottom : Length.t F;
  Left : Length.t F;
  FlexDirection : string;
  FlexWrap : string;
  JustifyContent : string;
  AlignItems : string;
  AlignContent : string;
  Gap : Length.t F;
  FlexGrow : F;
  FlexShrink : F;
  FlexBasis : Length.t F;
  AlignSelf : string;
  Order : Z;
  OverflowX : string;
  OverflowY : string;
  ZIndex : Z;
  ZIndexSet : bool;
  Color : Color.t;
  FontFamily : string;
  FontSize : F;
  FontWeight : Z;
  FontStyle : string;
  LineHeight : F;
  LineHeightUnit : string;
  TextAlign : string;
  TextDecoration : string;
  TextTransform : string;
  LetterSpacing : Length.t F;
  WordSpacing : Length.t F;
  WhiteSpace : string;
  BackgroundColor : Color.t;
  BackgroundImage : string;
  BackgroundSize : string;
  BackgroundPosition : string;
  BackgroundRepeat : string;
  Opacity : F;
  Visibility : string;
  BoxShadow : string;
  Cursor : string;
  Transform : string;
  ListStyleType : string;
  ListStylePosition : string;
  BorderCollapse : string;
  BorderSpacing : Length.t F
}.
Arguments Width {F}.
Arguments Height {F}.
Arguments MinWidth {F}.
Arguments MaxWidth {F}.
Arguments MinHeight {F}.
Arguments MaxHeight {F}.
Arguments MarginTop {F}.
Arguments MarginRight {F}.
Arguments MarginBottom {F}.
Arguments MarginLeft {F}.
Arguments PaddingTop {F}.
Arguments PaddingRight {F}.
Arguments PaddingBottom {F}.
Arguments PaddingLeft {F}.
Arguments BorderTopWidth {F}.
Arguments BorderRightWidth {F}.
Arguments BorderBottomWidth {F}.
Arguments BorderLeftWidth {F}.
Arguments BorderTopColor {F}.
Arguments BorderRightColor {F}.
Arguments BorderBottomColor {F}.
Arguments BorderLeftColor {F}.
Arguments BorderTopStyle {F}.
Arguments BorderRightStyle {F}.
Arguments BorderBottomStyle {F}.
Arguments BorderLeftStyle {F}.
Arguments BorderTopLeftRadius {F}.
Arguments BorderTopRightRadius {F}.
Arguments BorderBottomRightRadius {F}.
Arguments BorderBottomLeftRadius {F}.
Arguments BoxSizing {F}.
Arguments Display {F}.
Arguments Position {F}.
Arguments Top {F}.
Arguments Right {F}.
Arguments Bottom {F}.
Arguments Left {F}.
Arguments FlexDirection {F}.
Arguments FlexWrap {F}.
Arguments JustifyContent {F}.
Arguments AlignItems {F}.
Arguments AlignContent {F}.
Arguments Gap {F}.
Arguments FlexGrow {F}.
Arguments FlexShrink {F}.
Arguments FlexBasis {F}.
Arguments AlignSelf {F}.
Arguments Order {F}.
Arguments OverflowX {F}.
Arguments OverflowY {F}.
Arguments ZIndex {F}.
Arguments ZIndexSet {F}.
Arguments Color {F}.
Arguments FontFamily {F}.
Arguments FontSize {F}.
Arguments FontWeight {F}.
Arguments FontStyle {F}.
Arguments LineHeight {F}.
Arguments LineHeightUnit {F}.
Arguments TextAlign {F}.
Arguments TextDecoration {F}.
Arguments TextTransform {F}.
Arguments LetterSpacing {F}.
Arguments WordSpacing {F}.
Arguments WhiteSpace {F}.
Arguments BackgroundColor {F}.
Arguments BackgroundImage {F}.
Arguments BackgroundSize {F}.
Arguments BackgroundPosition {F}.
Arguments BackgroundRepeat {F}.
Arguments Opacity {F}.
Arguments Visibility {F}.
Arguments BoxShadow {F}.
Arguments Cursor {F}.
Arguments Transform {F}.
Arguments ListStyleType {F}.
Arguments ListStylePosition {F}.
Arguments BorderCollapse {F}.
Arguments BorderSpacing {F}.
Arguments mk {F}.

Definition setWidth {F : Type} (s : t F) (v : Length.t F) : t F :=
  mk v (Height s) (MinWidth s) (MaxWidth s) (MinHeight s) (MaxHeight s) (MarginTop s) (MarginRight s) (MarginBottom s) (MarginLeft s) (PaddingTop s) (PaddingRight s) (PaddingBottom s) (PaddingLeft s) (BorderTopWidth s) (BorderRightWidth s) (BorderBottomWidth s) (BorderLeftWidth s) (BorderTopColor s) (BorderRightColor s) (BorderBottomColor s) (BorderLeftColor s) (BorderTopStyle s) (BorderRightStyle s) (BorderBottomStyle s) (BorderLeftStyle s) (BorderTopLeftRadius s) (BorderTopRightRadius s) (BorderBottomRightRadius s) (BorderBottomLeftRadius s) (BoxSizing s) (Display s) (Position s) (Top s) (Right s) (Bottom s) (Left s) (FlexDirection s) (FlexWrap s) (JustifyContent s) (AlignItems s) (AlignContent s) (Gap s) (FlexGrow s) (FlexShrink s) (FlexBasis s) (AlignSelf s) (Order s) (OverflowX s) (OverflowY s) (ZIndex s) (ZIndexSet s) (Color s) (FontFamily s) (FontSize s) (FontWeight s) (FontStyle s) (LineHeight s) (LineHeightUnit s) (TextAlign s) (TextDecoration s) (TextTransform s) (LetterSpacing s) (WordSpacing s) (WhiteSpace s) (BackgroundColor s) (BackgroundImage s) (BackgroundSize s) (BackgroundPosition s) (BackgroundRepeat s) (Opacity s) (Visibility s) (BoxShadow s) (Cursor s) (Transform s) (ListStyleType s) (ListStylePosition s) (BorderCollapse s) (BorderSpacing s).

Definition setHeight {F : Type} (s : t F) (v : Length.t F) : t F :=
  mk (Width s) v (MinWidth s) (MaxWidth s) (MinHeight s) (MaxHeight s) (MarginTop s) (MarginRight s) (MarginBottom s) (MarginLeft s) (PaddingTop s) (PaddingRight s) (PaddingBottom s) (PaddingLeft s) (BorderTopWidth s) (BorderRightWidth s) (BorderBottomWidth s) (BorderLeftWidth s) (BorderTopColor s) (BorderRightColor s) (BorderBottomColor s) (BorderLeftColor s) (BorderTopStyle s) (BorderRightStyle s) (BorderBottomStyle s) (BorderLeftStyle s) (BorderTopLeftRadius s) (BorderTopRightRadius s) (BorderBottomRightRadius s) (BorderBottomLeftRadius s) (BoxSizing s) (Display s) (Position s) (Top s) (Right s) (Bottom s) (Left s) (FlexDirection s) (FlexWrap s) (JustifyContent s) (AlignItems s) (AlignContent s) (Gap s) (FlexGrow s) (FlexShrink s) (FlexBasis s) (AlignSelf s) (Order s) (OverflowX s) (OverflowY s) (ZIndex s) (ZIndexSet s) (Color s) (FontFamily s) (FontSize s) (FontWeight s) (FontStyle s) (LineHeight s) (LineHeightUnit s) (TextAlign s) (TextDecoration s) (TextTransform s) (LetterSpacing s) (WordSpacing s) (WhiteSpace s) (BackgroundColor s) (BackgroundImage s) (BackgroundSize s) (BackgroundPosition s) (BackgroundRepeat s) (Opacity s) (Visibility s) (BoxShadow s) (Cursor s) (Transform s) (ListStyleType s) (ListStylePosition s) (BorderCollapse s) (BorderSpacing s).

Definition setMinWidth {F : Type} (s : t F) (v : Length.t F) : t F :=
  mk (Width s) (Height s) v (MaxWidth s) (MinHeight s) (MaxHeight s) (MarginTop s) (MarginRight s) (MarginBottom s) (MarginLeft s) (PaddingTop s) (PaddingRight s) (PaddingBottom s) (PaddingLeft s) (BorderTopWidth s) (BorderRightWidth s) (BorderBottomWidth s) (BorderLeftWidth s) (BorderTopColor s) (BorderRightColor s) (BorderBottomColor s) (BorderLeftColor s) (BorderTopStyle s) (BorderRightStyle s) (BorderBottomStyle s) (BorderLeftStyle s) (BorderTopLeftRadius s) (BorderTopRightRadius s) (BorderBottomRightRadius s) (BorderBottomLeftRadius s) (BoxSizing s) (Display s) (Position s) (Top s) (Right s) (Bottom s) (Left s) (FlexDirection s) (FlexWrap s) (JustifyContent s) (AlignItems s) (AlignContent s) (Gap s) (FlexGrow s) (FlexShrink s) (FlexBasis s) (AlignSelf s) (Order s) (OverflowX s) (OverflowY s) (ZIndex s) (ZIndexSet s) (Color s) (FontFamily s) (FontSize s) (FontWeight s) (FontStyle s) (LineHeight s) (LineHeightUnit s) (TextAlign s) (TextDecoration s) (TextTransform s) (LetterSpacing s) (WordSpacing s) (WhiteSpace s) (BackgroundColor s) (BackgroundImage s) (BackgroundSize s) (BackgroundPosition s) (BackgroundRepeat s) (Opacity s) (Visibility s) (BoxShadow s) (Cursor s) (Transform s) (ListStyleType s) (ListStylePosition s) (BorderCollapse s) (BorderSpacing s).

Definition setMaxWidth {F : Type} (s : t F) (v : Length.t F) : t F :=
  mk (Width s) (Height s) (MinWidth s) v (MinHeight s) (MaxHeight s) (MarginTop s) (MarginRight s) (MarginBottom s) (MarginLeft s) (PaddingTop s) (PaddingRight s) (PaddingBottom s) (PaddingLeft s) (BorderTopWidth s) (BorderRightWidth s) (BorderBottomWidth s) (BorderLeftWidth s) (BorderTopColor s) (BorderRightColor s) (BorderBottomColor s) (BorderLeftColor s) (BorderTopStyle s) (BorderRightStyle s) (BorderBottomStyle s) (BorderLeftStyle s) (BorderTopLeftRadius s) (BorderTopRightRadius s) (BorderBottomRightRadius s) (BorderBottomLeftRadius s) (BoxSizing s) (Display s) (Position s) (Top s) (Right s) (Bottom s) (Left s) (FlexDirection s) (FlexWrap s) (JustifyContent s) (AlignItems s) (AlignContent s) (Gap s) (FlexGrow s) (FlexShrink s) (FlexBasis s) (AlignSelf s) (Order s) (OverflowX s) (OverflowY s) (ZIndex s) (ZIndexSet s) (Color s) (FontFamily s) (FontSize s) (FontWeight s) (FontStyle s) (LineHeight s) (LineHeightUnit s) (TextAlign s) (TextDecoration s) (TextTransform s) (LetterSpacing s) (WordSpacing s) (WhiteSpace s) (BackgroundColor s) (BackgroundImage s) (BackgroundSize s) (BackgroundPosition s) (BackgroundRepeat s) (Opacity s) (Visibility s) (BoxShadow s) (Cursor s) (Transform s) (ListStyleType s) (ListStylePosition s) (BorderCollapse s) (BorderSpacing s).

Definition setMinHeight {F : Type} (s : t F) (v : Length.t F) : t F :=
  mk (Width s) (Height s) (MinWidth s) (MaxWidth s) v (MaxHeight s) (MarginTop s) (MarginRight s) (MarginBottom s) (MarginLeft s) (PaddingTop s) (PaddingRight s) (PaddingBottom s) (PaddingLeft s) (BorderTopWidth s) (BorderRightWidth s) (BorderBottomWidth s) (BorderLeftWidth s) (BorderTopColor s) (BorderRightColor s) (BorderBottomColor s) (BorderLeftColor s) (BorderTopStyle s) (BorderRightStyle s) (BorderBottomStyle s) (BorderLeftStyle s) (BorderTopLeftRadius s) (BorderTopRightRadius s) (BorderBottomRightRadius s) (BorderBottomLeftRadius s) (BoxSizing s) (Display s) (Position s) (Top s) (Right s) (Bottom s) (Left s) (FlexDirection s) (FlexWrap s) (JustifyContent s) (AlignItems s) (AlignContent s) (Gap s) (FlexGrow s) (FlexShrink s) (FlexBasis s) (AlignSelf s) (Order s) (OverflowX s) (OverflowY s) (ZIndex s) (ZIndexSet s) (Color s) (FontFamily s) (FontSize s) (FontWeight s) (FontStyle s) (LineHeight s) (LineHeightUnit s) (TextAlign s) (TextDecoration s) (TextTransform s) (LetterSpacing s) (WordSpacing s) (WhiteSpace s) (BackgroundColor s) (BackgroundImage s) (BackgroundSize s) (BackgroundPosition s) (BackgroundRepeat s) (Opacity s) (Visibility s) (BoxShadow s) (Cursor s) (Transform s) (ListStyleType s) (ListStylePosition s) (BorderCollapse s) (BorderSpacing s).

Definition setMaxHeight {F : Type} (s : t F) (v : Length.t F) : t F :=
  mk (Width s) (Height s) (MinWidth s) (MaxWidth s) (MinHeight s) v (MarginTop s) (MarginRight s) (MarginBottom s) (MarginLeft s) (PaddingTop s) (PaddingRight s) (PaddingBottom s) (PaddingLeft s) (BorderTopWidth s) (BorderRightWidth s) (BorderBottomWidth s) (BorderLeftWidth s) (BorderTopColor s) (BorderRightColor s) (BorderBottomColor s) (BorderLeftColor s) (BorderTopStyle s) (BorderRightStyle s) (BorderBottomStyle s) (BorderLeftStyle s) (BorderTopLeftRadius s) (BorderTopRightRadius s) (BorderBottomRightRadius s) (BorderBottomLeftRadius s) (BoxSizing s) (Display s) (Position s) (Top s) (Right s) (Bottom s) (Left s) (FlexDirection s) (FlexWrap s) (JustifyContent s) (AlignItems s) (AlignContent s) (Gap s) (FlexGrow s) (FlexShrink s) (FlexBasis s) (AlignSelf s) (Order s) (OverflowX s) (OverflowY s) (ZIndex s) (ZIndexSet s) (Color s) (FontFamily s) (FontSize s) (FontWeight s) (FontStyle s) (LineHeight s) (LineHeightUnit s) (TextAlign s) (TextDecoration s) (TextTransform s) (LetterSpacing s) (WordSpacing s) (WhiteSpace s) (BackgroundColor s) (BackgroundImage s) (BackgroundSize s) (BackgroundPosition s) (BackgroundRepeat s) (Opacity s) (Visibility s) (BoxShadow s) (Cursor s) (Transform s) (ListStyleType s) (ListStylePosition s) (BorderCollapse s) (BorderSpacing s).


Definition setFontSize {F : Type} (s : t F) (v : F) : t F :=
  mk (Width s) (Height s) (MinWidth s) (MaxWidth s) (MinHeight s) (MaxHeight s) (MarginTop s) (MarginRight s) (MarginBottom s) (MarginLeft s) (PaddingTop s) (PaddingRight s) (PaddingBottom s) (PaddingLeft s) (BorderTopWidth s) (BorderRightWidth s) (BorderBottomWidth s) (BorderLeftWidth s) (BorderTopColor s) (BorderRightColor s) (BorderBottomColor s) (BorderLeftColor s) (BorderTopStyle s) (BorderRightStyle s) (BorderBottomStyle s) (BorderLeftStyle s) (BorderTopLeftRadius s) (BorderTopRightRadius s) (BorderBottomRightRadius s) (BorderBottomLeftRadius s) (BoxSizing s) (Display s) (Position s) (Top s) (Right s) (Bottom s) (Left s) (FlexDirection s) (FlexWrap s) (JustifyContent s) (AlignItems s) (AlignContent s) (Gap s) (FlexGrow s) (FlexShrink s) (FlexBasis s) (AlignSelf s) (Order s) (OverflowX s) (OverflowY s) (ZIndex s) (ZIndexSet s) (Color s) (FontFamily s) v (FontWeight s) (FontStyle s) (LineHeight s) (LineHeightUnit s) (TextAlign s) (TextDecoration s) (TextTransform s) (LetterSpacing s) (WordSpacing s) (WhiteSpace s) (BackgroundColor s) (BackgroundImage s) (BackgroundSize s) (BackgroundPosition s) (BackgroundRepeat s) (Opacity s) (Visibility s) (BoxShadow s) (Cursor s) (Transform s) (ListStyleType s) (ListStylePosition s) (BorderCollapse s) (BorderSpacing s).

Definition setMarginTop {F : Type} (s : t F) (v : Length.t F) : t F :=
  mk (Width s) (Height s) (MinWidth s) (MaxWidth s) (MinHeight s) (MaxHeight s) v (MarginRight s) (MarginBottom s) (MarginLeft s) (PaddingTop s) (PaddingRight s) (PaddingBottom s) (PaddingLeft s) (BorderTopWidth s) (BorderRightWidth s) (BorderBottomWidth s) (BorderLeftWidth s) (BorderTopColor s) (BorderRightColor s) (BorderBottomColor s) (BorderLeftColor s) (BorderTopStyle s) (BorderRightStyle s) (BorderBottomStyle s) (BorderLeftStyle s) (BorderTopLeftRadius s) (BorderTopRightRadius s) (BorderBottomRightRadius s) (BorderBottomLeftRadius s) (BoxSizing s) (Display s) (Position s) (Top s) (Right s) (Bottom s) (Left s) (FlexDirection s) (FlexWrap s) (JustifyContent s) (AlignItems s) (AlignContent s) (Gap s) (FlexGrow s) (FlexShrink s) (FlexBasis s) (AlignSelf s) (Order s) (OverflowX s) (OverflowY s) (ZIndex s) (ZIndexSet s) (Color s) (FontFamily s) (FontSize s) (FontWeight s) (FontStyle s) (LineHeight s) (LineHeightUnit s) (TextAlign s) (TextDecoration s) (TextTransform s) (LetterSpacing s) (WordSpacing s) (WhiteSpace s) (BackgroundColor s) (BackgroundImage s) (BackgroundSize s) (BackgroundPosition s) (BackgroundRepeat s) (Opacity s) (Visibility s) (BoxShadow s) (Cursor s) (Transform s) (ListStyleType s) (ListStylePosition s) (BorderCollapse s) (BorderSpacing s).

Definition setMarginRight {F : Type} (s : t F) (v : Length.t F) : t F :=
  mk (Width s) (Height s) (MinWidth s) (MaxWidth s) (MinHeight s) (MaxHeight s) (MarginTop s) v (MarginBottom s) (MarginLeft s) (PaddingTop s) (PaddingRight s) (PaddingBottom s) (PaddingLeft s) (BorderTopWidth s) (BorderRightWidth s) (BorderBottomWidth s) (BorderLeftWidth s) (BorderTopColor s) (BorderRightColor s) (BorderBottomColor s) (BorderLeftColor s) (BorderTopStyle s) (BorderRightStyle s) (BorderBottomStyle s) (BorderLeftStyle s) (BorderTopLeftRadius s) (BorderTopRightRadius s) (BorderBottomRightRadius s) (BorderBottomLeftRadius s) (BoxSizing s) (Display s) (Position s) (Top s) (Right s) (Bottom s) (Left s) (FlexDirection s) (FlexWrap s) (JustifyContent s) (AlignItems s) (AlignContent s) (Gap s) (FlexGrow s) (FlexShrink s) (FlexBasis s) (AlignSelf s) (Order s) (OverflowX s) (OverflowY s) (ZIndex s) (ZIndexSet s) (Color s) (FontFamily s) (FontSize s) (FontWeight s) (FontStyle s) (LineHeight s) (LineHeightUnit s) (TextAlign s) (TextDecoration s) (TextTransform s) (LetterSpacing s) (WordSpacing s) (WhiteSpace s) (BackgroundColor s) (BackgroundImage s) (BackgroundSize s) (BackgroundPosition s) (BackgroundRepeat s) (Opacity s) (Visibility s) (BoxShadow s) (Cursor s) (Transform s) (ListStyleType s) (ListStylePosition s) (BorderCollapse s) (BorderSpacing s).

Definition setMarginBottom {F : Type} (s : t F) (v : Length.t F) : t F :=
  mk (Width s) (Height s) (MinWidth s) (MaxWidth s) (MinHeight s) (MaxHeight s) (MarginTop s) (MarginRight s) v (MarginLeft s) (PaddingTop s) (PaddingRight s) (PaddingBottom s) (PaddingLeft s) (BorderTopWidth s) (BorderRightWidth s) (BorderBottomWidth s) (BorderLeftWidth s) (BorderTopColor s) (BorderRightColor s) (BorderBottomColor s) (BorderLeftColor s) (BorderTopStyle s) (BorderRightStyle s) (BorderBottomStyle s) (BorderLeftStyle s) (BorderTopLeftRadius s) (BorderTopRightRadius s) (BorderBottomRightRadius s) (BorderBottomLeftRadius s) (BoxSizing s) (Display s) (Position s) (Top s) (Right s) (Bottom s) (Left s) (FlexDirection s) (FlexWrap s) (JustifyContent s) (AlignItems s) (AlignContent s) (Gap s) (FlexGrow s) (FlexShrink s) (FlexBasis s) (AlignSelf s) (Order s) (OverflowX s) (OverflowY s) (ZIndex s) (ZIndexSet s) (Color s) (FontFamily s) (FontSize s) (FontWeight s) (FontStyle s) (LineHeight s) (LineHeightUnit s) (TextAlign s) (TextDecoration s) (TextTransform s) (LetterSpacing s) (WordSpacing s) (WhiteSpace s) (BackgroundColor s) (BackgroundImage s) (BackgroundSize s) (BackgroundPosition s) (BackgroundRepeat s) (Opacity s) (Visibility s) (BoxShadow s) (Cursor s) (Transform s) (ListStyleType s) (ListStylePosition s) (BorderCollapse s) (BorderSpacing s).

Definition setMarginLeft {F : Type} (s : t F) (v : Length.t F) : t F :=
  mk (Width s) (Height s) (MinWidth s) (MaxWidth s) (MinHeight s) (MaxHeight s) (MarginTop s) (MarginRight s) (MarginBottom s) v (PaddingTop s) (PaddingRight s) (PaddingBottom s) (PaddingLeft s) (BorderTopWidth s) (BorderRightWidth s) (BorderBottomWidth s) (BorderLeftWidth s) (BorderTopColor s) (BorderRightColor s) (BorderBottomColor s) (BorderLeftColor s) (BorderTopStyle s) (BorderRightStyle s) (BorderBottomStyle s) (BorderLeftStyle s) (BorderTopLeftRadius s) (BorderTopRightRadius s) (BorderBottomRightRadius s) (BorderBottomLeftRadius s) (BoxSizing s) (Display s) (Position s) (Top s) (Right s) (Bottom s) (Left s) (FlexDirection s) (FlexWrap s) (JustifyContent s) (AlignItems s) (AlignContent s) (Gap s) (FlexGrow s) (FlexShrink s) (FlexBasis s) (AlignSelf s) (Order s) (OverflowX s) (OverflowY s) (ZIndex s) (ZIndexSet s) (Color s) (FontFamily s) (FontSize s) (FontWeight s) (FontStyle s) (LineHeight s) (LineHeightUnit s) (TextAlign s) (TextDecoration s) (TextTransform s) (LetterSpacing s) (WordSpacing s) (WhiteSpace s) (BackgroundColor s) (BackgroundImage s) (BackgroundSize s) (BackgroundPosition s) (BackgroundRepeat s) (Opacity s) (Visibility s) (BoxShadow s) (Cursor s) (Transform s) (ListStyleType s) (ListStylePosition s) (BorderCollapse s) (BorderSpacing s).

Definition setPaddingTop {F : Type} (s : t F) (v : Length.t F) : t F :=
  mk (Width s) (Height s) (MinWidth s) (MaxWidth s) (MinHeight s) (MaxHeight s) (MarginTop s) (MarginRight s) (MarginBottom s) (MarginLeft s) v (PaddingRight s) (PaddingBottom s) (PaddingLeft s) (BorderTopWidth s) (BorderRightWidth s) (BorderBottomWidth s) (BorderLeftWidth s) (BorderTopColor s) (BorderRightColor s) (BorderBottomColor s) (BorderLeftColor s) (BorderTopStyle s) (BorderRightStyle s) (BorderBottomStyle s) (BorderLeftStyle s) (BorderTopLeftRadius s) (BorderTopRightRadius s) (BorderBottomRightRadius s) (BorderBottomLeftRadius s) (BoxSizing s) (Display s) (Position s) (Top s) (Right s) (Bottom s) (Left s) (FlexDirection s) (FlexWrap s) (JustifyContent s) (AlignItems s) (AlignContent s) (Gap s) (FlexGrow s) (FlexShrink s) (FlexBasis s) (AlignSelf s) (Order s) (OverflowX s) (OverflowY s) (ZIndex s) (ZIndexSet s) (Color s) (FontFamily s) (FontSize s) (FontWeight s) (FontStyle s) (LineHeight s) (LineHeightUnit s) (TextAlign s) (TextDecoration s) (TextTransform s) (LetterSpacing s) (WordSpacing s) (WhiteSpace s) (BackgroundColor s) (BackgroundImage s) (BackgroundSize s) (BackgroundPosition s) (BackgroundRepeat s) (Opacity s) (Visibility s) (BoxShadow s) (Cursor s) (Transform s) (ListStyleType s) (ListStylePosition s) (BorderCollapse s) (BorderSpacing s).

Definition setPaddingRight {F : Type} (s : t F) (v : Length.t F) : t F :=
  mk (Width s) (Height s) (MinWidth s) (MaxWidth s) (MinHeight s) (MaxHeight s) (MarginTop s) (MarginRight s) (MarginBottom s) (MarginLeft s) (PaddingTop s) v (PaddingBottom s) (PaddingLeft s) (BorderTopWidth s) (BorderRightWidth s) (BorderBottomWidth s) (BorderLeftWidth s) (BorderTopColor s) (BorderRightColor s) (BorderBottomColor s) (BorderLeftColor s) (BorderTopStyle s) (BorderRightStyle s) (BorderBottomStyle s) (BorderLeftStyle s) (BorderTopLeftRadius s) (BorderTopRightRadius s) (BorderBottomRightRadius s) (BorderBottomLeftRadius s) (BoxSizing s) (Display s) (Position s) (Top s) (Right s) (Bottom s) (Left s) (FlexDirection s) (FlexWrap s) (JustifyContent s) (AlignItems s) (AlignContent s) (Gap s) (FlexGrow s) (FlexShrink s) (FlexBasis s) (AlignSelf s) (Order s) (OverflowX s) (OverflowY s) (ZIndex s) (ZIndexSet s) (Color s) (FontFamily s) (FontSize s) (FontWeight s) (FontStyle s) (LineHeight s) (LineHeightUnit s) (TextAlign s) (TextDecoration s) (TextTransform s) (LetterSpacing s) (WordSpacing s) (WhiteSpace s) (BackgroundColor s) (BackgroundImage s) (BackgroundSize s) (BackgroundPosition s) (BackgroundRepeat s) (Opacity s) (Visibility s) (BoxShadow s) (Cursor s) (Transform s) (ListStyleType s) (ListStylePosition s) (BorderCollapse s) (BorderSpacing s).

Definition setPaddingBottom {F : Type} (s : t F) (v : Length.t F) : t F :=
  mk (Width s) (Height s) (MinWidth s) (MaxWidth s) (MinHeight s) (MaxHeight s) (MarginTop s) (MarginRight s) (MarginBottom s) (MarginLeft s) (PaddingTop s) (PaddingRight s) v (PaddingLeft s) (BorderTopWidth s) (BorderRightWidth s) (BorderBottomWidth s) (BorderLeftWidth s) (BorderTopColor s) (BorderRightColor s) (BorderBottomColor s) (BorderLeftColor s) (BorderTopStyle s) (BorderRightStyle s) (BorderBottomStyle s) (BorderLeftStyle s) (BorderTopLeftRadius s) (BorderTopRightRadius s) (BorderBottomRightRadius s) (BorderBottomLeftRadius s) (BoxSizing s) (Display s) (Position s) (Top s) (Right s) (Bottom s) (Left s) (FlexDirection s) (FlexWrap s) (JustifyContent s) (AlignItems s) (AlignContent s) (Gap s) (FlexGrow s) (FlexShrink s) (FlexBasis s) (AlignSelf s) (Order s) (OverflowX s) (OverflowY s) (ZIndex s) (ZIndexSet s) (Color s) (FontFamily s) (FontSize s) (FontWeight s) (FontStyle s) (LineHeight s) (LineHeightUnit s) (TextAlign s) (TextDecoration s) (TextTransform s) (LetterSpacing s) (WordSpacing s) (WhiteSpace s) (BackgroundColor s) (BackgroundImage s) (BackgroundSize s) (BackgroundPosition s) (BackgroundRepeat s) (Opacity s) (Visibility s) (BoxShadow s) (Cursor s) (Transform s) (ListStyleType s) (ListStylePosition s) (BorderCollapse s) (BorderSpacing s).

Definition setPaddingLeft {F : Type} (s : t F) (v : Length.t F) : t F :=
  mk (Width s) (Height s) (MinWidth s) (MaxWidth s) (MinHeight s) (MaxHeight s) (MarginTop s) (MarginRight s) (MarginBottom s) (MarginLeft s) (PaddingTop s) (PaddingRight s) (PaddingBottom s) v (BorderTopWidth s) (BorderRightWidth s) (BorderBottomWidth s) (BorderLeftWidth s) (BorderTopColor s) (BorderRightColor s) (BorderBottomColor s) (BorderLeftColor s) (BorderTopStyle s) (BorderRightStyle s) (BorderBottomStyle s) (BorderLeftStyle s) (BorderTopLeftRadius s) (BorderTopRightRadius s) (BorderBottomRightRadius s) (BorderBottomLeftRadius s) (BoxSizing s) (Display s) (Position s) (Top s) (Right s) (Bottom s) (Left s) (FlexDirection s) (FlexWrap s) (JustifyContent s) (AlignItems s) (AlignContent s) (Gap s) (FlexGrow s) (FlexShrink s) (FlexBasis s) (AlignSelf s) (Order s) (OverflowX s) (OverflowY s) (ZIndex s) (ZIndexSet s) (Color s) (FontFamily s) (FontSize s) (FontWeight s) (FontStyle s) (LineHeight s) (LineHeightUnit s) (TextAlign s) (TextDecoration s) (TextTransform s) (LetterSpacing s) (WordSpacing s) (WhiteSpace s) (BackgroundColor s) (BackgroundImage s) (BackgroundSize s) (BackgroundPosition s) (BackgroundRepeat s) (Opacity s) (Visibility s) (BoxShadow s) (Cursor s) (Transform s) (ListStyleType s) (ListStylePosition s) (BorderCollapse s) (BorderSpacing s).

Definition setBorderTopWidth {F : Type} (s : t F) (v : Length.t F) : t F :=
  mk (Width s) (Height s) (MinWidth s) (MaxWidth s) (MinHeight s) (MaxHeight s) (MarginTop s) (MarginRight s) (MarginBottom s) (MarginLeft s) (PaddingTop s) (PaddingRight s) (PaddingBottom s) (PaddingLeft s) v (BorderRightWidth s) (BorderBottomWidth s) (BorderLeftWidth s) (BorderTopColor s) (BorderRightColor s) (BorderBottomColor s) (BorderLeftColor s) (BorderTopStyle s) (BorderRightStyle s) (BorderBottomStyle s) (BorderLeftStyle s) (BorderTopLeftRadius s) (BorderTopRightRadius s) (BorderBottomRightRadius s) (BorderBottomLeftRadius s) (BoxSizing s) (Display s) (Position s) (Top s) (Right s) (Bottom s) (Left s) (FlexDirection s) (FlexWrap s) (JustifyContent s) (AlignItems s) (AlignContent s) (Gap s) (FlexGrow s) (FlexShrink s) (FlexBasis s) (AlignSelf s) (Order s) (OverflowX s) (OverflowY s) (ZIndex s) (ZIndexSet s) (Color s) (FontFamily s) (FontSize s) (FontWeight s) (FontStyle s) (LineHeight s) (LineHeightUnit s) (TextAlign s) (TextDecoration s) (TextTransform s) (LetterSpacing s) (WordSpacing s) (WhiteSpace s) (BackgroundColor s) (BackgroundImage s) (BackgroundSize s) (BackgroundPosition s) (BackgroundRepeat s) (Opacity s) (Visibility s) (BoxShadow s) (Cursor s) (Transform s) (ListStyleType s) (ListStylePosition s) (BorderCollapse s) (BorderSpacing s).

Definition setBorderRightWidth {F : Type} (s : t F) (v : Length.t F) : t F :=
  mk (Width s) (Height s) (MinWidth s) (MaxWidth s) (MinHeight s) (MaxHeight s) (MarginTop s) (MarginRight s) (MarginBottom s) (MarginLeft s) (PaddingTop s) (PaddingRight s) (PaddingBottom s) (PaddingLeft s) (BorderTopWidth s) v (BorderBottomWidth s) (BorderLeftWidth s) (BorderTopColor s) (BorderRightColor s) (BorderBottomColor s) (BorderLeftColor s) (BorderTopStyle s) (BorderRightStyle s) (BorderBottomStyle s) (BorderLeftStyle s) (BorderTopLeftRadius s) (BorderTopRightRadius s) (BorderBottomRightRadius s) (BorderBottomLeftRadius s) (BoxSizing s) (Display s) (Position s) (Top s) (Right s) (Bottom s) (Left s) (FlexDirection s) (FlexWrap s) (JustifyContent s) (AlignItems s) (AlignContent s) (Gap s) (FlexGrow s) (FlexShrink s) (FlexBasis s) (AlignSelf s) (Order s) (OverflowX s) (OverflowY s) (ZIndex s) (ZIndexSet s) (Color s) (FontFamily s) (FontSize s) (FontWeight s) (FontStyle s) (LineHeight s) (LineHeightUnit s) (TextAlign s) (TextDecoration s) (TextTransform s) (LetterSpacing s) (WordSpacing s) (WhiteSpace s) (BackgroundColor s) (BackgroundImage s) (BackgroundSize s) (BackgroundPosition s) (BackgroundRepeat s) (Opacity s) (Visibility s) (BoxShadow s) (Cursor s) (Transform s) (ListStyleType s) (ListStylePosition s) (BorderCollapse s) (BorderSpacing s).

Definition setBorderBottomWidth {F : Type} (s : t F) (v : Length.t F) : t F :=
  mk (Width s) (Height s) (MinWidth s) (MaxWidth s) (MinHeight s) (MaxHeight s) (MarginTop s) (MarginRight s) (MarginBottom s) (MarginLeft s) (PaddingTop s) (PaddingRight s) (PaddingBottom s) (PaddingLeft s) (BorderTopWidth s) (BorderRightWidth s) v (BorderLeftWidth s) (BorderTopColor s) (BorderRightColor s) (BorderBottomColor s) (BorderLeftColor s) (BorderTopStyle s) (BorderRightStyle s) (BorderBottomStyle s) (BorderLeftStyle s) (BorderTopLeftRadius s) (BorderTopRightRadius s) (BorderBottomRightRadius s) (BorderBottomLeftRadius s) (BoxSizing s) (Display s) (Position s) (Top s) (Right s) (Bottom s) (Left s) (FlexDirection s) (FlexWrap s) (JustifyContent s) (AlignItems s) (AlignContent s) (Gap s) (FlexGrow s) (FlexShrink s) (FlexBasis s) (AlignSelf s) (Order s) (OverflowX s) (OverflowY s) (ZIndex s) (ZIndexSet s) (Color s) (FontFamily s) (FontSize s) (FontWeight s) (FontStyle s) (LineHeight s) (LineHeightUnit s) (TextAlign s) (TextDecoration s) (TextTransform s) (LetterSpacing s) (WordSpacing s) (WhiteSpace s) (BackgroundColor s) (BackgroundImage s) (BackgroundSize s) (BackgroundPosition s) (BackgroundRepeat s) (Opacity s) (Visibility s) (BoxShadow s) (Cursor s) (Transform s) (ListStyleType s) (ListStylePosition s) (BorderCollapse s) (BorderSpacing s).

Definition setBorderLeftWidth {F : Type} (s : t F) (v : Length.t F) : t F :=
  mk (Width s) (Height s) (MinWidth s) (MaxWidth s) (MinHeight s) (MaxHeight s) (MarginTop s) (MarginRight s) (MarginBottom s) (MarginLeft s) (PaddingTop s) (PaddingRight s) (PaddingBottom s) (PaddingLeft s) (BorderTopWidth s) (BorderRightWidth s) (BorderBottomWidth s) v (BorderTopColor s) (BorderRightColor s) (BorderBottomColor s) (BorderLeftColor s) (BorderTopStyle s) (BorderRightStyle s) (BorderBottomStyle s) (BorderLeftStyle s) (BorderTopLeftRadius s) (BorderTopRightRadius s) (BorderBottomRightRadius s) (BorderBottomLeftRadius s) (BoxSizing s) (Display s) (Position s) (Top s) (Right s) (Bottom s) (Left s) (FlexDirection s) (FlexWrap s) (JustifyContent s) (AlignItems s) (AlignContent s) (Gap s) (FlexGrow s) (FlexShrink s) (FlexBasis s) (AlignSelf s) (Order s) (OverflowX s) (OverflowY s) (ZIndex s) (ZIndexSet s) (Color s) (FontFamily s) (FontSize s) (FontWeight s) (FontStyle s) (LineHeight s) (LineHeightUnit s) (TextAlign s) (TextDecoration s) (TextTransform s) (LetterSpacing s) (WordSpacing s) (WhiteSpace s) (BackgroundColor s) (BackgroundImage s) (BackgroundSize s) (BackgroundPosition s) (BackgroundRepeat s) (Opacity s) (Visibility s) (BoxShadow s) (Cursor s) (Transform s) (ListStyleType s) (ListStylePosition s) (BorderCollapse s) (BorderSpacing s).


End ComputedStyle.

Section NewStyle.
Context {F : Type}.

Definition NewComputedStyle `{Float64 F} : ComputedStyle.t F :=
  ComputedStyle.mk
    Auto
    Auto
    Zero
    (Length.mk (fofZ 0) UnitNone)
    Zero
    (Length.mk (fofZ 0) UnitNone)
    (Length.mk (fofZ 0) UnitPx)
    (Length.mk (fofZ 0) UnitPx)
    (Length.mk (fofZ 0) UnitPx)
    (Length.mk (fofZ 0) UnitPx)
    (Length.mk (fofZ 0) UnitPx)
    (Length.mk (fofZ 0) UnitPx)
    (Length.mk (fofZ 0) UnitPx)
    (Length.mk (fofZ 0) UnitPx)
    (Length.mk (fofZ 0) UnitPx)
    (Length.mk (fofZ 0) UnitPx)
    (Length.mk (fofZ 0) UnitPx)
    (Length.mk (fofZ 0) UnitPx)
    (Color.mk 0 0 0 0)
    (Color.mk 0 0 0 0)
    (Color.mk 0 0 0 0)
    (Color.mk 0 0 0 0)
    ""
    ""
    ""
    ""
    (Length.mk (fofZ 0) UnitPx)
    (Length.mk (fofZ 0) UnitPx)
    (Length.mk (fofZ 0) UnitPx)
    (Length.mk (fofZ 0) UnitPx)
    "content-box"
    "inline"
    "static"
    (Length.mk (fofZ 0) UnitPx)
    (Length.mk (fofZ 0) UnitPx)
    (Length.mk (fofZ 0) UnitPx)
    (Length.mk (fofZ 0) UnitPx)
    "row"
    "nowrap"
    "flex-start"
    "stretch"
    "stretch"
    (Length.mk (fofZ 0) UnitPx)
    (fofZ 0)
    (fofZ 1)
    Auto
    "auto"
    0
    "visible"
    "visible"
    0
    false
    Black
    "sans-serif"
    (fofZ 16)
    400
    "normal"
    (fdec 12 10)
    "number"
    "start"
    "none"
    "none"
    (Length.mk (fofZ 0) UnitPx)
    (Length.mk (fofZ 0) UnitPx)
    "normal"
    Transparent
    ""
    ""
    ""
    ""
    (fofZ 1)
    "visible"
    ""
    "auto"
    ""
    "disc"
    "outside"
    "separate"
    (Length.mk (fofZ 0) UnitPx).


End NewStyle.

End Values.

(** ** Package [layout]: box model and flexbox *)

Module Layout.
Import Values.

Module BoxDimensions.
Record t (F : Type) := mk {
  ContentWidth : F;
  ContentHeight : F;
  PaddingTop : F;
  PaddingRight : F;
  PaddingBottom : F;
  PaddingLeft : F;
  BorderTop : F;
  BorderRight : F;
  BorderBottom : F;
  BorderLeft : F;
  MarginTop : F;
  MarginRight : F;
  MarginBottom : F;
  MarginLeft : F;
  X : F;
  Y : F
}.
Arguments mk {F}.
Arguments ContentWidth {F}.
Arguments ContentHeight {F}.
Arguments PaddingTop {F}.
Arguments PaddingRight {F}.
Arguments PaddingBottom {F}.
Arguments PaddingLeft {F}.
Arguments BorderTop {F}.
Arguments BorderRight {F}.
Arguments BorderBottom {F}.
Arguments BorderLeft {F}.
Arguments MarginTop {F}.
Arguments MarginRight {F}.
Arguments MarginBottom {F}.
Arguments MarginLeft {F}.
Arguments X {F}.
Arguments Y {F}.
End BoxDimensions.

Section Box.
Context {F : Type} `{Float64 F}.
Local Open Scope f64_scope.

Definition SetContentHeight (b : BoxDimensions.t F) (height : F) : BoxDimensions.t F :=
  BoxDimensions.mk (BoxDimensions.ContentWidth b) height
    (BoxDimensions.PaddingTop b) (BoxDimensions.PaddingRight b)
    (BoxDimensions.PaddingBottom b) (BoxDimensions.PaddingLeft b)
    (BoxDimensions.BorderTop b) (BoxDimensions.BorderRight b)
    (BoxDimensions.BorderBottom b) (BoxDimensions.BorderLeft b)
    (BoxDimensions.MarginTop b) (BoxDimensions.MarginRight b)
    (BoxDimensions.MarginBottom b) (BoxDimensions.MarginLeft b)
    (BoxDimensions.X b) (BoxDimensions.Y b).

(** [ComputeBoxDimensions].  The fields of [box] that the source assigns
    one after the other are the local names of the same spelling. *)
Definition ComputeBoxDimensions (style : ComputedStyle.t F) (containingWidth containingHeight : F)
  : BoxDimensions.t F :=
  let ctx := ResolveContext.mk (ComputedStyle.FontSize style) (fofZ 16)
               containingWidth containingHeight (fofZ 1024) (fofZ 768)
               (ComputedStyle.FontSize style * fdec 55 100)
               (ComputedStyle.FontSize style * fdec 5 10) in
  let marginTop := Resolve (ComputedStyle.MarginTop style) ctx in
  let marginRight := Resolve (ComputedStyle.MarginRight style) ctx in
  let marginBottom := Resolve (ComputedStyle.MarginBottom style) ctx in
  let marginLeft := Resolve (ComputedStyle.MarginLeft style) ctx in
  let paddingTop := Resolve (ComputedStyle.PaddingTop style) ctx in
  let paddingRight := Resolve (ComputedStyle.PaddingRight style) ctx in
  let paddingBottom := Resolve (ComputedStyle.PaddingBottom style) ctx in
  let paddingLeft := Resolve (ComputedStyle.PaddingLeft style) ctx in
  let borderTop := Resolve (ComputedStyle.BorderTopWidth style) ctx in
  let borderRight := Resolve (ComputedStyle.BorderRightWidth style) ctx in
  let borderBottom := Resolve (ComputedStyle.BorderBottomWidth style) ctx in
  let borderLeft := Resolve (ComputedStyle.BorderLeftWidth style) ctx in
  let marginWidth := marginLeft + marginRight in
  let borderWidth := borderLeft + borderRight in
  let paddingWidth := paddingLeft + paddingRight in
  let borderHeight := borderTop + borderBottom in
  let paddingHeight := paddingTop + paddingBottom in
  (* content width *)
  let contentWidth :=
    if IsAuto (ComputedStyle.Width style) then
      containingWidth - marginWidth - borderWidth - paddingWidth
    else
      let resolvedWidth := Resolve (ComputedStyle.Width style) ctx in
      if String.eqb (ComputedStyle.BoxSizing style) "border-box" then
        let w := resolvedWidth - paddingWidth - borderWidth in
        if w <? fofZ 0 then fofZ 0 else w
      else resolvedWidth in
  let contentWidth :=
    if negb (bool_decide (Length.Unit (ComputedStyle.MinWidth style) = UnitNone)) then
      let minW := Resolve (ComputedStyle.MinWidth style) ctx in
      if contentWidth <? minW then minW else contentWidth
    else contentWidth in
  let contentWidth :=
    if negb (bool_decide (Length.Unit (ComputedStyle.MaxWidth style) = UnitNone)) then
      let maxW := Resolve (ComputedStyle.MaxWidth style) ctx in
      if contentWidth >? maxW then maxW else contentWidth
    else contentWidth in
  (* content height *)
  let contentHeight :=
    if IsAuto (ComputedStyle.Height style) then fofZ 0
    else
      let resolvedHeight := ResolveHeight (ComputedStyle.Height style) ctx in
      if String.eqb (ComputedStyle.BoxSizing style) "border-box" then
        let hgt := resolvedHeight - paddingHeight - borderHeight in
        if hgt <? fofZ 0 then fofZ 0 else hgt
      else resolvedHeight in
  let contentHeight :=
    if negb (bool_decide (Length.Unit (ComputedStyle.MinHeight style) = UnitNone)) then
      let minH := ResolveHeight (ComputedStyle.MinHeight style) ctx in
      if contentHeight <? minH then minH else contentHeight
    else contentHeight in
  let contentHeight :=
    if negb (bool_decide (Length.Unit (ComputedStyle.MaxHeight style) = UnitNone)) then
      let maxH := ResolveHeight (ComputedStyle.MaxHeight style) ctx in
      if contentHeight >? maxH then maxH else contentHeight
    else contentHeight in
  BoxDimensions.mk contentWidth contentHeight
    paddingTop paddingRight paddingBottom paddingLeft
    borderTop borderRight borderBottom borderLeft
    marginTop marginRight marginBottom marginLeft
    (fofZ 0) (fofZ 0).

End Box.

(** *** Flexbox *)

Module FlexItem.
Record t (F : Type) := mk {
  Node : nat;
  MainSize : F;
  CrossSize : F;
  FlexBaseSize : F;
  FlexGrow : F;
  FlexShrink : F;
  MainPos : F;
  CrossPos : F;
  FinalMainSize : F;
  FinalCrossSize : F;
  MarginMainStart : F;
  MarginMainEnd : F;
  MarginCrossStart : F;
  MarginCrossEnd : F;
  AlignSelf : string
}.
Arguments mk {F}.
Arguments Node {F}.
Arguments MainSize {F}.
Arguments CrossSize {F}.
Arguments FlexBaseSize {F}.
Arguments FlexGrow {F}.
Arguments FlexShrink {F}.
Arguments MainPos {F}.
Arguments CrossPos {F}.
Arguments FinalMainSize {F}.
Arguments FinalCrossSize {F}.
Arguments MarginMainStart {F}.
Arguments MarginMainEnd {F}.
Arguments MarginCrossStart {F}.
Arguments MarginCrossEnd {F}.
Arguments AlignSelf {F}.

Definition setFinalMainSize {F : Type} (i : t F) (v : F) : t F :=
  mk (Node i) (MainSize i) (CrossSize i) (FlexBaseSize i) (FlexGrow i) (FlexShrink i)
     (MainPos i) (CrossPos i) v (FinalCrossSize i)
     (MarginMainStart i) (MarginMainEnd i) (MarginCrossStart i) (MarginCrossEnd i) (AlignSelf i).

Definition setMainPos {F : Type} (i : t F) (v : F) : t F :=
  mk (Node i) (MainSize i) (CrossSize i) (FlexBaseSize i) (FlexGrow i) (FlexShrink i)
     v (CrossPos i) (FinalMainSize i) (FinalCrossSize i)
     (MarginMainStart i) (MarginMainEnd i) (MarginCrossStart i) (MarginCrossEnd i) (AlignSelf i).

Definition setFinalCrossSize {F : Type} (i : t F) (v : F) : t F :=
  mk (Node i) (MainSize i) (CrossSize i) (FlexBaseSize i) (FlexGrow i) (FlexShrink i)
     (MainPos i) (CrossPos i) (FinalMainSize i) v
     (MarginMainStart i) (MarginMainEnd i) (MarginCrossStart i) (MarginCrossEnd i) (AlignSelf i).

Definition setCrossPos {F : Type} (i : t F) (v : F) : t F :=
  mk (Node i) (MainSize i) (CrossSize i) (FlexBaseSize i) (FlexGrow i) (FlexShrink i)
     (MainPos i) v (FinalMainSize i) (FinalCrossSize i)
     (MarginMainStart i) (MarginMainEnd i) (MarginCrossStart i) (MarginCrossEnd i) (AlignSelf i).
End FlexItem.

Module FlexLine.
Record t (F : Type) := mk {
  Items : list (FlexItem.t F);
  MainSize : F;
  CrossSize : F;
  MainStart : F;
  CrossStart : F
}.
Arguments mk {F}.
Arguments Items {F}.
Arguments MainSize {F}.
Arguments CrossSize {F}.
Arguments MainStart {F}.
Arguments CrossStart {F}.
End FlexLine.

Module FlexContainer.
Record t (F : Type) := mk {
  Width : F;
  Height : F;
  Direction : string;
  Wrap : string;
  JustifyContent : string;
  AlignItems : string;
  AlignContent : string;
  Gap : F;
  Items : list (FlexItem.t F);
  Lines : list (FlexLine.t F)
}.
Arguments mk {F}.
Arguments Width {F}.
Arguments Height {F}.
Arguments Direction {F}.
Arguments Wrap {F}.
Arguments JustifyContent {F}.
Arguments AlignItems {F}.
Arguments AlignContent {F}.
Arguments Gap {F}.
Arguments Items {F}.
Arguments Lines {F}.
End FlexContainer.

(** The items of the source are pointers, shared by the container and
    its lines and updated in place.  Here an item is a value, a line
    holds its items, and after [Layout] the items of the container are
    those of its lines: every pointer is taken to stand once in
    [fc.Items]. *)
Section Flex.
Context {F : Type} `{Float64 F}.
Local Open Scope f64_scope.

Abbreviation Item := (FlexItem.t F).
Abbreviation Line := (FlexLine.t F).
Abbreviation Container := (FlexContainer.t F).

(** [float64(n)] for a length or a count. *)
Definition ofNat (n : nat) : F := fofZ (Z.of_nat n).

(** [item.FlexBaseSize + item.MarginMainStart + item.MarginMainEnd]. *)
Definition outerBase (item : Item) : F :=
  FlexItem.FlexBaseSize item + FlexItem.MarginMainStart item + FlexItem.MarginMainEnd item.

(** [item.FinalMainSize + item.MarginMainStart + item.MarginMainEnd]. *)
Definition outerFinal (item : Item) : F :=
  FlexItem.FinalMainSize item + FlexItem.MarginMainStart item + FlexItem.MarginMainEnd item.

(** A loop [for _, item := range items { total += f(item) }] from [total = 0]. *)
Definition total (f : Item -> F) (items : list Item) : F :=
  fold_left (fun acc item => acc + f item) items (fofZ 0).

(** [if len(items) > 1 { used += fc.Gap * float64(len(items)-1) }]. *)
Definition withGaps (gap : F) (items : list Item) (used : F) : F :=
  if (1 <? length items)%nat then used + gap * ofNat (length items - 1) else used.

Definition emptyLine : Line := FlexLine.mk [] (fofZ 0) (fofZ 0) (fofZ 0) (fofZ 0).

Definition setLineItems (l : Line) (items : list Item) : Line :=
  FlexLine.mk items (FlexLine.MainSize l) (FlexLine.CrossSize l)
              (FlexLine.MainStart l) (FlexLine.CrossStart l).

Definition setLineMainSize (l : Line) (v : F) : Line :=
  FlexLine.mk (FlexLine.Items l) v (FlexLine.CrossSize l)
              (FlexLine.MainStart l) (FlexLine.CrossStart l).

Definition setLineCrossSize (l : Line) (v : F) : Line :=
  FlexLine.mk (FlexLine.Items l) (FlexLine.MainSize l) v
              (FlexLine.MainStart l) (FlexLine.CrossStart l).

Definition setLineCrossStart (l : Line) (v : F) : Line :=
  FlexLine.mk (FlexLine.Items l) (FlexLine.MainSize l) (FlexLine.CrossSize l)
              (FlexLine.MainStart l) v.

(** The state of the wrapping loop of [collectIntoLines]. *)
Definition wrapStep (gap mainSize : F) (st : list Line * Line * F) (item : Item)
  : list Line * Line * F :=
  let '(lines, currentLine, currentMainSize) := st in
  let itemSize := outerBase item in
  let itemSize := if (0 <? length (FlexLine.Items currentLine))%nat then itemSize + gap else itemSize in
  let '(lines, currentLine, currentMainSize) :=
    if (0 <? length (FlexLine.Items currentLine))%nat && (currentMainSize + itemSize >? mainSize)
    then (lines ++ [setLineMainSize currentLine currentMainSize], emptyLine, outerBase item)
    else (lines, currentLine, currentMainSize + itemSize) in
  (lines, setLineItems currentLine (FlexLine.Items currentLine ++ [item]), currentMainSize).

Definition collectIntoLines (fc : Container) (mainSize : F) (isRow : bool) : list Line :=
  if String.eqb (FlexContainer.Wrap fc) "nowrap" || String.eqb (FlexContainer.Wrap fc) "" then
    let items := FlexContainer.Items fc in
    [setLineMainSize (setLineItems emptyLine items)
       (withGaps (FlexContainer.Gap fc) items (total outerBase items))]
  else
    let '(lines, currentLine, currentMainSize) :=
      fold_left (wrapStep (FlexContainer.Gap fc) mainSize) (FlexContainer.Items fc)
                ([], emptyLine, fofZ 0) in
    if (0 <? length (FlexLine.Items currentLine))%nat
    then lines ++ [setLineMainSize currentLine currentMainSize]
    else lines.

(** The free space of a line: [availableMain - usedSpace]. *)
Definition freeSpaceOf (gap : F) (items : list Item) (availableMain : F) : F :=
  availableMain - withGaps gap items (total outerBase items).

Definition resolveFlexibleLengths (fc : Container) (line : Line) (availableMain : F)
    (isRow : bool) : Line :=
  let items := FlexLine.Items line in
  let freeSpace := freeSpaceOf (FlexContainer.Gap fc) items availableMain in
  let items' :=
    if freeSpace >? fofZ 0 then
      let totalGrow := total FlexItem.FlexGrow items in
      if totalGrow >? fofZ 0 then
        (fun item => FlexItem.setFinalMainSize item
           (FlexItem.FlexBaseSize item + freeSpace * FlexItem.FlexGrow item / totalGrow))
          <$> items
      else (fun item => FlexItem.setFinalMainSize item (FlexItem.FlexBaseSize item)) <$> items
    else if freeSpace <? fofZ 0 then
      let totalShrink :=
        total (fun item => FlexItem.FlexShrink item * FlexItem.FlexBaseSize item) items in
      if totalShrink >? fofZ 0 then
        (fun item =>
           let shrinkRatio := FlexItem.FlexShrink item * FlexItem.FlexBaseSize item / totalShrink in
           let final := FlexItem.FlexBaseSize item + freeSpace * shrinkRatio in
           FlexItem.setFinalMainSize item (if final <? fofZ 0 then fofZ 0 else final))
          <$> items
      else (fun item => FlexItem.setFinalMainSize item (FlexItem.FlexBaseSize item)) <$> items
    else (fun item => FlexItem.setFinalMainSize item (FlexItem.FlexBaseSize item)) <$> items in
  setLineItems line items'.

(** The loop that positions the items: [i] counts them. *)
Fixpoint placeItems (gap spacing : F) (numItems : nat) (items : list Item) (i : nat) (pos : F)
  : list Item :=
  match items with
  | [] => []
  | item :: rest =>
      let item' := FlexItem.setMainPos item (pos + FlexItem.MarginMainStart item) in
      let pos := pos + (FlexItem.MarginMainStart item + FlexItem.FinalMainSize item
                        + FlexItem.MarginMainEnd item) in
      let pos := if (i <? numItems - 1)%nat then pos + (gap + spacing) else pos in
      item' :: placeItems gap spacing numItems rest (S i) pos
  end.

(** The [switch fc.JustifyContent]: the starting position and the
    spacing between items. *)
Definition justify (jc : string) (freeSpace : F) (numItems : nat) : F * F :=
  if inList jc ["flex-start"; "start"; ""] then (fofZ 0, fofZ 0)
  else if inList jc ["flex-end"; "end"] then (freeSpace, fofZ 0)
  else if String.eqb jc "center" then (freeSpace / fofZ 2, fofZ 0)
  else if String.eqb jc "space-between" then
    (fofZ 0, if (1 <? numItems)%nat then freeSpace / ofNat (numItems - 1) else fofZ 0)
  else if String.eqb jc "space-around" then
    let spacing := freeSpace / ofNat numItems in (spacing / fofZ 2, spacing)
  else if String.eqb jc "space-evenly" then
    let spacing := freeSpace / ofNat (numItems + 1)%nat in (spacing, spacing)
  else (fofZ 0, fofZ 0).

Definition alignMainAxis (fc : Container) (line : Line) (mainSize : F) (isReverse : bool)
  : Line :=
  let items := FlexLine.Items line in
  let usedSpace := withGaps (FlexContainer.Gap fc) items (total outerFinal items) in
  let freeSpace := mainSize - usedSpace in
  let freeSpace := if freeSpace <? fofZ 0 then fofZ 0 else freeSpace in
  let numItems := length items in
  let '(startPos, spacing) := justify (FlexContainer.JustifyContent fc) freeSpace numItems in
  let placed :=
    if isReverse
    then rev (placeItems (FlexContainer.Gap fc) spacing numItems (rev items) 0 startPos)
    else placeItems (FlexContainer.Gap fc) spacing numItems items 0 startPos in
  setLineItems line placed.

Definition effectiveAlign (fc : Container) (item : Item) : string :=
  let align := FlexItem.AlignSelf item in
  if String.eqb align "" || String.eqb align "auto" then FlexContainer.AlignItems fc else align.

Definition determineCrossSizes (fc : Container) (lines : list Line) : list Line :=
  (fun line =>
     let maxCross :=
       fold_left (fun maxCross item =>
                    let itemCross := FlexItem.CrossSize item + FlexItem.MarginCrossStart item
                                     + FlexItem.MarginCrossEnd item in
                    if itemCross >? maxCross then itemCross else maxCross)
                 (FlexLine.Items line) (fofZ 0) in
     let items :=
       (fun item =>
          if String.eqb (effectiveAlign fc item) "stretch"
          then FlexItem.setFinalCrossSize item
                 (maxCross - FlexItem.MarginCrossStart item - FlexItem.MarginCrossEnd item)
          else FlexItem.setFinalCrossSize item (FlexItem.CrossSize item))
         <$> FlexLine.Items line in
     setLineItems (setLineCrossSize line maxCross) items)
    <$> lines.

(** The loop that stacks the lines. *)
Fixpoint stackLines (gap lineSpacing : F) (lines : list Line) (crossPos : F) : list Line :=
  match lines with
  | [] => []
  | line :: rest =>
      setLineCrossStart line crossPos
      :: stackLines gap lineSpacing rest (crossPos + (FlexLine.CrossSize line + gap + lineSpacing))
  end.

(** The [switch fc.AlignContent]: where the first line starts, the
    spacing between lines, and the lines (stretched or not). *)
Definition alignContent (ac : string) (freeCross : F) (lines : list Line)
  : F * F * list Line :=
  let numLines := length lines in
  if inList ac ["flex-start"; "start"; ""] then (fofZ 0, fofZ 0, lines)
  else if inList ac ["flex-end"; "end"] then (freeCross, fofZ 0, lines)
  else if String.eqb ac "center" then (freeCross / fofZ 2, fofZ 0, lines)
  else if String.eqb ac "space-between" then
    (fofZ 0, (if (1 <? numLines)%nat then freeCross / ofNat (numLines - 1) else fofZ 0), lines)
  else if String.eqb ac "space-around" then
    let lineSpacing := freeCross / ofNat numLines in (lineSpacing / fofZ 2, lineSpacing, lines)
  else if String.eqb ac "stretch" then
    (fofZ 0, fofZ 0,
     if (0 <? numLines)%nat then
       let extra := freeCross / ofNat numLines in
       (fun line => setLineCrossSize line (FlexLine.CrossSize line + extra)) <$> lines
     else lines)
  else (fofZ 0, fofZ 0, lines).

(** The [switch align] that positions an item in its line. *)
Definition alignItem (fc : Container) (line : Line) (item : Item) : Item :=
  let align := effectiveAlign fc item in
  let lineSize := FlexLine.CrossSize line in
  let itemSize := FlexItem.FinalCrossSize item + FlexItem.MarginCrossStart item
                  + FlexItem.MarginCrossEnd item in
  if inList align ["flex-start"; "start"] then
    FlexItem.setCrossPos item (FlexLine.CrossStart line + FlexItem.MarginCrossStart item)
  else if inList align ["flex-end"; "end"] then
    FlexItem.setCrossPos item
      (FlexLine.CrossStart line + lineSize - itemSize + FlexItem.MarginCrossStart item)
  else if String.eqb align "center" then
    FlexItem.setCrossPos item
      (FlexLine.CrossStart line + (lineSize - itemSize) / fofZ 2
       + FlexItem.MarginCrossStart item)
  else if inList align ["stretch"; ""; "baseline"] then
    FlexItem.setCrossPos item (FlexLine.CrossStart line + FlexItem.MarginCrossStart item)
  else item.

Definition alignCrossAxis (fc : Container) (lines : list Line) (availableCross : F)
  : list Line :=
  let totalCross :=
    fold_left (fun acc line => acc + FlexLine.CrossSize line) lines (fofZ 0) in
  let totalCross :=
    if (1 <? length lines)%nat
    then totalCross + FlexContainer.Gap fc * ofNat (length lines - 1) else totalCross in
  let freeCross := availableCross - totalCross in
  let freeCross := if freeCross <? fofZ 0 then fofZ 0 else freeCross in
  let '(lineStart, lineSpacing, lines) :=
    alignContent (FlexContainer.AlignContent fc) freeCross lines in
  let lines := stackLines (FlexContainer.Gap fc) lineSpacing lines lineStart in
  (fun line => setLineItems line (alignItem fc line <$> FlexLine.Items line)) <$> lines.

Definition setLines (fc : Container) (lines : list Line) : Container :=
  FlexContainer.mk (FlexContainer.Width fc) (FlexContainer.Height fc)
    (FlexContainer.Direction fc) (FlexContainer.Wrap fc) (FlexContainer.JustifyContent fc)
    (FlexContainer.AlignItems fc) (FlexContainer.AlignContent fc) (FlexContainer.Gap fc)
    (concat (FlexLine.Items <$> lines)) lines.

Definition isRowOf (fc : Container) : bool :=
  String.eqb (FlexContainer.Direction fc) "row"
  || String.eqb (FlexContainer.Direction fc) "row-reverse".

Definition mainSizeOf (fc : Container) : F :=
  if isRowOf fc then FlexContainer.Width fc else FlexContainer.Height fc.

(** [fc.Layout()]: the container after the call. *)
Definition Layout (fc : Container) : Container :=
  if (length (FlexContainer.Items fc) =? 0)%nat then fc
  else
    let isRow := isRowOf fc in
    let isReverse := String.eqb (FlexContainer.Direction fc) "row-reverse"
                     || String.eqb (FlexContainer.Direction fc) "column-reverse" in
    let mainSize := mainSizeOf fc in
    let crossSize := if isRow then FlexContainer.Height fc else FlexContainer.Width fc in
    let lines := collectIntoLines fc mainSize isRow in
    let lines := (fun line => resolveFlexibleLengths fc line mainSize isRow) <$> lines in
    let lines := (fun line => alignMainAxis fc line mainSize isReverse) <$> lines in
    let lines := determineCrossSizes fc lines in
    let lines := alignCrossAxis fc lines crossSize in
    setLines fc lines.

(** What the later steps of [Layout] leave alone: a reading [g] of an
    item that does not depend on its position nor on its cross size. *)
Definition mainReading {Y : Type} (g : FlexItem.t F -> Y) : Prop :=
  (forall item v, g (FlexItem.setMainPos item v) = g item)
  /\ (forall item v, g (FlexItem.setFinalCrossSize item v) = g item)
  /\ (forall item v, g (FlexItem.setCrossPos item v) = g item).

(** The line of a container that does not wrap. *)
Definition singleLine (fc : Container) : Line :=
  setLineMainSize (setLineItems emptyLine (FlexContainer.Items fc))
    (withGaps (FlexContainer.Gap fc) (FlexContainer.Items fc)
       (total outerBase (FlexContainer.Items fc))).

Definition noWrap (fc : Container) : Prop :=
  FlexContainer.Wrap fc = "nowrap" \/ FlexContainer.Wrap fc = "".

(** Proportional growth, as the specification words it: every item of
    a line grows by the share of the free space that its grow factor
    has in the total of the line, and by nothing when that total is
    not positive. *)
Definition grown (gap mainSize : F) (line : Line) : list F :=
  let items := FlexLine.Items line in
  let free := freeSpaceOf gap items mainSize in
  let totalGrow := total FlexItem.FlexGrow items in
  (fun item =>
     if totalGrow >? fofZ 0
     then FlexItem.FlexBaseSize item + free * FlexItem.FlexGrow item / totalGrow
     else FlexItem.FlexBaseSize item) <$> items.

End Flex.

(** The sum of a list of rationals. *)
Definition Qsum (l : list Q) : Q := foldr Qplus 0%Q l.

(** [Σ(item.final + margins) + gaps] over the items of a container. *)
Definition occupied `{Float64 F} (fc : FlexContainer.t F) : F :=
  withGaps (FlexContainer.Gap fc) (FlexContainer.Items fc)
           (total outerFinal (FlexContainer.Items fc)).

(** The free space of the only line of a container that does not wrap. *)
Definition freeSpace `{Float64 F} (fc : FlexContainer.t F) : F :=
  freeSpaceOf (FlexContainer.Gap fc) (FlexContainer.Items fc) (mainSizeOf fc).

End Layout.
(** ** Statements of the specification and its scenarios *)

(** *** Inheritance, as the specification words it *)

Module InheritanceSpec.
Import Css.

Section Whitelist.
Context {F : Type} `{Float64 F}.

(** One property of the whitelist, read by [get]: a value of the child
    that is the default of its tag is replaced by the value of the
    parent, any other value of the child stays. *)
Definition copiedWhenDefault {X : Type} (get : ComputedStyle.t F -> X)
    (tag : string) (child parent result : ComputedStyle.t F) : Prop :=
  (get child = get (DefaultForTag tag) -> get result = get parent)
  /\ (get child <> get (DefaultForTag tag) -> get result = get child).

(** The seven properties of the whitelist. *)
Definition inheritsWhitelist (tag : string) (child parent result : ComputedStyle.t F) : Prop :=
  copiedWhenDefault ComputedStyle.Color tag child parent result
  /\ copiedWhenDefault ComputedStyle.FontFamily tag child parent result
  /\ copiedWhenDefault ComputedStyle.FontSize tag child parent result
  /\ copiedWhenDefault ComputedStyle.FontWeight tag child parent result
  /\ copiedWhenDefault ComputedStyle.LineHeight tag child parent result
  /\ copiedWhenDefault ComputedStyle.TextAlign tag child parent result
  /\ copiedWhenDefault ComputedStyle.Visibility tag child parent result.

End Whitelist.

End InheritanceSpec.

(** *** The forms of a color, as the specification lists them *)

Module ColorSpec.


End ColorSpec.

(** *** Scenarios *)

Module Scenarios.
Import Dom.

Section Flex.
Import Layout.
Context {F : Type} `{Float64 F}.

(** An item with a base size and a grow factor, no margins. *)
Definition flexItem (node : nat) (basis grow : F) : FlexItem.t F :=
  FlexItem.mk node (fofZ 0) (fofZ 0) basis grow (fofZ 1)
    (fofZ 0) (fofZ 0) (fofZ 0) (fofZ 0)
    (fofZ 0) (fofZ 0) (fofZ 0) (fofZ 0) "".

(** A row container that does not wrap, without gap. *)
Definition rowContainer (width height : F) (items : list (FlexItem.t F)) : FlexContainer.t F :=
  FlexContainer.mk width height "row" "nowrap" "flex-start" "stretch" "stretch"
    (fofZ 0) items [].

(** Scenario D: main size 300, three items of base size 0 and grow factor 1. *)
Definition scenarioD : FlexContainer.t F :=
  rowContainer (fofZ 300) (fofZ 50)
    [flexItem 0 (fofZ 0) (fofZ 1); flexItem 1 (fofZ 0) (fofZ 1); flexItem 2 (fofZ 0) (fofZ 1)].

(** Main size 300 and one item of base size 100 that does not grow. *)
Definition rigidRow : FlexContainer.t F :=
  rowContainer (fofZ 300) (fofZ 50) [flexItem 0 (fofZ 100) (fofZ 0)].

(** Main size 300, a gap of 10, base sizes 50 and 100, grow factors 1 and 2. *)
Definition growingRow : FlexContainer.t F :=
  FlexContainer.mk (fofZ 300) (fofZ 50) "row" "nowrap" "flex-start" "stretch" "stretch"
    (fofZ 10) [flexItem 0 (fofZ 50) (fofZ 1); flexItem 1 (fofZ 100) (fofZ 2)] [].

End Flex.

(** Scenario D after [Layout], over the rationals and in binary64. *)
Definition laidOutD_exact : Layout.FlexContainer.t Q :=
  Layout.Layout (H := Q_float) (scenarioD (H := Q_float)).

Definition laidOutD_binary64 : Layout.FlexContainer.t float :=
  Layout.Layout (H := prim_float) (scenarioD (H := prim_float)).

Section Cascade.
Import Css.
Local Existing Instance ascii_strings.
Local Existing Instance Q_float.

(** The cases of [ApplyProperty] for the properties whose value is kept
    as text; the other cases leave the style as it is here. *)
Definition ApplyProperty_text (style : ComputedStyle.t Q) (property value : string)
  : ComputedStyle.t Q :=
  let value := TrimSpace value in
  if String.eqb property "display" then ComputedStyle.setDisplay style value
  else if String.eqb property "visibility" then ComputedStyle.setVisibility style value
  else if String.eqb property "font-family" then ComputedStyle.setFontFamily style value
  else if String.eqb property "text-align" then ComputedStyle.setTextAlign style value
  else style.

(** A document of one element with an id, a class and a style attribute. *)
Definition page : Store (ComputedStyle.t Q) :=
  match ParseHTML "<div id='a' class='c' style='display: flex'>x</div>" with
  | Ok h => h
  | _ => []
  end.

(** Its element, the node at index 1. *)
Definition pageDiv : Node (ComputedStyle.t Q) := default (NewElement "") (page !! 1).

Definition rule (selectors declarations : string) : Rule.t :=
  Rule.mk (ParseSelectors selectors) (ParseInlineStyle declarations).

(** Four rules for the element, the least specific one important. *)
Definition sheet : Stylesheet.t :=
  Stylesheet.mk [rule "#a" "display: grid";
                 rule "div" "display: none !important";
                 rule ".c" "display: inline";
                 rule "div" "display: block"].

(** The page after [applyStylesRecursive] has styled its root. *)
Definition styledRoot : Store (ComputedStyle.t Q) :=
  styleNode ApplyProperty_text page 0 [sheet].

Definition styledRootNode : Node (ComputedStyle.t Q) :=
  default (NewElement "") (styledRoot !! 0).

Definition styledRootStyle : ComputedStyle.t Q :=
  default NewComputedStyle (Dom.ComputedStyle styledRootNode).

Definition styledDiv : Node (ComputedStyle.t Q) :=
  default (NewElement "") (styledRoot !! 1).

End Cascade.

End Scenarios.
(** ** Readings used by the further properties *)

Module LayoutReadings.
Import Layout.

Section Readings.
Context {F : Type} `{Float64 F}.

(** What [Layout] is given for an item: the node, the sizes, the flex
    factors, the margins and the alignment. *)
Definition inputsOf (item : FlexItem.t F)
  : nat * F * F * F * F * F * F * F * F * F * string :=
  (FlexItem.Node item, FlexItem.MainSize item, FlexItem.CrossSize item,
   FlexItem.FlexBaseSize item, FlexItem.FlexGrow item, FlexItem.FlexShrink item,
   FlexItem.MarginMainStart item, FlexItem.MarginMainEnd item,
   FlexItem.MarginCrossStart item, FlexItem.MarginCrossEnd item,
   FlexItem.AlignSelf item).

(** The main position at which an item ends: its position, its final
    size and its end margin. *)
Definition mainEnd (item : FlexItem.t F) : F :=
  (FlexItem.MainPos item + FlexItem.FinalMainSize item + FlexItem.MarginMainEnd item)%f64.

(** A row of width 100 that wraps, with items of base sizes 60, 60 and 30. *)
Definition wrappingRow : FlexContainer.t F :=
  FlexContainer.mk (fofZ 100) (fofZ 50) "row" "wrap" "center" "stretch" "stretch" (fofZ 0)
    [Scenarios.flexItem 0 (fofZ 60) (fofZ 0); Scenarios.flexItem 1 (fofZ 60) (fofZ 0);
     Scenarios.flexItem 2 (fofZ 30) (fofZ 0)] [].

(** A row of width 100 that does not wrap, with items of base sizes 80
    and 120 and shrink factor 1. *)
Definition overflowingRow : FlexContainer.t F :=
  Scenarios.rowContainer (fofZ 100) (fofZ 50)
    [Scenarios.flexItem 0 (fofZ 80) (fofZ 0); Scenarios.flexItem 1 (fofZ 120) (fofZ 0)].

End Readings.

End LayoutReadings.

(** ** The methods of [BoxDimensions] and margin collapsing *)

Module BoxModel.
Import Values Layout.

Section Methods.
Context {F : Type} `{Float64 F}.
Local Open Scope f64_scope.

(** [a >= b] on [float64]: greater or equal, false when one is not a number. *)
Definition fge (a b : F) : bool := (b <? a) || (a =? b).

Definition PaddingWidth (b : BoxDimensions.t F) : F :=
  BoxDimensions.PaddingLeft b + BoxDimensions.PaddingRight b.

Definition PaddingHeight (b : BoxDimensions.t F) : F :=
  BoxDimensions.PaddingTop b + BoxDimensions.PaddingBottom b.

Definition BorderWidth (b : BoxDimensions.t F) : F :=
  BoxDimensions.BorderLeft b + BoxDimensions.BorderRight b.

Definition BorderHeight (b : BoxDimensions.t F) : F :=
  BoxDimensions.BorderTop b + BoxDimensions.BorderBottom b.

Definition MarginWidth (b : BoxDimensions.t F) : F :=
  BoxDimensions.MarginLeft b + BoxDimensions.MarginRight b.

Definition MarginHeight (b : BoxDimensions.t F) : F :=
  BoxDimensions.MarginTop b + BoxDimensions.MarginBottom b.

Definition PaddingBoxWidth (b : BoxDimensions.t F) : F :=
  BoxDimensions.ContentWidth b + PaddingWidth b.

Definition PaddingBoxHeight (b : BoxDimensions.t F) : F :=
  BoxDimensions.ContentHeight b + PaddingHeight b.

Definition BorderBoxWidth (b : BoxDimensions.t F) : F :=
  BoxDimensions.ContentWidth b + PaddingWidth b + BorderWidth b.

Definition BorderBoxHeight (b : BoxDimensions.t F) : F :=
  BoxDimensions.ContentHeight b + PaddingHeight b + BorderHeight b.

Definition MarginBoxWidth (b : BoxDimensions.t F) : F := BorderBoxWidth b + MarginWidth b.

Definition MarginBoxHeight (b : BoxDimensions.t F) : F := BorderBoxHeight b + MarginHeight b.

(** The four rectangles: x, y, width, height. *)
Definition ContentRect (b : BoxDimensions.t F) : F * F * F * F :=
  (BoxDimensions.X b + BoxDimensions.MarginLeft b + BoxDimensions.BorderLeft b
   + BoxDimensions.PaddingLeft b,
   BoxDimensions.Y b + BoxDimensions.MarginTop b + BoxDimensions.BorderTop b
   + BoxDimensions.PaddingTop b,
   BoxDimensions.ContentWidth b,
   BoxDimensions.ContentHeight b).

Definition PaddingRect (b : BoxDimensions.t F) : F * F * F * F :=
  (BoxDimensions.X b + BoxDimensions.MarginLeft b + BoxDimensions.BorderLeft b,
   BoxDimensions.Y b + BoxDimensions.MarginTop b + BoxDimensions.BorderTop b,
   PaddingBoxWidth b,
   PaddingBoxHeight b).

Definition BorderRect (b : BoxDimensions.t F) : F * F * F * F :=
  (BoxDimensions.X b + BoxDimensions.MarginLeft b,
   BoxDimensions.Y b + BoxDimensions.MarginTop b,
   BorderBoxWidth b,
   BorderBoxHeight b).

Definition MarginRect (b : BoxDimensions.t F) : F * F * F * F :=
  (BoxDimensions.X b, BoxDimensions.Y b, MarginBoxWidth b, MarginBoxHeight b).

(** [SetPosition]. *)
Definition SetPosition (b : BoxDimensions.t F) (x y : F) : BoxDimensions.t F :=
  BoxDimensions.mk (BoxDimensions.ContentWidth b) (BoxDimensions.ContentHeight b)
    (BoxDimensions.PaddingTop b) (BoxDimensions.PaddingRight b)
    (BoxDimensions.PaddingBottom b) (BoxDimensions.PaddingLeft b)
    (BoxDimensions.BorderTop b) (BoxDimensions.BorderRight b)
    (BoxDimensions.BorderBottom b) (BoxDimensions.BorderLeft b)
    (BoxDimensions.MarginTop b) (BoxDimensions.MarginRight b)
    (BoxDimensions.MarginBottom b) (BoxDimensions.MarginLeft b)
    x y.

(** [CollapseMargins]. *)
Definition CollapseMargins (margin1 margin2 : F) : F :=
  if fge margin1 (fofZ 0) && fge margin2 (fofZ 0) then
    if margin1 >? margin2 then margin1 else margin2
  else if (margin1 <? fofZ 0) && (margin2 <? fofZ 0) then
    if margin1 <? margin2 then margin1 else margin2
  else margin1 + margin2.

(** The context in which [ComputeBoxDimensions] resolves the lengths of
    a style. *)
Definition boxContext (style : ComputedStyle.t F) (containingWidth containingHeight : F)
  : ResolveContext.t F :=
  ResolveContext.mk (ComputedStyle.FontSize style) (fofZ 16)
    containingWidth containingHeight (fofZ 1024) (fofZ 768)
    (ComputedStyle.FontSize style * fdec 55 100)
    (ComputedStyle.FontSize style * fdec 5 10).

(** A width of 300 pixels with a min-width of 200 and a max-width of 150. *)
Definition boundedStyle : ComputedStyle.t F :=
  ComputedStyle.setMaxWidth
    (ComputedStyle.setMinWidth (ComputedStyle.setWidth NewComputedStyle (Px (fofZ 300)))
       (Px (fofZ 200)))
    (Px (fofZ 150)).


End Methods.

End BoxModel.

(** ** The text of a color *)

Module ColorText.
Import Values.

(** The digit that the verb x prints for a value below 16. *)
Definition hexChar (d : Z) : ascii :=
  if (d <? 10)%Z then ascii_of_nat (Z.to_nat (48 + d)) else ascii_of_nat (Z.to_nat (87 + d)).

(** [fmt.Sprintf] with the verb 02x, for a [uint8]. *)
Definition hex2 (n : Z) : string :=
  String (hexChar (n / 16)) (String (hexChar (n mod 16)) EmptyString).

(** [c.IsTransparent()], [c.IsOpaque()], [c.WithAlpha(a)]. *)
Definition IsTransparent (c : Color.t) : bool := (Color.A c =? 0)%Z.
Definition IsOpaque (c : Color.t) : bool := (Color.A c =? 255)%Z.
Definition WithAlpha (c : Color.t) (a : Z) : Color.t :=
  Color.mk (Color.R c) (Color.G c) (Color.B c) a.

Section Format.
(** The verbs d, for a [uint8], and .2f, for [float64(c.A)/255], of
    package [fmt]. *)
Variable formatInt : Z -> string.
Variable formatAlpha : Z -> string.

(** [c.String()]. *)
Definition ColorString (c : Color.t) : string :=
  if (Color.A c =? 255)%Z then
    String.append "#" (String.append (hex2 (Color.R c))
                         (String.append (hex2 (Color.G c)) (hex2 (Color.B c))))
  else
    String.append "rgba("
      (String.append (formatInt (Color.R c))
         (String.append ", "
            (String.append (formatInt (Color.G c))
               (String.append ", "
                  (String.append (formatInt (Color.B c))
                     (String.append ", "
                        (String.append (formatAlpha (Color.A c)) ")"))))))).

End Format.

(** A color whose four components are values of [uint8]. *)
Definition isColor (c : Color.t) : Prop :=
  (0 <= Color.R c < 256 /\ 0 <= Color.G c < 256
   /\ 0 <= Color.B c < 256 /\ 0 <= Color.A c < 256)%Z.

End ColorText.

(** ** The combinators of [Matches] *)

Module Combinators.
Import Dom Css.

Section Chains.
Context {A : Type} `{GoStrings} (h : Store A).

(** The [j]-th parent of a node: the node itself for 0. *)
Fixpoint nthParent (j : nat) (id : nat) : option nat :=
  match j with
  | 0 => Some id
  | S j' => match parentPtr h id with Some p => nthParent j' p | None => None end
  end.

(** The loop of the case [SelectorChild] of [Matches], for the node at
    [id]: the parts are read from the last to the first, and the result
    is the pointer [current] after the first part of [ps] has matched. *)
Fixpoint childChain (id : nat) (ps : list Selector) : option (option nat) :=
  match ps with
  | [] => None
  | p :: ps' =>
      match ps' with
      | [] => if Matches h p (Some id) then Some (parentPtr h id) else None
      | _ :: _ =>
          match childChain id ps' with
          | Some (Some current) =>
              if Matches h p (Some current) then Some (parentPtr h current) else None
          | _ => None
          end
      end
  end.

(** The inner loop of the case [SelectorDescendant]: the walk up from
    [current] to the first node that [p] matches. *)
Fixpoint search (p : Selector) (current : option nat) (fuel : nat) : option (option nat) :=
  match fuel with
  | 0 => None
  | S fuel' =>
      match current with
      | None => None
      | Some c =>
          if Matches h p (Some c) then Some (parentPtr h c)
          else search p (parentPtr h c) fuel'
      end
  end.

(** The outer loop of the case [SelectorDescendant]. *)
Fixpoint descendantChain (id : nat) (ps : list Selector) : option (option nat) :=
  match ps with
  | [] => None
  | p :: ps' =>
      match ps' with
      | [] => if Matches h p (Some id) then Some (parentPtr h id) else None
      | _ :: _ =>
          match descendantChain id ps' with
          | Some start => search p start (length h)
          | None => None
          end
      end
  end.

(** What the child combinator means: the last part matches the node,
    the part before it the parent of the node, and so on, each part one
    level further up. *)
Definition childMeaning (parts : list Selector) (id : nat) : Prop :=
  parts <> []
  /\ forall i p, parts !! i = Some p ->
       exists anc, nthParent (length parts - 1 - i) id = Some anc
                   /\ Matches h p (Some anc) = true.

(** What the descendant combinator means, for the parts from the first
    to the last: the last part matches the node, and every part before
    matches some proper ancestor of the node matched by the part after
    it.  [top] is the node that the first part matches. *)
Fixpoint descendantMeaning (ps : list Selector) (id top : nat) : Prop :=
  match ps with
  | [] => False
  | p :: ps' =>
      match ps' with
      | [] => top = id /\ Matches h p (Some id) = true
      | _ :: _ =>
          exists mid j, descendantMeaning ps' id mid
                        /\ nthParent (S j) mid = Some top
                        /\ Matches h p (Some top) = true
      end
  end.

End Chains.

End Combinators.

(** A list of two items, the first one with an element inside. *)
Module Nested.
Import Dom.

Definition list : Store unit :=
  match ParseHTML (H := ascii_strings) "<ul><li><b>x</b></li><li>y</li></ul>" with
  | Ok h => h
  | _ => []
  end.

(** The element of the list at index 1, the element inside the first
    item at index 3. *)
Definition items : Node unit := default (NewElement "") (list !! 1).

Definition bold : Node unit := default (NewElement "") (list !! 3).

End Nested.

(** ** The trees that [ParseHTML] builds *)

Module Shape.
Import Dom Tree.

Section Shape.
Context {A : Type}.
Implicit Type h : Store A.

(** [c] is listed among the children of node [p]. *)
Definition childOf h (p c : nat) : Prop :=
  exists pn, h !! p = Some pn /\ c ∈ Children pn.

(** A node that can get children: an element whose tag is not one of
    [voidElements]. *)
Definition container (n : Node A) : bool :=
  match NType n with
  | NodeElement => negb (inList (Tag n) voidElements)
  | _ => false
  end.

(** What [NewElement] and [NewText] make: an element with a tag and no
    text, or a text without a tag. *)
Definition kind (n : Node A) : Prop :=
  (NType n = NodeElement /\ Tag n <> "" /\ Content n = "")
  \/ (NType n = NodeText /\ Tag n = "").

(** A node without its computed style. *)
Definition unstyled (n : Node A) : Node A := setComputedStyle n None.

(** More of what the tree builder keeps: the children of a node point
    back to it, only containers have children, the nodes are elements
    and texts, and none has a computed style. *)
Record shaped h : Prop := mkShaped {
  sh_back : forall p pn c, h !! p = Some pn -> c ∈ Children pn ->
      exists cn, h !! c = Some cn /\ Parent cn = Some p;
  sh_inner : forall p pn, h !! p = Some pn -> Children pn <> [] -> container pn = true;
  sh_kind : forall i n, h !! i = Some n -> kind n;
  sh_plain : forall i n, h !! i = Some n -> ComputedStyle n = None
}.

End Shape.

Section ParserInvariant.
Context {A : Type}.

(** The second invariant of the loop of [ParseHTML]: the insertion
    point is a container. *)
Record Inv2 (st : PState (A := A)) : Prop := mkInv2 {
  inv2_shaped : shaped (heap st);
  inv2_current : forall c, current st = Some c ->
      exists n, heap st !! c = Some n /\ container n = true
}.

End ParserInvariant.

End Shape.

(** ** Walks over the tree (traverse.go) *)

Module Traverse.
Import Dom Css.

Section Traverse.
Context {A : Type} (h : Store A).

(** The loop of [Ancestors], [for current != nil], from the pointer
    [current] on. *)
Fixpoint ancestorsLoop (current : option nat) (fuel : nat) : result (list nat) :=
  match current with
  | None => Ok []
  | Some c =>
      match fuel with
      | 0 => OutOfFuel
      | S fuel' => rest ← ancestorsLoop (parentPtr h c) fuel'; Ok (c :: rest)
      end
  end.

Definition Ancestors (n : nat) (fuel : nat) : result (list nat) :=
  ancestorsLoop (parentPtr h n) fuel.

(** The loop of [Depth], with the counter [depth]. *)
Fixpoint depthLoop (current : option nat) (depth : Z) (fuel : nat) : result Z :=
  match current with
  | None => Ok depth
  | Some c =>
      match fuel with
      | 0 => OutOfFuel
      | S fuel' => depthLoop (parentPtr h c) (depth + 1) fuel'
      end
  end.

Definition Depth (n : nat) (fuel : nat) : result Z := depthLoop (parentPtr h n) 0 fuel.

(** [n.Contains(descendant)]; [fuel] bounds the depth of the recursion. *)
Fixpoint Contains (fuel : nat) (n descendant : option nat) : result bool :=
  match fuel with
  | 0 => OutOfFuel
  | S fuel' =>
      match n, descendant with
      | Some id, Some d =>
          (fix loop (children : list nat) : result bool :=
             match children with
             | [] => Ok false
             | child :: rest =>
                 if (child =? d)%nat then Ok true
                 else
                   Contains fuel' (Some child) descendant
                   ≫= fun found : bool => if found then Ok true else loop rest
             end) (childrenOf h id)
      | _, _ => Ok false
      end
  end.

Definition FirstChild (n : option nat) : option nat :=
  match n with
  | None => None
  | Some id => if (length (childrenOf h id) =? 0)%nat then None else childrenOf h id !! 0
  end.

Definition LastChild (n : option nat) : option nat :=
  match n with
  | None => None
  | Some id =>
      if (length (childrenOf h id) =? 0)%nat then None
      else childrenOf h id !! (length (childrenOf h id) - 1)
  end.

(** The loop of [NextSibling] over [siblings], at index [i] with
    [rest] still to come. *)
Fixpoint nextLoop (siblings : list nat) (n i : nat) (rest : list nat) : option nat :=
  match rest with
  | [] => None
  | child :: rest' =>
      if (child =? n)%nat && (i + 1 <? length siblings)%nat then siblings !! (i + 1)
      else nextLoop siblings n (S i) rest'
  end.

Definition NextSibling (n : option nat) : option nat :=
  match n with
  | None => None
  | Some id =>
      match parentPtr h id with
      | None => None
      | Some p => nextLoop (childrenOf h p) id 0 (childrenOf h p)
      end
  end.

(** The loop of [PreviousSibling]. *)
Fixpoint previousLoop (siblings : list nat) (n i : nat) (rest : list nat) : option nat :=
  match rest with
  | [] => None
  | child :: rest' =>
      if (child =? n)%nat && (0 <? i)%nat then siblings !! (i - 1)
      else previousLoop siblings n (S i) rest'
  end.

Definition PreviousSibling (n : option nat) : option nat :=
  match n with
  | None => None
  | Some id =>
      match parentPtr h id with
      | None => None
      | Some p => previousLoop (childrenOf h p) id 0 (childrenOf h p)
      end
  end.

End Traverse.

End Traverse.

(** ** What the style pass keeps *)

Module StylePass.
Import Dom Css Tree Shape.

Section Pass.
Context {F : Type}.

Abbreviation Tree := (Store (ComputedStyle.t F)).

(** From [g] to [g1] the nodes keep all but their styles: a style that
    is set stays set, and a node that is no element stays as it is. *)
Definition keeps (g g1 : Tree) : Prop :=
  length g1 = length g
  /\ forall i n, g !! i = Some n ->
       exists n1, g1 !! i = Some n1 /\ unstyled n1 = unstyled n
         /\ (is_Some (Dom.ComputedStyle n) -> is_Some (Dom.ComputedStyle n1))
         /\ (isElementNode n = false -> n1 = n).

(** The node [id] or one of its descendants, in the tree [h]. *)
Definition within (h : Tree) (id i : nat) : Prop := i = id \/ tc (parentOf h) i id.

(** In [g], the elements among the node [id] of [h] and its
    descendants have a style. *)
Definition styledWithin (h g : Tree) (id : nat) : Prop :=
  forall i n, within h id i -> g !! i = Some n -> isElementNode n = true ->
    is_Some (Dom.ComputedStyle n).

End Pass.

End StylePass.

(** ** The cross axis *)

Module CrossAxis.
Import Layout.

Section Cross.
Context {F : Type} `{Float64 F}.

(** The alignments that the [switch] of [alignCrossAxis] has a case
    for. *)
Definition knownAlign (align : string) : bool :=
  inList align ["flex-start"; "start"; "flex-end"; "end"; "center"; "stretch"; ""; "baseline"].

(** Where an item begins and ends on the cross axis, margins
    included. *)
Definition crossBegin (item : FlexItem.t F) : F :=
  (FlexItem.CrossPos item - FlexItem.MarginCrossStart item)%f64.

Definition crossEnd (item : FlexItem.t F) : F :=
  (FlexItem.CrossPos item + FlexItem.FinalCrossSize item + FlexItem.MarginCrossEnd item)%f64.

End Cross.

(** Over the rationals: no item of the line is larger than the line,
    margins included. *)
Definition fits (line : FlexLine.t Q) : Prop :=
  Forall (fun item => (FlexItem.FinalCrossSize item + FlexItem.MarginCrossStart item
                       + FlexItem.MarginCrossEnd item <= FlexLine.CrossSize line)%Q)
         (FlexLine.Items line).

(** A row of height 50 whose items have the cross sizes 20 and 30 and
    are centered. *)
Definition centeredRow : FlexContainer.t Q :=
  (FlexContainer.mk 300 50 "row" "nowrap" "flex-start" "center" "stretch" 0
     [FlexItem.mk 0%nat 0 20 100 0 1 0 0 0 0 0 0 2 3 "";
      FlexItem.mk 1%nat 0 30 100 0 1 0 0 0 0 0 0 0 0 "flex-end"] [])%Q.

End CrossAxis.

(** ** A page without a style attribute *)

Module Plain.
Import Dom Css.

Section Plain.
Local Existing Instance ascii_strings.
Local Existing Instance Q_float.

(** A paragraph. *)
Definition page : Store (ComputedStyle.t Q) :=
  match ParseHTML "<p>x</p>" with
  | Ok h => h
  | _ => []
  end.

Definition paragraph : Node (ComputedStyle.t Q) := default (NewElement "") (page !! 1).

End Plain.

End Plain.

(** * Properties *)

(** ** The tokenizer advances *)

Module TokenizerFacts.
Import Dom.

Lemma byteAt_lt (s : string) (i : nat) :
  i < GoStr.len s -> exists c, GoStr.byteAt s i = Some c.
Proof.
  unfold GoStr.byteAt, GoStr.len. revert i.
  induction s as [|a s IH]; intros i Hi; simpl in *; [lia|].
  destruct i as [|i]; [eauto|]. apply IH. lia.
Qed.

Lemma byteAt_Some_lt (s : string) (i : nat) (c : ascii) :
  GoStr.byteAt s i = Some c -> i < GoStr.len s.
Proof.
  unfold GoStr.byteAt, GoStr.len. revert i.
  induction s as [|a s IH]; intros i Hi; simpl in *; [discriminate|].
  destruct i as [|i]; [lia|]. apply IH in Hi. lia.
Qed.

Lemma byteIs_lt (s : string) (i : nat) (c : ascii) :
  byteIs s i c = true -> i < GoStr.len s.
Proof.
  unfold byteIs. destruct (GoStr.byteAt s i) eqn:E; [|discriminate].
  intros _. eapply byteAt_Some_lt; eauto.
Qed.

Lemma scanTo_ge (c : ascii) (s : string) (fuel pos : nat) :
  pos <= scanTo c s pos fuel.
Proof.
  revert pos. induction fuel as [|fuel IH]; intros pos; simpl; [lia|].
  destruct (GoStr.byteAt s pos); [|lia].
  destruct (Ascii.eqb a c); [lia|]. specialize (IH (S pos)). lia.
Qed.

Lemma scanTo_le (c : ascii) (s : string) (fuel pos : nat) :
  pos <= GoStr.len s -> scanTo c s pos fuel <= GoStr.len s.
Proof.
  revert pos. induction fuel as [|fuel IH]; intros pos Hp; simpl; [lia|].
  destruct (GoStr.byteAt s pos) eqn:E; [|lia].
  destruct (Ascii.eqb a c); [lia|].
  apply IH. apply byteAt_Some_lt in E. lia.
Qed.

(** The scan stops only at the byte it looks for or at the end. *)
Lemma scanTo_stops (c : ascii) (s : string) (fuel pos : nat) :
  GoStr.len s - pos <= fuel ->
  byteIs s (scanTo c s pos fuel) c = true \/ GoStr.len s <= scanTo c s pos fuel.
Proof.
  revert pos. induction fuel as [|fuel IH]; intros pos Hf; simpl; [lia|].
  destruct (GoStr.byteAt s pos) eqn:E.
  - destruct (Ascii.eqb a c) eqn:Ec.
    + left. unfold byteIs. by rewrite E.
    + apply IH. lia.
  - right. destruct (decide (pos < GoStr.len s)) as [Hlt|]; [|lia].
    apply byteAt_lt in Hlt as [? ?]. congruence.
Qed.

Ltac red_tok := cbn [mbind result_bind rbind Raw Pos fst snd].

Lemma sliceR_Ok (s : string) (i j : nat) :
  i <= j -> j <= GoStr.len s -> sliceR s i j = Ok (GoStr.slice s i j).
Proof.
  intros Hij Hj. unfold sliceR.
  destruct (Nat.leb_spec i j); [|lia]. destruct (Nat.leb_spec j (GoStr.len s)); [done|lia].
Qed.

(** The comment loop does not panic and ends between its start and the
    end of the text. *)
Lemma skipComment_ok (s : string) (fuel pos : nat) :
  pos <= GoStr.len s ->
  exists r, skipComment s pos fuel = Ok r /\ pos <= r /\ r <= GoStr.len s.
Proof.
  revert pos. induction fuel as [|fuel IH]; intros pos Hp; simpl; [eauto|].
  destruct (Nat.ltb_spec pos (GoStr.len s)); [|eauto].
  destruct (Nat.ltb_spec (pos + 2) (GoStr.len s)).
  - rewrite sliceR_Ok by lia. cbn.
    destruct (String.eqb _ _); [eexists; split; [done|lia]|].
    destruct (IH (S pos)) as (r & -> & ? & ?); [lia|]. eexists; split; [done|lia].
  - destruct (IH (S pos)) as (r & -> & ? & ?); [lia|]. eexists; split; [done|lia].
Qed.

Section WithStrings.
Context `{GoStrings}.

(** When there is more to read, [NextToken] does not panic; it keeps
    the text and moves the position forward without passing the end. *)
Lemma NextToken_advances (t : Tokenizer) :
  Pos t < GoStr.len (Raw t) ->
  exists tk t', NextToken t = Ok (tk, t')
    /\ Raw t' = Raw t /\ Pos t < Pos t' /\ Pos t' <= GoStr.len (Raw t).
Proof.
  intros Hlt. unfold NextToken.
  destruct (byteIs (Raw t) (Pos t) "<") eqn:Elt.
  - set (close := byteIs (Raw t) (S (Pos t)) "/").
    set (pos := if close then S (S (Pos t)) else S (Pos t)).
    assert (Hpos : Pos t < pos /\ pos <= GoStr.len (Raw t)).
    { subst pos. destruct close eqn:Ec; [|lia].
      apply byteIs_lt in Ec. lia. }
    clearbody pos.
    pose proof (scanTo_ge ">" (Raw t) (GoStr.len (Raw t) - pos) pos) as Hge.
    pose proof (scanTo_le ">" (Raw t) (GoStr.len (Raw t) - pos) pos) as Hle.
    destruct (byteIs (Raw t) pos "!") eqn:Ebang.
    + assert (Hdecl : exists r,
        (if pos + 2 <? GoStr.len (Raw t)
         then two ← sliceR (Raw t) pos (pos + 2);
              if String.eqb two "!-" then skipComment (Raw t) pos (GoStr.len (Raw t) - pos)
              else Ok (if scanTo ">" (Raw t) pos (GoStr.len (Raw t) - pos) <? GoStr.len (Raw t)
                       then S (scanTo ">" (Raw t) pos (GoStr.len (Raw t) - pos))
                       else scanTo ">" (Raw t) pos (GoStr.len (Raw t) - pos))
         else Ok (if scanTo ">" (Raw t) pos (GoStr.len (Raw t) - pos) <? GoStr.len (Raw t)
                  then S (scanTo ">" (Raw t) pos (GoStr.len (Raw t) - pos))
                  else scanTo ">" (Raw t) pos (GoStr.len (Raw t) - pos))) = Ok r
        /\ pos <= r /\ r <= GoStr.len (Raw t)).
      { assert (Hend : pos <= (if scanTo ">" (Raw t) pos (GoStr.len (Raw t) - pos) <? GoStr.len (Raw t)
                       then S (scanTo ">" (Raw t) pos (GoStr.len (Raw t) - pos))
                       else scanTo ">" (Raw t) pos (GoStr.len (Raw t) - pos))
                       <= GoStr.len (Raw t)).
        { destruct (Nat.ltb_spec (scanTo ">" (Raw t) pos (GoStr.len (Raw t) - pos))
                      (GoStr.len (Raw t))); lia. }
        destruct (Nat.ltb_spec (pos + 2) (GoStr.len (Raw t))); [|eauto].
        rewrite sliceR_Ok by lia. red_tok.
        destruct (String.eqb _ "!-"); [|eauto].
        apply skipComment_ok. lia. }
      destruct Hdecl as (r & -> & ? & ?). red_tok.
      do 2 eexists. split; [done|]. red_tok. split; [done|lia].
    + assert (Hfull : exists full,
        (if Pos t + (if close then 2 else 1) <? scanTo ">" (Raw t) pos (GoStr.len (Raw t) - pos)
         then sliceR (Raw t) (Pos t + (if close then 2 else 1))
                (scanTo ">" (Raw t) pos (GoStr.len (Raw t) - pos))
         else Ok "") = Ok full).
      { destruct (Nat.ltb_spec (Pos t + (if close then 2 else 1))
                    (scanTo ">" (Raw t) pos (GoStr.len (Raw t) - pos))); [|eauto].
        rewrite sliceR_Ok by lia. eauto. }
      destruct Hfull as (full & ->). red_tok.
      do 2 eexists. split; [done|]. red_tok. split; [done|].
      destruct (Nat.ltb_spec (scanTo ">" (Raw t) pos (GoStr.len (Raw t) - pos))
                  (GoStr.len (Raw t))); lia.
  - pose proof (scanTo_le "<" (Raw t) (GoStr.len (Raw t) - Pos t) (Pos t)) as Hle.
    pose proof (scanTo_ge "<" (Raw t) (GoStr.len (Raw t) - Pos t) (Pos t)) as Hge.
    rewrite sliceR_Ok by lia. red_tok.
    do 2 eexists. split; [done|]. red_tok. split; [done|]. split; [|lia].
    destruct (GoStr.len (Raw t) - Pos t) as [|k] eqn:Ek; [lia|]. simpl.
    destruct (byteAt_lt _ _ Hlt) as [d Hd]. rewrite Hd.
    unfold byteIs in Elt. rewrite Hd in Elt. rewrite Elt.
    pose proof (scanTo_ge "<" (Raw t) k (S (Pos t))). lia.
Qed.

End WithStrings.

End TokenizerFacts.

(** ** The tree builder keeps the store a tree *)

Module TreeFacts.
Import Dom Tree TokenizerFacts.

Section Store.
Context {A : Type}.
Implicit Type h : Store A.

Lemma appendNew_grow h (c : nat) (n : Node A) :
  c < length h ->
  exists pn, h !! c = Some pn /\ appendNew h (Some c) n = Ok (grow h c pn n, length h).
Proof.
  intros Hc. destruct (lookup_lt_is_Some_2 h c Hc) as [pn Hpn].
  exists pn. split; [done|].
  unfold appendNew, alloc, AppendChild, grow.
  rewrite (list_lookup_middle h [] n (length h)) by done. simpl.
  rewrite list_lookup_insert_ne by lia.
  rewrite lookup_app_l by done. rewrite Hpn. reflexivity.
Qed.

Lemma grow_length h c pn n : length (grow h c pn n) = S (length h).
Proof. unfold grow. rewrite !length_insert, length_app. simpl. lia. Qed.

Lemma grow_lookup_parent h c pn n :
  c < length h ->
  grow h c pn n !! c = Some (setChildren pn (Children pn ++ [length h])).
Proof.
  intros Hc. unfold grow. apply list_lookup_insert_eq.
  rewrite length_insert, length_app. simpl. lia.
Qed.

Lemma grow_lookup_new h c pn n :
  c < length h ->
  grow h c pn n !! length h = Some (setParent n (Some c)).
Proof.
  intros Hc. unfold grow. rewrite list_lookup_insert_ne by lia.
  apply list_lookup_insert_eq. rewrite length_app. simpl. lia.
Qed.

Lemma grow_lookup_other h c pn n i :
  i <> c -> i <> length h -> grow h c pn n !! i = h !! i.
Proof.
  intros H1 H2. unfold grow. rewrite !list_lookup_insert_ne by done.
  destruct (decide (i < length h)).
  - by rewrite lookup_app_l.
  - rewrite !lookup_ge_None_2; [done|lia|rewrite length_app; simpl; lia].
Qed.

(** The cases of a lookup in the grown store. *)
Lemma grow_lookup_inv h c pn n i x :
  c < length h -> h !! c = Some pn ->
  grow h c pn n !! i = Some x ->
  (i = c /\ x = setChildren pn (Children pn ++ [length h]))
  \/ (i = length h /\ x = setParent n (Some c))
  \/ (i <> c /\ i < length h /\ h !! i = Some x).
Proof.
  intros Hc Hpn Hi.
  destruct (decide (i = c)) as [->|Hne].
  - rewrite grow_lookup_parent in Hi by done. left. split; congruence.
  - destruct (decide (i = length h)) as [->|Hne2].
    + rewrite grow_lookup_new in Hi by done. right; left. split; congruence.
    + rewrite grow_lookup_other in Hi by done. right; right.
      split; [done|]. split; [|done]. eapply lookup_lt_Some; eauto.
Qed.

Lemma count_occ_snoc_fresh (l : list nat) (x y : nat) :
  x <> y -> count_occ Nat.eq_dec (l ++ [y]) x = count_occ Nat.eq_dec l x.
Proof.
  intros Hne. rewrite count_occ_app. simpl.
  destruct (Nat.eq_dec y x); [congruence|lia].
Qed.

Lemma count_occ_snoc_new (l : list nat) (y : nat) :
  Forall (fun c => c < y) l -> count_occ Nat.eq_dec (l ++ [y]) y = 1.
Proof.
  intros Hall. rewrite count_occ_app. simpl.
  destruct (Nat.eq_dec y y); [|congruence].
  rewrite (proj1 (count_occ_not_In Nat.eq_dec l y)); [lia|].
  intros Hin. rewrite Forall_forall in Hall.
  apply list_elem_of_In in Hin. apply Hall in Hin. lia.
Qed.

(** Appending a fresh node without children keeps the invariant. *)
Lemma wf_grow h c pn n :
  wf h -> h !! c = Some pn -> Children n = [] -> wf (grow h c pn n).
Proof.
  intros [Hroot Hpar Hlist Hch] Hpn Hn.
  assert (Hc : c < length h) by (eapply lookup_lt_Some; eauto).
  split.
  - destruct Hroot as (r & Hr & Htag & Hnone).
    destruct (decide (c = 0)) as [->|Hne].
    + rewrite grow_lookup_parent by done. eexists; split; [done|].
      assert (pn = r) by congruence. subst. done.
    + exists r. rewrite grow_lookup_other by lia. done.
  - intros i x Hi Hi0.
    destruct (grow_lookup_inv _ _ _ _ _ _ Hc Hpn Hi) as [[-> ->]|[[-> ->]|(? & ? & Hx)]].
    + simpl. eapply Hpar; eauto.
    + simpl. eauto.
    + eapply Hpar; eauto.
  - intros i x p Hi Hp.
    destruct (grow_lookup_inv _ _ _ _ _ _ Hc Hpn Hi) as [[-> ->]|[[-> ->]|(Hne & Hlt & Hx)]].
    + simpl in Hp. destruct (Hlist _ _ _ Hpn Hp) as (Hlt & ppn & Hppn & Hcount).
      split; [done|]. exists ppn. rewrite grow_lookup_other by lia. done.
    + simpl in Hp. injection Hp as <-. split; [done|].
      rewrite grow_lookup_parent by done. eexists; split; [done|]. simpl.
      apply count_occ_snoc_new. eapply Hch; eauto.
    + destruct (Hlist _ _ _ Hx Hp) as (Hpi & ppn & Hppn & Hcount).
      split; [done|].
      destruct (decide (p = c)) as [->|Hpc].
      * rewrite grow_lookup_parent by done. eexists; split; [done|]. simpl.
        assert (ppn = pn) by congruence. subst ppn.
        rewrite count_occ_snoc_fresh by lia. done.
      * exists ppn. rewrite grow_lookup_other by lia. done.
  - intros i x Hi. rewrite grow_length.
    destruct (grow_lookup_inv _ _ _ _ _ _ Hc Hpn Hi) as [[-> ->]|[[-> ->]|(Hne & Hlt & Hx)]].
    + simpl. apply Forall_app. split.
      * eapply Forall_impl; [eapply Hch; eauto|]. simpl. lia.
      * repeat constructor.
    + simpl. rewrite Hn. constructor.
    + eapply Forall_impl; [eapply Hch; eauto|]. simpl. lia.
Qed.

(** The invariant gives the two properties of a tree. *)
Lemma wf_listedOnce h : wf h -> listedOnce h.
Proof.
  intros Hwf c n p Hc Hp. by destruct (wf_listed _ Hwf _ _ _ Hc Hp).
Qed.

Lemma tc_parentOf_lt h (c p : nat) : wf h -> tc (parentOf h) c p -> p < c.
Proof.
  intros Hwf Htc. induction Htc as [c p (n & Hn & Hp)|c q p (n & Hn & Hq) _ IH].
  - by destruct (wf_listed _ Hwf _ _ _ Hn Hp).
  - destruct (wf_listed _ Hwf _ _ _ Hn Hq). lia.
Qed.

Lemma wf_acyclic h : wf h -> acyclic h.
Proof.
  intros Hwf c Hcc. apply (tc_parentOf_lt _ _ _ Hwf) in Hcc. lia.
Qed.

Lemma appendNew_wf h (c : nat) (n : Node A) :
  wf h -> c < length h -> Children n = [] ->
  exists h', appendNew h (Some c) n = Ok (h', length h)
             /\ wf h' /\ length h' = S (length h).
Proof.
  intros Hwf Hc Hn. destruct (appendNew_grow h c n Hc) as (pn & Hpn & ->).
  eexists; split; [done|]. split; [by apply wf_grow|apply grow_length].
Qed.

Lemma appendNew_element h (c : nat) (name : string) (attrs : gmap string string) :
  wf h -> c < length h ->
  exists h', appendNew h (Some c) (setAttributes (NewElement name) attrs) = Ok (h', length h)
             /\ wf h' /\ length h' = S (length h).
Proof. intros. by apply appendNew_wf. Qed.

Lemma appendNew_text h (c : nat) (content : string) :
  wf h -> c < length h ->
  exists h', appendNew h (Some c) (NewText content) = Ok (h', length h)
             /\ wf h' /\ length h' = S (length h).
Proof. intros. by apply appendNew_wf. Qed.

(** The walk of a closing tag ends, at a node of the store if anywhere. *)
Lemma findOpen_ok h (name : string) (fuel : nat) (p : option nat) :
  wf h ->
  match p with Some pid => pid < length h /\ pid < fuel | None => 0 < fuel end ->
  exists r, findOpen h name p fuel = Ok r /\ forall c, r = Some c -> c < length h.
Proof.
  intros Hwf. revert p. induction fuel as [|fuel IH]; intros p Hp.
  - destruct p; lia.
  - simpl. destruct p as [pid|]; [|by eexists].
    destruct Hp as [Hlt Hfuel].
    destruct (lookup_lt_is_Some_2 h pid Hlt) as [pn Hpn]. rewrite Hpn.
    destruct (Parent pn) as [par|] eqn:Epar; [|by eexists].
    destruct (wf_listed _ Hwf _ _ _ Hpn Epar) as (Hparlt & _).
    destruct (String.eqb (Tag pn) name).
    + eexists; split; [done|]. intros c [= <-]. lia.
    + apply IH. lia.
Qed.

End Store.

Section Parser.
Context {A : Type} `{GoStrings}.

Lemma rawScan_ok (raw closeTag : string) (fuel pos : nat) :
  exists r, rawScan raw closeTag pos fuel = Ok r
            /\ forall p, r = Some p -> pos <= p /\ p < GoStr.len raw.
Proof.
  revert pos. induction fuel as [|fuel IH]; intros pos; simpl; [by eexists|].
  destruct (Nat.ltb_spec pos (GoStr.len raw)); [|by eexists].
  destruct (Nat.leb_spec (pos + GoStr.len closeTag) (GoStr.len raw)).
  - rewrite sliceR_Ok by lia. red_tok.
    destruct (String.eqb _ _).
    + eexists; split; [done|]. intros p [= <-]. lia.
    + destruct (IH (S pos)) as (r & -> & Hr). eexists; split; [done|].
      intros p Hp. apply Hr in Hp. lia.
  - destruct (IH (S pos)) as (r & -> & Hr). eexists; split; [done|].
    intros p Hp. apply Hr in Hp. lia.
Qed.

(** The loop over a skipped element ends, further in the same text. *)
Lemma skipLoop_ok (closeTag : string) (fuel : nat) (t : Tokenizer) (depth : nat) :
  Pos t <= GoStr.len (Raw t) ->
  GoStr.len (Raw t) - Pos t < fuel ->
  exists t', skipLoop closeTag t depth fuel = Ok t'
             /\ Raw t' = Raw t /\ Pos t <= Pos t' /\ Pos t' <= GoStr.len (Raw t).
Proof.
  revert t depth. induction fuel as [|fuel IH]; intros t depth Hle Hfuel; [lia|].
  simpl. destruct (HasMore t && (0 <? depth)) eqn:E; [|by eexists].
  apply andb_prop in E as [Hmore _]. apply Nat.ltb_lt in Hmore.
  destruct (NextToken_advances t Hmore) as (tk & t' & -> & Hraw & Hlt & Hmax).
  red_tok.
  assert (Hdepth : exists d,
    (if isTag tk
     then remaining ← sliceR (Raw t') (Pos t' - GoStr.len closeTag - 5) (Pos t');
          Ok (if isClose tk && GoStr.Contains (ToLower remaining) closeTag
              then depth - 1 else depth)
     else Ok depth) = Ok d).
  { destruct (isTag tk); [|eauto].
    rewrite sliceR_Ok by (rewrite ?Hraw; lia). red_tok. eauto. }
  destruct Hdepth as (d & ->). red_tok.
  edestruct (IH t' d) as (t'' & -> & Hraw' & Hge & Hle'); [rewrite Hraw; lia..|].
  exists t''. split; [done|]. rewrite Hraw in *. split; [done|]. lia.
Qed.

Ltac red_st := cbn [tok Raw Pos heap current mbind result_bind rbind fst snd].

(** One turn of the loop neither panics nor runs out of fuel; it keeps
    the invariant and reads at least one byte. *)
Lemma step_ok (st : PState (A := A)) :
  Inv st -> HasMore (tok st) = true ->
  exists st', step st = Ok st' /\ Inv st'
              /\ Raw (tok st') = Raw (tok st) /\ Pos (tok st) < Pos (tok st').
Proof.
  intros [Hwf (c & Hcur & Hc) Hpos] Hmore. apply Nat.ltb_lt in Hmore.
  destruct (NextToken_advances _ Hmore) as (tk & t' & Htok & Hraw & Hlt & Hmax).
  unfold step. rewrite Htok. red_st.
  assert (Hmax' : Pos t' <= GoStr.len (Raw t')) by (by rewrite Hraw).
  assert (Hkeep : Inv (mkPState (heap st) (current st) t')).
  { split; red_st; [done|eauto|by rewrite Hraw]. }
  destruct (isTag tk).
  - destruct (String.eqb _ "") eqn:Ename; [by eexists|].
    destruct (isClose tk).
    { (* closing tag *)
      edestruct (findOpen_ok (heap st) (ToLower (TrimSpace (tagName tk)))
                   (S (length (heap st))) (current st) Hwf) as (r & -> & Hr).
      { rewrite Hcur. lia. }
      eexists; split; [done|]. split; [|done].
      split; red_st; [done| |by rewrite Hraw].
      destruct r as [c'|]; eauto. }
    destruct (inList _ rawContentTags).
    { (* script, style *)
      destruct (appendNew_element (heap st) c (ToLower (TrimSpace (tagName tk)))
                  (ParseAttributes (fullTag tk)) Hwf Hc) as (h1 & Hh1 & Hwf1 & Hlen1).
      rewrite Hcur, Hh1. red_st.
      destruct (rawScan_ok (Raw t') ("</" +:+ ToLower (TrimSpace (tagName tk)))
                  (GoStr.len (Raw t') - Pos t') (Pos t')) as (found & -> & Hfound).
      red_st. destruct found as [p|].
      - destruct (Hfound p eq_refl) as [Hp1 Hp2].
        rewrite sliceR_Ok by lia. red_st.
        pose proof (scanTo_ge ">" (Raw t') (GoStr.len (Raw t') - p) p) as Hq1.
        pose proof (scanTo_le ">" (Raw t') (GoStr.len (Raw t') - p) p) as Hq2.
        assert (Hq : Pos (tok st) < (if scanTo ">" (Raw t') p (GoStr.len (Raw t') - p) <? GoStr.len (Raw t')
                          then S (scanTo ">" (Raw t') p (GoStr.len (Raw t') - p))
                          else scanTo ">" (Raw t') p (GoStr.len (Raw t') - p))
                     <= GoStr.len (Raw t')).
        { destruct (_ <? _) eqn:E; [apply Nat.ltb_lt in E|]; lia. }
        destruct (String.eqb (TrimSpace _) "").
        + red_st. eexists; split; [done|]. split; [|split; [done|red_st; lia]].
          split; red_st; [done|exists c; split; [done|lia]|lia].
        + edestruct (appendNew_text h1 (length (heap st))) as (h2 & Hh2 & Hwf2 & Hlen2);
            [done|lia|].
          rewrite Hh2. red_st. eexists; split; [done|]. split; [|split; [done|red_st; lia]].
          split; red_st; [done|exists c; split; [done|lia]|lia].
      - eexists; split; [done|]. split; [|split; [done|red_st; lia]].
        split; red_st; [done|exists c; split; [done|lia]|lia]. }
    destruct (inList _ skipTags).
    { (* svg, noscript, template *)
      edestruct (skipLoop_ok ("</" +:+ ToLower (TrimSpace (tagName tk)))
                   (S (GoStr.len (Raw t') - Pos t')) t' 1)
        as (t'' & -> & Hraw2 & Hge & Hle); [rewrite Hraw; lia|lia|].
      red_st. eexists; split; [done|]. split; [|split; [red_st; congruence|red_st; lia]].
      split; red_st; [done|eauto|]. rewrite Hraw2, Hraw. rewrite Hraw in Hle. done. }
    destruct (inList _ voidElements || GoStr.HasSuffix (fullTag tk) "/").
    { (* leaf element *)
      destruct (appendNew_element (heap st) c (ToLower (TrimSpace (tagName tk)))
                  (ParseAttributes (fullTag tk)) Hwf Hc) as (h1 & Hh1 & Hwf1 & Hlen1).
      rewrite Hcur, Hh1. red_st. eexists; split; [done|]. split; [|done].
      split; red_st; [done|exists c; split; [done|lia]|by rewrite Hraw]. }
    (* regular opening tag *)
    assert (Hcur' : exists c',
      (if String.eqb (ToLower (TrimSpace (tagName tk))) "p"
          || String.eqb (ToLower (TrimSpace (tagName tk))) "li"
       then match current st with
            | None => Panic
            | Some c0 =>
                match heap st !! c0 with
                | None => Panic
                | Some cn =>
                    Ok (if String.eqb (Tag cn) (ToLower (TrimSpace (tagName tk)))
                        then Parent cn else current st)
                end
            end
       else Ok (current st)) = Ok (Some c') /\ c' < length (heap st)).
    { destruct (_ || _) eqn:Epli; [|rewrite Hcur; eauto].
      rewrite Hcur. destruct (lookup_lt_is_Some_2 _ _ Hc) as [cn Hcn]. rewrite Hcn.
      destruct (String.eqb (Tag cn) _) eqn:Etag; [|eauto].
      apply String.eqb_eq in Etag.
      assert (c <> 0) as Hc0.
      { intros ->. destruct (wf_root _ Hwf) as (r & Hr & Htag & _).
        assert (cn = r) by congruence. subst cn. rewrite Htag in Etag.
        rewrite <- Etag in Epli. discriminate. }
      destruct (wf_parent _ Hwf _ _ Hcn Hc0) as [p Hp].
      destruct (wf_listed _ Hwf _ _ _ Hcn Hp) as [Hpc _].
      exists p. rewrite Hp. split; [done|lia]. }
    destruct Hcur' as (c' & -> & Hc').
    destruct (appendNew_element (heap st) c' (ToLower (TrimSpace (tagName tk)))
                (ParseAttributes (fullTag tk)) Hwf Hc') as (h1 & Hh1 & Hwf1 & Hlen1).
    red_st. rewrite Hh1. red_st. eexists; split; [done|]. split; [|done].
    split; red_st; [done|eexists; split; [done|lia]|by rewrite Hraw].
  - destruct (0 <? _); [|by eexists].
    destruct (appendNew_text (heap st) c (TrimSpace (tagName tk)) Hwf Hc)
      as (h1 & Hh1 & Hwf1 & Hlen1).
    rewrite Hcur, Hh1. red_st. eexists; split; [done|]. split; [|done].
    split; red_st; [done|exists c; split; [done|lia]|by rewrite Hraw].
Qed.

Lemma parseLoop_ok (fuel : nat) (st : PState (A := A)) :
  Inv st -> GoStr.len (Raw (tok st)) - Pos (tok st) <= fuel ->
  exists st', parseLoop fuel st = Ok st' /\ Inv st'.
Proof.
  revert st. induction fuel as [|fuel IH]; intros st HI Hfuel.
  - simpl. destruct (HasMore (tok st)) eqn:E; [|by eexists].
    apply Nat.ltb_lt in E. lia.
  - simpl. destruct (HasMore (tok st)) eqn:E; [|by eexists].
    destruct (step_ok st HI E) as (st1 & -> & HI1 & Hraw & Hlt). simpl.
    apply IH; [done|]. rewrite Hraw. lia.
Qed.

Lemma Inv_initial (html : string) : Inv (initial (A := A) html).
Proof.
  split; simpl; [|exists 0; split; [done|lia]|lia].
  split.
  - by eexists.
  - intros [|c] n; [done|]. intros Hn. by destruct c.
  - intros [|[|c]] n p Hn Hp; simplify_eq/=.
  - intros [|[|c]] n Hn; simplify_eq/=. constructor.
Qed.

End Parser.

End TreeFacts.

(** ** Stable sorting *)

Module SortFacts.

Section Sort.
Context {T : Type} (less : T -> T -> bool).
Hypothesis asym : forall a b, less a b = true -> less b a = false.
Hypothesis le_trans :
  forall a b c, less b a = false -> less c b = false -> less c a = false.

Lemma insert_Permutation (x : T) (l : list T) :
  Permutation (GoSort.insert less x l) (x :: l).
Proof.
  induction l as [|y l IH]; simpl; [done|].
  destruct (less y x); [|done].
  rewrite IH. apply perm_swap.
Qed.

Lemma insert_StronglySorted (x : T) (l : list T) :
  StronglySorted (fun a b => less b a = false) l ->
  StronglySorted (fun a b => less b a = false) (GoSort.insert less x l).
Proof.
  induction 1 as [|y l Hs IH Hall]; simpl.
  - repeat constructor.
  - destruct (less y x) eqn:E.
    + constructor; [done|].
      rewrite insert_Permutation. constructor; [by apply asym|done].
    + constructor; [by constructor|].
      constructor; [done|].
      eapply Forall_impl; [exact Hall|]. intros z Hz. simpl in Hz. eauto.
Qed.

Lemma SliceStable_Permutation (l : list T) : Permutation (GoSort.SliceStable less l) l.
Proof.
  induction l as [|x l IH]; simpl; [done|].
  rewrite insert_Permutation. by constructor.
Qed.

Lemma SliceStable_StronglySorted (l : list T) :
  StronglySorted (fun a b => less b a = false) (GoSort.SliceStable less l).
Proof.
  induction l as [|x l IH]; simpl; [constructor|]. by apply insert_StronglySorted.
Qed.

End Sort.

End SortFacts.

(** ** The order of the cascade *)

Module CascadeFacts.
Import Dom Css CascadeSpec.

Ltac split_Z_tests :=
  repeat match goal with
         | |- context [(?x =? ?y)%Z] => destruct (Z.eqb_spec x y)
         | |- context [(?x <? ?y)%Z] => destruct (Z.ltb_spec x y)
         end.

(** [Compare] returns -1, 0 or 1, as the fields order the two tuples. *)
Lemma Compare_cases (s1 s2 : Specificity) :
  (Compare s1 s2 = (-1)%Z /\ specLt s1 s2)
  \/ (Compare s1 s2 = 0%Z /\ Inline s1 = Inline s2 /\ IDs s1 = IDs s2
                          /\ Classes s1 = Classes s2 /\ Elements s1 = Elements s2)
  \/ (Compare s1 s2 = 1%Z /\ specLt s2 s1).
Proof.
  destruct s1, s2. unfold Compare, specLt. cbn. split_Z_tests; cbn; lia.
Qed.

Lemma less_keyLt (a b : StyleEntry.t) : less a b = true <-> keyLt a b.
Proof.
  unfold less, keyLt.
  destruct (Compare_cases (StyleEntry.Specificity a) (StyleEntry.Specificity b))
    as [[-> Hc]|[(-> & Hc)|[-> Hc]]]; unfold specLt in Hc;
    destruct (StyleEntry.Important a), (StyleEntry.Important b); cbn;
    try destruct (Z.ltb_spec (StyleEntry.Order a) (StyleEntry.Order b));
    split; intros; (lia || discriminate || done).
Qed.

Lemma less_false_keyLt (a b : StyleEntry.t) : less a b = false <-> ~ keyLt a b.
Proof.
  rewrite <- less_keyLt. destruct (less a b); split; (done || congruence).
Qed.

Lemma less_asym (a b : StyleEntry.t) : less a b = true -> less b a = false.
Proof. rewrite less_keyLt, less_false_keyLt. unfold keyLt. lia. Qed.

Lemma less_le_trans (a b c : StyleEntry.t) :
  less b a = false -> less c b = false -> less c a = false.
Proof. rewrite !less_false_keyLt. unfold keyLt. lia. Qed.

(** Entries with different source orders are ordered one way or the other. *)
Lemma less_total (a b : StyleEntry.t) :
  StyleEntry.Order a <> StyleEntry.Order b -> less b a = false -> less a b = true.
Proof. rewrite less_keyLt, less_false_keyLt. unfold keyLt. lia. Qed.

Lemma Specificity_eq (s1 s2 : Specificity) :
  s1 = s2 <-> (Inline s1 = Inline s2 /\ IDs s1 = IDs s2
               /\ Classes s1 = Classes s2 /\ Elements s1 = Elements s2).
Proof.
  destruct s1, s2; simpl. split.
  - by intros [= -> -> -> ->].
  - by intros (-> & -> & -> & ->).
Qed.

(** The order of [less] is the order of the specification. *)
Lemma keyLt_overrides (a b : StyleEntry.t) : keyLt a b <-> overrides b a.
Proof.
  unfold keyLt, overrides, specLt. rewrite Specificity_eq.
  destruct (StyleEntry.Important a), (StyleEntry.Important b); cbn;
    split; intros; try lia.
  all: intuition (discriminate || lia).
Qed.

Lemma Compare_lt_specLt (s1 s2 : Specificity) : (Compare s1 s2 < 0)%Z <-> specLt s1 s2.
Proof.
  destruct s1, s2. unfold Compare, specLt. cbn. split_Z_tests; cbn; lia.
Qed.

Lemma Compare_gt_specLt (s1 s2 : Specificity) : Compare s1 s2 = 1%Z <-> specLt s2 s1.
Proof.
  destruct s1, s2. unfold Compare, specLt. cbn. split_Z_tests; cbn; lia.
Qed.

Lemma Compare_eq (s1 s2 : Specificity) : Compare s1 s2 = 0%Z <-> s1 = s2.
Proof.
  rewrite Specificity_eq.
  destruct s1, s2. unfold Compare. cbn. split_Z_tests; cbn; lia.
Qed.

(** *** What is collected *)

Lemma number_app (k : Z) (xs ys : list (Specificity * Declaration.t)) :
  number k (xs ++ ys) = number k xs ++ number (k + Z.of_nat (length xs)) ys.
Proof.
  revert k. induction xs as [|[spec decl] xs IH]; intros k; simpl.
  - f_equal. lia.
  - rewrite IH. do 3 f_equal. lia.
Qed.

Lemma number_length (k : Z) (xs : list (Specificity * Declaration.t)) :
  length (number k xs) = length xs.
Proof. revert k. induction xs as [|[? ?] xs IH]; intros k; simpl; [done|]. by rewrite IH. Qed.

(** The source orders of numbered entries grow from [k]. *)
Lemma number_Order_ge (k : Z) (xs : list (Specificity * Declaration.t)) :
  Forall (fun e => (k <= StyleEntry.Order e)%Z) (number k xs).
Proof.
  revert k. induction xs as [|[spec decl] xs IH]; intros k; simpl; constructor.
  - simpl. lia.
  - eapply Forall_impl; [apply IH|]. simpl. intros. lia.
Qed.

Lemma number_NoDup (k : Z) (xs : list (Specificity * Declaration.t)) :
  NoDup (StyleEntry.Order <$> number k xs).
Proof.
  revert k. induction xs as [|[spec decl] xs IH]; intros k; simpl; constructor; [|done].
  intros Hin. apply list_elem_of_fmap in Hin as (e & He & Hin). simpl in He.
  pose proof (number_Order_ge (k + 1) xs) as Hge.
  rewrite Forall_forall in Hge. apply Hge in Hin. lia.
Qed.

(** A loop that appends the numbered declarations of each element
    appends the numbered declarations of all of them. *)
Lemma fold_left_number {X : Type} (f : list StyleEntry.t * Z -> X -> list StyleEntry.t * Z)
    (g : X -> list (Specificity * Declaration.t)) :
  (forall es k x, f (es, k) x = (es ++ number k (g x), (k + Z.of_nat (length (g x)))%Z)) ->
  forall xs es k,
    fold_left f xs (es, k)
    = (es ++ number k (xs ≫= g), (k + Z.of_nat (length (xs ≫= g)))%Z).
Proof.
  intros Hf xs. induction xs as [|x xs IH]; intros es k; cbn [fold_left].
  - simpl. rewrite app_nil_r. f_equal. lia.
  - rewrite Hf, IH, bind_cons, number_app, length_app, <- app_assoc.
    f_equal. lia.
Qed.

Lemma bind_singleton_fmap {X Y : Type} (f : X -> Y) (xs : list X) :
  xs ≫= (fun x => [f x]) = f <$> xs.
Proof. induction xs as [|x xs IH]; [done|]. cbn. by rewrite <- IH. Qed.

Section Collected.
Context {F : Type} `{Float64 F} `{GoStrings}.
Implicit Type h : Store (ComputedStyle.t F).

Lemma addEntries_number (spec : Specificity) (ds : list Declaration.t)
    (es : list StyleEntry.t) (k : Z) :
  fold_left (addEntry spec) ds (es, k)
  = (es ++ number k ((fun decl => (spec, decl)) <$> ds),
     (k + Z.of_nat (length ((fun decl => (spec, decl)) <$> ds)))%Z).
Proof.
  rewrite <- bind_singleton_fmap.
  apply (fold_left_number (addEntry spec) (fun decl => [(spec, decl)])).
  intros es' k' x. unfold addEntry. simpl. f_equal. 
Qed.

Lemma collectSheets_number h (node : option nat) (stylesheets : list Stylesheet.t) :
  collectSheets h node stylesheets
  = (number 0 (matchingDeclarations h node stylesheets),
     Z.of_nat (length (matchingDeclarations h node stylesheets))).
Proof.
  unfold collectSheets, matchingDeclarations.
  rewrite (fold_left_number (collectSheet h node)
             (fun stylesheet =>
                rule ← Stylesheet.Rules stylesheet;
                selector ← Rule.Selectors rule;
                if Matches h selector node
                then (fun decl => (CalculateSpecificity selector, decl)) <$> Rule.Declarations rule
                else [])); [done|].
  intros es k sheet. unfold collectSheet.
  apply (fold_left_number (collectRule h node)
           (fun rule =>
              selector ← Rule.Selectors rule;
              if Matches h selector node
              then (fun decl => (CalculateSpecificity selector, decl)) <$> Rule.Declarations rule
              else [])).
  intros es' k' rule. unfold collectRule.
  apply (fold_left_number (collectSelector h node rule)
           (fun selector =>
              if Matches h selector node
              then (fun decl => (CalculateSpecificity selector, decl)) <$> Rule.Declarations rule
              else [])).
  intros es'' k'' selector. unfold collectSelector.
  destruct (Matches h selector node).
  - apply addEntries_number.
  - simpl. rewrite app_nil_r. f_equal. lia.
Qed.

(** The entries that [ComputeStyles] sorts: the matching declarations
    of the stylesheets, then those of the [style] attribute, numbered in
    that order. *)
Lemma collected_number h (node : option nat) (n : Node (ComputedStyle.t F))
    (stylesheets : list Stylesheet.t) :
  (collectInline n (collectSheets h node stylesheets)).1
  = number 0 (matchingDeclarations h node stylesheets ++ inlineDeclarations n).
Proof.
  rewrite collectSheets_number. unfold collectInline, inlineDeclarations.
  destruct (String.eqb (GetAttr n "style") ""); simpl.
  - by rewrite app_nil_r.
  - rewrite addEntries_number. simpl. by rewrite number_app.
Qed.

(** No selector has an inline component. *)
Lemma CalculateSpecificity_Inline (s : Selector) : Inline (CalculateSpecificity s) = 0%Z.
Proof.
  destruct s as [ty e c i a av parts pc ic]. simpl.
  destruct ty; simpl; try done.
  assert (Hacc : forall acc : Specificity, Inline acc = 0%Z ->
            Inline (fold_left
              (fun spec part =>
                 mkSpecificity (Inline spec)
                   (IDs spec + IDs (CalculateSpecificity part))
                   (Classes spec + Classes (CalculateSpecificity part))
                   (Elements spec + Elements (CalculateSpecificity part)))
              parts acc) = 0%Z).
  { induction parts as [|p parts IH]; intros acc Hacc; simpl; [done|]. by apply IH. }
  by apply Hacc.
Qed.

Lemma matchingDeclarations_Inline h (node : option nat) (stylesheets : list Stylesheet.t) :
  Forall (fun d => Inline d.1 = 0%Z) (matchingDeclarations h node stylesheets).
Proof.
  unfold matchingDeclarations. rewrite Forall_forall. intros [spec decl] Hin.
  apply list_elem_of_bind in Hin as (sheet & Hin & _).
  apply list_elem_of_bind in Hin as (rule & Hin & _).
  apply list_elem_of_bind in Hin as (selector & Hin & _).
  destruct (Matches h selector node); [|by apply elem_of_nil in Hin].
  apply list_elem_of_fmap in Hin as (d & [= -> ->] & _). simpl.
  apply CalculateSpecificity_Inline.
Qed.

(** The inline tier is above the specificity of every selector. *)
Lemma inline_tier_maximal (s : Selector) :
  Compare (mkSpecificity 1 0 0 0) (CalculateSpecificity s) = 1%Z.
Proof.
  pose proof (CalculateSpecificity_Inline s) as Hs.
  destruct (CalculateSpecificity s) as [i ? ? ?]. simpl in Hs. subst i. reflexivity.
Qed.

(** *** The order of application *)

Lemma sorted_by_less (l : list StyleEntry.t) :
  StronglySorted (fun a b => less b a = false) l ->
  NoDup (StyleEntry.Order <$> l) ->
  StronglySorted (fun a b => overrides b a) l.
Proof.
  induction 1 as [|a l Hs IH Hall]; intros Hnd; [constructor|].
  apply NoDup_cons in Hnd as [Hnotin Hnd].
  constructor; [by apply IH|].
  rewrite Forall_forall in Hall. rewrite Forall_forall. intros b Hb.
  apply keyLt_overrides, less_keyLt, less_total; [|by apply Hall].
  intros Heq. apply Hnotin. rewrite Heq. by apply list_elem_of_fmap_2.
Qed.

Lemma cascade_collected h (id : nat) (n : Node (ComputedStyle.t F))
    (stylesheets : list Stylesheet.t) :
  cascade h id n stylesheets
  = GoSort.SliceStable less
      (number 0 (matchingDeclarations h (Some id) stylesheets ++ inlineDeclarations n)).
Proof. unfold cascade. by rewrite collected_number. Qed.

Lemma cascade_sorted h (id : nat) (n : Node (ComputedStyle.t F))
    (stylesheets : list Stylesheet.t) :
  StronglySorted (fun a b => overrides b a) (cascade h id n stylesheets).
Proof.
  rewrite cascade_collected. apply sorted_by_less.
  - apply SortFacts.SliceStable_StronglySorted; [apply less_asym|apply less_le_trans].
  - rewrite SortFacts.SliceStable_Permutation. apply number_NoDup.
Qed.

(** In a list sorted by a relation, an element is related to every
    element after it. *)
Lemma StronglySorted_before {T : Type} (R : T -> T -> Prop) (a b : T) (l : list T) :
  StronglySorted R l -> appliedBefore a b l -> R a b.
Proof.
  intros Hs (l1 & l2 & l3 & ->).
  apply StronglySorted_app_1_r in Hs. apply StronglySorted_inv in Hs as [_ Hall].
  rewrite Forall_forall in Hall. apply Hall. set_solver.
Qed.

End Collected.

End CascadeFacts.

(** ** Lengths and colors *)

Module ValuesFacts.
Import Values TokenizerFacts.







Section Colors.
Context {F : Type} `{Float64 F} `{GoStrings}.










End Colors.

(** *** Lengths in exact arithmetic *)

Lemma Resolve_linear_Q (v : Q) (u : LengthUnit) (ctx : ResolveContext.t Q) :
  (Resolve (H := Q_float) (Length.mk (2 * v) u) ctx
   == 2 * Resolve (H := Q_float) (Length.mk v u) ctx)%Q.
Proof.
  destruct ctx as [fs rfs pw ph vw vh cw xh].
  destruct u; cbn; try (field; done); ring.
Qed.

(** Only the key [%] is a suffix of the text [50%]. *)
Lemma firstSuffix_percent (iteration : list (string * LengthUnit)) :
  Permutation iteration units ->
  firstSuffix iteration "50%" = Some ("%", UnitPercent).
Proof.
  intros Hperm.
  assert (Hall : Forall (fun e => GoStr.HasSuffix "50%" e.1 = true -> e = ("%", UnitPercent))
                        iteration).
  { rewrite Hperm. unfold units.
    repeat constructor. all: try (intros Hs; vm_compute in Hs; (discriminate || reflexivity)). }
  assert (Hin : ("%", UnitPercent) ∈ iteration).
  { rewrite Hperm. unfold units. set_solver. }
  clear Hperm.
  induction iteration as [|[k u] rest IH]; [by apply elem_of_nil in Hin|].
  apply Forall_cons in Hall as [Hk Hall]. simpl in *.
  destruct (GoStr.HasSuffix "50%" k) eqn:E.
  - by rewrite (Hk eq_refl).
  - apply IH; [done|].
    apply elem_of_cons in Hin as [Heq|Hin]; [|done].
    injection Heq as <- <-. discriminate.
Qed.

End ValuesFacts.

(** ** Flexbox *)

Module FlexFacts.
Import Values Layout.

Section Generic.
Context {F : Type} `{Float64 F}.
Implicit Types (fc : FlexContainer.t F) (line : FlexLine.t F) (items : list (FlexItem.t F)).

Lemma fmap_rev {X Y : Type} (f : X -> Y) (l : list X) : f <$> rev l = rev (f <$> l).
Proof. induction l as [|x l IH]; [done|]. simpl. by rewrite fmap_app, IH. Qed.

Lemma placeItems_reading {Y : Type} (g : FlexItem.t F -> Y) gap spacing numItems items i pos :
  mainReading g -> g <$> placeItems gap spacing numItems items i pos = g <$> items.
Proof.
  intros (Hg & _). revert i pos.
  induction items as [|item items IH]; intros i pos; [done|].
  cbn [placeItems]. rewrite !fmap_cons, IH. by rewrite Hg.
Qed.

Lemma placeItems_length gap spacing numItems items i pos :
  length (placeItems gap spacing numItems items i pos) = length items.
Proof.
  revert i pos. induction items as [|item items IH]; intros i pos; [done|].
  cbn [placeItems length]. by rewrite IH.
Qed.

Lemma alignMainAxis_reading {Y : Type} (g : FlexItem.t F -> Y) fc line mainSize isReverse :
  mainReading g ->
  g <$> FlexLine.Items (alignMainAxis fc line mainSize isReverse) = g <$> FlexLine.Items line.
Proof.
  intros Hg. unfold alignMainAxis.
  destruct (justify _ _ _) as [startPos spacing].
  cbn [setLineItems FlexLine.Items]. destruct isReverse.
  - rewrite fmap_rev, placeItems_reading by done. by rewrite <- fmap_rev, rev_involutive.
  - by apply placeItems_reading.
Qed.

Lemma fmap_fmap {X Y Z : Type} (f : X -> Y) (g : Y -> Z) (l : list X) :
  g <$> (f <$> l) = (fun x => g (f x)) <$> l.
Proof. induction l as [|x l IH]; [done|]. by rewrite !fmap_cons, IH. Qed.

Lemma fmap_ext_all {X Y : Type} (f g : X -> Y) (l : list X) :
  (forall x, f x = g x) -> f <$> l = g <$> l.
Proof. intros Hfg. induction l as [|x l IH]; [done|]. by rewrite !fmap_cons, IH, Hfg. Qed.

Lemma determineCrossSizes_reading {Y : Type} (g : FlexItem.t F -> Y) fc (lines : list (FlexLine.t F)) :
  mainReading g ->
  (fun line => g <$> FlexLine.Items line) <$> determineCrossSizes fc lines
  = (fun line => g <$> FlexLine.Items line) <$> lines.
Proof.
  intros (_ & Hg & _). unfold determineCrossSizes.
  rewrite fmap_fmap. apply fmap_ext_all. intros line.
  cbn [setLineItems FlexLine.Items]. rewrite fmap_fmap.
  apply fmap_ext_all. intros item.
  destruct (String.eqb _ _); apply Hg.
Qed.

Lemma stackLines_Items gap lineSpacing (lines : list (FlexLine.t F)) crossPos :
  FlexLine.Items <$> stackLines gap lineSpacing lines crossPos = FlexLine.Items <$> lines.
Proof.
  revert crossPos. induction lines as [|line lines IH]; intros crossPos; [done|].
  cbn [stackLines]. by rewrite !fmap_cons, IH.
Qed.

Lemma alignContent_Items ac freeCross (lines : list (FlexLine.t F)) :
  FlexLine.Items <$> (alignContent ac freeCross lines).2 = FlexLine.Items <$> lines.
Proof.
  unfold alignContent.
  repeat match goal with |- context [if ?b then _ else _] => destruct b end;
    cbn [snd]; try done; rewrite fmap_fmap; by apply fmap_ext_all.
Qed.

Lemma alignItem_reading {Y : Type} (g : FlexItem.t F -> Y) fc line item :
  mainReading g -> g (alignItem fc line item) = g item.
Proof.
  intros (_ & _ & Hg). unfold alignItem.
  repeat match goal with |- context [if ?b then _ else _] => destruct b end;
    (done || apply Hg).
Qed.

Lemma alignCrossAxis_reading {Y : Type} (g : FlexItem.t F -> Y) fc (lines : list (FlexLine.t F))
    availableCross :
  mainReading g ->
  (fun line => g <$> FlexLine.Items line) <$> alignCrossAxis fc lines availableCross
  = (fun line => g <$> FlexLine.Items line) <$> lines.
Proof.
  intros Hg. unfold alignCrossAxis.
  match goal with
  | |- context [alignContent ?ac ?free ?ls] =>
      pose proof (alignContent_Items ac free ls) as Hsel
  end.
  destruct (alignContent _ _ _) as [[lineStart lineSpacing] lines'].
  cbn [snd] in Hsel.
  rewrite fmap_fmap.
  transitivity ((fun items => g <$> items)
                  <$> (FlexLine.Items
                         <$> stackLines (FlexContainer.Gap fc) lineSpacing lines' lineStart)).
  - rewrite fmap_fmap. apply fmap_ext_all. intros line.
    cbn [setLineItems FlexLine.Items]. rewrite fmap_fmap.
    apply fmap_ext_all. intros item. by apply alignItem_reading.
  - rewrite stackLines_Items, Hsel. by rewrite fmap_fmap.
Qed.

(** After [Layout], a container that does not wrap reads, item by
    item, as its only line read after the flexible lengths are resolved. *)
Lemma Layout_noWrap_reading {Y : Type} (g : FlexItem.t F -> Y) fc :
  mainReading g -> noWrap fc -> FlexContainer.Items fc <> [] ->
  g <$> FlexContainer.Items (Layout fc)
  = g <$> FlexLine.Items (resolveFlexibleLengths fc (singleLine fc) (mainSizeOf fc) (isRowOf fc)).
Proof.
  intros Hg Hwrap Hne. unfold Layout.
  destruct (FlexContainer.Items fc) as [|i0 rest] eqn:Eitems; [done|].
  cbn [length Nat.eqb].
  assert (Hlines : collectIntoLines fc (mainSizeOf fc) (isRowOf fc) = [singleLine fc]).
  { unfold collectIntoLines, singleLine. rewrite Eitems.
    destruct Hwrap as [-> | ->]; reflexivity. }
  rewrite Hlines. cbn [fmap list_fmap].
  cbn [setLines FlexContainer.Items].
  set (l1 := alignMainAxis fc _ _ _).
  pose proof (alignCrossAxis_reading g fc (determineCrossSizes fc [l1])
                (if isRowOf fc then FlexContainer.Height fc else FlexContainer.Width fc) Hg) as Hc.
  rewrite (determineCrossSizes_reading g fc [l1] Hg) in Hc.
  cbn [fmap list_fmap] in Hc.
  destruct (alignCrossAxis fc _ _) as [|l2 [|? ?]] eqn:E; try discriminate.
  injection Hc as Hc. cbn [fmap list_fmap concat]. rewrite app_nil_r, Hc.
  subst l1. by apply alignMainAxis_reading.
Qed.

(** After [Layout], every line of the container reads, item by item, as
    the line that [collectIntoLines] made, read after the flexible
    lengths are resolved. *)
Lemma Layout_lines_reading {Y : Type} (g : FlexItem.t F -> Y) fc :
  mainReading g -> FlexContainer.Items fc <> [] ->
  (fun line => g <$> FlexLine.Items line) <$> FlexContainer.Lines (Layout fc)
  = (fun line => g <$> FlexLine.Items
                         (resolveFlexibleLengths fc line (mainSizeOf fc) (isRowOf fc)))
      <$> collectIntoLines fc (mainSizeOf fc) (isRowOf fc).
Proof.
  intros Hg Hne. unfold Layout.
  destruct (FlexContainer.Items fc) as [|i0 rest] eqn:Eitems; [done|].
  cbn [length Nat.eqb]. cbn [setLines FlexContainer.Lines].
  rewrite alignCrossAxis_reading, determineCrossSizes_reading by done.
  rewrite !fmap_fmap. apply fmap_ext_all. intros line.
  by apply alignMainAxis_reading.
Qed.

Lemma FinalMainSize_reading : mainReading (F := F) FlexItem.FinalMainSize.
Proof. by repeat split. Qed.

Lemma Layout_Gap fc : FlexContainer.Gap (Layout fc) = FlexContainer.Gap fc.
Proof. unfold Layout. by destruct (_ =? _)%nat. Qed.

(** The final sizes that [resolveFlexibleLengths] gives to a line with
    positive free space. *)
Lemma resolve_grow fc line (availableMain : F) (isRow : bool) :
  let items := FlexLine.Items line in
  let free := freeSpaceOf (FlexContainer.Gap fc) items availableMain in
  let totalGrow := total FlexItem.FlexGrow items in
  (free >? fofZ 0)%f64 = true ->
  FlexItem.FinalMainSize <$> FlexLine.Items (resolveFlexibleLengths fc line availableMain isRow)
  = (fun item =>
       if (totalGrow >? fofZ 0)%f64
       then (FlexItem.FlexBaseSize item + free * FlexItem.FlexGrow item / totalGrow)%f64
       else FlexItem.FlexBaseSize item) <$> items.
Proof.
  intros items free totalGrow Hfree. unfold resolveFlexibleLengths.
  fold items. fold free. fold totalGrow. rewrite Hfree.
  cbn [setLineItems FlexLine.Items].
  destruct (totalGrow >? fofZ 0)%f64; rewrite fmap_fmap; by apply fmap_ext_all.
Qed.

(** The same for the items of a container that does not wrap, after [Layout]. *)
Lemma Layout_grow fc :
  noWrap fc -> FlexContainer.Items fc <> [] ->
  (freeSpace fc >? fofZ 0)%f64 = true ->
  FlexItem.FinalMainSize <$> FlexContainer.Items (Layout fc)
  = (fun item =>
       if (total FlexItem.FlexGrow (FlexContainer.Items fc) >? fofZ 0)%f64
       then (FlexItem.FlexBaseSize item
             + freeSpace fc * FlexItem.FlexGrow item
               / total FlexItem.FlexGrow (FlexContainer.Items fc))%f64
       else FlexItem.FlexBaseSize item) <$> FlexContainer.Items fc.
Proof.
  intros Hwrap Hne Hfree.
  rewrite (Layout_noWrap_reading _ fc FinalMainSize_reading Hwrap Hne).
  by apply (resolve_grow fc (singleLine fc)).
Qed.

End Generic.

(** *** Conservation, in exact arithmetic *)

Section Exact.
Local Existing Instance Q_float.
Local Open Scope Q_scope.
Implicit Types (fc : FlexContainer.t Q) (items : list (FlexItem.t Q)).

Ltac qred := cbn [fadd fsub fmul fdiv flt feq fofZ Q_float] in *; unfold inject_Z in *.

Lemma Qsum_cons (x : Q) (l : list Q) : Qsum (x :: l) = x + Qsum l.
Proof. reflexivity. Qed.

Lemma Qsum_nil : Qsum [] = 0.
Proof. reflexivity. Qed.

Ltac lsimp := rewrite ?fmap_cons, ?fmap_nil, ?Qsum_cons, ?Qsum_nil; cbn [fold_left].

Lemma Qltb_lt (x y : Q) : Qltb x y = true <-> x < y.
Proof.
  unfold Qltb. rewrite negb_true_iff, <- not_true_iff_false, Qle_bool_iff. split.
  - apply Qnot_le_lt.
  - apply Qlt_not_le.
Qed.

Lemma Qltb_ge (x y : Q) : Qltb x y = false <-> y <= x.
Proof.
  unfold Qltb. rewrite negb_false_iff, Qle_bool_iff. done.
Qed.

Lemma fold_left_Qsum (f : FlexItem.t Q -> Q) items (a : Q) :
  fold_left (fun acc item => acc + f item) items a == a + Qsum (f <$> items).
Proof.
  revert a. induction items as [|item items IH]; intros a; lsimp.
  - ring.
  - rewrite IH. ring.
Qed.

Lemma total_Qsum (f : FlexItem.t Q -> Q) items : total f items == Qsum (f <$> items).
Proof. unfold total. qred. rewrite fold_left_Qsum. ring. Qed.

Lemma Qsum_ext (f g : FlexItem.t Q -> Q) items :
  (forall item, f item == g item) -> Qsum (f <$> items) == Qsum (g <$> items).
Proof.
  intros Hfg. induction items as [|item items IH]; lsimp; [done|].
  by rewrite IH, Hfg.
Qed.

(** Growing every item by its share of [free] adds [free] in all. *)
Lemma Qsum_grown (free T : Q) items :
  ~ T == 0 ->
  Qsum ((fun item => FlexItem.FlexBaseSize item + free * FlexItem.FlexGrow item / T
                     + FlexItem.MarginMainStart item + FlexItem.MarginMainEnd item) <$> items)
  == Qsum (outerBase <$> items) + free * Qsum (FlexItem.FlexGrow <$> items) / T.
Proof.
  intros HT. induction items as [|item items IH]; lsimp.
  - field. done.
  - rewrite IH. unfold outerBase. qred. field. done.
Qed.

Lemma withGaps_Proper (gap : Q) items items' (u u' : Q) :
  length items = length items' -> u == u' -> withGaps gap items u == withGaps gap items' u'.
Proof.
  intros Hlen Hu. unfold withGaps. rewrite Hlen.
  destruct (_ <? _)%nat; qred; by rewrite Hu.
Qed.

Lemma outerFinal_reading : mainReading (F := Q) outerFinal.
Proof. by repeat split. Qed.

Lemma fmap_eq_length {X Y : Type} (f : X -> Y) (l l' : list X) :
  f <$> l = f <$> l' -> length l = length l'.
Proof. intros E. apply (f_equal length) in E. by rewrite !length_fmap in E. Qed.

(** The sizes of the items of a line after the flexible lengths are
    resolved, when the free space is not negative. *)
Lemma resolved_sum fc line (availableMain : Q) (isRow : bool) :
  let items := FlexLine.Items line in
  let free := freeSpaceOf (FlexContainer.Gap fc) items availableMain in
  (free == 0 \/ (0 < free /\ 0 < total FlexItem.FlexGrow items)) ->
  Qsum (outerFinal <$> FlexLine.Items (resolveFlexibleLengths fc line availableMain isRow))
  == Qsum (outerBase <$> items) + free.
Proof.
  intros items free Hcase. unfold resolveFlexibleLengths.
  fold items. fold free. cbn [setLineItems FlexLine.Items]. qred.
  destruct Hcase as [Hzero|[Hpos Hgrow]].
  - assert (Qltb 0 free = false) as -> by (apply Qltb_ge; rewrite Hzero; apply Qle_refl).
    assert (Qltb free 0 = false) as -> by (apply Qltb_ge; rewrite Hzero; apply Qle_refl).
    rewrite fmap_fmap, Hzero.
    rewrite (Qsum_ext _ outerBase); [ring|]. intros item. reflexivity.
  - assert (Qltb 0 free = true) as -> by (by apply Qltb_lt).
    assert (Qltb 0 (total FlexItem.FlexGrow items) = true) as -> by (by apply Qltb_lt).
    rewrite fmap_fmap.
    rewrite (Qsum_ext _ (fun item => FlexItem.FlexBaseSize item
                             + free * FlexItem.FlexGrow item / total FlexItem.FlexGrow items
                             + FlexItem.MarginMainStart item + FlexItem.MarginMainEnd item));
      [|intros item; reflexivity].
    assert (HT : ~ total FlexItem.FlexGrow items == 0).
    { intros E. rewrite E in Hgrow. by apply Qlt_irrefl in Hgrow. }
    rewrite Qsum_grown by done. rewrite <- (total_Qsum FlexItem.FlexGrow items). field. done.
Qed.

(** In a container that does not wrap, when the free space is zero, or
    positive with a positive total of the grow factors, the items, their
    margins and the gaps fill the main size. *)
Lemma conservation fc :
  noWrap fc ->
  (freeSpace fc == 0
   \/ (0 < freeSpace fc /\ 0 < total FlexItem.FlexGrow (FlexContainer.Items fc))) ->
  occupied (Layout fc) == mainSizeOf fc.
Proof.
  intros Hwrap Hcase. unfold occupied. rewrite Layout_Gap.
  assert (Hdec : FlexContainer.Items fc = [] \/ FlexContainer.Items fc <> [])
    by (destruct (FlexContainer.Items fc); [by left|by right]).
  destruct Hdec as [Eitems|Hne].
  - assert (Layout fc = fc) as -> by (unfold Layout; by rewrite Eitems).
    rewrite Eitems. unfold freeSpace, freeSpaceOf in Hcase. rewrite Eitems in Hcase.
    unfold withGaps, total in *. cbn [length Nat.ltb Nat.leb fold_left] in *. qred.
    destruct Hcase as [Hz|[_ Hg]]; [|by apply Qlt_irrefl in Hg].
    rewrite <- Hz. ring.
  - pose proof (Layout_noWrap_reading outerFinal fc outerFinal_reading Hwrap Hne) as Hread.
    pose proof (fmap_eq_length _ _ _ Hread) as Hlen.
    unfold resolveFlexibleLengths in Hlen at 1.
    cbn [setLineItems FlexLine.Items singleLine] in Hlen.
    assert (Hlen' : length (FlexContainer.Items (Layout fc)) = length (FlexContainer.Items fc)).
    { rewrite Hlen. repeat match goal with |- context [if ?b then _ else _] => destruct b end;
        by rewrite length_fmap. }
    pose proof (resolved_sum fc (singleLine fc) (mainSizeOf fc) (isRowOf fc)) as Hsum.
    cbn zeta in Hsum. cbn [singleLine setLineItems setLineMainSize FlexLine.Items] in Hsum.
    rewrite <- Hread in Hsum.
    specialize (Hsum Hcase).
    rewrite (withGaps_Proper _ _ (FlexContainer.Items fc) _
               (Qsum (outerBase <$> FlexContainer.Items fc) + freeSpace fc)); [|done|].
    + unfold freeSpace, freeSpaceOf, withGaps.
      destruct (_ <? _)%nat; qred; rewrite (total_Qsum outerBase); ring.
    + by rewrite total_Qsum, Hsum.
Qed.

End Exact.

End FlexFacts.
(** ** Trees of the parser *)

Module ParsedFacts.
Import Dom Tree TreeFacts.

Lemma ParseHTML_wf {A : Type} `{GoStrings} (html : string) (h : Store A) :
  ParseHTML html = Ok h -> wf h.
Proof.
  destruct (parseLoop_ok (A := A) (GoStr.len html) (initial html) (Inv_initial html))
    as (st & Hloop & Hinv); [simpl; lia|].
  unfold ParseHTML. rewrite Hloop. intros [= <-]. apply (inv_wf _ Hinv).
Qed.

Lemma Nested_list_wf : wf Nested.list.
Proof.
  unfold Nested.list.
  destruct (ParseHTML _) as [h| |] eqn:E; [by apply ParseHTML_wf in E| |];
    exfalso; vm_compute in E; discriminate.
Qed.

End ParsedFacts.
(** ** More invariants of the tree builder *)

Module ShapeFacts.
Import Dom Tree TreeFacts Shape.

Lemma bind_Ok {X Y : Type} (m : result X) (f : X -> result Y) (y : Y) :
  m ≫= f = Ok y -> exists x, m = Ok x /\ f x = Ok y.
Proof. destruct m; [|done..]. intros Hf. by eexists. Qed.

Section Store.
Context {A : Type}.
Implicit Type h : Store A.

(** A node of the store is still there after [grow], the same but for
    its children. *)
Lemma grow_keeps h c pn n i x :
  h !! c = Some pn -> h !! i = Some x ->
  exists x', grow h c pn n !! i = Some x'
    /\ NType x' = NType x /\ Tag x' = Tag x /\ Content x' = Content x
    /\ Parent x' = Parent x /\ ComputedStyle x' = ComputedStyle x.
Proof.
  intros Hpn Hx.
  assert (Hc : c < length h) by (eapply lookup_lt_Some; eauto).
  assert (Hi : i < length h) by (eapply lookup_lt_Some; eauto).
  destruct (decide (i = c)) as [->|Hne].
  - rewrite grow_lookup_parent by done. eexists; split; [done|].
    assert (x = pn) by congruence. by subst.
  - rewrite grow_lookup_other by lia. by eexists.
Qed.

Lemma grow_container h c pn n i x :
  h !! c = Some pn -> h !! i = Some x -> container x = true ->
  exists x', grow h c pn n !! i = Some x' /\ container x' = true.
Proof.
  intros Hpn Hx Hcont.
  destruct (grow_keeps h c pn n i x Hpn Hx) as (x' & Hx' & Hty & Htag & _).
  exists x'. split; [done|]. unfold container in *. by rewrite Hty, Htag.
Qed.

(** Appending a fresh node to a container keeps the shape. *)
Lemma shaped_grow h c pn n :
  shaped h -> h !! c = Some pn -> container pn = true ->
  Children n = [] -> ComputedStyle n = None -> kind n ->
  shaped (grow h c pn n).
Proof.
  intros [Hback Hinner Hkind Hplain] Hpn Hcont Hn Hstyle Hk.
  assert (Hc : c < length h) by (eapply lookup_lt_Some; eauto).
  split.
  - intros p x c' Hp Hin.
    destruct (grow_lookup_inv _ _ _ _ _ _ Hc Hpn Hp) as [[-> ->]|[[-> ->]|(Hne & Hlt & Hx)]].
    + cbn in Hin. apply elem_of_app in Hin as [Hin|Hin].
      * destruct (Hback _ _ _ Hpn Hin) as (cn & Hcn & Hpar).
        destruct (grow_keeps h c pn n c' cn Hpn Hcn) as (x' & Hx' & _ & _ & _ & Hp' & _).
        exists x'. split; [done|]. congruence.
      * apply list_elem_of_singleton in Hin as ->.
        rewrite grow_lookup_new by done. by eexists.
    + cbn in Hin. rewrite Hn in Hin. by apply elem_of_nil in Hin.
    + destruct (Hback _ _ _ Hx Hin) as (cn & Hcn & Hpar).
      destruct (grow_keeps h c pn n c' cn Hpn Hcn) as (x' & Hx' & _ & _ & _ & Hp' & _).
      exists x'. split; [done|]. congruence.
  - intros p x Hp Hne.
    destruct (grow_lookup_inv _ _ _ _ _ _ Hc Hpn Hp) as [[-> ->]|[[-> ->]|(Hne' & Hlt & Hx)]].
    + done.
    + by cbn in Hne.
    + eauto.
  - intros i x Hi.
    destruct (grow_lookup_inv _ _ _ _ _ _ Hc Hpn Hi) as [[-> ->]|[[-> ->]|(Hne' & Hlt & Hx)]].
    + apply (Hkind _ _ Hpn).
    + done.
    + eauto.
  - intros i x Hi.
    destruct (grow_lookup_inv _ _ _ _ _ _ Hc Hpn Hi) as [[-> ->]|[[-> ->]|(Hne' & Hlt & Hx)]].
    + apply (Hplain _ _ Hpn).
    + done.
    + eauto.
Qed.

(** What a successful [appendNew] has done. *)
Lemma appendNew_inv h (c : nat) (n : Node A) h' (id : nat) :
  c < length h -> appendNew h (Some c) n = Ok (h', id) ->
  exists pn, h !! c = Some pn /\ h' = grow h c pn n /\ id = length h.
Proof.
  intros Hc Happ. destruct (appendNew_grow h c n Hc) as (pn & Hpn & Hok).
  exists pn. rewrite Hok in Happ. by injection Happ as <- <-.
Qed.

(** The parent of a node has children, so it is a container. *)
Lemma parent_container h (c p : nat) (n : Node A) :
  wf h -> shaped h -> h !! c = Some n -> Parent n = Some p ->
  p < length h /\ exists pn, h !! p = Some pn /\ container pn = true.
Proof.
  intros Hwf Hsh Hn Hp.
  destruct (wf_listed _ Hwf _ _ _ Hn Hp) as (Hlt & pn & Hpn & Hcount).
  split; [eapply lookup_lt_Some; eauto|].
  exists pn. split; [done|]. apply (sh_inner _ Hsh _ _ Hpn).
  intros Hnil. rewrite Hnil in Hcount. done.
Qed.

(** The walk of a closing tag ends at the parent of a node. *)
Lemma findOpen_parent h (name : string) (fuel : nat) (p : option nat) (par : nat) :
  findOpen h name p fuel = Ok (Some par) ->
  exists x xn, h !! x = Some xn /\ Parent xn = Some par.
Proof.
  revert p. induction fuel as [|fuel IH]; intros p Hf; [done|].
  cbn in Hf. destruct p as [pid|]; [|done].
  destruct (h !! pid) as [pn|] eqn:Hpn; [|done].
  destruct (Parent pn) as [q|] eqn:Hq; [|done].
  destruct (String.eqb (Tag pn) name).
  - injection Hf as <-. eauto.
  - eauto.
Qed.

End Store.

Ltac red_state := cbn [tok Raw Pos heap current fst snd] in *.

Section Parser.
Context {A : Type} `{GoStrings}.

Lemma raw_not_void (name : string) :
  inList name rawContentTags = true -> inList name voidElements = false.
Proof.
  unfold inList, rawContentTags. cbn [existsb]. rewrite !orb_true_iff.
  intros [Heq|[Heq|?]]; [| |done]; apply String.eqb_eq in Heq; by subst.
Qed.

(** A fresh element or text appended to a container of a state. *)
Lemma append_shaped (h : Store A) (c : nat) (n : Node A) h' (id : nat) :
  wf h -> shaped h -> c < length h ->
  (exists pn, h !! c = Some pn /\ container pn = true) ->
  Children n = [] -> ComputedStyle n = None -> kind n ->
  appendNew h (Some c) n = Ok (h', id) ->
  wf h' /\ shaped h' /\ id = length h /\ length h' = S (length h)
  /\ h' !! id = Some (setParent n (Some c))
  /\ (forall i x, h !! i = Some x -> container x = true ->
        exists x', h' !! i = Some x' /\ container x' = true).
Proof.
  intros Hwf Hsh Hc (pn & Hpn & Hcont) Hn Hstyle Hk Happ.
  destruct (appendNew_inv h c n h' id Hc Happ) as (pn' & Hpn' & -> & ->).
  assert (pn' = pn) by congruence. subst pn'.
  split; [by apply wf_grow|]. split; [by apply shaped_grow|]. split; [done|].
  split; [apply grow_length|]. split; [by apply grow_lookup_new|].
  intros i x Hx Hcx. by apply (grow_container _ _ _ _ _ x).
Qed.

Lemma kind_element (name : string) (attrs : gmap string string) :
  name <> "" -> kind (setAttributes (NewElement (A := A) name) attrs).
Proof. intros Hname. by left. Qed.

Lemma container_element (name : string) (attrs : gmap string string) (p : option nat) :
  inList name voidElements = false ->
  container (setParent (setAttributes (NewElement (A := A) name) attrs) p) = true.
Proof.
  intros Hvoid. unfold container, setParent, setAttributes, NewElement.
  cbn [NType Tag]. by rewrite Hvoid.
Qed.

Lemma kind_text (content : string) : kind (NewText (A := A) content).
Proof. by right. Qed.

(** One turn of the loop keeps the second invariant. *)
Lemma step_shape (st st' : PState (A := A)) :
  Inv st -> Inv2 st -> HasMore (tok st) = true -> step st = Ok st' ->
  Inv st' /\ Inv2 st'.
Proof.
  intros HI [Hsh Hcurc] Hmore Hstep.
  destruct (step_ok st HI Hmore) as (st1 & Hst1 & HI1 & _).
  assert (st1 = st') by congruence. subst st1. split; [done|].
  destruct HI as [Hwf (c & Hcur & Hc) Hpos].
  destruct (Hcurc c Hcur) as (cn & Hcn & Hccont).
  unfold step in Hstep.
  apply bind_Ok in Hstep as ([tk t'] & Htok & Hstep).
  rewrite Hcur in Hstep. red_state.
  assert (Hkeep : forall t, Inv2 (mkPState (heap st) (Some c) t)).
  { intros t. split; red_state; [done|]. intros c' [= <-]. eauto. }
  destruct (isTag tk).
  - destruct (String.eqb _ "") eqn:Ename; [injection Hstep as <-; apply Hkeep|].
    apply String.eqb_neq in Ename.
    destruct (isClose tk).
    { apply bind_Ok in Hstep as (found & Hfound & Hstep). injection Hstep as <-.
      destruct found as [c'|]; [|apply Hkeep].
      split; red_state; [done|]. intros ? [= <-].
      apply findOpen_parent in Hfound as (x & xn & Hx & Hpar).
      destruct (parent_container _ _ _ _ Hwf Hsh Hx Hpar) as (_ & pn & Hpn & Hpc). eauto. }
    destruct (inList _ rawContentTags) eqn:Eraw.
    { apply bind_Ok in Hstep as ([h1 id] & Happ & Hstep).
      eapply append_shaped in Happ as (Hwf1 & Hsh1 & -> & Hlen1 & Hnew & Hkeep1);
        [|done|done|done|eauto|done|done|by apply kind_element].
      apply bind_Ok in Hstep as (found & Hfound & Hstep).
      destruct (Hkeep1 _ _ Hcn Hccont) as (cn1 & Hcn1 & Hccont1).
      destruct found as [p|].
      - apply bind_Ok in Hstep as (content & Hcontent & Hstep).
        apply bind_Ok in Hstep as (h2 & Hh2 & Hstep). injection Hstep as <-.
        destruct (String.eqb (TrimSpace content) "").
        + injection Hh2 as <-. split; red_state; [done|]. intros ? [= <-]. eauto.
        + apply bind_Ok in Hh2 as ([h2' id2] & Happ2 & Hh2). injection Hh2 as <-.
          eapply append_shaped in Happ2 as (Hwf2 & Hsh2 & -> & Hlen2 & Hnew2 & Hkeep2);
            [|done|done|lia| |done|done|apply kind_text].
          * split; red_state; [done|]. intros ? [= <-]. eauto.
          * eexists; split; [done|]. by apply container_element, raw_not_void.
      - injection Hstep as <-. split; red_state; [done|]. intros ? [= <-]. eauto. }
    destruct (inList _ skipTags).
    { apply bind_Ok in Hstep as (t'' & _ & Hstep). injection Hstep as <-. apply Hkeep. }
    destruct (inList _ voidElements || GoStr.HasSuffix (fullTag tk) "/") eqn:Eleaf.
    { apply bind_Ok in Hstep as ([h1 id] & Happ & Hstep). injection Hstep as <-.
      eapply append_shaped in Happ as (Hwf1 & Hsh1 & -> & Hlen1 & Hnew & Hkeep1);
        [|done|done|done|eauto|done|done|by apply kind_element].
      split; red_state; [done|]. intros ? [= <-]. eauto. }
    apply bind_Ok in Hstep as (cur' & Hcur' & Hstep).
    apply bind_Ok in Hstep as ([h1 id] & Happ & Hstep). injection Hstep as <-.
    assert (Hc' : exists c', cur' = Some c' /\ c' < length (heap st)
                   /\ exists pn, heap st !! c' = Some pn /\ container pn = true).
    { destruct (_ || _) in Hcur'.
      - rewrite Hcn in Hcur'. injection Hcur' as <-.
        destruct (String.eqb (Tag cn) _); [|by eauto 6].
        destruct (Parent cn) as [p|] eqn:Hp.
        + destruct (parent_container _ _ _ _ Hwf Hsh Hcn Hp) as (? & ?). eauto.
        + done.
      - injection Hcur' as <-. eauto 6. }
    destruct Hc' as (c' & -> & Hc' & Hpn').
    eapply append_shaped in Happ as (Hwf1 & Hsh1 & -> & Hlen1 & Hnew & Hkeep1);
      [|done|done|done|done|done|done|by apply kind_element].
    split; red_state; [done|]. intros ? [= <-]. eexists; split; [done|].
    apply orb_false_iff in Eleaf as [Evoid _]. by apply container_element.
  - destruct (0 <? _); [|injection Hstep as <-; apply Hkeep].
    apply bind_Ok in Hstep as ([h1 id] & Happ & Hstep). injection Hstep as <-.
    eapply append_shaped in Happ as (Hwf1 & Hsh1 & -> & Hlen1 & Hnew & Hkeep1);
      [|done|done|done|eauto|done|done|apply kind_text].
    split; red_state; [done|]. intros ? [= <-]. eauto.
Qed.

Lemma parseLoop_shape (fuel : nat) (st st' : PState (A := A)) :
  Inv st -> Inv2 st -> parseLoop fuel st = Ok st' -> Inv st' /\ Inv2 st'.
Proof.
  revert st. induction fuel as [|fuel IH]; intros st HI HI2 Hloop;
    cbn [parseLoop] in Hloop;
    destruct (HasMore (tok st)) eqn:Hmore; try done; try (by injection Hloop as <-).
  apply bind_Ok in Hloop as (st1 & Hstep & Hloop).
  destruct (step_shape st st1 HI HI2 Hmore Hstep) as [HI1 HI21]. eauto.
Qed.

Lemma Inv2_initial (html : string) : Inv2 (initial (A := A) html).
Proof.
  split; cbn.
  - split.
    + intros [|[|p]] pn c Hp Hin; simplify_eq/=. by apply elem_of_nil in Hin.
    + intros [|[|p]] pn Hp Hne; by simplify_eq/=.
    + intros [|[|i]] n Hn; simplify_eq/=. by left.
    + intros [|[|i]] n Hn; by simplify_eq/=.
  - intros c [= <-]. by eexists.
Qed.

(** The trees of [ParseHTML] have both invariants. *)
Lemma ParseHTML_shaped (html : string) (h : Store A) :
  ParseHTML html = Ok h -> wf h /\ shaped h.
Proof.
  unfold ParseHTML. intros Hp. apply bind_Ok in Hp as (st & Hloop & [= <-]).
  destruct (parseLoop_shape _ _ _ (Inv_initial html) (Inv2_initial html) Hloop)
    as [HI HI2].
  split; [apply (inv_wf _ HI)|apply (inv2_shaped _ HI2)].
Qed.

End Parser.

Section Links.
Context {A : Type} (h : Store A).
Hypothesis Hwf : wf h.
Hypothesis Hsh : shaped h.

(** A child comes after its parent in the store. *)
Lemma child_gt (p c : nat) (pn : Node A) :
  h !! p = Some pn -> c ∈ Children pn -> p < c /\ c < length h.
Proof.
  intros Hp Hin. destruct (sh_back _ Hsh _ _ _ Hp Hin) as (cn & Hcn & Hpar).
  destruct (wf_listed _ Hwf _ _ _ Hcn Hpar) as [Hlt _].
  split; [done|]. eapply lookup_lt_Some; eauto.
Qed.

(** No node is listed twice by its parent. *)
Lemma children_NoDup (p : nat) (pn : Node A) : h !! p = Some pn -> NoDup (Children pn).
Proof.
  intros Hp. apply NoDup_ListNoDup, (List.NoDup_count_occ Nat.eq_dec). intros c.
  destruct (decide (c ∈ Children pn)) as [Hin|Hout].
  - destruct (sh_back _ Hsh _ _ _ Hp Hin) as (cn & Hcn & Hpar).
    destruct (wf_listed _ Hwf _ _ _ Hcn Hpar) as (_ & pn' & Hpn' & Hcount).
    assert (pn' = pn) by congruence. subst. lia.
  - rewrite (proj1 (count_occ_not_In Nat.eq_dec _ _)); [lia|].
    by rewrite <- list_elem_of_In.
Qed.

End Links.

Section Pointers.
Import Css.
Context {A : Type} (h : Store A).
Hypothesis Hwf : wf h.

Lemma parentPtr_parentOf (c p : nat) : parentPtr h c = Some p <-> parentOf h c p.
Proof.
  unfold parentPtr, parentOf. destruct (h !! c) as [n|]; cbn.
  - split; [by exists n|]. by intros (? & [= <-] & ?).
  - split; [done|]. by intros (? & ? & ?).
Qed.

Lemma parentPtr_before (c p : nat) : parentPtr h c = Some p -> p < c /\ c < length h.
Proof.
  intros (n & Hn & Hp)%parentPtr_parentOf.
  destruct (wf_listed _ Hwf _ _ _ Hn Hp) as [Hlt _].
  split; [done|]. eapply lookup_lt_Some; eauto.
Qed.

Lemma parentPtr_root (c : nat) : c < length h -> parentPtr h c = None -> c = 0.
Proof.
  intros Hc Hnone. destruct (decide (c = 0)) as [|Hne]; [done|].
  destruct (lookup_lt_is_Some_2 h c Hc) as [n Hn].
  destruct (wf_parent _ Hwf _ _ Hn Hne) as [p Hp].
  unfold parentPtr in Hnone. rewrite Hn in Hnone. cbn in Hnone. congruence.
Qed.

Lemma tc_inv_r {X : Type} (R : relation X) (x z : X) :
  tc R x z -> R x z \/ exists y, tc R x y /\ R y z.
Proof.
  induction 1 as [x z Hxz|x y z Hxy Hyz IH]; [by left|]. right.
  destruct IH as [Hyz'|(w & Hyw & Hwz)].
  - exists y. split; [by apply tc_once|done].
  - exists w. split; [by eapply tc_l|done].
Qed.

End Pointers.

End ShapeFacts.

(** * The claims of the specification *)

(** ** The cascade *)

Module CascadeClaims.
Import Dom Css CascadeSpec CascadeFacts.

Lemma overrides_asym (a b : StyleEntry.t) : overrides b a -> overrides a b -> False.
Proof.
  intros Hba Hab. apply keyLt_overrides, less_keyLt in Hba, Hab.
  apply less_asym in Hba. congruence.
Qed.

Lemma before_or_after {T : Type} (a b : T) (l : list T) :
  a ∈ l -> b ∈ l -> a <> b -> appliedBefore a b l \/ appliedBefore b a l.
Proof.
  intros Ha Hb Hab. apply list_elem_of_split in Ha as (l1 & l2 & ->).
  apply elem_of_app in Hb as [Hb|Hb].
  - apply list_elem_of_split in Hb as (l3 & l4 & ->). right.
    exists l3, l4, l2. by rewrite <- app_assoc.
  - apply elem_of_cons in Hb as [->|Hb]; [done|].
    apply list_elem_of_split in Hb as (l3 & l4 & ->). left. by exists l1, l3, l4.
Qed.

Section Order.
Context {F : Type} `{Float64 F} `{GoStrings}.
Variable ApplyProperty : ComputedStyle.t F -> string -> string -> ComputedStyle.t F.

(** C1.  For an element node [n] at [id] and any stylesheets,
    [ComputeStyles] applies, from the defaults of the tag, the entries
    of [cascade] from left to right.  These are the declarations of the
    matching rules and of the style attribute, numbered in source
    order; the style attribute is at specificity (1,0,0,0), above the
    specificity of every selector.  An entry is applied before another
    exactly when the other overrides it: an important entry overrides
    one that is not, with the same importance the higher specificity
    overrides, compared as inline, ids, classes, types, and with the
    same specificity the later in source order overrides. *)
Theorem cascade_order (h : Store (ComputedStyle.t F)) (id : nat)
    (n : Node (ComputedStyle.t F)) (stylesheets : list Stylesheet.t) :
  h !! id = Some n -> isElementNode n = true ->
  let declared := matchingDeclarations h (Some id) stylesheets ++ inlineDeclarations n in
  let applied := cascade h id n stylesheets in
  ComputeStyles ApplyProperty h (Some id) stylesheets
  = fold_left (fun style entry =>
                 ApplyDeclarations ApplyProperty style (StyleEntry.Declarations entry))
              applied (DefaultForTag (Tag n))
  /\ Permutation applied (number 0 declared)
  /\ Forall (fun d => d.1 = mkSpecificity 1 0 0 0) (inlineDeclarations n)
  /\ (forall s, specLt (CalculateSpecificity s) (mkSpecificity 1 0 0 0))
  /\ (forall a b, a ∈ applied -> b ∈ applied ->
        (appliedBefore a b applied <-> overrides b a)).
Proof.
  intros Hn Hel declared applied. repeat split.
  - unfold ComputeStyles. by rewrite Hn, Hel.
  - unfold applied. rewrite cascade_collected.
    apply SortFacts.SliceStable_Permutation.
  - unfold inlineDeclarations. destruct (String.eqb _ _); [constructor|].
    rewrite Forall_forall. intros d Hd.
    by apply list_elem_of_fmap in Hd as (decl & -> & _).
  - intros s. apply Compare_gt_specLt, inline_tier_maximal.
  - apply (StronglySorted_before (fun a b => overrides b a)), cascade_sorted.
  - intros Hov. pose proof (cascade_sorted h id n stylesheets) as Hs. fold applied in Hs.
    destruct (before_or_after a b applied) as [Hab|Hba]; [done..| |done|].
    + intros ->. by apply (overrides_asym b b).
    + apply (StronglySorted_before (fun a b => overrides b a) _ _ _ Hs) in Hba.
      by destruct (overrides_asym a b).
Qed.

End Order.

Section Scenario.
Local Existing Instance ascii_strings.
Local Existing Instance Q_float.

(** The entries of the element of [Scenarios.page] under
    [Scenarios.sheet]: the type rule that is important is applied last,
    the style attribute before it, the id, class and type rules before
    that one in the reverse order of their specificity. *)
Lemma cascade_order_witness :
  let applied := cascade Scenarios.page 1 Scenarios.pageDiv [Scenarios.sheet] in
  (StyleEntry.Order <$> applied = [3; 2; 0; 4; 1]%Z)
  /\ ComputedStyle.Display
       (ComputeStyles Scenarios.ApplyProperty_text
          Scenarios.page (Some 1) [Scenarios.sheet]) = "none"
  /\ (forall a b, a ∈ applied -> b ∈ applied ->
        (appliedBefore a b applied <-> overrides b a)).
Proof.
  intros applied. split; [by vm_compute|]. split; [by vm_compute|].
  apply (cascade_order Scenarios.ApplyProperty_text
           Scenarios.page 1 Scenarios.pageDiv [Scenarios.sheet]).
  - by vm_compute.
  - by vm_compute.
Defined.

End Scenario.

End CascadeClaims.

(** ** The parser of HTML *)

Module ParserClaims.
Import Dom Tree TreeFacts.

(** C2.  For every text, [ParseHTML] returns a store of nodes: the loop
    ends within the fuel of one step for each byte, and no index or
    slice is out of range.  In the store every node whose parent
    pointer is set is listed exactly once among the children of that
    parent, and no node is its own ancestor; the node at 0 is the
    root. *)
Theorem ParseHTML_tree {A : Type} `{GoStrings} (html : string) :
  exists h : Store A,
    ParseHTML html = Ok h
    /\ listedOnce h
    /\ acyclic h
    /\ (exists r, h !! 0 = Some r /\ Tag r = "root" /\ Parent r = None).
Proof.
  destruct (parseLoop_ok (A := A) (GoStr.len html) (initial html) (Inv_initial html))
    as (st & Hloop & Hinv); [simpl; lia|].
  exists (heap st). unfold ParseHTML. rewrite Hloop. split; [done|].
  pose proof (inv_wf _ Hinv) as Hwf.
  split; [by apply wf_listedOnce|]. split; [by apply wf_acyclic|].
  apply (wf_root _ Hwf).
Qed.

(** C5.  An svg element nested in an svg element ends the skipping of
    the outer one: the paragraph after the inner closing tag, still
    inside the outer element, is added to the tree with its text. *)
Theorem skip_nested_ends_early :
  exists h : Store unit,
    ParseHTML (H := ascii_strings) "<svg><svg></svg><p>x</p></svg>" = Ok h
    /\ outline h = [(NodeElement, "root", "", [1], None);
                    (NodeElement, "p", "", [2], Some 0);
                    (NodeText, "", "x", [], Some 1)].
Proof. eexists. split; by vm_compute. Qed.

End ParserClaims.

(** ** Box model and flexbox *)

Module LayoutClaims.
Import Values Layout FlexFacts.

Section Exact.
Local Existing Instance Q_float.
Local Open Scope Q_scope.

(** C3, as it is stated, fails: a row of width 300 that does not wrap,
    with one item of base size 100 that does not grow, has free space
    200, and after [Layout] the item still takes 100 of the 300. *)
Lemma conservation_fails_without_growth :
  let fc := Scenarios.rigidRow in
  noWrap fc /\ FlexContainer.Direction fc = "row" /\ 0 <= freeSpace fc
  /\ occupied (Layout fc) == 100 /\ ~ occupied (Layout fc) == FlexContainer.Width fc.
Proof.
  cbv zeta. split; [by left|]. split; [done|]. split; [by vm_compute|].
  split; [by vm_compute|]. by vm_compute.
Qed.

(** C3, amended.  In exact arithmetic, for a row container that does
    not wrap and whose free space is zero, or positive with a positive
    total of the grow factors: after [Layout] the final main sizes of
    the items with their margins, plus the gaps between the items, add
    up to the width of the container. *)
Theorem flex_conservation (fc : FlexContainer.t Q) :
  noWrap fc -> FlexContainer.Direction fc = "row" ->
  (freeSpace fc == 0
   \/ (0 < freeSpace fc /\ 0 < total FlexItem.FlexGrow (FlexContainer.Items fc))) ->
  occupied (Layout fc) == FlexContainer.Width fc.
Proof.
  intros Hwrap Hrow Hfree. rewrite (conservation fc Hwrap Hfree).
  unfold mainSizeOf, isRowOf. by rewrite Hrow.
Qed.

(** Two items of base sizes 50 and 100 and grow factors 1 and 2, with a
    gap of 10, in a row of width 300. *)
Lemma flex_conservation_witness : occupied (Layout Scenarios.growingRow) == 300.
Proof.
  change (occupied (Layout Scenarios.growingRow)
          == FlexContainer.Width Scenarios.growingRow).
  apply (flex_conservation Scenarios.growingRow).
  - by left.
  - reflexivity.
  - right. split; by vm_compute.
Defined.

End Exact.

End LayoutClaims.

Module GrowthClaims.
Import Values Layout FlexFacts.

Lemma fmap_eq_Forall2 {X X' Y : Type} (f : X -> Y) (g : X' -> Y) (l : list X) (l' : list X') :
  f <$> l = g <$> l' -> Forall2 (fun a b => f a = g b) l l'.
Proof.
  revert l'. induction l as [|a l IH]; intros [|b l'] Heq; try discriminate; [constructor|].
  rewrite !fmap_cons in Heq. injection Heq as Hab Heq. constructor; [done|by apply IH].
Qed.

(** Scenario D over the rationals: the three final sizes are 100 and
    the items stand at 0, 100 and 200. *)
Lemma scenarioD_exact :
  let fc := Scenarios.laidOutD_exact in
  Forall2 Qeq (FlexItem.FinalMainSize <$> FlexContainer.Items fc) [100; 100; 100]%Q
  /\ Forall2 Qeq (FlexItem.MainPos <$> FlexContainer.Items fc) [0; 100; 200]%Q.
Proof. cbv zeta. split; vm_compute; repeat constructor. Qed.

(** Scenario D in binary64. *)
Lemma scenarioD_binary64 :
  let fc := Scenarios.laidOutD_binary64 in
  FlexItem.FinalMainSize <$> FlexContainer.Items fc = [100; 100; 100]%float
  /\ FlexItem.MainPos <$> FlexContainer.Items fc = [0; 100; 200]%float.
Proof. cbv zeta. split; by vm_compute. Qed.

(** C6.  After [Layout], on every line that [collectIntoLines] makes
    and whose free space is positive, the final main size of an item is
    its base size plus the share of the free space that its grow factor
    has in the total of the line; when that total is not positive, the
    final main size is the base size.  For a row of main size 300 with
    three items of base size 0 and grow factor 1, without margins and
    gap, the final main sizes are 100 and the main positions 0, 100 and
    200, over the rationals and in binary64. *)
Theorem proportional_growth {F : Type} `{Float64 F} (fc : FlexContainer.t F) :
  FlexContainer.Items fc <> [] ->
  Forall2 (fun line' line =>
             (freeSpaceOf (FlexContainer.Gap fc) (FlexLine.Items line) (mainSizeOf fc)
              >? fofZ 0)%f64 = true ->
             FlexItem.FinalMainSize <$> FlexLine.Items line'
             = grown (FlexContainer.Gap fc) (mainSizeOf fc) line)
          (FlexContainer.Lines (Layout fc))
          (collectIntoLines fc (mainSizeOf fc) (isRowOf fc))
  /\ (let fc := Scenarios.laidOutD_exact in
      Forall2 Qeq (FlexItem.FinalMainSize <$> FlexContainer.Items fc) [100; 100; 100]%Q
      /\ Forall2 Qeq (FlexItem.MainPos <$> FlexContainer.Items fc) [0; 100; 200]%Q)
  /\ (let fc := Scenarios.laidOutD_binary64 in
      FlexItem.FinalMainSize <$> FlexContainer.Items fc = [100; 100; 100]%float
      /\ FlexItem.MainPos <$> FlexContainer.Items fc = [0; 100; 200]%float).
Proof.
  intros Hne. split; [|split; [apply scenarioD_exact|apply scenarioD_binary64]].
  pose proof (fmap_eq_Forall2 _ _ _ _
                (Layout_lines_reading FlexItem.FinalMainSize fc FinalMainSize_reading Hne))
    as Hall.
  eapply Forall2_impl; [exact Hall|].
  intros line' line Heq Hfree. cbn beta in Heq. rewrite Heq.
  by apply resolve_grow.
Qed.

Section Scenario.
Local Existing Instance Q_float.

(** The container of scenario D is not empty; it has one line. *)
Lemma proportional_growth_witness :
  Forall2 (fun line' line =>
             (freeSpaceOf (H := Q_float) 0%Q (FlexLine.Items line) 300%Q >? 0%Q)%f64 = true ->
             FlexItem.FinalMainSize <$> FlexLine.Items line'
             = grown 0%Q 300%Q line)
          (FlexContainer.Lines Scenarios.laidOutD_exact)
          [singleLine (H := Q_float) (Scenarios.scenarioD (H := Q_float))].
Proof.
  assert (Hne : FlexContainer.Items (Scenarios.scenarioD (H := Q_float)) <> []) by done.
  exact (proj1 (proportional_growth (H := Q_float) (Scenarios.scenarioD (H := Q_float)) Hne)).
Defined.

End Scenario.

End GrowthClaims.

(** ** The box model *)

Module BoxClaims.
Import Values Layout.

(** C7, as it is stated, fails: for the initial style, whose height is
    auto, the content height is 0 and the whole box is the one of the
    same style with the explicit height of 0 pixels. *)
Lemma auto_height_is_zero :
  let auto := NewComputedStyle (H := prim_float) in
  let zero := ComputedStyle.setHeight auto (Px 0%float) in
  IsAuto (ComputedStyle.Height auto) = true
  /\ IsAuto (ComputedStyle.Height zero) = false
  /\ BoxDimensions.ContentHeight
       (ComputeBoxDimensions (H := prim_float) auto 800%float 600%float) = 0%float
  /\ ComputeBoxDimensions (H := prim_float) auto 800%float 600%float
     = ComputeBoxDimensions (H := prim_float) zero 800%float 600%float.
Proof. cbv zeta. repeat split; by vm_compute. Qed.

Section Box.
Context {F : Type} `{Float64 F}.

(** C7, amended.  For a style whose height is auto,
    [ComputeBoxDimensions] sets the content height to 0 before the
    bounds of min-height and max-height apply, and to 0 when there are
    none; unless the box sizing is border-box, the box is the one of
    the same style with the explicit height of 0 pixels.  The content
    height is whatever [SetContentHeight] stores later. *)
Theorem auto_height_resolves_to_zero (style : ComputedStyle.t F)
    (containingWidth containingHeight : F) :
  IsAuto (ComputedStyle.Height style) = true ->
  let box := ComputeBoxDimensions style containingWidth containingHeight in
  (Length.Unit (ComputedStyle.MinHeight style) = UnitNone ->
   Length.Unit (ComputedStyle.MaxHeight style) = UnitNone ->
   BoxDimensions.ContentHeight box = fofZ 0)
  /\ (String.eqb (ComputedStyle.BoxSizing style) "border-box" = false ->
      box = ComputeBoxDimensions (ComputedStyle.setHeight style (Px (fofZ 0)))
              containingWidth containingHeight)
  /\ (forall height, BoxDimensions.ContentHeight (SetContentHeight box height) = height).
Proof.
  intros Hauto box. split; [|split].
  - intros Hmin Hmax. unfold box, ComputeBoxDimensions.
    cbn [BoxDimensions.ContentHeight]. by rewrite Hauto, Hmin, Hmax.
  - intros Hsizing. unfold box, ComputeBoxDimensions.
    destruct style. cbn in *. rewrite Hauto, Hsizing. reflexivity.
  - done.
Qed.

End Box.

Section Scenario.
Local Existing Instance Q_float.

(** The initial style: its height is auto and its box sizing is
    content-box. *)
Lemma auto_height_resolves_to_zero_witness :
  ComputeBoxDimensions NewComputedStyle 800%Q 600%Q
  = ComputeBoxDimensions (ComputedStyle.setHeight NewComputedStyle (Px 0%Q)) 800%Q 600%Q.
Proof.
  assert (Hauto : IsAuto (ComputedStyle.Height NewComputedStyle) = true) by reflexivity.
  exact (proj1 (proj2 (auto_height_resolves_to_zero NewComputedStyle 800%Q 600%Q Hauto))
               eq_refl).
Defined.

End Scenario.

End BoxClaims.

(** ** Lengths and colors *)

Module ValuesClaims.
Import Values ValuesFacts.

Section Binary64.
Local Existing Instance prim_float.

(** C8, as it is stated, fails in binary64.  With a font size of one
    half and the unit em, the least positive value doubles without
    rounding, but its half rounds to zero; and the double of a value
    near the largest one is infinite. *)
Lemma doubling_rounds_in_binary64 :
  let ctx := (ResolveContext.mk 0.5 16 1024 768 1024 768 8 8)%float in
  let tiny := 0x1p-1074%float in
  let huge := 0x1p+1023%float in
  ((Resolve (Length.mk (2 * tiny) UnitEm) ctx = tiny
   /\ 2 * Resolve (Length.mk tiny UnitEm) ctx = 0
   /\ feq (Resolve (Length.mk (2 * tiny) UnitEm) ctx)
          (2 * Resolve (Length.mk tiny UnitEm) ctx) = false)
  /\ (Resolve (Length.mk (2 * huge) UnitEm) ctx = infinity
      /\ 2 * Resolve (Length.mk huge UnitEm) ctx = huge))%float.
Proof. cbv zeta. repeat split; by vm_compute. Qed.

End Binary64.

Section Lengths.
Local Existing Instance ascii_strings.

(** C8, amended.  In exact arithmetic, for every value, unit and
    context, the length of twice the value resolves to twice what the
    length of the value resolves to.  Whatever the order in which the
    map of units is visited, the text 50% parses to 50 percent, and it
    resolves to 100 against a parent width of 200, over the rationals
    and in binary64. *)
Theorem resolve_linear (iteration : list (string * LengthUnit)) :
  Permutation iteration units ->
  (forall (v : Q) (u : LengthUnit) (ctx : ResolveContext.t Q),
     Resolve (H := Q_float) (Length.mk (2 * v) u) ctx
     == 2 * Resolve (H := Q_float) (Length.mk v u) ctx)%Q
  /\ (ParseLength (H := Q_float) iteration "50%" = (Percent 50%Q, None)
      /\ Resolve (H := Q_float) (ParseLength (H := Q_float) iteration "50%").1
           (ResolveContext.mk 16 16 200 768 1024 768 8 8) == 100)%Q
  /\ (ParseLength (H := prim_float) iteration "50%" = (Percent 50, None)
      /\ Resolve (H := prim_float) (ParseLength (H := prim_float) iteration "50%").1
           (ResolveContext.mk 16 16 200 768 1024 768 8 8) = 100)%float.
Proof.
  intros Hperm. split; [apply Resolve_linear_Q|].
  assert (HQ : ParseLength (H := Q_float) iteration "50%" = (Percent 50%Q, None)).
  { unfold ParseLength.
    change (TrimSpace (ToLower "50%")) with "50%". cbn [String.eqb Ascii.eqb orb Bool.eqb].
    rewrite (firstSuffix_percent iteration Hperm). by vm_compute. }
  assert (HF : ParseLength (H := prim_float) iteration "50%" = (Percent 50%float, None)).
  { unfold ParseLength.
    change (TrimSpace (ToLower "50%")) with "50%". cbn [String.eqb Ascii.eqb orb Bool.eqb].
    rewrite (firstSuffix_percent iteration Hperm). by vm_compute. }
  rewrite HQ, HF. repeat split; by vm_compute.
Qed.

(** The map of units visited in the reverse of the order in which it is
    written. *)
Lemma resolve_linear_witness :
  (Resolve (H := prim_float) (ParseLength (H := prim_float) (rev units) "50%").1
     (ResolveContext.mk 16 16 200 768 1024 768 8 8) = 100)%float.
Proof.
  assert (Hperm : Permutation (rev units) units) by (symmetry; apply Permutation_rev).
  exact (proj2 (proj2 (proj2 (resolve_linear (rev units) Hperm)))).
Defined.

End Lengths.

Section Colors.
Context {F : Type} `{Float64 F} `{GoStrings}.


End Colors.

Section Scenario.
Local Existing Instance ascii_strings.
Local Existing Instance prim_float.



End Scenario.

End ValuesClaims.

(** ** Inheritance and specificity *)

Module StyleClaims.
Import Dom Css CascadeSpec CascadeFacts.

Section Scenario.
Local Existing Instance Q_float.

(** C4, as it is stated, fails: a paragraph with the text alignment of
    its tag, inside a parent that is centered, keeps its own
    alignment. *)
Lemma text_align_not_inherited :
  let child := DefaultForTag "p" in
  let parent := ComputedStyle.setTextAlign (DefaultForTag "div") "center" in
  ComputedStyle.TextAlign child = ComputedStyle.TextAlign (DefaultForTag "p")
  /\ ComputedStyle.TextAlign (inherit child parent) = "left"
  /\ ~ InheritanceSpec.inheritsWhitelist "p" child parent (inherit child parent).
Proof.
  cbv zeta. split; [done|]. split; [by vm_compute|].
  intros (_ & _ & _ & _ & _ & [Halign _] & _).
  specialize (Halign eq_refl). by vm_compute in Halign.
Qed.

End Scenario.

Section Inheritance.
Context {F : Type} `{Float64 F} `{GoStrings}.
Variable ApplyProperty : ComputedStyle.t F -> string -> string -> ComputedStyle.t F.

(** C4, amended.  For an element whose parent has a style,
    [applyStylesRecursive] stores the style of the cascade after the
    inheritance pass.  The pass takes the font size of the parent when
    that of the child is 16 and that of the parent is not, and the font
    weight of the parent when that of the child is 400 and that of the
    parent is not; it leaves the font family, the line height, the text
    alignment and the visibility of the child as they are. *)
Theorem inheritance_pass (h : Store (ComputedStyle.t F)) (id p : nat)
    (n pn : Node (ComputedStyle.t F)) (parentStyle : ComputedStyle.t F)
    (stylesheets : list Stylesheet.t) :
  h !! id = Some n -> isElementNode n = true ->
  Parent n = Some p -> h !! p = Some pn -> Dom.ComputedStyle pn = Some parentStyle ->
  let own := ComputeStyles ApplyProperty h (Some id) stylesheets in
  exists result,
    styleNode ApplyProperty h id stylesheets !! id = Some (setComputedStyle n (Some result))
    /\ ComputedStyle.FontSize result
       = (if (ComputedStyle.FontSize own =? fofZ 16)%f64
             && (ComputedStyle.FontSize parentStyle !=? fofZ 16)%f64
          then ComputedStyle.FontSize parentStyle else ComputedStyle.FontSize own)
    /\ ComputedStyle.FontWeight result
       = (if (ComputedStyle.FontWeight own =? 400)%Z
             && negb (ComputedStyle.FontWeight parentStyle =? 400)%Z
          then ComputedStyle.FontWeight parentStyle else ComputedStyle.FontWeight own)
    /\ ComputedStyle.FontFamily result = ComputedStyle.FontFamily own
    /\ ComputedStyle.LineHeight result = ComputedStyle.LineHeight own
    /\ ComputedStyle.TextAlign result = ComputedStyle.TextAlign own
    /\ ComputedStyle.Visibility result = ComputedStyle.Visibility own.
Proof.
  intros Hn Hel Hp Hpn Hps own. exists (inherit own parentStyle). split.
  - unfold styleNode. rewrite Hn, Hel, Hp. cbn [mbind option_bind]. rewrite Hpn.
    cbn [mbind option_bind]. rewrite Hps. cbn [InheritFromParent].
    apply list_lookup_insert_eq. by apply lookup_lt_Some in Hn.
  - unfold inherit.
    destruct ((ComputedStyle.FontSize own =? fofZ 16)%f64
              && (ComputedStyle.FontSize parentStyle !=? fofZ 16)%f64);
      cbn [ComputedStyle.setFontSize ComputedStyle.FontWeight];
      destruct ((ComputedStyle.FontWeight own =? 400)%Z
                && negb (ComputedStyle.FontWeight parentStyle =? 400)%Z);
      by repeat split.
Qed.

End Inheritance.

Section InheritanceScenario.
Local Existing Instance Q_float.
Local Existing Instance ascii_strings.

(** The element of [Scenarios.page], once its root has a style. *)
Lemma inheritance_pass_witness :
  exists result,
    styleNode Scenarios.ApplyProperty_text Scenarios.styledRoot 1 [Scenarios.sheet] !! 1
    = Some (setComputedStyle Scenarios.styledDiv (Some result))
    /\ ComputedStyle.TextAlign result = "left".
Proof.
  assert (Hn : Scenarios.styledRoot !! 1 = Some Scenarios.styledDiv)
    by (vm_compute; reflexivity).
  assert (Hel : isElementNode Scenarios.styledDiv = true) by (vm_compute; reflexivity).
  assert (Hp : Parent Scenarios.styledDiv = Some 0) by (vm_compute; reflexivity).
  assert (Hpn : Scenarios.styledRoot !! 0 = Some Scenarios.styledRootNode)
    by (vm_compute; reflexivity).
  assert (Hps : Dom.ComputedStyle Scenarios.styledRootNode = Some Scenarios.styledRootStyle)
    by (vm_compute; reflexivity).
  destruct (inheritance_pass Scenarios.ApplyProperty_text Scenarios.styledRoot 1 0
              Scenarios.styledDiv Scenarios.styledRootNode Scenarios.styledRootStyle
              [Scenarios.sheet] Hn Hel Hp Hpn Hps)
    as (result & Hstored & _ & _ & _ & _ & Halign & _).
  exists result. split; [exact Hstored|]. rewrite Halign. vm_compute. reflexivity.
Defined.

End InheritanceScenario.

End StyleClaims.

Module SpecificityClaims.
Import Dom Css CascadeSpec CascadeFacts.

(** The sum of a list of counts. *)
Lemma descendant_sum (parts : list Selector) (acc : Specificity) :
  fold_left (fun spec part =>
               mkSpecificity (Inline spec)
                 (IDs spec + IDs (CalculateSpecificity part))
                 (Classes spec + Classes (CalculateSpecificity part))
                 (Elements spec + Elements (CalculateSpecificity part)))
            parts acc
  = mkSpecificity (Inline acc)
      (IDs acc + foldr Z.add 0%Z ((fun part => IDs (CalculateSpecificity part)) <$> parts))
      (Classes acc
       + foldr Z.add 0%Z ((fun part => Classes (CalculateSpecificity part)) <$> parts))
      (Elements acc
       + foldr Z.add 0%Z ((fun part => Elements (CalculateSpecificity part)) <$> parts)).
Proof.
  revert acc. induction parts as [|part parts IH]; intros acc.
  - destruct acc. cbn. f_equal; lia.
  - cbn [fold_left]. rewrite IH. rewrite !fmap_cons. cbn [foldr Inline IDs Classes Elements].
    f_equal; lia.
Qed.

Section Parse.
Context `{GoStrings}.

(** The parts of a text with a child combinator, as [ParseSelector]
    collects them. *)
Lemma ParseSelector_child (text : string) :
  let parts := omap (fun p => let p := TrimSpace p in
                              if String.eqb p "" then None else Some (parseSimpleSelector p))
                    (GoStr.Split (TrimSpace text) ">") in
  GoStr.Contains (TrimSpace text) ">" = true -> parts <> [] ->
  ParseSelector text = mkSelector SelectorChild "" "" "" "" "" parts "" true.
Proof.
  intros parts Hcontains Hparts. unfold ParseSelector. rewrite Hcontains. fold parts.
  destruct parts; [done|]. reflexivity.
Qed.

(** C10.  A selector of the child kind has the specificity zero,
    whatever its parts are, and a text with a child combinator parses
    to such a selector; the specificity of a descendant selector is the
    sum of those of its parts.  Hence a selector that is one id, one
    class or one type compares above every child selector, and with the
    same importance its entry is applied after that of the child
    selector, whatever their source order. *)
Theorem child_combinator_specificity (s other : Selector) (a b : StyleEntry.t) :
  SType s = SelectorChild ->
  SType other = SelectorID \/ SType other = SelectorClass
  \/ (SType other = SelectorElement /\ Element other <> "" /\ Element other <> "*") ->
  StyleEntry.Specificity a = CalculateSpecificity s ->
  StyleEntry.Specificity b = CalculateSpecificity other ->
  StyleEntry.Important a = StyleEntry.Important b ->
  CalculateSpecificity s = mkSpecificity 0 0 0 0
  /\ (forall text,
        GoStr.Contains (TrimSpace text) ">" = true ->
        (exists p, p ∈ GoStr.Split (TrimSpace text) ">" /\ TrimSpace p <> "") ->
        SType (ParseSelector text) = SelectorChild
        /\ CalculateSpecificity (ParseSelector text) = mkSpecificity 0 0 0 0)
  /\ (forall parts,
        CalculateSpecificity (mkSelector SelectorDescendant "" "" "" "" "" parts "" false)
        = mkSpecificity 0
            (foldr Z.add 0%Z ((fun part => IDs (CalculateSpecificity part)) <$> parts))
            (foldr Z.add 0%Z ((fun part => Classes (CalculateSpecificity part)) <$> parts))
            (foldr Z.add 0%Z ((fun part => Elements (CalculateSpecificity part)) <$> parts)))
  /\ Compare (CalculateSpecificity other) (CalculateSpecificity s) = 1%Z
  /\ less a b = true
  /\ overrides b a.
Proof.
  intros Hs Hother Ha Hb Himp.
  assert (Hzero : CalculateSpecificity s = mkSpecificity 0 0 0 0).
  { destruct s as [ty e c i at' av parts pc ic]. cbn in Hs. subst ty. reflexivity. }
  assert (Hcmp : Compare (CalculateSpecificity other) (CalculateSpecificity s) = 1%Z).
  { rewrite Hzero. destruct other as [ty e c i at' av parts pc ic]. cbn in Hother.
    destruct Hother as [-> | [-> | (-> & He & Hstar)]]; [reflexivity..|].
    cbn [CalculateSpecificity SType Element ID Class].
    apply String.eqb_neq in He, Hstar. rewrite He, Hstar. cbn [negb andb].
    by destruct (negb (String.eqb i "")), (negb (String.eqb c "")). }
  assert (Hless : less a b = true).
  { unfold less. rewrite Himp, Bool.eqb_reflx. cbn [negb]. rewrite Ha, Hb.
    apply Compare_gt_specLt, Compare_lt_specLt in Hcmp.
    destruct (Z.eqb_spec (Compare (CalculateSpecificity s) (CalculateSpecificity other)) 0);
      [lia|]. cbn [negb]. by apply Z.ltb_lt. }
  split; [done|]. split; [|split; [|split; [done|split; [done|]]]].
  - intros text Hcontains (p & Hp & Hne).
    rewrite ParseSelector_child; [done|done|].
    intros Hnil. apply (f_equal (fun l => parseSimpleSelector (TrimSpace p) ∈ l)) in Hnil.
    assert (Hin : parseSimpleSelector (TrimSpace p)
                    ∈ omap (fun p => let p := TrimSpace p in
                                     if String.eqb p "" then None
                                     else Some (parseSimpleSelector p))
                           (GoStr.Split (TrimSpace text) ">")).
    { apply list_elem_of_omap. exists p. split; [done|]. cbn zeta.
      apply String.eqb_neq in Hne. by rewrite Hne. }
    rewrite Hnil in Hin. by apply elem_of_nil in Hin.
  - intros parts. cbn [CalculateSpecificity SType Parts].
    rewrite descendant_sum. cbn [Inline IDs Classes Elements]. f_equal; lia.
  - by apply keyLt_overrides, less_keyLt.
Qed.

End Parse.

Section Scenario.
Local Existing Instance ascii_strings.

(** A rule for a class, later in the source than a rule for an id with
    a child combinator, and of the same importance. *)
Lemma child_combinator_specificity_witness :
  let s := ParseSelector "#a > .b" in
  let other := ParseSelector ".c" in
  SType s = SelectorChild
  /\ Compare (CalculateSpecificity other) (CalculateSpecificity s) = 1%Z
  /\ less (StyleEntry.mk [] (CalculateSpecificity s) 1 false)
          (StyleEntry.mk [] (CalculateSpecificity other) 0 false) = true.
Proof.
  cbv zeta. split; [by vm_compute|].
  assert (Hs : SType (ParseSelector "#a > .b") = SelectorChild) by (by vm_compute).
  assert (Hother : SType (ParseSelector ".c") = SelectorID
                   \/ SType (ParseSelector ".c") = SelectorClass
                   \/ (SType (ParseSelector ".c") = SelectorElement
                       /\ Element (ParseSelector ".c") <> ""
                       /\ Element (ParseSelector ".c") <> "*"))
    by (right; left; by vm_compute).
  pose (a := StyleEntry.mk [] (CalculateSpecificity (ParseSelector "#a > .b")) 1 false).
  pose (b := StyleEntry.mk [] (CalculateSpecificity (ParseSelector ".c")) 0 false).
  assert (Ha : StyleEntry.Specificity a = CalculateSpecificity (ParseSelector "#a > .b"))
    by reflexivity.
  assert (Hb : StyleEntry.Specificity b = CalculateSpecificity (ParseSelector ".c"))
    by reflexivity.
  assert (Himp : StyleEntry.Important a = StyleEntry.Important b) by reflexivity.
  destruct (child_combinator_specificity _ _ a b Hs Hother Ha Hb Himp)
    as (_ & _ & _ & Hcmp & Hless & _).
  by split.
Defined.

End Scenario.

End SpecificityClaims.

(** * Further properties of the code *)

(** ** Flexbox *)

Module FlexProperties.
Import Layout FlexFacts LayoutReadings.

Section Lines.
Context {F : Type} `{Float64 F}.

Lemma wrapStep_partition (gap mainSize : F) (items : list (FlexItem.t F))
    (lines : list (FlexLine.t F)) (cur : FlexLine.t F) (size : F) :
  let '(lines', cur', _) := fold_left (wrapStep gap mainSize) items (lines, cur, size) in
  concat (FlexLine.Items <$> lines') ++ FlexLine.Items cur'
  = concat (FlexLine.Items <$> lines) ++ FlexLine.Items cur ++ items.
Proof.
  revert lines cur size. induction items as [|item items IH]; intros lines cur size.
  - cbn [fold_left]. by rewrite app_nil_r.
  - cbn [fold_left]. unfold wrapStep at 2.
    destruct ((0 <? length (FlexLine.Items cur))%nat && _).
    + specialize (IH (lines ++ [setLineMainSize cur size])
                     (setLineItems emptyLine (FlexLine.Items emptyLine ++ [item]))
                     (outerBase item)).
      destruct (fold_left _ _ _) as [[lines' cur'] size']. rewrite IH.
      rewrite fmap_app, concat_app. cbn. by rewrite app_nil_r, <- !app_assoc.
    + match goal with
      | |- context [fold_left _ items (lines, ?c, ?s)] => specialize (IH lines c s)
      end.
      destruct (fold_left _ _ _) as [[lines' cur'] size']. rewrite IH.
      cbn. by rewrite <- !app_assoc.
Qed.

Lemma lines_concat (fc : FlexContainer.t F) (mainSize : F) (isRow : bool) :
  concat (FlexLine.Items <$> collectIntoLines fc mainSize isRow) = FlexContainer.Items fc.
Proof.
  unfold collectIntoLines. destruct (String.eqb _ _ || String.eqb _ _).
  - cbn. by rewrite app_nil_r.
  - pose proof (wrapStep_partition (FlexContainer.Gap fc) mainSize (FlexContainer.Items fc)
                  [] emptyLine (fofZ 0)) as Hpart.
    destruct (fold_left _ _ _) as [[lines cur] size]. cbn in Hpart.
    destruct (FlexLine.Items cur) as [|i0 rest] eqn:Ecur.
    + cbn. by rewrite app_nil_r in Hpart.
    + cbn [length Nat.ltb Nat.leb]. rewrite fmap_app, concat_app. cbn.
      rewrite app_nil_r, Ecur. exact Hpart.
Qed.

(** X1.  [collectIntoLines] puts every item of the container on exactly
    one line, in the order of the container. *)
Theorem collectIntoLines_partition (fc : FlexContainer.t F) (mainSize : F) (isRow : bool) :
  concat (FlexLine.Items <$> collectIntoLines fc mainSize isRow) = FlexContainer.Items fc.
Proof. apply lines_concat. Qed.

Lemma wrapStep_nonempty (gap mainSize : F) (items : list (FlexItem.t F))
    (lines : list (FlexLine.t F)) (cur : FlexLine.t F) (size : F) :
  Forall (fun line => FlexLine.Items line <> []) lines ->
  Forall (fun line => FlexLine.Items line <> [])
         (fold_left (wrapStep gap mainSize) items (lines, cur, size)).1.1.
Proof.
  revert lines cur size. induction items as [|item items IH]; intros lines cur size Hall.
  - done.
  - cbn [fold_left]. unfold wrapStep at 2.
    destruct (0 <? length (FlexLine.Items cur))%nat eqn:Elen; cbn [andb].
    + destruct (_ >? _)%f64.
      * apply IH. apply Forall_app. split; [done|]. constructor; [|constructor].
        cbn. apply Nat.ltb_lt in Elen. intros E. rewrite E in Elen. cbn in Elen. lia.
      * by apply IH.
    + by apply IH.
Qed.

(** X2.  A container that wraps has no empty line. *)
Theorem wrapped_lines_nonempty (fc : FlexContainer.t F) (mainSize : F) (isRow : bool) :
  String.eqb (FlexContainer.Wrap fc) "nowrap" || String.eqb (FlexContainer.Wrap fc) "" = false ->
  Forall (fun line => FlexLine.Items line <> []) (collectIntoLines fc mainSize isRow).
Proof.
  intros Hwrap. unfold collectIntoLines. rewrite Hwrap.
  pose proof (wrapStep_nonempty (FlexContainer.Gap fc) mainSize (FlexContainer.Items fc)
                [] emptyLine (fofZ 0) (Forall_nil_2 _)) as Hall.
  destruct (fold_left _ _ _) as [[lines cur] size]. cbn in Hall.
  destruct (0 <? length (FlexLine.Items cur))%nat eqn:Elen; [|done].
  apply Forall_app. split; [done|]. constructor; [|constructor].
  cbn. apply Nat.ltb_lt in Elen. intros E. rewrite E in Elen. cbn in Elen. lia.
Qed.

Lemma fmap_concat_lines {X Y : Type} (f : X -> Y) (ls : list (list X)) :
  f <$> concat ls = concat ((fun l : list X => f <$> l) <$> ls).
Proof.
  induction ls as [|l ls IH]; [done|]. cbn [concat]. by rewrite fmap_app, IH.
Qed.

Lemma inputsOf_reading : mainReading (F := F) inputsOf.
Proof. by repeat split. Qed.

Lemma resolve_inputs (fc : FlexContainer.t F) (line : FlexLine.t F) (availableMain : F)
    (isRow : bool) :
  inputsOf <$> FlexLine.Items (resolveFlexibleLengths fc line availableMain isRow)
  = inputsOf <$> FlexLine.Items line.
Proof.
  unfold resolveFlexibleLengths. cbn [setLineItems FlexLine.Items].
  destruct (_ >? _)%f64; [destruct (_ >? _)%f64|destruct (_ <? _)%f64; [destruct (_ >? _)%f64|]];
    rewrite fmap_fmap; apply fmap_ext_all; intros item; reflexivity.
Qed.

(** X3.  [Layout] neither drops, repeats nor reorders the items of a
    container, wrapping or not, and leaves what it was given for each
    item as it was. *)
Theorem Layout_keeps_items (fc : FlexContainer.t F) :
  inputsOf <$> FlexContainer.Items (Layout fc) = inputsOf <$> FlexContainer.Items fc.
Proof.
  assert (Hdec : FlexContainer.Items fc = [] \/ FlexContainer.Items fc <> [])
    by (destruct (FlexContainer.Items fc); [by left|by right]).
  destruct Hdec as [Hnil|Hne].
  - assert (Layout fc = fc) as -> by (unfold Layout; by rewrite Hnil). done.
  - pose proof (Layout_lines_reading inputsOf fc inputsOf_reading Hne) as Hread.
    assert (Hitems : FlexContainer.Items (Layout fc)
                     = concat (FlexLine.Items <$> FlexContainer.Lines (Layout fc))).
    { unfold Layout. destruct (FlexContainer.Items fc); [done|]. reflexivity. }
    rewrite Hitems, fmap_concat_lines, fmap_fmap.
    cbn beta. rewrite Hread.
    rewrite (fmap_ext_all _ (fun line => inputsOf <$> FlexLine.Items line));
      [|intros line; apply resolve_inputs].
    rewrite <- (fmap_fmap FlexLine.Items (fun l : list (FlexItem.t F) => inputsOf <$> l)).
    by rewrite <- fmap_concat_lines, lines_concat.
Qed.

End Lines.

Section LinesScenario.
Local Existing Instance Q_float.

(** A row that wraps into two lines. *)
Lemma wrapped_lines_nonempty_witness :
  Forall (fun line : FlexLine.t Q => FlexLine.Items line <> [])
         (collectIntoLines wrappingRow 100%Q true)
  /\ length (collectIntoLines (wrappingRow (F := Q)) 100%Q true) = 2%nat.
Proof.
  split; [|by vm_compute].
  apply (wrapped_lines_nonempty wrappingRow 100%Q true). reflexivity.
Defined.

End LinesScenario.

Section Exact.
Local Existing Instance Q_float.
Local Open Scope Q_scope.
Implicit Types (fc : FlexContainer.t Q) (items : list (FlexItem.t Q)).

Ltac qred := cbn [fadd fsub fmul fdiv flt feq fofZ Q_float] in *; unfold inject_Z in *.
Ltac lsimp := rewrite ?fmap_cons, ?fmap_nil, ?Qsum_cons, ?Qsum_nil; cbn [fold_left].

Lemma placeItems_chain (gap spacing : Q) (n : nat) items (i : nat) (pos : Q) (k : nat)
    (a b : FlexItem.t Q) :
  (i + length items = n)%nat ->
  placeItems gap spacing n items i pos !! k = Some a ->
  placeItems gap spacing n items i pos !! S k = Some b ->
  FlexItem.MainPos b - FlexItem.MarginMainStart b == mainEnd a + gap + spacing.
Proof.
  revert i pos k. induction items as [|x items IH]; intros i pos k Hn Ha Hb; [done|].
  destruct k as [|k].
  - destruct items as [|y items]; [done|].
    cbn [placeItems lookup list_lookup] in Ha, Hb.
    injection Ha as <-. injection Hb as <-.
    assert ((i <? n - 1)%nat = true) as -> by (apply Nat.ltb_lt; cbn [length] in Hn; lia).
    unfold mainEnd. cbn [FlexItem.setMainPos FlexItem.MainPos FlexItem.MarginMainStart
                         FlexItem.FinalMainSize FlexItem.MarginMainEnd]. qred. ring.
  - cbn [placeItems] in Ha, Hb. rewrite lookup_cons in Ha, Hb.
    eapply (IH (S i)); [cbn [length] in Hn; lia|exact Ha|exact Hb].
Qed.

Lemma justify_spacing_nonneg (jc : string) (free : Q) (n : nat) :
  0 <= free -> 0 <= (justify jc free n).2.
Proof.
  intros Hfree. unfold justify, ofNat.
  assert (Hdiv : forall m : nat, 0 <= free / inject_Z (Z.of_nat m)).
  { intros m. destruct m as [|m].
    - unfold Qdiv. cbn. rewrite Qmult_0_r. apply Qle_refl.
    - apply Qle_shift_div_l; [|by rewrite Qmult_0_l].
      change 0 with (inject_Z 0). rewrite <- Zlt_Qlt. lia. }
  repeat match goal with |- context [if ?b then _ else _] => destruct b end;
    cbn [snd]; qred; try apply Qle_refl; apply Hdiv.
Qed.

(** X4.  On a line that is not reversed, after [alignMainAxis] an item
    starts no earlier than where the item before it ends, its margins
    and the gap included, whatever [justify-content] is. *)
Theorem items_do_not_overlap fc (line : FlexLine.t Q) (mainSize : Q) (k : nat)
    (a b : FlexItem.t Q) :
  FlexLine.Items (alignMainAxis fc line mainSize false) !! k = Some a ->
  FlexLine.Items (alignMainAxis fc line mainSize false) !! S k = Some b ->
  mainEnd a + FlexContainer.Gap fc <= FlexItem.MainPos b - FlexItem.MarginMainStart b.
Proof.
  unfold alignMainAxis.
  match goal with
  | |- context [justify ?jc ?free ?n] =>
      pose proof (justify_spacing_nonneg jc free n) as Hsp;
      destruct (justify jc free n) as [startPos spacing]
  end.
  cbn [setLineItems FlexLine.Items snd] in *. intros Ha Hb.
  rewrite (placeItems_chain _ _ _ _ _ _ _ _ _ (Nat.add_0_l _) Ha Hb).
  assert (0 <= spacing).
  { apply Hsp. qred. destruct (Qltb _ 0) eqn:E; [apply Qle_refl|by apply Qltb_ge]. }
  lra.
Qed.

(** The second item of the line of scenario D starts where the first ends. *)
Lemma items_do_not_overlap_witness :
  exists a b : FlexItem.t Q,
    mainEnd a + 0 <= FlexItem.MainPos b - FlexItem.MarginMainStart b
    /\ mainEnd a == 100 /\ FlexItem.MainPos b == 100.
Proof.
  pose (fc := Scenarios.scenarioD (F := Q)).
  pose (line := resolveFlexibleLengths fc (singleLine fc) 300 true).
  pose (placed := FlexLine.Items (alignMainAxis fc line 300 false)).
  pose (a := default (Scenarios.flexItem 0 0 0) (placed !! 0%nat)).
  pose (b := default (Scenarios.flexItem 0 0 0) (placed !! 1%nat)).
  exists a, b. split; [|split; by vm_compute].
  apply (items_do_not_overlap fc line 300 0 a b); by vm_compute.
Defined.

Lemma Qltb_lt' (x y : Q) : Qltb x y = true <-> x < y.
Proof.
  unfold Qltb. rewrite negb_true_iff, <- not_true_iff_false, Qle_bool_iff. split.
  - apply Qnot_le_lt.
  - apply Qlt_not_le.
Qed.

(** The branch of [resolveFlexibleLengths] that shrinks. *)
Lemma resolve_shrink fc (line : FlexLine.t Q) (availableMain : Q) (isRow : bool) :
  let items := FlexLine.Items line in
  let free := freeSpaceOf (FlexContainer.Gap fc) items availableMain in
  let totalShrink :=
    total (fun item => FlexItem.FlexShrink item * FlexItem.FlexBaseSize item)%f64 items in
  free < 0 -> 0 < totalShrink ->
  FlexLine.Items (resolveFlexibleLengths fc line availableMain isRow)
  = (fun item =>
       let final := FlexItem.FlexBaseSize item
                    + free * (FlexItem.FlexShrink item * FlexItem.FlexBaseSize item
                              / totalShrink) in
       FlexItem.setFinalMainSize item (if Qltb final 0 then 0 else final)) <$> items.
Proof.
  intros items free totalShrink Hfree Hshrink. unfold resolveFlexibleLengths.
  fold items. fold free. fold totalShrink. cbn [setLineItems FlexLine.Items]. qred.
  assert (Qltb 0 free = false) as -> by (apply Qltb_ge; by apply Qlt_le_weak).
  assert (Qltb free 0 = true) as -> by (by apply Qltb_lt').
  assert (Qltb 0 totalShrink = true) as -> by (by apply Qltb_lt').
  reflexivity.
Qed.

(** X5.  When a line overflows and its items can shrink, no item gets a
    negative final main size. *)
Theorem shrunk_sizes_nonnegative fc (line : FlexLine.t Q) (availableMain : Q) (isRow : bool) :
  freeSpaceOf (FlexContainer.Gap fc) (FlexLine.Items line) availableMain < 0 ->
  0 < total (fun item => FlexItem.FlexShrink item * FlexItem.FlexBaseSize item)%f64
            (FlexLine.Items line) ->
  Forall (fun item => 0 <= FlexItem.FinalMainSize item)
         (FlexLine.Items (resolveFlexibleLengths fc line availableMain isRow)).
Proof.
  intros Hfree Hshrink. rewrite (resolve_shrink fc line availableMain isRow Hfree Hshrink).
  apply Forall_fmap, Forall_forall. intros item _. cbn.
  destruct (Qltb _ 0) eqn:E; [apply Qle_refl|by apply Qltb_ge].
Qed.

(** The items of base sizes 80 and 120 in a row of width 100. *)
Lemma shrunk_sizes_nonnegative_witness :
  Forall (fun item : FlexItem.t Q => 0 <= FlexItem.FinalMainSize item)
         (FlexLine.Items (resolveFlexibleLengths overflowingRow (singleLine overflowingRow)
                            100 true)).
Proof.
  apply (shrunk_sizes_nonnegative overflowingRow (singleLine overflowingRow) 100 true);
    by vm_compute.
Defined.

Lemma Qsum_shrunk (free T : Q) items :
  ~ T == 0 ->
  Qsum ((fun item =>
           FlexItem.FlexBaseSize item
           + free * (FlexItem.FlexShrink item * FlexItem.FlexBaseSize item / T)
           + FlexItem.MarginMainStart item + FlexItem.MarginMainEnd item) <$> items)
  == Qsum (outerBase <$> items)
     + free * Qsum ((fun item => FlexItem.FlexShrink item * FlexItem.FlexBaseSize item)
                      <$> items) / T.
Proof.
  intros HT. induction items as [|item items IH]; lsimp.
  - field. done.
  - rewrite IH. unfold outerBase. qred. field. done.
Qed.

Lemma Qsum_ext_in (f g : FlexItem.t Q -> Q) items :
  (forall item, item ∈ items -> f item == g item) ->
  Qsum (f <$> items) == Qsum (g <$> items).
Proof.
  intros Hfg. induction items as [|item items IH]; lsimp; [done|].
  rewrite IH, Hfg; [done|by left|]. intros x Hx. apply Hfg. by right.
Qed.

(** X6.  When a line overflows, its items can shrink and no item would
    shrink below zero, the items, their margins and the gaps fill the
    available main size exactly. *)
Theorem shrink_conserves fc (line : FlexLine.t Q) (availableMain : Q) (isRow : bool) :
  let items := FlexLine.Items line in
  let free := freeSpaceOf (FlexContainer.Gap fc) items availableMain in
  let totalShrink :=
    total (fun item => FlexItem.FlexShrink item * FlexItem.FlexBaseSize item)%f64 items in
  free < 0 -> 0 < totalShrink ->
  (forall item, item ∈ items ->
     0 <= FlexItem.FlexBaseSize item
          + free * (FlexItem.FlexShrink item * FlexItem.FlexBaseSize item / totalShrink)) ->
  let items' := FlexLine.Items (resolveFlexibleLengths fc line availableMain isRow) in
  withGaps (FlexContainer.Gap fc) items' (total outerFinal items') == availableMain.
Proof.
  intros items free totalShrink Hfree Hshrink Hclamp items'.
  assert (Hitems : items' = (fun item =>
       let final := FlexItem.FlexBaseSize item
                    + free * (FlexItem.FlexShrink item * FlexItem.FlexBaseSize item
                              / totalShrink) in
       FlexItem.setFinalMainSize item (if Qltb final 0 then 0 else final)) <$> items)
    by (by apply resolve_shrink).
  assert (HT : ~ totalShrink == 0).
  { intros E. rewrite E in Hshrink. by apply Qlt_irrefl in Hshrink. }
  assert (Hsum : Qsum (outerFinal <$> items') == Qsum (outerBase <$> items) + free).
  { rewrite Hitems, fmap_fmap.
    rewrite (Qsum_ext_in _ (fun item =>
               FlexItem.FlexBaseSize item
               + free * (FlexItem.FlexShrink item * FlexItem.FlexBaseSize item / totalShrink)
               + FlexItem.MarginMainStart item + FlexItem.MarginMainEnd item)).
    - rewrite Qsum_shrunk by done.
      rewrite <- (total_Qsum (fun item => FlexItem.FlexShrink item * FlexItem.FlexBaseSize item)
                             items).
      change (total (fun item => FlexItem.FlexShrink item * FlexItem.FlexBaseSize item) items)
        with totalShrink.
      generalize dependent totalShrink. intros T _ _ _ HT.
      generalize (Qsum (outerBase <$> items)). intros u. clearbody free. field. done.
    - intros item Hin. unfold outerFinal. cbn beta zeta.
      cbn [FlexItem.setFinalMainSize FlexItem.FinalMainSize FlexItem.MarginMainStart
           FlexItem.MarginMainEnd]. qred.
      assert (Qltb (FlexItem.FlexBaseSize item
                    + free * (FlexItem.FlexShrink item * FlexItem.FlexBaseSize item
                              / totalShrink)) 0 = false) as ->
        by (apply Qltb_ge; by apply Hclamp).
      reflexivity. }
  rewrite (withGaps_Proper _ items' items _ (Qsum (outerBase <$> items) + free)).
  - unfold free, freeSpaceOf, withGaps.
    destruct (_ <? _)%nat; qred; rewrite (total_Qsum outerBase); ring.
  - rewrite Hitems. by rewrite length_fmap.
  - by rewrite total_Qsum, Hsum.
Qed.

(** The items of base sizes 80 and 120 shrink to 40 and 60. *)
Lemma shrink_conserves_witness :
  let items' := FlexLine.Items (resolveFlexibleLengths overflowingRow
                                  (singleLine overflowingRow) 100 true) in
  withGaps (FlexContainer.Gap overflowingRow) items' (total outerFinal items') == 100.
Proof.
  apply (shrink_conserves overflowingRow (singleLine overflowingRow) 100 true);
    [by vm_compute|by vm_compute|].
  intros item Hin. cbn in Hin.
  repeat (apply elem_of_cons in Hin as [->|Hin]; [by vm_compute|]).
  by apply elem_of_nil in Hin.
Defined.

End Exact.

End FlexProperties.

(** ** The box model *)

Module BoxProperties.
Import Values Layout BoxModel.

Section Exact.
Local Existing Instance Q_float.
Local Open Scope Q_scope.

Ltac qred := cbn [fadd fsub fmul fdiv flt feq fofZ Q_float] in *; unfold inject_Z in *.

Lemma Qltb_spec (x y : Q) : reflect (x < y) (Qltb x y).
Proof.
  unfold Qltb. destruct (Qle_bool y x) eqn:E; constructor.
  - apply Qle_bool_iff in E. by apply Qle_not_lt.
  - apply Qnot_le_lt. intros Hle. apply Qle_bool_iff in Hle. congruence.
Qed.

Lemma Qeq_bool_spec (x y : Q) : reflect (x == y) (Qeq_bool x y).
Proof.
  destruct (Qeq_bool x y) eqn:E; constructor.
  - by apply Qeq_bool_iff.
  - intros Heq. apply Qeq_bool_iff in Heq. congruence.
Qed.

Ltac plain t :=
  lazymatch t with
  | context [Qltb _ _] => fail
  | context [Qeq_bool _ _] => fail
  | _ => idtac
  end.

Ltac qcases :=
  repeat match goal with
         | |- context [Qltb ?x ?y] => plain x; plain y; destruct (Qltb_spec x y)
         | |- context [Qeq_bool ?x ?y] => plain x; plain y; destruct (Qeq_bool_spec x y)
         end; cbn [andb orb negb].

(** X7.  Collapsing two margins does not depend on their order, and a
    margin collapsed with a margin of zero is that margin; collapsing
    three margins pair by pair depends on the grouping. *)
Theorem CollapseMargins_commutative (margin1 margin2 : Q) :
  CollapseMargins margin1 margin2 == CollapseMargins margin2 margin1
  /\ CollapseMargins margin1 0 == margin1
  /\ ~ CollapseMargins (CollapseMargins 5 (-3)) (-4)
        == CollapseMargins 5 (CollapseMargins (-3) (-4)).
Proof.
  split; [|split].
  - unfold CollapseMargins, fge. qred. qcases; lra.
  - unfold CollapseMargins, fge. qred. qcases; lra.
  - by vm_compute.
Qed.

Ltac box_red :=
  unfold ComputeBoxDimensions, MarginBoxWidth, BorderBoxWidth, PaddingWidth, BorderWidth,
    MarginWidth, boxContext in *;
  cbv zeta in *;
  cbn [BoxDimensions.ContentWidth BoxDimensions.PaddingLeft BoxDimensions.PaddingRight
       BoxDimensions.BorderLeft BoxDimensions.BorderRight BoxDimensions.MarginLeft
       BoxDimensions.MarginRight] in *.

Ltac units :=
  repeat match goal with
         | H : Length.Unit ?l = UnitNone |- context [bool_decide (Length.Unit ?l = UnitNone)] =>
             rewrite (bool_decide_eq_true_2 _ H)
         | H : Length.Unit ?l <> UnitNone |- context [bool_decide (Length.Unit ?l = UnitNone)] =>
             rewrite (bool_decide_eq_false_2 _ H)
         end; cbn [negb].

(** X8.  For a width of auto, within the bounds of min-width and
    max-width, the margin box is as wide as the containing block. *)
Theorem auto_width_fills (style : ComputedStyle.t Q) (containingWidth containingHeight : Q) :
  let ctx := boxContext style containingWidth containingHeight in
  let available :=
    containingWidth
    - (Resolve (ComputedStyle.MarginLeft style) ctx
       + Resolve (ComputedStyle.MarginRight style) ctx)
    - (Resolve (ComputedStyle.BorderLeftWidth style) ctx
       + Resolve (ComputedStyle.BorderRightWidth style) ctx)
    - (Resolve (ComputedStyle.PaddingLeft style) ctx
       + Resolve (ComputedStyle.PaddingRight style) ctx) in
  IsAuto (ComputedStyle.Width style) = true ->
  (Length.Unit (ComputedStyle.MinWidth style) = UnitNone
   \/ Resolve (ComputedStyle.MinWidth style) ctx <= available) ->
  (Length.Unit (ComputedStyle.MaxWidth style) = UnitNone
   \/ available <= Resolve (ComputedStyle.MaxWidth style) ctx) ->
  MarginBoxWidth (ComputeBoxDimensions style containingWidth containingHeight)
  == containingWidth.
Proof.
  intros ctx available Hauto Hmin Hmax. subst ctx available. box_red. rewrite Hauto. qred.
  destruct (bool_decide (Length.Unit (ComputedStyle.MinWidth style) = UnitNone)) eqn:Emin,
           (bool_decide (Length.Unit (ComputedStyle.MaxWidth style) = UnitNone)) eqn:Emax;
    cbn [negb].
  - lra.
  - apply bool_decide_eq_false in Emax. destruct Hmax as [Hmax|Hmax]; [done|].
    qcases; lra.
  - apply bool_decide_eq_false in Emin. destruct Hmin as [Hmin|Hmin]; [done|].
    qcases; lra.
  - apply bool_decide_eq_false in Emin, Emax.
    destruct Hmin as [Hmin|Hmin]; [done|]. destruct Hmax as [Hmax|Hmax]; [done|].
    qcases; lra.
Qed.

(** The initial style in a containing block of width 800. *)
Lemma auto_width_fills_witness :
  MarginBoxWidth (ComputeBoxDimensions NewComputedStyle 800 600) == 800.
Proof.
  apply (auto_width_fills NewComputedStyle 800 600).
  - reflexivity.
  - right. by vm_compute.
  - by left.
Defined.

(** X9.  A max-width bounds the content width from above, also when the
    min-width is larger; a min-width bounds it from below unless a
    smaller max-width is set. *)
Theorem width_within_bounds (style : ComputedStyle.t Q) (containingWidth containingHeight : Q) :
  let ctx := boxContext style containingWidth containingHeight in
  let width := BoxDimensions.ContentWidth
                 (ComputeBoxDimensions style containingWidth containingHeight) in
  (Length.Unit (ComputedStyle.MaxWidth style) <> UnitNone ->
   width <= Resolve (ComputedStyle.MaxWidth style) ctx)
  /\ (Length.Unit (ComputedStyle.MinWidth style) <> UnitNone ->
      Length.Unit (ComputedStyle.MaxWidth style) = UnitNone
      \/ Resolve (ComputedStyle.MinWidth style) ctx
         <= Resolve (ComputedStyle.MaxWidth style) ctx ->
      Resolve (ComputedStyle.MinWidth style) ctx <= width).
Proof.
  intros ctx width. subst ctx width. box_red. qred. split.
  - intros Hmax. units.
    qcases; lra.
  - intros Hmin Hmax. units.
    destruct (bool_decide (Length.Unit (ComputedStyle.MaxWidth style) = UnitNone)) eqn:Emax;
      cbn [negb].
    + qcases; lra.
    + apply bool_decide_eq_false in Emax. destruct Hmax as [Hmax|Hmax]; [done|].
      qcases; lra.
Qed.

(** A width of 300 with a min-width of 200 and a max-width of 150: the
    content is 150 wide. *)
Lemma width_within_bounds_witness :
  BoxDimensions.ContentWidth (ComputeBoxDimensions boundedStyle 800 600)
  <= Resolve (ComputedStyle.MaxWidth boundedStyle) (boxContext boundedStyle 800 600)
  /\ BoxDimensions.ContentWidth (ComputeBoxDimensions boundedStyle 800 600) == 150.
Proof.
  split; [|by vm_compute].
  apply (proj1 (width_within_bounds boundedStyle 800 600)). by vm_compute.
Defined.



End Exact.

End BoxProperties.

(** ** Lengths and colors *)

Module ValuesProperties.
Import Values ValuesFacts ColorText.

Section Hex.
Local Existing Instance ascii_strings.
Local Existing Instance Q_float.

Lemma below_256 (P : Z -> Prop) :
  Forall P (Z.of_nat <$> seq 0 256) -> forall n, (0 <= n < 256)%Z -> P n.
Proof.
  intros Hall n Hn. rewrite Forall_forall in Hall. apply Hall.
  apply list_elem_of_fmap. exists (Z.to_nat n). split; [lia|].
  apply list_elem_of_In, in_seq. lia.
Qed.

Lemma hexByte_hex2 (n : Z) :
  (0 <= n < 256)%Z -> hexByte (Ascii7.toLower (hex2 n)) = n.
Proof.
  revert n. apply below_256.
  apply Forall_forall. intros n Hn.
  apply list_elem_of_fmap in Hn as (k & -> & Hk).
  revert k Hk. apply Forall_forall.
  apply (Forall_impl (fun k => Z.eqb (hexByte (Ascii7.toLower (hex2 (Z.of_nat k))))
                                   (Z.of_nat k) = true)).
  - apply Forall_forall. intros k Hk.
    assert (Hb : forallb (fun k => Z.eqb (hexByte (Ascii7.toLower (hex2 (Z.of_nat k))))
                                     (Z.of_nat k)) (seq 0 256) = true) by (by vm_compute).
    rewrite forallb_forall in Hb. apply Hb. by apply list_elem_of_In.
  - intros k Hk. by apply Z.eqb_eq.
Qed.

Lemma FromHex_six (c1 c2 c3 c4 c5 c6 : ascii) :
  FromHex (String "#" (String c1 (String c2 (String c3 (String c4 (String c5
             (String c6 EmptyString)))))))
  = Ok (Color.mk (hexByte (Ascii7.toLower (String c1 (String c2 EmptyString))))
                 (hexByte (Ascii7.toLower (String c3 (String c4 EmptyString))))
                 (hexByte (Ascii7.toLower (String c5 (String c6 EmptyString))))
                 255, None).
Proof. reflexivity. Qed.

Lemma FromHex_opaque (formatInt formatAlpha : Z -> string) (r g b : Z) :
  (0 <= r < 256)%Z -> (0 <= g < 256)%Z -> (0 <= b < 256)%Z ->
  FromHex (ColorString formatInt formatAlpha (Color.mk r g b 255))
  = Ok (Color.mk r g b 255, None).
Proof.
  intros HR HG HB.
  change (ColorString formatInt formatAlpha (Color.mk r g b 255))
    with (String "#" (String (hexChar (r / 16)) (String (hexChar (r mod 16))
            (String (hexChar (g / 16)) (String (hexChar (g mod 16))
               (String (hexChar (b / 16)) (String (hexChar (b mod 16)) EmptyString))))))).
  rewrite FromHex_six.
  change (String (hexChar (r / 16)) (String (hexChar (r mod 16)) EmptyString)) with (hex2 r).
  change (String (hexChar (g / 16)) (String (hexChar (g mod 16)) EmptyString)) with (hex2 g).
  change (String (hexChar (b / 16)) (String (hexChar (b mod 16)) EmptyString)) with (hex2 b).
  by rewrite !hexByte_hex2.
Qed.

Lemma hexChar_plain (d : Z) :
  (0 <= d < 16)%Z ->
  Ascii7.lowerByte (hexChar d) = hexChar d /\ Ascii7.isSpace (hexChar d) = false.
Proof.
  intros Hd.
  assert (Hcases : (d = 0 \/ d = 1 \/ d = 2 \/ d = 3 \/ d = 4 \/ d = 5 \/ d = 6 \/ d = 7
                   \/ d = 8 \/ d = 9 \/ d = 10 \/ d = 11 \/ d = 12 \/ d = 13 \/ d = 14
                   \/ d = 15)%Z) by lia.
  repeat (destruct Hcases as [->|Hcases]; [by vm_compute|]). subst d. by vm_compute.
Qed.

Lemma ParseColor_hash (c1 c2 c3 c4 c5 c6 : ascii) :
  let s := String "#" (String c1 (String c2 (String c3 (String c4 (String c5
             (String c6 EmptyString)))))) in
  Ascii7.lowerByte c1 = c1 -> Ascii7.lowerByte c2 = c2 -> Ascii7.lowerByte c3 = c3 ->
  Ascii7.lowerByte c4 = c4 -> Ascii7.lowerByte c5 = c5 -> Ascii7.lowerByte c6 = c6 ->
  Ascii7.isSpace c6 = false ->
  ParseColor s = FromHex s.
Proof.
  intros s H1 H2 H3 H4 H5 H6 Hsp. subst s. unfold ParseColor.
  assert (Hnorm : normalize (String "#" (String c1 (String c2 (String c3 (String c4
                     (String c5 (String c6 EmptyString)))))))
                  = String "#" (String c1 (String c2 (String c3 (String c4
                     (String c5 (String c6 EmptyString))))))).
  { unfold normalize. cbn [ToLower TrimSpace ascii_strings Ascii7.toLower].
    rewrite H1, H2, H3, H4, H5, H6.
    change (Ascii7.lowerByte "#") with "#"%char.
    unfold Ascii7.trimSpace.
    change (Ascii7.trimLeftSpace (String "#" ?r)) with (String "#" r).
    change (String.rev (String "#" (String c1 (String c2 (String c3 (String c4
                          (String c5 (String c6 EmptyString))))))))
      with (String c6 (String c5 (String c4 (String c3 (String c2 (String c1
              (String "#" EmptyString))))))).
    cbn [Ascii7.trimLeftSpace]. by rewrite Hsp. }
  rewrite Hnorm. reflexivity.
Qed.

(** X11.  The text that [String] gives for an opaque color is read back
    by [FromHex], and by [ParseColor], as that color, without error. *)
Theorem opaque_color_round_trip (formatInt formatAlpha : Z -> string) (c : Color.t) :
  isColor c -> Color.A c = 255%Z ->
  FromHex (ColorString formatInt formatAlpha c) = Ok (c, None)
  /\ ParseColor (ColorString formatInt formatAlpha c) = Ok (c, None).
Proof.
  intros (HR & HG & HB & _) HA. destruct c as [r g b a]. cbn in HR, HG, HB, HA. subst a.
  pose proof (FromHex_opaque formatInt formatAlpha r g b HR HG HB) as Hhex.
  split; [exact Hhex|]. rewrite <- Hhex.
  change (ColorString formatInt formatAlpha (Color.mk r g b 255))
    with (String "#" (String (hexChar (r / 16)) (String (hexChar (r mod 16))
            (String (hexChar (g / 16)) (String (hexChar (g mod 16))
               (String (hexChar (b / 16)) (String (hexChar (b mod 16)) EmptyString))))))).
  assert (Hdiv : forall n, (0 <= n < 256)%Z -> (0 <= n / 16 < 16)%Z)
    by (intros n Hn; split; [apply Z.div_pos; lia|apply Z.div_lt_upper_bound; lia]).
  assert (Hmod : forall n, (0 <= n mod 16 < 16)%Z) by (intros n; apply Z.mod_pos_bound; lia).
  apply ParseColor_hash;
    try (apply hexChar_plain; [apply Hdiv; assumption]);
    try (apply hexChar_plain; apply Hmod).
Qed.

(** The color (18, 52, 86), written as a hash and six digits. *)
Lemma opaque_color_round_trip_witness :
  ParseColor (ColorString (fun _ => EmptyString) (fun _ => EmptyString)
                (Color.mk 18 52 86 255))
  = Ok (Color.mk 18 52 86 255, None).
Proof.
  apply (opaque_color_round_trip (fun _ => EmptyString) (fun _ => EmptyString)
           (Color.mk 18 52 86 255)); [|reflexivity].
  unfold isColor. cbn. lia.
Defined.

Lemma hexByte_double (c : ascii) :
  hexByte (String (Ascii7.lowerByte c) (String (Ascii7.lowerByte c) EmptyString))
  = (hexDigit (Ascii7.lowerByte c) * 17)%Z.
Proof. destruct c as [[] [] [] [] [] [] [] []]; reflexivity. Qed.

(** X12.  A hex color of three ASCII bytes is the color of the six bytes
    in which each of them stands twice, whatever the bytes are. *)
Theorem short_hex_doubles (c1 c2 c3 : ascii) :
  nat_of_ascii c1 < 128 -> nat_of_ascii c2 < 128 -> nat_of_ascii c3 < 128 ->
  FromHex (String "#" (String c1 (String c2 (String c3 EmptyString))))
  = FromHex (String "#" (String c1 (String c1 (String c2 (String c2 (String c3
               (String c3 EmptyString))))))).
Proof.
  intros _ _ _. rewrite FromHex_six. cbn [Ascii7.toLower]. rewrite !hexByte_double.
  reflexivity.
Qed.

(** The bytes a, B and c. *)
Lemma short_hex_doubles_witness : FromHex "#aBc" = FromHex "#aaBBcc".
Proof.
  apply (short_hex_doubles "a" "B" "c"); apply Nat.ltb_lt; reflexivity.
Defined.

End Hex.

Section Suffixes.

Lemma append_length (u p : string) :
  String.length (String.append u p) = String.length u + String.length p.
Proof.
  induction u as [|c u IH]; [done|].
  change (S (String.length (String.append u p)) = S (String.length u + String.length p)).
  by rewrite IH.
Qed.

Lemma substring_whole (p : string) : String.substring 0 (String.length p) p = p.
Proof.
  induction p as [|c p IH]; [reflexivity|].
  change (String c (String.substring 0 (String.length p) p) = String c p). by rewrite IH.
Qed.

Lemma substring_append (u p : string) :
  String.substring (String.length u) (String.length p) (String.append u p) = p.
Proof.
  induction u as [|c u IH]; [apply substring_whole|exact IH].
Qed.

Lemma substring_split (n : nat) (s : string) :
  n <= String.length s ->
  s = String.append (String.substring 0 n s)
                    (String.substring n (String.length s - n) s).
Proof.
  revert n. induction s as [|c s IH]; intros n Hn.
  - cbn in Hn. assert (n = 0) as -> by lia. reflexivity.
  - destruct n as [|n].
    + cbn [String.substring String.append String.length Nat.sub].
      change (String c s = String.substring 0 (String.length (String c s)) (String c s)).
      by rewrite substring_whole.
    + cbn [String.substring String.length Nat.sub].
      change (String c s
              = String c (String.append (String.substring 0 n s)
                            (String.substring n (String.length s - n) s))).
      f_equal. apply IH. cbn in Hn. lia.
Qed.

Lemma HasSuffix_spec (s p : string) :
  GoStr.HasSuffix s p = true <-> exists u, s = String.append u p.
Proof.
  unfold GoStr.HasSuffix, GoStr.from, GoStr.len. split.
  - intros Hs. apply andb_true_iff in Hs as [Hlen Heq].
    apply Nat.leb_le in Hlen. apply String.eqb_eq in Heq.
    exists (String.substring 0 (String.length s - String.length p) s).
    pose proof (substring_split (String.length s - String.length p) s) as Hsp.
    rewrite Heq in Hsp. apply Hsp. lia.
  - intros [u ->]. rewrite append_length. apply andb_true_iff. split.
    + apply Nat.leb_le. lia.
    + apply String.eqb_eq.
      replace (String.length u + String.length p - String.length p)
        with (String.length u) by lia.
      replace (String.length u + String.length p - String.length u)
        with (String.length p) by lia.
      apply substring_append.
Qed.

(** Of two suffixes of a text, the shorter is a suffix of the longer. *)
Lemma suffix_of_suffix (s p q : string) :
  GoStr.HasSuffix s p = true -> GoStr.HasSuffix s q = true ->
  String.length q <= String.length p -> GoStr.HasSuffix p q = true.
Proof.
  rewrite !HasSuffix_spec. intros [u1 ->] [u2 Hq] Hlen.
  revert u2 Hq. induction u1 as [|c u1 IH]; intros u2 Hq.
  - by exists u2.
  - destruct u2 as [|c2 u2].
    + apply (f_equal String.length) in Hq. rewrite !append_length in Hq.
      cbn [String.length] in Hq. lia.
    + change (String c (String.append u1 p) = String c2 (String.append u2 q)) in Hq.
      injection Hq as _ Hq. by apply (IH u2).
Qed.

End Suffixes.

Section Units.
Context {F : Type} `{Float64 F} `{GoStrings}.

Lemma firstSuffix_Some (iteration : list (string * LengthUnit)) (s : string)
    (e : string * LengthUnit) :
  firstSuffix iteration s = Some e -> e ∈ iteration /\ GoStr.HasSuffix s e.1 = true.
Proof.
  induction iteration as [|[k u] rest IH]; [done|]. cbn [firstSuffix].
  destruct (GoStr.HasSuffix s k) eqn:E.
  - intros [= <-]. split; [by left|done].
  - intros Hrest. destruct (IH Hrest). split; [by right|done].
Qed.

Lemma firstSuffix_None (iteration : list (string * LengthUnit)) (s : string) :
  firstSuffix iteration s = None ->
  forall e, e ∈ iteration -> GoStr.HasSuffix s e.1 = false.
Proof.
  induction iteration as [|[k u] rest IH]; intros Hnone e He; [by apply elem_of_nil in He|].
  cbn [firstSuffix] in Hnone. destruct (GoStr.HasSuffix s k) eqn:E; [done|].
  apply elem_of_cons in He as [->|He]; [done|by apply IH].
Qed.

(** The unit found does not depend on the order of the visit when at
    most one key is a suffix of the text. *)
Lemma firstSuffix_unique (iteration : list (string * LengthUnit)) (s : string) :
  Permutation iteration units ->
  (forall e1 e2, e1 ∈ units -> e2 ∈ units ->
     GoStr.HasSuffix s e1.1 = true -> GoStr.HasSuffix s e2.1 = true -> e1 = e2) ->
  firstSuffix iteration s = firstSuffix units s.
Proof.
  intros Hperm Huniq.
  destruct (firstSuffix iteration s) as [e1|] eqn:E1,
           (firstSuffix units s) as [e2|] eqn:E2; [| | |done].
  - apply firstSuffix_Some in E1 as [Hin1 Hs1]. apply firstSuffix_Some in E2 as [Hin2 Hs2].
    f_equal. apply Huniq; [by rewrite <- Hperm|done..].
  - apply firstSuffix_Some in E1 as [Hin1 Hs1]. rewrite Hperm in Hin1.
    by rewrite (firstSuffix_None _ _ E2 _ Hin1) in Hs1.
  - apply firstSuffix_Some in E2 as [Hin2 Hs2]. rewrite <- Hperm in Hin2.
    by rewrite (firstSuffix_None _ _ E1 _ Hin2) in Hs2.
Qed.

(** Among the keys of the map, only em in rem and in in vmin are the
    suffix of another key. *)
Lemma nested_keys (e1 e2 : string * LengthUnit) :
  e1 ∈ units -> e2 ∈ units -> GoStr.HasSuffix e1.1 e2.1 = true ->
  e1 = e2 \/ e1.1 = "rem" \/ e1.1 = "vmin".
Proof.
  intros H1 H2. unfold units in H1, H2.
  repeat (apply elem_of_cons in H1 as [->|H1]); [..|by apply elem_of_nil in H1];
    repeat (apply elem_of_cons in H2 as [->|H2]); try (by apply elem_of_nil in H2);
    vm_compute; intros Hs; try discriminate; auto.
Qed.

(** X13.  Unless the text, in lower case and trimmed, ends in rem or in
    vmin, [ParseLength] gives the same result whatever the order in
    which the map of units is visited. *)
Theorem ParseLength_order_independent (iteration : list (string * LengthUnit)) (s : string) :
  Permutation iteration units ->
  GoStr.HasSuffix (TrimSpace (ToLower s)) "rem" = false ->
  GoStr.HasSuffix (TrimSpace (ToLower s)) "vmin" = false ->
  ParseLength iteration s = ParseLength units s.
Proof.
  intros Hperm Hrem Hvmin. unfold ParseLength.
  rewrite (firstSuffix_unique iteration _ Hperm); [done|].
  intros e1 e2 H1 H2 Hs1 Hs2.
  destruct (Nat.le_ge_cases (String.length e2.1) (String.length e1.1)) as [Hle|Hle].
  - pose proof (suffix_of_suffix _ _ _ Hs1 Hs2 Hle) as Hnest.
    destruct (nested_keys e1 e2 H1 H2 Hnest) as [Heq|[Hk|Hk]]; [done|..];
      rewrite Hk in Hs1; congruence.
  - pose proof (suffix_of_suffix _ _ _ Hs2 Hs1 Hle) as Hnest.
    destruct (nested_keys e2 e1 H2 H1 Hnest) as [Heq|[Hk|Hk]]; [done|..];
      rewrite Hk in Hs2; congruence.
Qed.

End Units.

Section Order.
Local Existing Instance ascii_strings.
Local Existing Instance Q_float.

(** A length in pixels, with the map visited in the reverse of the
    order in which it is written. *)
Lemma ParseLength_order_independent_witness :
  ParseLength (rev units) "10PX" = ParseLength units "10PX".
Proof.
  apply (ParseLength_order_independent (rev units) "10PX").
  - symmetry. apply Permutation_rev.
  - by vm_compute.
  - by vm_compute.
Defined.

(** X14.  For a text in rem the result of [ParseLength] does depend on
    the order in which the map of units is visited: an error when the
    key em is met before the key rem, as in the order in which the map
    is written, the length in rem otherwise. *)
Theorem ParseLength_rem_depends_on_order :
  Permutation (rev units) units
  /\ ParseLength units "1.5rem" = (Zero, Some "invalid length value: 1.5rem")
  /\ ParseLength (rev units) "1.5rem" = (Rem (3 # 2), None).
Proof.
  split; [symmetry; apply Permutation_rev|]. split; by vm_compute.
Qed.

End Order.

End ValuesProperties.

(** ** Selectors and the cascade *)

Module SelectorProperties.
Import Dom Css CascadeSpec CascadeFacts.

(** X15.  [Compare] orders the specificities totally: it returns -1, 0 or
    1, the opposite when its arguments are exchanged, 0 exactly for
    equal specificities, and being above is transitive. *)
Theorem Compare_total_order (s1 s2 s3 : Specificity) :
  (Compare s1 s2 = (-1)%Z \/ Compare s1 s2 = 0%Z \/ Compare s1 s2 = 1%Z)
  /\ Compare s1 s2 = (- Compare s2 s1)%Z
  /\ (Compare s1 s2 = 0%Z <-> s1 = s2)
  /\ (Compare s1 s2 = 1%Z -> Compare s2 s3 = 1%Z -> Compare s1 s3 = 1%Z).
Proof.
  split; [|split; [|split]].
  - destruct (Compare_cases s1 s2) as [[-> _]|[[-> _]|[-> _]]]; auto.
  - destruct (Compare_cases s1 s2) as [[-> H12]|[[-> H12]|[-> H12]]];
      destruct (Compare_cases s2 s1) as [[-> H21]|[[-> H21]|[-> H21]]];
      unfold specLt in *; lia.
  - apply Compare_eq.
  - rewrite !Compare_gt_specLt. unfold specLt. lia.
Qed.

Section Matching.
Context {A : Type} `{GoStrings} (h : Store A).

(** X16.  A selector matches element nodes only, never a text node or
    nil; and a selector with a pseudo-class, known or not, does not
    match a node without a parent. *)
Theorem Matches_elements_only (s : Selector) (node : option nat) :
  Matches h s node = true ->
  exists id n, node = Some id /\ h !! id = Some n /\ NType n = NodeElement
               /\ (PseudoClass s <> "" -> exists p, Parent n = Some p).
Proof.
  intros Hm. destruct node as [id|]; [|by destruct s].
  destruct s as [ty e c i at' av parts pc ic]. simpl in Hm.
  destruct (h !! id) as [n|] eqn:En; [|done].
  exists id, n. split; [done|]. split; [done|].
  unfold isElementNode in Hm. destruct (NType n) eqn:Et; try done. split; [done|].
  intros Hpc. cbn [PseudoClass] in Hpc. apply String.eqb_neq in Hpc.
  rewrite Hpc in Hm. cbn [negb andb] in Hm.
  unfold matchesPseudoClass, parentPtr in Hm. rewrite En in Hm. cbn in Hm.
  destruct (Parent n) as [p|]; [by exists p|done].
Qed.

End Matching.

Section Scenario.
Local Existing Instance ascii_strings.

(** The selector [b] matches the element at index 3 of
    [Nested.list]. *)
Lemma Matches_elements_only_witness :
  exists id n, Some 3 = Some id /\ Nested.list !! id = Some n /\ NType n = NodeElement
               /\ (PseudoClass (ParseSelector "b") <> "" -> exists p, Parent n = Some p).
Proof.
  assert (Hm : Matches Nested.list (ParseSelector "b") (Some 3) = true)
    by (vm_compute; reflexivity).
  exact (Matches_elements_only Nested.list (ParseSelector "b") (Some 3) Hm).
Defined.

End Scenario.

End SelectorProperties.

Module CombinatorProperties.
Import Dom Css Combinators.

Section Chains.
Context {A : Type} `{GoStrings} (h : Store A).

(** The two loops of [Matches] are the functions [childChain] and
    [descendantChain]. *)
Lemma Matches_combinator (s : Selector) (id : nat) (n : Node A) :
  h !! id = Some n -> isElementNode n = true ->
  String.eqb (PseudoClass s) "" = true ->
  (SType s = SelectorChild ->
   Matches h s (Some id)
   = match childChain h id (Parts s) with Some _ => true | None => false end)
  /\ (SType s = SelectorDescendant ->
      Matches h s (Some id)
      = match descendantChain h id (Parts s) with Some _ => true | None => false end).
Proof.
  intros Hn Hel Hpc. destruct s as [ty e c i at' av parts pc ic].
  cbn [PseudoClass SType Parts] in *. split; intros ->.
  - simpl. rewrite Hn, Hel, Hpc. cbn [negb andb].
    unfold parentPtr at 1. 
    match goal with |- match ?f parts with _ => _ end = _ => 
      assert (Heq : f parts = childChain h id parts) end; [|by rewrite Heq].
    induction parts as [|p [|q ps] IH]; [done| |].
    + cbn [childChain]. unfold parentPtr. rewrite Hn. reflexivity.
    + change (childChain h id (p :: q :: ps))
        with (match childChain h id (q :: ps) with
              | Some (Some current) =>
                  if Matches h p (Some current) then Some (parentPtr h current) else None
              | _ => None
              end).
      rewrite <- IH. reflexivity.
  - simpl. rewrite Hn, Hel, Hpc. cbn [negb andb].
    match goal with |- match ?f parts with _ => _ end = _ => 
      assert (Heq : f parts = descendantChain h id parts) end; [|by rewrite Heq].
    induction parts as [|p [|q ps] IH]; [done| |].
    + cbn [descendantChain]. unfold parentPtr. rewrite Hn. reflexivity.
    + change (descendantChain h id (p :: q :: ps))
        with (match descendantChain h id (q :: ps) with
              | Some start => search h p start (length h)
              | None => None
              end).
      rewrite <- IH.
      match goal with
      | |- _ = match ?c with _ => _ end =>
          transitivity (match c with
                        | Some start =>
                            (fix search (current : option nat) (fuel : nat)
                               : option (option nat) :=
                               match fuel with
                               | 0 => None
                               | S fuel' =>
                                   match current with
                                   | None => None
                                   | Some c' =>
                                       if Matches h p (Some c') then Some (parentPtr h c')
                                       else search (parentPtr h c') fuel'
                                   end
                               end) start (length h)
                        | None => None
                        end); [reflexivity|destruct c as [start|]; [|done]]
      end.
      clear IH. generalize (length h). intros fuel. revert start.
      induction fuel as [|fuel IHf]; intros start; [done|].
      cbn [search]. destruct start as [c0|]; [|done].
      destruct (Matches h p (Some c0)); [done|]. apply IHf.
Qed.

Lemma nthParent_succ (j id : nat) :
  nthParent h (S j) id
  = match nthParent h j id with Some a => parentPtr h a | None => None end.
Proof.
  revert id. induction j as [|j IH]; intros id.
  - cbn [nthParent]. by destruct (parentPtr h id).
  - change (nthParent h (S (S j)) id)
      with (match parentPtr h id with Some p => nthParent h (S j) p | None => None end).
    destruct (parentPtr h id) as [p|] eqn:E.
    + rewrite IH. cbn [nthParent]. by rewrite E.
    + cbn [nthParent]. by rewrite E.
Qed.

Lemma childChain_spec (id : nat) (ps : list Selector) (next : option nat) :
  ps <> [] ->
  childChain h id ps = Some next
  <-> (forall i p, ps !! i = Some p ->
         exists anc, nthParent h (length ps - 1 - i) id = Some anc
                     /\ Matches h p (Some anc) = true)
      /\ next = nthParent h (length ps) id.
Proof.
  intros Hne. revert next. induction ps as [|p [|q ps] IH]; intros next; [done| |].
  - cbn [childChain length]. rewrite nthParent_succ. cbn [nthParent]. split.
    + destruct (Matches h p (Some id)) eqn:Em; [|done]. intros [= <-]. split; [|done].
      intros [|i] p' Hp'; [|done]. injection Hp' as <-. by exists id.
    + intros [Hall ->]. destruct (Hall 0 p eq_refl) as (anc & [= <-] & ->). done.
  - change (childChain h id (p :: q :: ps))
      with (match childChain h id (q :: ps) with
            | Some (Some current) =>
                if Matches h p (Some current) then Some (parentPtr h current) else None
            | _ => None
            end).
    specialize (IH ltac:(done)).
    change (length (p :: q :: ps)) with (S (length (q :: ps))).
    rewrite nthParent_succ. split.
    + destruct (childChain h id (q :: ps)) as [[cur|]|] eqn:Ec; try done.
      destruct (Matches h p (Some cur)) eqn:Em; [|done]. intros [= <-].
      destruct (proj1 (IH (Some cur)) eq_refl) as [Hall Hcur]. rewrite <- Hcur.
      split; [|done]. intros [|i] p' Hp'.
      * injection Hp' as <-. exists cur. split; [|done].
        rewrite Hcur. f_equal; cbn [length]; lia.
      * destruct (Hall i p' Hp') as (anc & Hanc & Hm). exists anc. split; [|done].
        rewrite <- Hanc. f_equal; cbn [length]; lia.
    + intros [Hall ->].
      destruct (Hall 0 p eq_refl) as (anc & Hanc & Hm).
      replace (S (length (q :: ps)) - 1 - 0) with (length (q :: ps)) in Hanc by lia.
      assert (Hq : childChain h id (q :: ps) = Some (Some anc)).
      { apply IH. split; [|done]. intros i p' Hp'.
        destruct (Hall (S i) p' Hp') as (anc' & Hanc' & Hm'). exists anc'. split; [|done].
        rewrite <- Hanc'. f_equal; cbn [length]; lia. }
      by rewrite Hq, Hm, Hanc.
Qed.

(** X17.  A selector with the child combinator matches an element exactly
    when its last part matches the element, the part before it the
    parent of the element, and so on, one level up for each part. *)
Theorem child_combinator_meaning (s : Selector) (id : nat) (n : Node A) :
  h !! id = Some n -> isElementNode n = true ->
  SType s = SelectorChild -> PseudoClass s = "" ->
  Matches h s (Some id) = true <-> childMeaning h (Parts s) id.
Proof.
  intros Hn Hel Hty Hpc.
  assert (Hpc' : String.eqb (PseudoClass s) "" = true) by (by apply String.eqb_eq).
  rewrite (proj1 (Matches_combinator s id n Hn Hel Hpc') Hty).
  unfold childMeaning. destruct (Parts s) as [|p ps] eqn:Eparts.
  - split; [done|]. by intros [? _].
  - destruct (childChain h id (p :: ps)) as [next|] eqn:Ec.
    + apply childChain_spec in Ec as [Hall _]; [|done]. by split.
    + split; [done|]. intros [_ Hall].
      assert (childChain h id (p :: ps) = Some (nthParent h (length (p :: ps)) id))
        by (by apply childChain_spec).
      congruence.
Qed.

Lemma nthParent_add (j k id : nat) :
  nthParent h (j + k) id
  = match nthParent h j id with Some a => nthParent h k a | None => None end.
Proof.
  revert id. induction j as [|j IH]; intros id; [done|].
  change (nthParent h (S j + k) id)
    with (match parentPtr h id with Some p => nthParent h (j + k) p | None => None end).
  cbn [nthParent]. destruct (parentPtr h id) as [p|]; [apply IH|done].
Qed.

Hypothesis Hwf : Tree.wf h.

Lemma parent_lt (c p : nat) : parentPtr h c = Some p -> p < c /\ c < length h.
Proof.
  unfold parentPtr. destruct (h !! c) as [n|] eqn:En; [|done]. cbn. intros Hp.
  split; [by destruct (Tree.wf_listed _ Hwf _ _ _ En Hp)|by apply lookup_lt_Some in En].
Qed.

Lemma search_Some (p : Selector) (c fuel : nat) (next : option nat) :
  c < fuel -> search h p (Some c) fuel = Some next ->
  exists j t, nthParent h j c = Some t /\ Matches h p (Some t) = true
              /\ (forall j' t', j' < j -> nthParent h j' c = Some t' ->
                    Matches h p (Some t') = false)
              /\ next = parentPtr h t.
Proof.
  revert c. induction fuel as [|fuel IH]; intros c Hc; [lia|].
  cbn [search]. destruct (Matches h p (Some c)) eqn:Em.
  - intros [= <-]. exists 0, c. repeat split; [done|]. intros j' t' Hj'. lia.
  - destruct (parentPtr h c) as [c'|] eqn:Ep; [|by destruct fuel].
    intros Hs. destruct (parent_lt _ _ Ep) as [Hlt _].
    destruct (IH c' ltac:(lia) Hs) as (j & t & Hj & Hm & Hfirst & Hnext).
    exists (S j), t. split; [cbn [nthParent]; by rewrite Ep|]. split; [done|].
    split; [|done]. intros [|j'] t' Hlt' Ht'.
    + cbn in Ht'. by injection Ht' as <-.
    + cbn [nthParent] in Ht'. rewrite Ep in Ht'. apply (Hfirst j'); [lia|done].
Qed.

Lemma search_None (p : Selector) (c fuel : nat) :
  c < fuel -> search h p (Some c) fuel = None ->
  forall j t, nthParent h j c = Some t -> Matches h p (Some t) = false.
Proof.
  revert c. induction fuel as [|fuel IH]; intros c Hc; [lia|].
  cbn [search]. destruct (Matches h p (Some c)) eqn:Em; [done|].
  intros Hs [|j] t Ht.
  - cbn in Ht. by injection Ht as <-.
  - cbn [nthParent] in Ht. destruct (parentPtr h c) as [c'|] eqn:Ep; [|done].
    destruct (parent_lt _ _ Ep) as [Hlt _]. apply (IH c' ltac:(lia) Hs j t Ht).
Qed.

(** The walk up takes the nearest node that can stand for the first
    part: what [descendantChain] finds is below every other choice. *)
Lemma descendantChain_spec (id : nat) (ps : list Selector) :
  ps <> [] -> id < length h ->
  match descendantChain h id ps with
  | Some next =>
      exists low, descendantMeaning h ps id low /\ next = parentPtr h low
                  /\ forall top, descendantMeaning h ps id top ->
                       exists j, nthParent h j low = Some top
  | None => forall top, ~ descendantMeaning h ps id top
  end.
Proof.
  intros Hne Hid. induction ps as [|p [|q ps] IH]; [done| |].
  - cbn [descendantChain descendantMeaning].
    destruct (Matches h p (Some id)) eqn:Em.
    + exists id. split; [done|]. split; [done|]. intros top [-> _]. by exists 0.
    + intros top [_ Hm]. congruence.
  - change (descendantChain h id (p :: q :: ps))
      with (match descendantChain h id (q :: ps) with
            | Some start => search h p start (length h)
            | None => None
            end).
    change (descendantMeaning h (p :: q :: ps) id)
      with (fun top => exists mid j, descendantMeaning h (q :: ps) id mid
                                     /\ nthParent h (S j) mid = Some top
                                     /\ Matches h p (Some top) = true).
    specialize (IH ltac:(done)).
    destruct (descendantChain h id (q :: ps)) as [start|].
    + destruct IH as (mlow & Hmlow & -> & Hleast).
      assert (Hpath : forall top mid j,
                descendantMeaning h (q :: ps) id mid -> nthParent h (S j) mid = Some top ->
                exists c0 k, parentPtr h mlow = Some c0 /\ nthParent h k c0 = Some top).
      { intros top mid j Hmid Htop. destruct (Hleast mid Hmid) as [jm Hjm].
        assert (Hsum : nthParent h (jm + S j) mlow = Some top)
          by (by rewrite nthParent_add, Hjm).
        replace (jm + S j) with (S (jm + j)) in Hsum by lia.
        cbn [nthParent] in Hsum. destruct (parentPtr h mlow) as [c0|]; [|done].
        by exists c0, (jm + j). }
      destruct (parentPtr h mlow) as [c0|] eqn:Ep.
      * destruct (parent_lt _ _ Ep) as [Hlt Hlen].
        destruct (search h p (Some c0) (length h)) as [next|] eqn:Es.
        -- apply search_Some in Es as (j & t & Hj & Hm & Hfirst & ->); [|lia].
           exists t. split; [|split; [done|]].
           ++ exists mlow, j. split; [done|]. split; [|done].
              cbn [nthParent]. by rewrite Ep.
           ++ intros top (mid & j' & Hmid & Htop & Hmtop).
              destruct (Hpath top mid j' Hmid Htop) as (c0' & k & [= <-] & Hk).
              destruct (Nat.lt_ge_cases k j) as [Hkj|Hkj].
              ** rewrite (Hfirst k top Hkj Hk) in Hmtop. done.
              ** exists (k - j). replace k with (j + (k - j)) in Hk by lia.
                 by rewrite nthParent_add, Hj in Hk.
        -- intros top (mid & j' & Hmid & Htop & Hmtop).
           destruct (Hpath top mid j' Hmid Htop) as (c0' & k & [= <-] & Hk).
           rewrite (search_None p c0 (length h) ltac:(lia) Es k top Hk) in Hmtop. done.
      * assert (search h p None (length h) = None) as -> by (by destruct (length h)).
        intros top (mid & j' & Hmid & Htop & Hmtop).
        by destruct (Hpath top mid j' Hmid Htop) as (c0' & k & ? & _).
    + intros top (mid & j' & Hmid & _). by apply (IH mid).
Qed.

(** X18.  On a tree as [ParseHTML] builds it, a selector with the
    descendant combinator matches an element exactly when its last
    part matches the element and every part before matches some proper
    ancestor of the node that the part after it matches: taking the
    nearest ancestor each time, and at most as many steps up as the
    tree has nodes, misses no match. *)
Theorem descendant_combinator_meaning (s : Selector) (id : nat) (n : Node A) :
  h !! id = Some n -> isElementNode n = true ->
  SType s = SelectorDescendant -> PseudoClass s = "" ->
  Matches h s (Some id) = true <-> exists top, descendantMeaning h (Parts s) id top.
Proof.
  intros Hn Hel Hty Hpc.
  assert (Hpc' : String.eqb (PseudoClass s) "" = true) by (by apply String.eqb_eq).
  rewrite (proj2 (Matches_combinator s id n Hn Hel Hpc') Hty).
  destruct (Parts s) as [|p ps] eqn:Eparts.
  - split; [done|]. by intros [? ?].
  - pose proof (descendantChain_spec id (p :: ps) ltac:(done)
                  (lookup_lt_Some _ _ _ Hn)) as Hspec.
    destruct (descendantChain h id (p :: ps)) as [next|].
    + destruct Hspec as (low & Hlow & _). split; [by exists low|done].
    + split; [done|]. intros [top Htop]. by destruct (Hspec top).
Qed.

End Chains.

Section Scenario.
Local Existing Instance ascii_strings.

(** In the list of [Nested.list], the selector [li > b] for the
    element [b] at index 3. *)
Lemma child_combinator_meaning_witness :
  Matches Nested.list (ParseSelector "li > b") (Some 3) = true
  <-> childMeaning Nested.list (Parts (ParseSelector "li > b")) 3.
Proof.
  assert (Hn : Nested.list !! 3 = Some Nested.bold) by (vm_compute; reflexivity).
  assert (Hel : isElementNode Nested.bold = true) by (vm_compute; reflexivity).
  assert (Hty : SType (ParseSelector "li > b") = SelectorChild) by (vm_compute; reflexivity).
  assert (Hpc : PseudoClass (ParseSelector "li > b") = "") by (vm_compute; reflexivity).
  exact (child_combinator_meaning Nested.list (ParseSelector "li > b") 3 Nested.bold
           Hn Hel Hty Hpc).
Defined.

(** There, the selector [ul b] for the same element: the part [ul]
    matches its second parent. *)
Lemma descendant_combinator_meaning_witness :
  Matches Nested.list (ParseSelector "ul b") (Some 3) = true
  <-> exists top, descendantMeaning Nested.list (Parts (ParseSelector "ul b")) 3 top.
Proof.
  assert (Hn : Nested.list !! 3 = Some Nested.bold) by (vm_compute; reflexivity).
  assert (Hel : isElementNode Nested.bold = true) by (vm_compute; reflexivity).
  assert (Hty : SType (ParseSelector "ul b") = SelectorDescendant) by (vm_compute; reflexivity).
  assert (Hpc : PseudoClass (ParseSelector "ul b") = "") by (vm_compute; reflexivity).
  exact (descendant_combinator_meaning Nested.list ParsedFacts.Nested_list_wf
           (ParseSelector "ul b") 3 Nested.bold Hn Hel Hty Hpc).
Defined.

End Scenario.

End CombinatorProperties.

Module PseudoClassProperties.
Import Dom Css.

Section Siblings.
Context {A : Type} `{GoStrings} (h : Store A).

Lemma onlyChildLoop_count (children : list nat) (count : Z) :
  (0 <= count)%Z ->
  onlyChildLoop h children count = true
  <-> (count + Z.of_nat (length (List.filter (isElement h) children)) = 1)%Z.
Proof.
  revert count. induction children as [|c cs IH]; intros count Hcount.
  - cbn. rewrite Z.eqb_eq. lia.
  - cbn [onlyChildLoop List.filter]. destruct (isElement h c).
    + destruct (Z.ltb_spec 1 (count + 1)).
      * cbn [length]. split; [done|lia].
      * rewrite IH by lia. cbn [length]. lia.
    + by apply IH.
Qed.

Lemma firstElementIs_head (children : list nat) (node : nat) :
  firstElementIs h children node = true
  <-> head (List.filter (isElement h) children) = Some node.
Proof.
  induction children as [|c cs IH]; [done|].
  cbn [firstElementIs List.filter]. destruct (isElement h c); [|exact IH].
  cbn [head]. rewrite Nat.eqb_eq. split; [by intros ->|by intros [= ->]].
Qed.

Lemma head_rev_last {X : Type} (l : list X) : head (rev l) = last l.
Proof.
  induction l as [|x l IH] using rev_ind; [done|].
  rewrite rev_app_distr. cbn. by rewrite last_snoc.
Qed.

(** X19.  For an element that its parent lists once among its children,
    the pseudo-class only-child holds exactly when first-child and
    last-child both hold. *)
Theorem only_child_first_and_last (id p : nat) (pn : Node A) :
  parentPtr h id = Some p -> h !! p = Some pn ->
  isElement h id = true -> count_occ Nat.eq_dec (Children pn) id = 1 ->
  matchesPseudoClass h id "only-child"
  = matchesPseudoClass h id "first-child" && matchesPseudoClass h id "last-child".
Proof.
  intros Hp Hpn Hel Honce. unfold matchesPseudoClass. rewrite Hp.
  cbn [String.eqb Ascii.eqb Bool.eqb]. unfold childrenOf. rewrite Hpn.
  set (cs := Children pn) in *. set (E := List.filter (isElement h) cs).
  assert (Hin : In id E).
  { apply filter_In. split; [|done]. apply (count_occ_In Nat.eq_dec). lia. }
  assert (HE : count_occ Nat.eq_dec E id <= 1).
  { rewrite <- Honce. subst E. clear. induction cs as [|c cs IH]; [done|].
    cbn [List.filter]. destruct (isElement h c); cbn [count_occ];
      destruct (Nat.eq_dec c id); lia. }
  apply eq_true_iff_eq. rewrite andb_true_iff.
  rewrite (onlyChildLoop_count cs 0) by lia.
  rewrite !firstElementIs_head.
  assert (Hrev : List.filter (isElement h) (rev cs) = rev E).
  { subst E. apply List.filter_rev. }
  rewrite Hrev, head_rev_last. fold E.
  destruct E as [|e1 [|e2 E']] eqn:EE.
  - done.
  - destruct Hin as [->|[]]. cbn. split; [done|lia].
  - cbn [length]. split; [lia|]. intros [[= ->] Hlast].
    assert (Hl : In id (e2 :: E')).
    { change (last (id :: e2 :: E')) with (last (e2 :: E')) in Hlast.
      apply list_elem_of_In. by apply last_Some_elem_of. }
    rewrite count_occ_cons_eq in HE by done.
    apply (count_occ_In Nat.eq_dec) in Hl. lia.
Qed.

Lemma elementIndexLoop_first (children : list nat) (node : nat) (idx : Z) :
  (0 <= idx)%Z ->
  elementIndexLoop h children node idx = 1%Z
  <-> idx = 0%Z /\ firstElementIs h children node = true.
Proof.
  revert idx. induction children as [|c cs IH]; intros idx Hidx.
  - cbn. split; [done|]. by intros [_ ?].
  - cbn [elementIndexLoop firstElementIs]. destruct (isElement h c); [|by apply IH].
    destruct (Nat.eqb c node).
    + split; [intros ?; split; [lia|done]|intros [-> _]; lia].
    + rewrite IH by lia. split; [lia|by intros [_ ?]].
Qed.

(** X20.  When [Atoi] reads the text 1 as the number 1, a node matches
    the pseudo-class nth-child(1) exactly when it matches
    first-child. *)
Theorem nth_child_1_is_first_child (id : nat) :
  Atoi "1" = Some 1%Z ->
  matchesPseudoClass h id "nth-child(1)" = matchesPseudoClass h id "first-child".
Proof.
  intros Hatoi. unfold matchesPseudoClass. destruct (parentPtr h id) as [p|] eqn:Hp; [|done].
  change (GoStr.HasPrefix "nth-child(1)" "nth-child") with true.
  change (GoStr.TrimSuffix (GoStr.TrimPrefix "nth-child(1)" "nth-child(") ")") with "1".
  cbn [String.eqb Ascii.eqb Bool.eqb andb]. rewrite Hatoi.
  unfold getElementIndex. rewrite Hp. apply eq_true_iff_eq.
  rewrite Z.eqb_eq, elementIndexLoop_first by lia. split; [by intros [_ ?]|done].
Qed.

End Siblings.

Section Scenario.
Local Existing Instance ascii_strings.

(** The first of the two items of [Nested.list], and the list at
    index 1 that is their parent. *)
Lemma only_child_first_and_last_witness :
  matchesPseudoClass Nested.list 2 "only-child"
  = matchesPseudoClass Nested.list 2 "first-child"
    && matchesPseudoClass Nested.list 2 "last-child".
Proof.
  assert (Hp : parentPtr Nested.list 2 = Some 1) by (vm_compute; reflexivity).
  assert (Hpn : Nested.list !! 1 = Some Nested.items) by (vm_compute; reflexivity).
  assert (Hel : isElement Nested.list 2 = true) by (vm_compute; reflexivity).
  assert (Honce : count_occ Nat.eq_dec (Children Nested.items) 2 = 1)
    by (vm_compute; reflexivity).
  exact (only_child_first_and_last Nested.list 2 1 Nested.items Hp Hpn Hel Honce).
Defined.

Lemma nth_child_1_is_first_child_witness :
  matchesPseudoClass Nested.list 2 "nth-child(1)"
  = matchesPseudoClass Nested.list 2 "first-child".
Proof.
  assert (Hatoi : Atoi "1" = Some 1%Z) by reflexivity.
  exact (nth_child_1_is_first_child Nested.list 2 Hatoi).
Defined.

End Scenario.

End PseudoClassProperties.

(** ** The trees of [ParseHTML] and the walks over them *)

Module TreeProperties.
Import Dom Css Tree TreeFacts Shape ShapeFacts Combinators Traverse.

Section Parsed.
Context {A : Type} `{GoStrings}.

(** X21.  In a tree of [ParseHTML] the lists of children and the parent
    pointers say the same: a node is listed among the children of
    [p] exactly when its parent pointer is [p], no node is listed
    twice, and a child comes after its parent in the store. *)
Theorem ParseHTML_links (html : string) (h : Store A) :
  ParseHTML html = Ok h ->
  (forall p c, childOf h p c <-> parentOf h c p)
  /\ (forall p pn, h !! p = Some pn -> NoDup (Children pn))
  /\ (forall p c, childOf h p c -> p < c < length h).
Proof.
  intros Hp. apply ParseHTML_shaped in Hp as [Hwf Hsh]. split; [|split].
  - intros p c. split.
    + intros (pn & Hpn & Hin). destruct (sh_back _ Hsh _ _ _ Hpn Hin) as (cn & ? & ?).
      by exists cn.
    + intros (cn & Hcn & Hpar).
      destruct (wf_listed _ Hwf _ _ _ Hcn Hpar) as (_ & pn & Hpn & Hcount).
      exists pn. split; [done|]. apply list_elem_of_In, (count_occ_In Nat.eq_dec). lia.
  - intros p pn. by apply children_NoDup.
  - intros p c (pn & Hpn & Hin). by apply (child_gt h Hwf Hsh p c pn).
Qed.

(** X22.  In a tree of [ParseHTML] every node is an element with a tag or
    a text node, none has a computed style yet, and text nodes and void
    elements have no children. *)
Theorem ParseHTML_leaves (html : string) (h : Store A) (i : nat) (n : Node A) :
  ParseHTML html = Ok h -> h !! i = Some n ->
  kind n /\ ComputedStyle n = None
  /\ (NType n = NodeText \/ inList (Tag n) voidElements = true -> Children n = []).
Proof.
  intros Hp Hn. apply ParseHTML_shaped in Hp as [Hwf Hsh].
  split; [apply (sh_kind _ Hsh _ _ Hn)|]. split; [apply (sh_plain _ Hsh _ _ Hn)|].
  intros Hleaf. destruct (Children n) as [|c cs] eqn:Hcs; [done|]. exfalso.
  assert (Hcont : container n = true) by (apply (sh_inner _ Hsh _ _ Hn); by rewrite Hcs).
  unfold container in Hcont. destruct Hleaf as [Hty|Hvoid].
  - by rewrite Hty in Hcont.
  - rewrite Hvoid in Hcont. by destruct (NType n).
Qed.

End Parsed.

Section Walks.
Context {A : Type} (h : Store A).
Hypothesis Hwf : wf h.

(** The loops of [Ancestors] and [Depth] from a node on. *)
Lemma ancestorsLoop_spec (fuel c : nat) :
  c < fuel -> c < length h ->
  exists ancs, ancestorsLoop h (Some c) fuel = Ok (c :: ancs)
    /\ (forall d, depthLoop h (Some c) d fuel = Ok (d + 1 + Z.of_nat (length ancs))%Z)
    /\ (forall j, (c :: ancs) !! j = nthParent h j c)
    /\ last (c :: ancs) = Some 0
    /\ (forall a, a ∈ ancs <-> tc (parentOf h) c a).
Proof.
  revert c. induction fuel as [|fuel IH]; intros c Hfuel Hc; [lia|].
  cbn [ancestorsLoop depthLoop]. destruct (parentPtr h c) as [p|] eqn:Hp.
  - destruct (parentPtr_before h Hwf c p Hp) as [Hpc _].
    destruct (IH p) as (ancs & -> & Hdepth & Hnth & Hlast & Htc); [lia..|].
    exists (p :: ancs). split; [done|]. split; [|split; [|split]].
    + intros d. rewrite Hdepth. f_equal. cbn [length]. lia.
    + intros [|j]; [done|]. cbn [nthParent]. rewrite Hp. apply (Hnth j).
    + done.
    + intros a. rewrite elem_of_cons, Htc. split.
      * intros [->|Hpa].
        -- by apply tc_once, parentPtr_parentOf.
        -- eapply tc_l; [by apply parentPtr_parentOf|done].
      * intros Hca. inversion Hca as [? ? Hx|? x ? Hx Hxa]; subst;
          apply parentPtr_parentOf in Hx; rewrite Hp in Hx; injection Hx as <-; auto.
  - exists []. split; [by destruct fuel|]. split; [|split; [|split]].
    + intros d. destruct fuel; cbn; f_equal; lia.
    + intros [|j]; [done|]. cbn [nthParent]. by rewrite Hp.
    + cbn. f_equal. by apply (parentPtr_root h Hwf).
    + intros a. split; [by intros ?%elem_of_nil|].
      intros Hca. inversion Hca as [? ? Hx|? x ? Hx Hxa]; subst;
        apply parentPtr_parentOf in Hx; congruence.
Qed.

Lemma Ancestors_spec (n : nat) :
  n < length h ->
  exists ancs, Ancestors h n (length h) = Ok ancs
    /\ Depth h n (length h) = Ok (Z.of_nat (length ancs))
    /\ (forall j, ancs !! j = nthParent h (S j) n)
    /\ (n <> 0 -> last ancs = Some 0)
    /\ (forall a, a ∈ ancs <-> tc (parentOf h) n a).
Proof.
  intros Hn. unfold Ancestors, Depth. destruct (parentPtr h n) as [p|] eqn:Hp.
  - destruct (parentPtr_before h Hwf n p Hp) as [Hpn _].
    destruct (ancestorsLoop_spec (length h) p) as (ancs & -> & Hdepth & Hnth & Hlast & Htc);
      [lia..|].
    exists (p :: ancs). split; [done|]. split; [|split; [|split]].
    + rewrite Hdepth. f_equal. cbn [length]. lia.
    + intros j. cbn [nthParent]. rewrite Hp. apply Hnth.
    + done.
    + intros a. rewrite elem_of_cons, Htc. split.
      * intros [->|Hpa].
        -- by apply tc_once, parentPtr_parentOf.
        -- eapply tc_l; [by apply parentPtr_parentOf|done].
      * intros Hca. inversion Hca as [? ? Hx|? x ? Hx Hxa]; subst;
          apply parentPtr_parentOf in Hx; rewrite Hp in Hx; injection Hx as <-; auto.
  - exists []. split; [by destruct (length h)|]. split; [by destruct (length h)|].
    split; [|split].
    + intros j. cbn [nthParent]. by rewrite Hp.
    + intros Hne. by apply (parentPtr_root h Hwf) in Hp.
    + intros a. split; [by intros ?%elem_of_nil|].
      intros Hca. inversion Hca as [? ? Hx|? x ? Hx Hxa]; subst;
        apply parentPtr_parentOf in Hx; congruence.
Qed.

Hypothesis Hsh : shaped h.

Lemma descends_child (n d : nat) (pn : Node A) :
  h !! n = Some pn ->
  tc (parentOf h) d n
  <-> exists c, c ∈ Children pn /\ (c = d \/ tc (parentOf h) d c).
Proof.
  intros Hn. split.
  - intros [Hdn|(y & Hdy & Hyn)]%tc_inv_r.
    + exists d. split; [|by left]. destruct Hdn as (dn & Hd & Hpar).
      destruct (wf_listed _ Hwf _ _ _ Hd Hpar) as (_ & pn' & Hpn' & Hcount).
      assert (pn' = pn) by congruence. subst.
      apply list_elem_of_In, (count_occ_In Nat.eq_dec). lia.
    + exists y. split; [|by right]. destruct Hyn as (yn & Hy & Hpar).
      destruct (wf_listed _ Hwf _ _ _ Hy Hpar) as (_ & pn' & Hpn' & Hcount).
      assert (pn' = pn) by congruence. subst.
      apply list_elem_of_In, (count_occ_In Nat.eq_dec). lia.
  - intros (c & Hin & Hc). destruct (sh_back _ Hsh _ _ _ Hn Hin) as (cn & Hcn & Hpar).
    assert (Hcp : parentOf h c n) by (by exists cn).
    destruct Hc as [->|Hdc]; [by apply tc_once|]. by eapply tc_r.
Qed.

Lemma Contains_spec (d fuel n : nat) :
  n < length h -> length h - n <= fuel ->
  exists b, Contains h fuel (Some n) (Some d) = Ok b
            /\ (b = true <-> tc (parentOf h) d n).
Proof.
  revert n. induction fuel as [|fuel IH]; intros n Hn Hfuel; [lia|].
  cbn [Contains]. destruct (lookup_lt_is_Some_2 h n Hn) as [pn Hpn].
  unfold childrenOf. rewrite Hpn.
  setoid_rewrite (descends_child n d pn Hpn).
  assert (Hall : Forall (fun c => n < c /\ c < length h) (Children pn)).
  { apply Forall_forall. intros c Hin. by apply (child_gt h Hwf Hsh n c pn). }
  induction (Children pn) as [|c cs IHcs].
  - exists false. split; [done|]. split; [done|]. by intros (c & ?%elem_of_nil & _).
  - apply Forall_cons in Hall as [[Hnc Hc] Hall].
    destruct (Nat.eqb_spec c d) as [->|Hne].
    + exists true. split; [done|]. split; [|done]. intros _. exists d.
      split; [apply elem_of_cons; by left|by left].
    + destruct (IH c) as (b & -> & Hb); [lia..|]. cbn [mbind result_bind rbind].
      destruct b.
      * exists true. split; [done|]. split; [|done]. intros _. exists c.
        split; [apply elem_of_cons; by left|right; by apply Hb].
      * destruct (IHcs Hall) as (b & -> & Hb'). exists b. split; [done|].
        rewrite Hb'. split.
        -- intros (x & Hin & Hx). exists x. split; [apply elem_of_cons; by right|done].
        -- intros (x & [->|Hin]%elem_of_cons & Hx); [|by exists x].
           destruct Hx as [->|Hx]; [done|]. apply Hb in Hx. done.
Qed.

(** The loops of [NextSibling] and [PreviousSibling]. *)
Lemma nextLoop_spec (siblings : list nat) (n m i : nat) (rest : list nat) :
  NoDup siblings -> drop i siblings = rest ->
  nextLoop siblings n i rest = Some m
  <-> exists j, i <= j /\ siblings !! j = Some n /\ siblings !! (S j) = Some m.
Proof.
  intros Hnd. revert i. induction rest as [|child rest' IH]; intros i Hdrop.
  - cbn. split; [done|]. intros (j & Hij & Hj & _).
    apply lookup_lt_Some in Hj. apply (f_equal length) in Hdrop.
    rewrite length_drop in Hdrop. cbn in Hdrop. lia.
  - assert (Hi : siblings !! i = Some child).
    { pose proof (lookup_drop siblings i 0) as Hl.
      rewrite Hdrop, Nat.add_0_r in Hl. done. }
    assert (Hdrop' : drop (S i) siblings = rest').
    { pose proof (drop_drop siblings 1 i) as Hl.
      rewrite Hdrop, Nat.add_1_r in Hl. done. }
    cbn [nextLoop]. destruct (Nat.eqb_spec child n) as [->|Hne]; cbn [andb].
    + destruct (Nat.ltb_spec (i + 1) (length siblings)) as [Hlt|Hge].
      * replace (i + 1) with (S i) by lia. split.
        -- intros Hm. exists i. done.
        -- intros (j & Hij & Hj & Hm).
           assert (j = i) by (eapply NoDup_lookup; eauto). by subst.
      * rewrite (IH (S i) Hdrop'). split.
        -- intros (j & Hij & Hj). exists j. split; [lia|done].
        -- intros (j & Hij & Hj & Hm).
           assert (j = i) by (eapply NoDup_lookup; eauto). subst.
           apply lookup_lt_Some in Hm. lia.
    + rewrite (IH (S i) Hdrop'). split.
      * intros (j & Hij & Hj). exists j. split; [lia|done].
      * intros (j & Hij & Hj & Hm). exists j. split; [|done].
        destruct (decide (j = i)) as [->|]; [congruence|lia].
Qed.

Lemma previousLoop_spec (siblings : list nat) (n m i : nat) (rest : list nat) :
  NoDup siblings -> drop i siblings = rest ->
  previousLoop siblings m i rest = Some n
  <-> exists j, i <= S j /\ siblings !! j = Some n /\ siblings !! (S j) = Some m.
Proof.
  intros Hnd. revert i. induction rest as [|child rest' IH]; intros i Hdrop.
  - cbn. split; [done|]. intros (j & Hij & _ & Hj).
    apply lookup_lt_Some in Hj. apply (f_equal length) in Hdrop.
    rewrite length_drop in Hdrop. cbn in Hdrop. lia.
  - assert (Hi : siblings !! i = Some child).
    { pose proof (lookup_drop siblings i 0) as Hl.
      rewrite Hdrop, Nat.add_0_r in Hl. done. }
    assert (Hdrop' : drop (S i) siblings = rest').
    { pose proof (drop_drop siblings 1 i) as Hl.
      rewrite Hdrop, Nat.add_1_r in Hl. done. }
    cbn [previousLoop]. destruct (Nat.eqb_spec child m) as [->|Hne]; cbn [andb].
    + destruct (Nat.ltb_spec 0 i) as [Hlt|Hge].
      * destruct i as [|i]; [lia|]. replace (S i - 1) with i by lia. split.
        -- intros Hn. exists i. split; [lia|done].
        -- intros (j & Hij & Hj & Hm).
           assert (S j = S i) by (eapply NoDup_lookup; eauto). by simplify_eq.
      * assert (i = 0) by lia. subst i. rewrite (IH 1 Hdrop'). split.
        -- intros (j & Hij & Hj). exists j. split; [lia|done].
        -- intros (j & Hij & Hj & Hm).
           assert (S j = 0) by (eapply NoDup_lookup; eauto). lia.
    + rewrite (IH (S i) Hdrop'). split.
      * intros (j & Hij & Hj). exists j. split; [lia|done].
      * intros (j & Hij & Hj & Hm). exists j. split; [|done].
        destruct (decide (S j = i)) as [<-|]; [congruence|lia].
Qed.

Lemma childrenOf_NoDup (p : nat) : NoDup (childrenOf h p).
Proof.
  unfold childrenOf. destruct (h !! p) as [pn|] eqn:Hp; [|constructor].
  by apply (children_NoDup h Hwf Hsh p).
Qed.

Lemma sibling_parent (p c : nat) : c ∈ childrenOf h p -> parentPtr h c = Some p.
Proof.
  unfold childrenOf. destruct (h !! p) as [pn|] eqn:Hp; [|by intros ?%elem_of_nil].
  intros Hin. destruct (sh_back _ Hsh _ _ _ Hp Hin) as (cn & Hcn & Hpar).
  apply parentPtr_parentOf. by exists cn.
Qed.

Lemma siblings_spec (n m : nat) :
  NextSibling h (Some n) = Some m <-> PreviousSibling h (Some m) = Some n.
Proof.
  unfold NextSibling, PreviousSibling. split.
  - destruct (parentPtr h n) as [p|] eqn:Hp; [|done].
    intros (j & _ & Hj & Hm)%nextLoop_spec; [|apply childrenOf_NoDup|done].
    rewrite (sibling_parent p m) by (by eapply list_elem_of_lookup_2).
    apply previousLoop_spec; [apply childrenOf_NoDup|done|].
    exists j. split; [lia|done].
  - destruct (parentPtr h m) as [p|] eqn:Hp; [|done].
    intros (j & _ & Hj & Hm)%previousLoop_spec; [|apply childrenOf_NoDup|done].
    rewrite (sibling_parent p n) by (by eapply list_elem_of_lookup_2).
    apply nextLoop_spec; [apply childrenOf_NoDup|done|].
    exists j. split; [lia|done].
Qed.

End Walks.

Section ParsedWalks.
Context {A : Type} `{GoStrings}.

(** X23.  For a node of a tree of [ParseHTML], [Ancestors] ends within
    as many steps as the tree has nodes and lists the parent of the
    node, the parent of that one and so on, which are the proper
    ancestors of the node; the last one is the root unless the node is
    the root; [Depth] is the number of them. *)
Theorem Ancestors_to_root (html : string) (h : Store A) (n : nat) :
  ParseHTML html = Ok h -> n < length h ->
  exists ancs, Ancestors h n (length h) = Ok ancs
    /\ Depth h n (length h) = Ok (Z.of_nat (length ancs))
    /\ (forall j, ancs !! j = nthParent h (S j) n)
    /\ (n <> 0 -> last ancs = Some 0)
    /\ (forall a, a ∈ ancs <-> tc (parentOf h) n a).
Proof.
  intros Hp Hn. apply ParseHTML_shaped in Hp as [Hwf _]. by apply Ancestors_spec.
Qed.

(** X24.  In a tree of [ParseHTML], [Contains] ends within a depth of as
    many calls as the tree has nodes, and a node contains another one
    exactly when it is among the [Ancestors] of that one. *)
Theorem Contains_Ancestors (html : string) (h : Store A) (n d : nat) :
  ParseHTML html = Ok h -> n < length h -> d < length h ->
  exists b ancs, Contains h (length h) (Some n) (Some d) = Ok b
    /\ Ancestors h d (length h) = Ok ancs
    /\ (b = true <-> n ∈ ancs).
Proof.
  intros Hp Hn Hd. apply ParseHTML_shaped in Hp as [Hwf Hsh].
  destruct (Contains_spec h Hwf Hsh d (length h) n) as (b & Hb & Hiff); [lia..|].
  destruct (Ancestors_spec h Hwf d Hd) as (ancs & Hancs & _ & _ & _ & Htc).
  exists b, ancs. split; [done|]. split; [done|]. by rewrite Htc.
Qed.

(** X25.  In a tree of [ParseHTML], [NextSibling] and [PreviousSibling]
    are inverse to each other. *)
Theorem siblings_round_trip (html : string) (h : Store A) (n m : nat) :
  ParseHTML html = Ok h ->
  NextSibling h (Some n) = Some m <-> PreviousSibling h (Some m) = Some n.
Proof.
  intros Hp. apply ParseHTML_shaped in Hp as [Hwf Hsh]. by apply siblings_spec.
Qed.

End ParsedWalks.

Section Scenario.
Local Existing Instance ascii_strings.

Lemma Nested_list_parsed :
  ParseHTML "<ul><li><b>x</b></li><li>y</li></ul>" = Ok Nested.list.
Proof. by vm_compute. Qed.

Lemma ParseHTML_links_witness :
  (forall p c, childOf Nested.list p c <-> parentOf Nested.list c p)
  /\ (forall p pn, Nested.list !! p = Some pn -> NoDup (Children pn))
  /\ (forall p c, childOf Nested.list p c -> p < c < length Nested.list).
Proof.
  exact (ParseHTML_links "<ul><li><b>x</b></li><li>y</li></ul>" Nested.list
           Nested_list_parsed).
Defined.

Lemma ParseHTML_leaves_witness :
  kind Nested.bold /\ ComputedStyle Nested.bold = None
  /\ (NType Nested.bold = NodeText \/ inList (Tag Nested.bold) voidElements = true ->
      Children Nested.bold = []).
Proof.
  assert (Hn : Nested.list !! 3 = Some Nested.bold) by (vm_compute; reflexivity).
  exact (ParseHTML_leaves "<ul><li><b>x</b></li><li>y</li></ul>" Nested.list 3 Nested.bold
           Nested_list_parsed Hn).
Defined.

Lemma Ancestors_to_root_witness :
  exists ancs, Ancestors Nested.list 3 (length Nested.list) = Ok ancs
    /\ Depth Nested.list 3 (length Nested.list) = Ok (Z.of_nat (length ancs))
    /\ (forall j, ancs !! j = nthParent Nested.list (S j) 3)
    /\ (3 <> 0 -> last ancs = Some 0)
    /\ (forall a, a ∈ ancs <-> tc (parentOf Nested.list) 3 a).
Proof.
  assert (Hn : 3 < length Nested.list) by (vm_compute; lia).
  exact (Ancestors_to_root "<ul><li><b>x</b></li><li>y</li></ul>" Nested.list 3
           Nested_list_parsed Hn).
Defined.

Lemma Contains_Ancestors_witness :
  exists b ancs, Contains Nested.list (length Nested.list) (Some 1) (Some 4) = Ok b
    /\ Ancestors Nested.list 4 (length Nested.list) = Ok ancs
    /\ (b = true <-> 1 ∈ ancs).
Proof.
  assert (Hn : 1 < length Nested.list) by (vm_compute; lia).
  assert (Hd : 4 < length Nested.list) by (vm_compute; lia).
  exact (Contains_Ancestors "<ul><li><b>x</b></li><li>y</li></ul>" Nested.list 1 4
           Nested_list_parsed Hn Hd).
Defined.

Lemma siblings_round_trip_witness :
  NextSibling Nested.list (Some 2) = Some 5 <-> PreviousSibling Nested.list (Some 5) = Some 2.
Proof.
  exact (siblings_round_trip "<ul><li><b>x</b></li><li>y</li></ul>" Nested.list 2 5
           Nested_list_parsed).
Defined.

End Scenario.

End TreeProperties.

(** ** The pass of [ApplyStylesToTree] *)

Module StylePassProperties.
Import Dom Css Tree TreeFacts Shape ShapeFacts StylePass.

Section Pass.
Context {F : Type} `{Float64 F} `{GoStrings}.
Variable ApplyProperty : ComputedStyle.t F -> string -> string -> ComputedStyle.t F.
Variable stylesheets : list Stylesheet.t.

Abbreviation Tree := (Store (ComputedStyle.t F)).

Lemma keeps_refl (g : Tree) : keeps g g.
Proof. split; [done|]. intros i n Hn. by exists n. Qed.

Lemma keeps_trans (g1 g2 g3 : Tree) : keeps g1 g2 -> keeps g2 g3 -> keeps g1 g3.
Proof.
  intros [Hl12 H12] [Hl23 H23]. split; [congruence|]. intros i n Hn.
  destruct (H12 i n Hn) as (n2 & Hn2 & Hu2 & Hs2 & He2).
  destruct (H23 i n2 Hn2) as (n3 & Hn3 & Hu3 & Hs3 & He3).
  exists n3. split; [done|]. split; [congruence|]. split; [auto|].
  intros Hel. rewrite <- (He2 Hel). apply He3.
  assert (Hty : NType n2 = NType n) by (by apply (f_equal NType) in Hu2).
  unfold isElementNode in *. by rewrite Hty.
Qed.

Lemma keeps_children (g g1 : Tree) (id : nat) : keeps g g1 -> childrenOf g1 id = childrenOf g id.
Proof.
  intros [Hlen Hk]. unfold childrenOf. destruct (g !! id) as [n|] eqn:Hn.
  - destruct (Hk id n Hn) as (n1 & -> & Hu & _). by apply (f_equal Children) in Hu.
  - rewrite lookup_ge_None_2; [done|]. apply lookup_ge_None_1 in Hn. lia.
Qed.

Lemma keeps_element (g g1 : Tree) (i : nat) (n n1 : Node (ComputedStyle.t F)) :
  keeps g g1 -> g !! i = Some n -> g1 !! i = Some n1 -> isElementNode n1 = isElementNode n.
Proof.
  intros [_ Hk] Hn Hn1. destruct (Hk i n Hn) as (n' & Hn' & Hu & _).
  assert (n' = n1) by congruence. subst.
  apply (f_equal NType) in Hu. unfold isElementNode. cbn in Hu. by rewrite Hu.
Qed.

(** The body of [applyStylesRecursive] for one node. *)
Lemma styleNode_keeps (g : Tree) (id : nat) :
  keeps g (styleNode ApplyProperty g id stylesheets)
  /\ forall n1, styleNode ApplyProperty g id stylesheets !! id = Some n1 ->
       isElementNode n1 = true -> is_Some (Dom.ComputedStyle n1).
Proof.
  unfold styleNode. destruct (g !! id) as [n|] eqn:Hn.
  2:{ split; [apply keeps_refl|]. intros n1 Hn1. congruence. }
  destruct (isElementNode n) eqn:Hel.
  2:{ split; [apply keeps_refl|]. intros n1 Hn1. congruence. }
  assert (Hid : id < length g) by (by apply lookup_lt_Some in Hn).
  set (own := ComputeStyles ApplyProperty g (Some id) stylesheets).
  set (parentStyle := Parent n ≫= _).
  assert (Hsome : is_Some (InheritFromParent (Some own) parentStyle)).
  { unfold InheritFromParent. by destruct parentStyle. }
  split.
  - split; [by rewrite length_insert|]. intros i x Hx.
    destruct (decide (i = id)) as [->|Hne].
    + rewrite list_lookup_insert_eq by done. eexists; split; [done|].
      assert (x = n) by congruence. subst x.
      split; [done|]. split; [done|]. congruence.
    + rewrite list_lookup_insert_ne by done. by exists x.
  - intros n1. rewrite list_lookup_insert_eq by done. by intros [= <-].
Qed.

Context (h : Tree).
Hypothesis Hwf : wf h.
Hypothesis Hsh : shaped h.

Lemma styledWithin_keeps (g g1 : Tree) (id : nat) :
  keeps g g1 -> styledWithin h g id -> styledWithin h g1 id.
Proof.
  intros Hk Hst i n1 Hin Hn1 Hel.
  destruct (lookup_lt_is_Some_2 g i) as [n Hn].
  { destruct Hk as [<- _]. by apply lookup_lt_Some in Hn1. }
  pose proof (keeps_element g g1 i n n1 Hk Hn Hn1) as Hel'.
  destruct Hk as [_ Hk]. destruct (Hk i n Hn) as (n' & Hn' & _ & Hs & _).
  assert (n' = n1) by congruence. subst. apply Hs.
  apply (Hst i n Hin Hn). congruence.
Qed.

Lemma applyStylesRecursive_spec (fuel id : nat) (g : Tree) :
  keeps h g -> id < length h -> length h - id <= fuel ->
  exists g', applyStylesRecursive ApplyProperty fuel g (Some id) stylesheets = Ok g'
    /\ keeps g g' /\ styledWithin h g' id.
Proof.
  revert id g. induction fuel as [|fuel IH]; intros id g Hg Hid Hfuel; [lia|].
  cbn [applyStylesRecursive].
  destruct (styleNode_keeps g id) as [Hk1 Hst1].
  set (g1 := styleNode ApplyProperty g id stylesheets) in *.
  assert (Hg1 : keeps h g1) by (by eapply keeps_trans).
  rewrite (keeps_children h g1 id Hg1).
  destruct (lookup_lt_is_Some_2 h id Hid) as [pn Hpn].
  assert (Hself : forall g2, keeps g1 g2 ->
            forall n, g2 !! id = Some n -> isElementNode n = true ->
                      is_Some (Dom.ComputedStyle n)).
  { intros g2 Hk2 n Hn Hel.
    destruct (lookup_lt_is_Some_2 g1 id) as [n1 Hn1]; [destruct Hg1 as [-> _]; done|].
    pose proof (keeps_element g1 g2 id n1 n Hk2 Hn1 Hn) as Hel'.
    destruct Hk2 as [_ Hk2]. destruct (Hk2 id n1 Hn1) as (n' & Hn' & _ & Hs & _).
    assert (n' = n) by congruence. subst. apply Hs, Hst1; [done|congruence]. }
  assert (Hfold : forall cs g2,
    keeps g1 g2 -> Forall (fun c => id < c /\ c < length h) cs ->
    exists g', fold_left (fun acc child =>
                  h2 ← acc; applyStylesRecursive ApplyProperty fuel h2 (Some child) stylesheets)
                 cs (Ok g2) = Ok g'
      /\ keeps g2 g' /\ forall c, c ∈ cs -> styledWithin h g' c).
  { induction cs as [|c cs IHcs]; intros g2 Hk2 Hall.
    - exists g2. split; [done|]. split; [apply keeps_refl|]. by intros c ?%elem_of_nil.
    - apply Forall_cons in Hall as [[Hic Hc] Hall]. cbn [fold_left mbind result_bind rbind].
      destruct (IH c g2) as (g3 & -> & Hk3 & Hst3); [by do 2 (eapply keeps_trans; eauto)|lia..|].
      destruct (IHcs g3) as (g' & Hfold & Hk' & Hst'); [by eapply keeps_trans|done|].
      exists g'. split; [done|]. split; [by eapply keeps_trans|].
      intros x [->|Hin]%elem_of_cons; [|by apply Hst'].
      by apply (styledWithin_keeps g3). }
  unfold childrenOf. rewrite Hpn.
  destruct (Hfold (Children pn) g1) as (g' & -> & Hk' & Hst'); [apply keeps_refl| |].
  { apply Forall_forall. intros c Hin. by apply (child_gt h Hwf Hsh id c pn). }
  exists g'. split; [done|]. split; [by eapply keeps_trans|].
  intros i n [->|Hdesc] Hn Hel.
  - by apply (Hself g').
  - apply (TreeProperties.descends_child h Hwf Hsh id i pn Hpn) in Hdesc as (c & Hin & Hc).
    apply (Hst' c Hin i n); [|done..]. destruct Hc as [->|Hc]; [by left|by right].
Qed.

End Pass.

Section Parsed.
Context {F : Type} `{Float64 F} `{GoStrings}.
Variable ApplyProperty : ComputedStyle.t F -> string -> string -> ComputedStyle.t F.

(** X26.  On a tree of [ParseHTML], the pass of [ApplyStylesToTree] from
    the root ends within a depth of as many calls as the tree has
    nodes; afterwards exactly the element nodes have a computed style,
    and nothing else in the tree has changed. *)
Theorem ApplyStylesToTree_styles_elements (html : string)
    (h : Store (ComputedStyle.t F)) (stylesheets : list Stylesheet.t) :
  ParseHTML html = Ok h ->
  exists h', applyStylesRecursive ApplyProperty (length h) h (Some 0) stylesheets = Ok h'
    /\ unstyled <$> h' = h
    /\ forall i n, h' !! i = Some n ->
         (is_Some (Dom.ComputedStyle n) <-> NType n = NodeElement).
Proof.
  intros Hp. apply ParseHTML_shaped in Hp as [Hwf Hsh].
  assert (Hroot : 0 < length h).
  { destruct (wf_root _ Hwf) as (r & Hr & _). by apply lookup_lt_Some in Hr. }
  destruct (applyStylesRecursive_spec ApplyProperty stylesheets h Hwf Hsh (length h) 0 h)
    as (h' & Hrun & [Hlen Hk] & Hst); [apply keeps_refl|done|lia|].
  exists h'. split; [done|]. split.
  - apply list_eq. intros i. rewrite list_lookup_fmap.
    destruct (h !! i) as [n|] eqn:Hn.
    + destruct (Hk i n Hn) as (n1 & -> & Hu & _). cbn. rewrite Hu. f_equal.
      pose proof (sh_plain _ Hsh _ _ Hn) as Hplain. destruct n. cbn in *. by subst.
    + rewrite lookup_ge_None_2; [done|]. apply lookup_ge_None_1 in Hn. lia.
  - intros i n1 Hn1.
    destruct (lookup_lt_is_Some_2 h i) as [n Hn]; [rewrite <- Hlen; by apply lookup_lt_Some in Hn1|].
    destruct (Hk i n Hn) as (n' & Hn' & Hu & _ & Hsame).
    assert (n' = n1) by congruence. subst n'.
    assert (Hty : NType n1 = NType n) by (by apply (f_equal NType) in Hu).
    split.
    + intros Hstyle. destruct (isElementNode n) eqn:Hel.
      * unfold isElementNode in Hel. rewrite Hty. by destruct (NType n).
      * rewrite (Hsame eq_refl) in Hstyle. rewrite (sh_plain _ Hsh _ _ Hn) in Hstyle.
        by destruct Hstyle.
    + intros Hel. apply (Hst i n1); [|done|unfold isElementNode; by rewrite Hel].
      destruct (decide (i = 0)) as [->|Hne]; [by left|right].
      destruct (TreeProperties.Ancestors_spec h Hwf i) as (ancs & _ & _ & _ & Hlast & Htc);
        [by apply lookup_lt_Some in Hn|].
      apply Htc. apply last_Some_elem_of. by apply Hlast.
Qed.

End Parsed.

Section Scenario.
Local Existing Instance ascii_strings.
Local Existing Instance Q_float.

Lemma Scenarios_page_parsed :
  ParseHTML "<div id='a' class='c' style='display: flex'>x</div>" = Ok Scenarios.page.
Proof. by vm_compute. Qed.

(** The page of one element under the four rules of
    [Scenarios.sheet]. *)
Lemma ApplyStylesToTree_styles_elements_witness :
  exists h', applyStylesRecursive Scenarios.ApplyProperty_text (length Scenarios.page)
               Scenarios.page (Some 0) [Scenarios.sheet] = Ok h'
    /\ unstyled <$> h' = Scenarios.page
    /\ forall i n, h' !! i = Some n ->
         (is_Some (Dom.ComputedStyle n) <-> NType n = NodeElement).
Proof.
  exact (ApplyStylesToTree_styles_elements Scenarios.ApplyProperty_text
           "<div id='a' class='c' style='display: flex'>x</div>" Scenarios.page
           [Scenarios.sheet] Scenarios_page_parsed).
Defined.

End Scenario.

End StylePassProperties.

(** ** The tokenizer *)

Module TokenizerProperties.
Import Dom TokenizerFacts.

(** X27.  While there is more to read, [NextToken] does not panic: it
    returns a token, keeps the text and moves the position forward by
    at least one byte, not past the end of the text. *)
Theorem NextToken_progress `{GoStrings} (t : Tokenizer) :
  HasMore t = true ->
  exists tk t', NextToken t = Ok (tk, t')
    /\ Raw t' = Raw t /\ Pos t < Pos t' <= GoStr.len (Raw t).
Proof.
  intros Hmore%Nat.ltb_lt.
  destruct (NextToken_advances t Hmore) as (tk & t' & Htok & Hraw & Hlt & Hle).
  by exists tk, t'.
Qed.

Section Scenario.
Local Existing Instance ascii_strings.

(** A text that ends inside a tag. *)
Lemma NextToken_progress_witness :
  exists tk t', NextToken (NewTokenizer "<p") = Ok (tk, t')
    /\ Raw t' = "<p" /\ 0 < Pos t' <= 2.
Proof.
  assert (Hmore : HasMore (NewTokenizer "<p") = true) by reflexivity.
  exact (NextToken_progress (NewTokenizer "<p") Hmore).
Defined.

End Scenario.

End TokenizerProperties.

(** ** The cross axis of a flex container *)

Module CrossProperties.
Import Layout CrossAxis.

Section Exact.
Local Existing Instance Q_float.
Local Open Scope Q_scope.

Ltac qred := cbn [fadd fsub fmul fdiv flt feq fofZ Q_float] in *; unfold inject_Z in *.

Abbreviation Item := (FlexItem.t Q).
Abbreviation Line := (FlexLine.t Q).

Lemma Qltb_cases (x y : Q) : (Qltb x y = true /\ x < y) \/ (Qltb x y = false /\ y <= x).
Proof.
  unfold Qltb. destruct (Qle_bool y x) eqn:E.
  - right. split; [done|]. by apply Qle_bool_iff.
  - left. split; [done|]. apply Qnot_le_lt. intros Hle%Qle_bool_iff. congruence.
Qed.

(** The greatest outer cross size of a line, or 0. *)
Lemma maxCross_bounds (items : list Item) (a : Q) :
  let m := fold_left (fun maxCross item =>
                        let itemCross := (FlexItem.CrossSize item + FlexItem.MarginCrossStart item
                                          + FlexItem.MarginCrossEnd item)%f64 in
                        if (itemCross >? maxCross)%f64 then itemCross else maxCross)
                     items a in
  a <= m
  /\ Forall (fun item => FlexItem.CrossSize item + FlexItem.MarginCrossStart item
                         + FlexItem.MarginCrossEnd item <= m) items.
Proof.
  revert a. induction items as [|item items IH]; intros a; cbn zeta.
  - cbn. split; [lra|constructor].
  - cbn [fold_left]. qred.
    match goal with
    | |- context [fold_left ?f items ?b] => destruct (IH b) as [Hb Hall]; cbn zeta in Hb, Hall
    end.
    qred.
    destruct (Qltb_cases a (FlexItem.CrossSize item + FlexItem.MarginCrossStart item
                            + FlexItem.MarginCrossEnd item)) as [[E Hlt]|[E Hge]];
      rewrite E in *; (split; [lra|constructor; [lra|done]]).
Qed.

Lemma determineCrossSizes_fits fc (lines : list Line) :
  Forall fits (determineCrossSizes fc lines).
Proof.
  unfold determineCrossSizes. apply Forall_fmap, Forall_forall. intros line _.
  unfold compose. cbn beta zeta.
  match goal with
  | |- context [fold_left ?f (FlexLine.Items line) ?a] =>
      destruct (maxCross_bounds (FlexLine.Items line) a) as [_ Hall];
      cbn zeta in Hall; set (m := fold_left f (FlexLine.Items line) a) in *
  end.
  unfold fits. cbn [setLineItems setLineCrossSize FlexLine.Items FlexLine.CrossSize].
  apply Forall_fmap. eapply Forall_impl; [exact Hall|]. intros item Hitem.
  unfold compose. cbn beta in *.
  destruct (String.eqb (effectiveAlign fc item) "stretch");
    cbn [FlexItem.setFinalCrossSize FlexItem.FinalCrossSize FlexItem.MarginCrossStart
         FlexItem.MarginCrossEnd]; qred; lra.
Qed.

Lemma ofNat_pos (n : nat) : (0 < n)%nat -> 0 < ofNat n.
Proof.
  intros Hn. unfold ofNat. qred. unfold Qlt. cbn. lia.
Qed.

Lemma alignContent_fits (ac : string) (freeCross : Q) (lines : list Line) :
  0 <= freeCross -> Forall fits lines ->
  Forall fits (alignContent ac freeCross lines).2.
Proof.
  intros Hfree Hall. unfold alignContent.
  repeat (match goal with |- context [if ?b then _ else _] => destruct b eqn:? end;
          cbn [snd]; try done).
  apply Forall_fmap. eapply Forall_impl; [exact Hall|]. intros line Hline.
  unfold compose, fits in *. cbn [setLineCrossSize FlexLine.Items FlexLine.CrossSize].
  assert (Hextra : 0 <= freeCross / ofNat (length lines)).
  { apply Qle_shift_div_l; [apply ofNat_pos; by apply Nat.ltb_lt|]. lra. }
  eapply Forall_impl; [exact Hline|]. intros item Hitem. cbn beta in *. qred. lra.
Qed.

Lemma stackLines_fits (gap lineSpacing : Q) (lines : list Line) (crossPos : Q) :
  Forall fits lines -> Forall fits (stackLines gap lineSpacing lines crossPos).
Proof.
  revert crossPos. induction lines as [|line lines IH]; intros crossPos Hall; [done|].
  apply Forall_cons in Hall as [Hline Hall]. cbn [stackLines].
  constructor; [exact Hline|by apply IH].
Qed.

Lemma knownAlign_cases (align : string) :
  knownAlign align = true ->
  inList align ["flex-start"; "start"] = false ->
  inList align ["flex-end"; "end"] = false ->
  String.eqb align "center" = false ->
  inList align ["stretch"; ""; "baseline"] = true.
Proof.
  unfold knownAlign, inList. cbn [existsb]. intros Hk H1 H2 H3.
  repeat (apply orb_false_iff in H1 as [? H1]). repeat (apply orb_false_iff in H2 as [? H2]).
  repeat match goal with E : String.eqb align _ = false |- _ => rewrite E in Hk; clear E end.
  exact Hk.
Qed.

(** An item that fits its line, after [alignItem]. *)
Lemma alignItem_inside fc (line : Line) (item : Item) :
  FlexItem.FinalCrossSize item + FlexItem.MarginCrossStart item
  + FlexItem.MarginCrossEnd item <= FlexLine.CrossSize line ->
  knownAlign (effectiveAlign fc item) = true ->
  FlexLine.CrossStart line <= crossBegin (alignItem fc line item)
  /\ crossEnd (alignItem fc line item) <= FlexLine.CrossStart line + FlexLine.CrossSize line.
Proof.
  intros Hfit Hknown. unfold alignItem, crossBegin, crossEnd.
  destruct (inList _ ["flex-start"; "start"]) eqn:E1.
  { cbn [FlexItem.setCrossPos FlexItem.CrossPos FlexItem.FinalCrossSize
         FlexItem.MarginCrossStart FlexItem.MarginCrossEnd]. qred. lra. }
  destruct (inList _ ["flex-end"; "end"]) eqn:E2.
  { cbn [FlexItem.setCrossPos FlexItem.CrossPos FlexItem.FinalCrossSize
         FlexItem.MarginCrossStart FlexItem.MarginCrossEnd]. qred. lra. }
  destruct (String.eqb _ "center") eqn:E3.
  { cbn [FlexItem.setCrossPos FlexItem.CrossPos FlexItem.FinalCrossSize
         FlexItem.MarginCrossStart FlexItem.MarginCrossEnd]. qred.
    set (d := (FlexLine.CrossSize line - (FlexItem.FinalCrossSize item
               + FlexItem.MarginCrossStart item + FlexItem.MarginCrossEnd item)) / 2).
    assert (Hd : d * 2 == FlexLine.CrossSize line - (FlexItem.FinalCrossSize item
               + FlexItem.MarginCrossStart item + FlexItem.MarginCrossEnd item)).
    { unfold d. field. }
    clearbody d. lra. }
  rewrite (knownAlign_cases _ Hknown E1 E2 E3).
  cbn [FlexItem.setCrossPos FlexItem.CrossPos FlexItem.FinalCrossSize
       FlexItem.MarginCrossStart FlexItem.MarginCrossEnd]. qred. lra.
Qed.

Lemma alignItem_align fc (line : Line) (item : Item) :
  effectiveAlign fc (alignItem fc line item) = effectiveAlign fc item.
Proof.
  unfold alignItem.
  destruct (inList _ ["flex-start"; "start"]); [done|].
  destruct (inList _ ["flex-end"; "end"]); [done|].
  destruct (String.eqb _ "center"); [done|].
  by destruct (inList _ ["stretch"; ""; "baseline"]).
Qed.

(** X28.  After [determineCrossSizes] and [alignCrossAxis], an item whose
    alignment is one that the code knows lies inside its line on the
    cross axis, margins included. *)
Theorem items_inside_their_line fc (lines : list Line) (availableCross : Q)
    (i k : nat) (line : Line) (item : Item) :
  alignCrossAxis fc (determineCrossSizes fc lines) availableCross !! i = Some line ->
  FlexLine.Items line !! k = Some item ->
  knownAlign (effectiveAlign fc item) = true ->
  FlexLine.CrossStart line <= crossBegin item
  /\ crossEnd item <= FlexLine.CrossStart line + FlexLine.CrossSize line.
Proof.
  unfold alignCrossAxis. cbn zeta.
  match goal with
  | |- context [alignContent ?ac ?free ?ls] =>
      assert (Hfree : 0 <= free)
        by (qred; match goal with |- context [Qltb ?x 0] =>
                    destruct (Qltb_cases x 0) as [[-> ?]|[-> ?]]; lra end);
      pose proof (alignContent_fits ac free ls Hfree (determineCrossSizes_fits fc lines))
        as Hfits;
      destruct (alignContent ac free ls) as [[lineStart lineSpacing] lines']
  end.
  cbn [snd] in Hfits.
  apply (stackLines_fits (FlexContainer.Gap fc) lineSpacing lines' lineStart) in Hfits.
  rewrite list_lookup_fmap. intros Hline Hitem Hknown.
  destruct (stackLines _ _ _ _ !! i) as [line0|] eqn:Hline0; [|done].
  injection Hline as <-. cbn [setLineItems FlexLine.Items FlexLine.CrossStart FlexLine.CrossSize] in *.
  rewrite list_lookup_fmap in Hitem.
  destruct (FlexLine.Items line0 !! k) as [item0|] eqn:Hitem0; [|done].
  injection Hitem as <-.
  apply alignItem_inside.
  - rewrite Forall_forall in Hfits.
    specialize (Hfits line0 (list_elem_of_lookup_2 _ _ _ Hline0)).
    unfold fits in Hfits. rewrite Forall_forall in Hfits.
    apply Hfits. by eapply list_elem_of_lookup_2.
  - by rewrite alignItem_align in Hknown.
Qed.

(** The first item of [centeredRow]: its line is stretched to the
    height of 50, and the item, 25 high with its margins, is centered
    in it. *)
Lemma items_inside_their_line_witness :
  exists (line : Line) (item : Item),
    (FlexLine.CrossStart line <= crossBegin item
     /\ crossEnd item <= FlexLine.CrossStart line + FlexLine.CrossSize line)
    /\ FlexLine.CrossSize line == 50 /\ crossBegin item == 25 # 2 /\ crossEnd item == 75 # 2.
Proof.
  pose (fc := centeredRow).
  pose (lines := alignCrossAxis fc (determineCrossSizes fc (collectIntoLines fc 300 true)) 50).
  pose (line := default emptyLine (lines !! 0%nat)).
  pose (item := default (Scenarios.flexItem 0 0 0) (FlexLine.Items line !! 0%nat)).
  exists line, item.
  assert (Hline : alignCrossAxis fc (determineCrossSizes fc (collectIntoLines fc 300 true)) 50
                  !! 0%nat = Some line) by (vm_compute; reflexivity).
  assert (Hitem : FlexLine.Items line !! 0%nat = Some item) by (vm_compute; reflexivity).
  assert (Hknown : knownAlign (effectiveAlign fc item) = true) by (vm_compute; reflexivity).
  split; [|split; [|split]; by vm_compute].
  exact (items_inside_their_line fc (collectIntoLines fc 300 true) 50 0 0 line item
           Hline Hitem Hknown).
Defined.

End Exact.

End CrossProperties.

(** ** The cascade without entries *)

Module CascadeProperties.
Import Dom Css.

Section Cascade.
Context {F : Type} `{Float64 F} `{GoStrings}.
Variable ApplyProperty : ComputedStyle.t F -> string -> string -> ComputedStyle.t F.

Lemma fold_left_same {X Y : Type} (f : X -> Y -> X) (l : list Y) (a : X) :
  Forall (fun y => forall x, f x y = x) l -> fold_left f l a = a.
Proof.
  induction 1 as [|y l Hy _ IH]; [done|]. cbn. by rewrite Hy.
Qed.

(** X29.  For an element without a style attribute that no selector of
    the stylesheets matches, [ComputeStyles] returns the default style
    of the tag, whatever [ApplyProperty] does. *)
Theorem ComputeStyles_without_entries (h : Store (ComputedStyle.t F)) (id : nat)
    (n : Node (ComputedStyle.t F)) (stylesheets : list Stylesheet.t) :
  h !! id = Some n -> isElementNode n = true -> GetAttr n "style" = "" ->
  Forall (fun sheet =>
            Forall (fun rule =>
                      Forall (fun selector => Matches h selector (Some id) = false)
                             (Rule.Selectors rule))
                   (Stylesheet.Rules sheet)) stylesheets ->
  ComputeStyles ApplyProperty h (Some id) stylesheets = DefaultForTag (Tag n).
Proof.
  intros Hn Hel Hstyle Hnone. unfold ComputeStyles. rewrite Hn, Hel. cbn [negb].
  unfold cascade, collectInline. rewrite Hstyle. cbn [String.eqb negb].
  unfold collectSheets.
  rewrite (fold_left_same (collectSheet h (Some id)) stylesheets); [done|].
  eapply Forall_impl; [exact Hnone|]. intros sheet Hsheet acc. unfold collectSheet.
  apply fold_left_same. eapply Forall_impl; [exact Hsheet|]. intros rule Hrule acc'.
  unfold collectRule. apply fold_left_same.
  eapply Forall_impl; [exact Hrule|]. intros selector Hsel acc''.
  unfold collectSelector. by rewrite Hsel.
Qed.

End Cascade.

Section Scenario.
Local Existing Instance ascii_strings.
Local Existing Instance Q_float.

(** The paragraph of [Plain.page] under the rules of [Scenarios.sheet],
    which are for an element [div], an id and a class. *)
Lemma ComputeStyles_without_entries_witness :
  ComputeStyles Scenarios.ApplyProperty_text Plain.page (Some 1) [Scenarios.sheet]
  = DefaultForTag "p".
Proof.
  assert (Hn : Plain.page !! 1 = Some Plain.paragraph) by (vm_compute; reflexivity).
  assert (Hel : isElementNode Plain.paragraph = true) by (vm_compute; reflexivity).
  assert (Hstyle : GetAttr Plain.paragraph "style" = "") by (vm_compute; reflexivity).
  assert (Hnone : Forall (fun sheet =>
            Forall (fun rule =>
                      Forall (fun selector => Matches Plain.page selector (Some 1) = false)
                             (Rule.Selectors rule))
                   (Stylesheet.Rules sheet)) [Scenarios.sheet]).
  { repeat (constructor; [|try constructor]); repeat constructor; by vm_compute. }
  exact (ComputeStyles_without_entries Scenarios.ApplyProperty_text Plain.page 1
           Plain.paragraph [Scenarios.sheet] Hn Hel Hstyle Hnone).
Defined.

End Scenario.

End CascadeProperties.
